(** * QuadMeshCNN: mesh construction and edge pooling

    A shallow embedding of [models/layers/img2mesh_prepare.py] (the
    adjacency builder [build_gemm]) and of [models/layers/mesh_pool.py]
    (class [MeshPool]), with the properties of the design document stated
    and proved over it.

    Python integers are [Z].  Python lists and numpy arrays are Rocq lists
    read and written through [getitem] / [setitem], which implement
    Python's index rule: a negative index counts from the end, an index out
    of range raises [IndexError].  Code that can raise returns a [result];
    [Unfinished] is not a Python outcome: a [while] loop whose number of
    iterations is not bounded by its inputs gets a fuel argument, and
    [Unfinished] says the fuel ran out.

    Feature values, squared magnitudes and the edge ids of the priority
    queue are IEEE 754 binary32 numbers ([torch.float32]), given by the
    Standard Library's [spec_float] with 24 digits of precision. *)

From Stdlib Require Import ZArith List Lia Bool Permutation.
From Stdlib Require Import SpecFloat.
From stdpp Require Import base list gmap sorting.

Local Open Scope Z_scope.

(** ** Python runtime model *)

Inductive exn : Type :=
| IndexError
| KeyError
| ValueError
| AssertionError
| RuntimeError
| OverflowError.

Inductive result (A : Type) : Type :=
| Ok (a : A)
| Raise (e : exn)
| Unfinished.

Arguments Ok {A} a.
Arguments Raise {A} e.
Arguments Unfinished {A}.

Definition rbind {A B : Type} (r : result A) (k : A -> result B) : result B :=
  match r with
  | Ok a => k a
  | Raise e => Raise e
  | Unfinished => Unfinished
  end.

#[global] Instance result_ret : MRet result := fun A a => Ok a.
#[global] Instance result_bind : MBind result := fun A B k r => rbind r k.

(** [py_index n i]: the position denoted by index [i] in a sequence of
    length [n], if any. *)
Definition py_index (n : nat) (i : Z) : option nat :=
  if (0 <=? i) && (i <? Z.of_nat n) then Some (Z.to_nat i)
  else if (- Z.of_nat n <=? i) && (i <? 0) then Some (Z.to_nat (i + Z.of_nat n))
  else None.

(** [l[i]] *)
Definition getitem {A : Type} (l : list A) (i : Z) : result A :=
  match py_index (length l) i with
  | Some k => match l !! k with
              | Some x => Ok x
              | None => Raise IndexError
              end
  | None => Raise IndexError
  end.

(** [l[i] = x] *)
Definition setitem {A : Type} (l : list A) (i : Z) (x : A) : result (list A) :=
  match py_index (length l) i with
  | Some k => Ok (<[k := x]> l)
  | None => Raise IndexError
  end.

(** [a[i, j]] on a two-dimensional array. *)
Definition getitem2 {A : Type} (a : list (list A)) (i j : Z) : result A :=
  row ← getitem a i; getitem row j.

(** [a[i][j] = x] (also [a[i, j] = x]). *)
Definition setitem2 {A : Type} (a : list (list A)) (i j : Z) (x : A)
  : result (list (list A)) :=
  row ← getitem a i;
  row' ← setitem row j x;
  setitem a i row'.

(** [x in l] for integers. *)
Definition py_in (x : Z) (l : list Z) : bool := existsb (Z.eqb x) l.

(** [for x in xs: s = body(s, x)], stopping at the first exception. *)
Fixpoint for_each {A S : Type} (xs : list A) (body : S -> A -> result S) (s : S)
  : result S :=
  match xs with
  | [] => Ok s
  | x :: xs' => s' ← body s x; for_each xs' body s'
  end.

(** [range(n)] *)
Definition range (n : nat) : list Z := map Z.of_nat (seq 0 n).

(** ** Floating-point numbers

    [float32] values are the [spec_float]s of precision 24 and maximal
    exponent 128.  Python floats are binary64; every float32 is one of
    them, and on those values the comparisons [==] and [<] of the two
    formats agree. *)

Definition float32 : Type := spec_float.

#[global] Instance float32_inhabited : Inhabited float32 :=
  populate (S754_zero false).

(** [x * y] on [torch.float32] tensors, entry by entry. *)
Definition f32_mul (x y : float32) : float32 := SFmul 24 128 x y.

(** [x + y] on [torch.float32]. *)
Definition f32_add (x y : float32) : float32 := SFadd 24 128 x y.

(** The entry [i] of [torch.arange(n, dtype=torch.float32)]: the float32
    nearest to the integer [i]. *)
Definition f32_of_index (i : Z) : float32 := binary_normalize 24 128 i 0 false.

(** [int(x)] on a Python float: truncation towards zero; [OverflowError]
    on an infinity and [ValueError] on a NaN. *)
Definition int_of_float (x : float32) : result Z :=
  match x with
  | S754_zero _ => Ok 0
  | S754_finite s m e =>
      let a := if 0 <=? e then Z.pos m * 2 ^ e else Z.pos m / 2 ^ (- e) in
      Ok (if s then - a else a)
  | S754_infinity _ => Raise OverflowError
  | S754_nan => Raise ValueError
  end.

(** ** [MeshPool.__get_shared_items] *)

(** The two nested [for] loops over [range(len(list_a))] and
    [range(len(list_b))]; [shared_items.extend([i, j])] appends at the end. *)
Definition shared_inner (a : Z) (i : Z) (list_b : list Z) (acc : list Z)
  : list Z :=
  fold_left
    (fun acc j => if Z.eqb a (nth (Z.to_nat j) list_b 0) then acc ++ [i; j] else acc)
    (range (length list_b)) acc.

Definition get_shared_items (list_a list_b : list Z) : list Z :=
  fold_left
    (fun acc i => shared_inner (nth (Z.to_nat i) list_a 0) i list_b acc)
    (range (length list_a)) [].

(** The index pairs [(i, j)] with [list_a[i] == list_b[j]]. *)
Definition matching_pairs (list_a list_b : list Z) : list (Z * Z) :=
  filter (fun p => nth (Z.to_nat p.1) list_a 0 = nth (Z.to_nat p.2) list_b 0)
    (i ← range (length list_a); j ← range (length list_b); [(i, j)]).

(** [for x in xs: ...] over a body that only reads: the list of results. *)
Fixpoint map_result {A B : Type} (f : A -> result B) (xs : list A)
  : result (list B) :=
  match xs with
  | [] => Ok []
  | x :: xs' => y ← f x; ys ← map_result f xs'; Ok (y :: ys)
  end.

(** ** The mesh

    The fields of [Mesh] that the pooling layer reads and writes.
    [edges] is the [E x 2] vertex array, [gemm_edges] and [sides] are the
    [E x 6] arrays, [ve] is the list of incident-edge lists, one per
    vertex.  Vertex coordinates, areas and features play no part in the
    topology and are left out. *)

Record Mesh : Type := mkMesh {
  edges : list (Z * Z);
  gemm_edges : list (list Z);
  sides : list (list Z);
  ve : list (list Z);
  edges_count : Z
}.

Definition set_edges (m : Mesh) (x : list (Z * Z)) : Mesh :=
  mkMesh x (gemm_edges m) (sides m) (ve m) (edges_count m).
Definition set_gemm_edges (m : Mesh) (x : list (list Z)) : Mesh :=
  mkMesh (edges m) x (sides m) (ve m) (edges_count m).
Definition set_sides (m : Mesh) (x : list (list Z)) : Mesh :=
  mkMesh (edges m) (gemm_edges m) x (ve m) (edges_count m).
Definition set_ve (m : Mesh) (x : list (list Z)) : Mesh :=
  mkMesh (edges m) (gemm_edges m) (sides m) x (edges_count m).
Definition set_edges_count (m : Mesh) (x : Z) : Mesh :=
  mkMesh (edges m) (gemm_edges m) (sides m) (ve m) x.

(** The two entries of a row of [edges]. *)
Definition edge_vertices (p : Z * Z) : list Z := [p.1; p.2].

(** ** [img2mesh_prepare.build_gemm]

    [n_vs] is [len(mesh.vs)]; [faces] is the [N x 4] integer array of
    vertex ids.  The running sums of [mesh.edge_areas] are floating-point
    bookkeeping that no index depends on; they are left out. *)

Definition Face : Type := Z * Z * Z * Z.

Record GemmState : Type := mkGemmState {
  bg_ve : list (list Z);
  bg_edge_nb : list (list Z);
  bg_sides : list (list Z);
  bg_edge2key : gmap (Z * Z) Z;
  bg_edges : list (Z * Z);
  bg_edges_count : Z;
  bg_nb_count : list Z
}.

(** [tuple(sorted(list(edge)))] *)
Definition sorted_edge (edge : Z * Z) : Z * Z :=
  if edge.1 <=? edge.2 then edge else (edge.2, edge.1).

(** [faces_edges] once every entry has been replaced by its sorted
    tuple. *)
Definition faces_edges_of (face : Face) : list (Z * Z) :=
  let '(f0, f1, f2, f3) := face in
  map sorted_edge [(f0, f1); (f1, f2); (f2, f3); (f3, f0)].

(** [edge2key[edge]] *)
Definition key_get (edge2key : gmap (Z * Z) Z) (edge : Z * Z) : result Z :=
  match edge2key !! edge with
  | Some k => Ok k
  | None => Raise KeyError
  end.

(** [mesh.ve[v].append(k)] *)
Definition ve_append (ve_arr : list (list Z)) (v k : Z)
  : result (list (list Z)) :=
  l ← getitem ve_arr v;
  setitem ve_arr v (l ++ [k]).

Definition empty_row : list Z := [-1; -1; -1; -1; -1; -1].

(** First loop over [faces_edges]: [if edge not in edge2key: ...]. *)
Definition register_edge (s : GemmState) (edge : Z * Z) : result GemmState :=
  match bg_edge2key s !! edge with
  | Some _ => Ok s
  | None =>
      let edges_count := bg_edges_count s in
      ve1 ← ve_append (bg_ve s) edge.1 edges_count;
      ve2 ← ve_append ve1 edge.2 edges_count;
      Ok (mkGemmState ve2
            (bg_edge_nb s ++ [empty_row])
            (bg_sides s ++ [empty_row])
            (<[edge := edges_count]> (bg_edge2key s))
            (bg_edges s ++ [edge])
            (edges_count + 1)
            (bg_nb_count s ++ [0]))
  end.

(** [edge2key[faces_edges[i % 4]]] *)
Definition face_key (s : GemmState) (faces_edges : list (Z * Z)) (i : Z)
  : result Z :=
  edge ← getitem faces_edges (i mod 4);
  key_get (bg_edge2key s) edge.

(** Second loop: the three neighbours of [faces_edges[idx]] in this
    face. *)
Definition fill_neighbors (faces_edges : list (Z * Z)) (s : GemmState)
    (idx : Z) : result GemmState :=
  edge_key ← face_key s faces_edges idx;
  k1 ← face_key s faces_edges (idx + 1);
  c1 ← getitem (bg_nb_count s) edge_key;
  nb1 ← setitem2 (bg_edge_nb s) edge_key c1 k1;
  k2 ← face_key s faces_edges (idx + 2);
  nb2 ← setitem2 nb1 edge_key (c1 + 1) k2;
  k3 ← face_key s faces_edges (idx + 3);
  nb3 ← setitem2 nb2 edge_key (c1 + 2) k3;
  cnt ← setitem (bg_nb_count s) edge_key (c1 + 3);
  Ok (mkGemmState (bg_ve s) nb3 (bg_sides s) (bg_edge2key s) (bg_edges s)
        (bg_edges_count s) cnt).

(** Third loop: where [faces_edges[idx]] sits in the rows of its three
    neighbours. *)
Definition fill_sides (faces_edges : list (Z * Z)) (s : GemmState)
    (idx : Z) : result GemmState :=
  edge_key ← face_key s faces_edges idx;
  c ← getitem (bg_nb_count s) edge_key;
  k1 ← face_key s faces_edges (idx + 1);
  c1 ← getitem (bg_nb_count s) k1;
  sd1 ← setitem2 (bg_sides s) edge_key (c - 3) (c1 - 1);
  k2 ← face_key s faces_edges (idx + 2);
  c2 ← getitem (bg_nb_count s) k2;
  sd2 ← setitem2 sd1 edge_key (c - 2) (c2 - 2);
  k3 ← face_key s faces_edges (idx + 3);
  c3 ← getitem (bg_nb_count s) k3;
  sd3 ← setitem2 sd2 edge_key (c - 1) (c3 - 3);
  Ok (mkGemmState (bg_ve s) (bg_edge_nb s) sd3 (bg_edge2key s) (bg_edges s)
        (bg_edges_count s) (bg_nb_count s)).

(** Body of [for face_id, face in enumerate(faces)]. *)
Definition process_face (s : GemmState) (face : Face) : result GemmState :=
  let faces_edges := faces_edges_of face in
  s1 ← for_each faces_edges register_edge s;
  s2 ← for_each (range 4) (fill_neighbors faces_edges) s1;
  for_each (range 4) (fill_sides faces_edges) s2.

Definition gemm_init (n_vs : nat) : GemmState :=
  mkGemmState (replicate n_vs []) [] [] ∅ [] 0 [].

Definition build_gemm_state (n_vs : nat) (faces : list Face)
  : result GemmState :=
  for_each faces process_face (gemm_init n_vs).

Definition build_gemm (n_vs : nat) (faces : list Face) : result Mesh :=
  s ← build_gemm_state n_vs faces;
  Ok (mkMesh (bg_edges s) (bg_edge_nb s) (bg_sides s) (bg_ve s)
        (bg_edges_count s)).

(** ** [MeshPool.has_boundaries] *)

(** The [for edge in mesh.gemm_edges[edge_id]] loop with its early
    [return True]. *)
Fixpoint has_boundaries_loop (gemm : list (list Z)) (row : list Z)
  : result bool :=
  match row with
  | [] => Ok false
  | edge :: rest =>
      if edge =? -1 then Ok true
      else
        nrow ← getitem gemm edge;
        if py_in (-1) nrow then Ok true else has_boundaries_loop gemm rest
  end.

Definition has_boundaries (mesh : Mesh) (edge_id : Z) : result bool :=
  row ← getitem (gemm_edges mesh) edge_id;
  has_boundaries_loop (gemm_edges mesh) row.

(** ** [MeshPool.__get_face_info] *)

Record FaceInfo : Type := mkFaceInfo {
  key_a : Z; key_b : Z; key_c : Z;
  side_a : Z; side_b : Z; side_c : Z;
  other_side_a : Z; other_side_b : Z; other_side_c : Z;
  other_keys_a : list Z; other_keys_b : list Z; other_keys_c : list Z
}.

(** [(s - (s % 3) + 3) % 6]; Python's [%] takes the sign of the divisor,
    as [Z.modulo] does. *)
Definition other_side (s : Z) : Z := (s - s mod 3 + 3) mod 6.

Definition other_keys (mesh : Mesh) (key oside : Z) : result (list Z) :=
  k0 ← getitem2 (gemm_edges mesh) key oside;
  k1 ← getitem2 (gemm_edges mesh) key (oside + 1);
  k2 ← getitem2 (gemm_edges mesh) key (oside + 2);
  Ok [k0; k1; k2].

Definition get_face_info (mesh : Mesh) (edge_id side : Z) : result FaceInfo :=
  ka ← getitem2 (gemm_edges mesh) edge_id side;
  kb ← getitem2 (gemm_edges mesh) edge_id (side + 1);
  kc ← getitem2 (gemm_edges mesh) edge_id (side + 2);
  sa ← getitem2 (sides mesh) edge_id side;
  sb ← getitem2 (sides mesh) edge_id (side + 1);
  sc ← getitem2 (sides mesh) edge_id (side + 2);
  let osa := other_side sa in
  let osb := other_side sb in
  let osc := other_side sc in
  oka ← other_keys mesh ka osa;
  okb ← other_keys mesh kb osb;
  okc ← other_keys mesh kc osc;
  Ok (mkFaceInfo ka kb kc sa sb sc osa osb osc oka okb okc).

(** ** [MeshPool.__clean_side]

    [out_target] is the field [self.__out_target].  The [assert (False)]
    raises [AssertionError]; the [return False] after it is never
    reached. *)
Definition len {A : Type} (l : list A) : Z := Z.of_nat (length l).

Definition clean_side (out_target : Z) (mesh : Mesh) (edge_id side : Z)
  : result bool :=
  if edges_count mesh <=? out_target then Ok false
  else
    info ← get_face_info mesh edge_id side;
    let shared_items_ab :=
      get_shared_items (other_keys_a info) (other_keys_b info) in
    let shared_items_ac :=
      get_shared_items (other_keys_a info) (other_keys_c info) in
    let shared_items_bc :=
      get_shared_items (other_keys_b info) (other_keys_c info) in
    if (len shared_items_ab <=? 2) && (len shared_items_ac <=? 2)
       && (len shared_items_bc <=? 2)
    then Ok true
    else Raise AssertionError.

(** ** [MeshPool.__get_v_n] and [MeshPool.__is_one_ring_valid] *)

(** [set(mesh.edges[es].reshape(-1))] for a list [es] of edge ids. *)
Definition vertex_set (mesh : Mesh) (es : list Z) : result (gset Z) :=
  rows ← map_result (getitem (edges mesh)) es;
  Ok (list_to_set (rows ≫= edge_vertices)).

(** [mesh.edges[edge_id, 0]] and [mesh.edges[edge_id, 1]] *)
Definition edge_end (mesh : Mesh) (edge_id : Z) (i : Z) : result Z :=
  p ← getitem (edges mesh) edge_id;
  getitem (edge_vertices p) i.

Definition get_v_n (mesh : Mesh) (edge_id : Z) : result (gset Z * gset Z) :=
  a ← edge_end mesh edge_id 0;
  e_a ← getitem (ve mesh) a;
  s_a ← vertex_set mesh e_a;
  b ← edge_end mesh edge_id 1;
  e_b ← getitem (ve mesh) b;
  s_b ← vertex_set mesh e_b;
  Ok (s_a, s_b).

(** One of the two [for e in e_a: if not e == edge_id: ...] loops. *)
Definition gather_ring (mesh : Mesh) (edge_id : Z) (es : list Z)
  : result (gset Z) :=
  for_each es
    (fun v_a e =>
       if negb (e =? edge_id) then
         '(v_aa, v_ab) ← get_v_n mesh e;
         Ok ((v_aa ∪ v_ab) ∪ v_a)
       else Ok v_a)
    ∅.

(** [shared = v_a & v_b - set(mesh.edges[edge_id])]: in Python [-] binds
    tighter than [&]. *)
Definition is_one_ring_valid (mesh : Mesh) (edge_id : Z) : result bool :=
  a ← edge_end mesh edge_id 0;
  e_a ← getitem (ve mesh) a;
  b ← edge_end mesh edge_id 1;
  e_b ← getitem (ve mesh) b;
  v_a ← gather_ring mesh edge_id e_a;
  v_b ← gather_ring mesh edge_id e_b;
  p ← getitem (edges mesh) edge_id;
  let shared : gset Z := v_a ∩ (v_b ∖ list_to_set (edge_vertices p)) in
  Ok (bool_decide (size shared = 4%nat)).

(** ** Insertion-ordered dictionaries with integer keys

    Python's [dict] keeps insertion order; the loops of
    [collapse_other_vertex_v] iterate over keys in that order. *)

Definition odict (V : Type) : Type := list (Z * V).

Definition dict_keys {V : Type} (d : odict V) : list Z := map fst d.

Fixpoint dict_find {V : Type} (d : odict V) (k : Z) : option V :=
  match d with
  | [] => None
  | (k', v) :: d' => if k' =? k then Some v else dict_find d' k
  end.

(** [d[k]] *)
Definition dict_get {V : Type} (d : odict V) (k : Z) : result V :=
  match dict_find d k with
  | Some v => Ok v
  | None => Raise KeyError
  end.

(** [k in d.keys()] *)
Definition dict_mem {V : Type} (d : odict V) (k : Z) : bool :=
  match dict_find d k with
  | Some _ => true
  | None => false
  end.

(** [d[k] = v] *)
Fixpoint dict_set {V : Type} (d : odict V) (k : Z) (v : V) : odict V :=
  match d with
  | [] => [(k, v)]
  | (k', v') :: d' =>
      if k' =? k then (k', v) :: d' else (k', v') :: dict_set d' k v
  end.

(** [d[k].append(x)] for a key that is present. *)
Fixpoint dict_append (d : odict (list Z)) (k : Z) (x : Z) : odict (list Z) :=
  match d with
  | [] => []
  | (k', v') :: d' =>
      if k' =? k then (k', v' ++ [x]) :: d' else (k', v') :: dict_append d' k x
  end.

(** [l.remove(x)]: drops the first occurrence, [ValueError] when there is
    none. *)
Fixpoint list_remove (x : Z) (l : list Z) : result (list Z) :=
  match l with
  | [] => Raise ValueError
  | y :: l' => if y =? x then Ok l' else r ← list_remove x l'; Ok (y :: r)
  end.

(** [np.where([h == x for h in row])[0][0]] when [np.any(...)] holds. *)
Fixpoint first_pos (x : Z) (row : list Z) : option Z :=
  match row with
  | [] => None
  | h :: row' => if h =? x then Some 0 else Z.succ <$> first_pos x row'
  end.

(** ** The pooling pass: state and collaborators *)

(** What a pooling pass mutates: the mesh, the liveness [mask] and the
    [MeshUnion] structure [edge_groups], whose representation [G] is left
    open. *)
Record PoolState (G : Type) : Type := mkPoolState {
  st_mesh : Mesh;
  st_mask : list bool;
  st_groups : G
}.

Arguments mkPoolState {G} _ _ _.
Arguments st_mesh {G} _.
Arguments st_mask {G} _.
Arguments st_groups {G} _.

(** The six values returned by [get_edge_hood_info]:
    [u, v_e_u, e_u, v, v_e_v, e_v]. *)
Record HoodInfo : Type := mkHoodInfo {
  hood_u : Z;
  hood_v_e_u : list (Z * Z);
  hood_e_u : list Z;
  hood_v : Z;
  hood_v_e_v : list (Z * Z);
  hood_e_v : list Z
}.

(** The functions [MeshPool] calls that are defined in [mesh.py],
    [mesh_union.py] and [mesh_rotation_utils.py].  A function that is
    handed the mesh, the mask or the union structure returns them beside
    its result, as it may have changed them; the lists and dictionaries
    of integers it is handed are taken to be read only.  The mesh that
    [edge_rotations] returns is taken to be the object it was passed.

    Two things of the run-time environment are left open as well.
    [torch_sum] is the reduction of [torch.sum] over one column of
    float32 products: the order in which the terms are added is the
    backend's.  [same_object a b] says whether two equal integers, met as
    a dictionary key and as a list element, are one Python object, which
    is what [is] tests. *)
Record MeshOps (G : Type) : Type := mkMeshOps {
  (* class Mesh *)
  mesh_remove_edge : Mesh -> Z -> result Mesh;
  mesh_remove_group : Mesh -> Z -> result Mesh;
  mesh_union_groups : Mesh -> Z -> Z -> result Mesh;
  mesh_merge_vertices : Mesh -> Z -> Z -> result Mesh;
  mesh_clean : Mesh -> list bool -> G -> result (Mesh * list bool * G);
  (* class MeshUnion *)
  groups_new : Z -> G;
  groups_union : G -> Z -> Z -> result G;
  groups_union_groups : G -> odict (list Z) -> result G;
  groups_remove_group : G -> Z -> result G;
  groups_rebuild_features :
    G -> list (list float32) -> list bool -> Z
    -> result (list (list float32));
  (* mesh_rotation_utils *)
  find_doublets :
    Mesh -> option (list Z) -> result (Mesh * list Z * list (list Z));
  clear_doublet_pair :
    Mesh -> list bool -> list Z -> result (Mesh * list bool * odict Z * odict Z);
  get_edge_hood_info : Mesh -> Z -> result (Mesh * HoodInfo);
  check_u_v_boundaries : Mesh -> HoodInfo -> result (Mesh * bool * HoodInfo);
  edge_rotations :
    Z -> list Z -> list (Z * Z) -> Mesh
    -> result (Mesh * odict (list Z) * option (list Z));
  fix_mesh_hood_order : Mesh -> list Z -> result Mesh;
  fix_mesh_sides : Mesh -> list Z -> result Mesh;
  (* torch and the interpreter *)
  torch_sum : list float32 -> float32;
  same_object : Z -> Z -> bool
}.

Arguments mesh_remove_edge {G} _ _ _.
Arguments mesh_remove_group {G} _ _ _.
Arguments mesh_union_groups {G} _ _ _ _.
Arguments mesh_merge_vertices {G} _ _ _ _.
Arguments mesh_clean {G} _ _ _ _.
Arguments groups_new {G} _ _.
Arguments groups_union {G} _ _ _ _.
Arguments groups_union_groups {G} _ _ _.
Arguments groups_remove_group {G} _ _ _.
Arguments groups_rebuild_features {G} _ _ _ _ _.
Arguments find_doublets {G} _ _ _.
Arguments clear_doublet_pair {G} _ _ _ _.
Arguments get_edge_hood_info {G} _ _ _.
Arguments check_u_v_boundaries {G} _ _ _.
Arguments edge_rotations {G} _ _ _ _ _.
Arguments fix_mesh_hood_order {G} _ _ _.
Arguments fix_mesh_sides {G} _ _ _.
Arguments torch_sum {G} _ _.
Arguments same_object {G} _ _ _.

(** ** [heapq]

    The priority queue is a Python list handled with the standard
    library's [heapify] and [heappop].  They are given as [heapq.py] has
    them: [_siftup] moves the smaller child up until the hole reaches a
    leaf and then calls [_siftdown], which moves the new item up past
    every parent it is smaller than.  The only comparison made is [<] on
    the items.  Positions are natural numbers; each loop runs for at most
    as many rounds as the list is long. *)

Section Heapq.

Context {A : Type} `{!Inhabited A} (lt : A -> A -> bool).

(** The [while childpos < endpos] loop of [_siftup]; returns the list and
    the position of the hole. *)
Fixpoint siftup_loop (rounds : nat) (heap : list A) (pos : nat)
  : list A * nat :=
  match rounds with
  | O => (heap, pos)
  | S rounds' =>
      let childpos := (2 * pos + 1)%nat in
      if (childpos <? length heap)%nat then
        let rightpos := (childpos + 1)%nat in
        let childpos :=
          if (rightpos <? length heap)%nat
             && negb (lt (heap !!! childpos) (heap !!! rightpos))
          then rightpos else childpos in
        siftup_loop rounds' (<[pos := heap !!! childpos]> heap) childpos
      else (heap, pos)
  end.

(** The [while pos > startpos] loop of [_siftdown]. *)
Fixpoint siftdown_loop (rounds : nat) (heap : list A) (startpos pos : nat)
    (newitem : A) : list A * nat :=
  match rounds with
  | O => (heap, pos)
  | S rounds' =>
      if (startpos <? pos)%nat then
        let parentpos := ((pos - 1) / 2)%nat in
        let parent := heap !!! parentpos in
        if lt newitem parent
        then siftdown_loop rounds' (<[pos := parent]> heap) startpos
               parentpos newitem
        else (heap, pos)
      else (heap, pos)
  end.

Definition siftdown (heap : list A) (startpos pos : nat) : list A :=
  let newitem := heap !!! pos in
  let '(heap', pos') :=
    siftdown_loop (length heap) heap startpos pos newitem in
  <[pos' := newitem]> heap'.

Definition siftup (heap : list A) (pos : nat) : list A :=
  let newitem := heap !!! pos in
  let '(heap', pos') := siftup_loop (length heap) heap pos in
  siftdown (<[pos' := newitem]> heap') pos pos'.

(** [for i in reversed(range(n // 2)): _siftup(x, i)] *)
Definition heapify (x : list A) : list A :=
  foldl siftup x (reverse (seq 0 (length x / 2)%nat)).

(** [lastelt = heap.pop()] raises [IndexError] on an empty list; on a
    list that is not empty afterwards the last item replaces the root and
    is sifted into place. *)
Definition heappop (heap : list A) : result (A * list A) :=
  match last heap with
  | None => Raise IndexError
  | Some lastelt =>
      match take (length heap - 1)%nat heap with
      | [] => Ok (lastelt, [])
      | returnitem :: rest =>
          Ok (returnitem, siftup (lastelt :: rest) 0%nat)
      end
  end.

End Heapq.

(** The items of the queue are the two-element lists
    [[squared magnitude, edge id]] of Python floats.  [a < b] on lists
    looks for the first position at which the items are not [==] and
    compares them there with [<]; two lists of the same length without
    such a position are not [<]. *)
Definition entry : Type := float32 * float32.

Definition entry_lt (a b : entry) : bool :=
  if negb (SFeqb a.1 b.1) then SFltb a.1 b.1
  else if negb (SFeqb a.2 b.2) then SFltb a.2 b.2
  else false.

(** ** [MeshPool.__build_queue]

    [features] is the slice [fe[mesh_index, :, :edges_count]], given as
    the list of its columns, one feature vector per edge. *)

(** [torch.sum(features * features, 0)] *)
Definition squared_magnitude (tsum : list float32 -> float32)
    (features : list (list float32)) : list float32 :=
  map (fun column => tsum (map (fun x => f32_mul x x) column)) features.

(** [l[:n]] *)
Definition slice_to {A : Type} (l : list A) (n : Z) : list A :=
  if 0 <=? n then take (Z.to_nat n) l
  else take (Z.to_nat (len l + n)) l.

(** [torch.arange] rejects a negative count.  A single column keeps
    [squared_magnitude] one-dimensional ([shape[-1] == 1], no
    [unsqueeze]), and [torch.cat] rejects tensors of different ranks; it
    also rejects a number of columns different from [edges_count]. *)
Definition build_queue (tsum : list float32 -> float32)
    (features : list (list float32)) (edges_count : Z)
  : result (list entry) :=
  let sq := squared_magnitude tsum features in
  if edges_count <? 0 then Raise RuntimeError
  else if len sq =? 1 then Raise RuntimeError
  else if negb (len sq =? edges_count) then Raise RuntimeError
  else Ok (heapify entry_lt
             (zip sq (map f32_of_index (range (Z.to_nat edges_count))))).

(** ** Class [MeshPool] *)

Section MeshPool.

Context {G : Type}.
Context (ops : MeshOps G).
(** [self.__out_target] *)
Context (out_target : Z).

Definition with_mesh (st : PoolState G) (m : Mesh) : PoolState G :=
  mkPoolState m (st_mask st) (st_groups st).

(** [MeshPool.__remove_group] *)
Definition remove_group_ (st : PoolState G) (index : Z)
  : result (PoolState G) :=
  g ← groups_remove_group ops (st_groups st) index;
  m ← mesh_remove_group ops (st_mesh st) index;
  Ok (mkPoolState m (st_mask st) g).

(** [MeshPool.__union_groups] *)
Definition union_groups_ (st : PoolState G) (source target : Z)
  : result (PoolState G) :=
  g ← groups_union ops (st_groups st) source target;
  m ← mesh_union_groups ops (st_mesh st) source target;
  Ok (mkPoolState m (st_mask st) g).

(** [MeshPool.__union_groups_at_once].  [target is not source] compares
    the two objects: it is False only for one and the same integer
    object, which two equal integers need not be ([same_object]). *)
Definition union_groups_at_once (st : PoolState G)
    (targets_to_sources_dict : odict (list Z)) : result (PoolState G) :=
  g ← groups_union_groups ops (st_groups st) targets_to_sources_dict;
  m ← for_each (dict_keys targets_to_sources_dict)
        (fun m target =>
           sources ← dict_get targets_to_sources_dict target;
           for_each sources
             (fun m source =>
                if negb ((target =? source) && same_object ops target source)
                then mesh_union_groups ops m source target
                else Ok m)
             m)
        (st_mesh st);
  Ok (mkPoolState m (st_mask st) g).

(** [MeshPool.remove_edge] *)
Definition remove_edge (st : PoolState G) (e : Z) : result (PoolState G) :=
  st1 ← remove_group_ st e;
  mask' ← setitem (st_mask st1) e false;
  m1 ← mesh_remove_edge ops (st_mesh st1) e;
  edges' ← setitem (edges m1) e (-1, -1);
  let m2 := set_edges m1 edges' in
  let m3 := set_edges_count m2 (edges_count m2 - 1) in
  gemm' ← setitem (gemm_edges m3) e [-1; -1; -1; -1; -1; -1];
  Ok (mkPoolState (set_gemm_edges m3 gemm') mask' (st_groups st1)).

(** [MeshPool.pool_doublets]; [vertices=None] scans the whole mesh. *)
Definition pool_doublets (st : PoolState G) (vertices : option (list Z))
  : result (bool * PoolState G) :=
  '(m0, doublet_vertices, doublet_pairs_edges) ←
     find_doublets ops (st_mesh st) vertices;
  let st := with_mesh st m0 in
  if len doublet_vertices =? 0 then Ok (false, st)
  else
    st' ← for_each doublet_pairs_edges
      (fun st pair =>
         '(m, mask', doubelt_to_replaced_edge,
           doubelt_to_replaced_edge_other_side) ←
            clear_doublet_pair ops (st_mesh st) (st_mask st) pair;
         let st0 := mkPoolState m mask' (st_groups st) in
         st1 ← for_each (dict_keys doubelt_to_replaced_edge)
                 (fun st key =>
                    target ← dict_get doubelt_to_replaced_edge key;
                    union_groups_ st key target)
                 st0;
         st2 ← for_each (dict_keys doubelt_to_replaced_edge_other_side)
                 (fun st key =>
                    target ← dict_get doubelt_to_replaced_edge_other_side key;
                    union_groups_ st key target)
                 st1;
         for_each pair remove_group_ st2)
      st;
    Ok (true, st').

(** [MeshPool.pool_mesh_operations]: [pool_doublets] is called until it
    reports that nothing was cleared. *)
Fixpoint pool_mesh_operations (fuel : nat) (st : PoolState G)
  : result (PoolState G) :=
  match fuel with
  | O => Unfinished
  | S fuel' =>
      '(doublet_cleared, st') ← pool_doublets st None;
      if (doublet_cleared : bool) then pool_mesh_operations fuel' st'
      else Ok st'
  end.

(** *** [MeshPool.collapse_other_vertex_v] *)

(** The variables of the first loop: the pass state,
    [new_features_combination_dict], [e_to_collapse],
    [collapsed_e_to_orig_e_dict] and [e_to_reconnect_with_u]. *)
Record Classified : Type := mkClassified {
  cl_st : PoolState G;
  cl_combination : odict (list Z);
  cl_to_collapse : list Z;
  cl_collapsed_to_orig : odict Z;
  cl_to_reconnect : list Z
}.

(** [for key in new_features_combination_dict.keys():
       if u_e in mesh.edges[key]: ...; break] *)
Fixpoint find_feature_key (edges_arr : list (Z * Z)) (u_e : Z) (keys : list Z)
  : result (option Z) :=
  match keys with
  | [] => Ok None
  | key :: keys' =>
      p ← getitem edges_arr key;
      if py_in u_e (edge_vertices p) then Ok (Some key)
      else find_feature_key edges_arr u_e keys'
  end.

(** Body of [for e in e_v]. *)
Definition classify_edge (u v : Z) (diag_vertices : list Z)
    (c : Classified) (e : Z) : result Classified :=
  let m := st_mesh (cl_st c) in
  p ← getitem (edges m) e;
  let '(u_e, v_e) := if p.1 =? v then (p.2, v) else (p.1, p.2) in
  if py_in u_e diag_vertices || py_in v_e diag_vertices then
    okey ← find_feature_key (edges m) u_e (dict_keys (cl_combination c));
    let '(combination, collapsed) :=
      match okey with
      | Some key => (dict_append (cl_combination c) key e,
                     dict_set (cl_collapsed_to_orig c) e key)
      | None => (cl_combination c, cl_collapsed_to_orig c)
      end in
    st' ← remove_edge (cl_st c) e;
    Ok (mkClassified st' combination (cl_to_collapse c ++ [e]) collapsed
          (cl_to_reconnect c))
  else
    ve_v ← getitem (ve m) v;
    ve_v' ← list_remove e ve_v;
    ve1 ← setitem (ve m) v ve_v';
    ve_u ← getitem ve1 u;
    ve2 ← setitem ve1 u (ve_u ++ [e]);
    q ← getitem (edges m) e;
    edges' ← (if q.1 =? v then setitem (edges m) e (u, q.2)
              else setitem (edges m) e (q.1, u));
    Ok (mkClassified (with_mesh (cl_st c) (set_edges (set_ve m ve2) edges'))
          (cl_combination c) (cl_to_collapse c) (cl_collapsed_to_orig c)
          (cl_to_reconnect c ++ [e])).

(** [for e_collapse in e_to_collapse: ...] on one row: [new_hood] is a
    view of [mesh.gemm_edges[edge]], so the write goes to the mesh. *)
Definition replace_collapsed (old_hood : list Z) (collapsed : odict Z)
    (e_to_collapse : list Z) (edge : Z) (gemm : list (list Z))
  : result (list (list Z)) :=
  for_each e_to_collapse
    (fun gemm e_collapse =>
       match first_pos e_collapse old_hood with
       | Some e_collapse_pos =>
           orig ← dict_get collapsed e_collapse;
           setitem2 gemm edge e_collapse_pos orig
       | None => Ok gemm
       end)
    gemm.

(** "fix hood for edges which re-connected to u"; the state is
    [mesh.gemm_edges] and [already_built_edges_hood]. *)
Definition fix_reconnected (old_gemm : list (list Z)) (collapsed : odict Z)
    (e_to_collapse e_to_reconnect_with_u : list Z) (gemm : list (list Z))
  : result (list (list Z) * list Z) :=
  for_each e_to_reconnect_with_u
    (fun acc e =>
       hood ← getitem old_gemm e;
       for_each (e :: hood)
         (fun '(gemm, already) edge =>
            if py_in edge already || py_in edge e_to_collapse
            then Ok (gemm, already)
            else
              old_hood ← getitem old_gemm edge;
              _ ← getitem gemm edge;
              gemm' ← replace_collapsed old_hood collapsed e_to_collapse
                        edge gemm;
              Ok (gemm', already ++ [edge]))
         acc)
    (gemm, []).

(** [row[start:start+3]] and [row[start:start+3] = src] on a row of the
    [E x 6] array. *)
Definition slice3 (row : list Z) (start : nat) : list Z :=
  take 3 (drop start row).
Definition slice3_assign (row : list Z) (start : nat) (src : list Z)
  : list Z :=
  take start row ++ src ++ drop (start + 3) row.

(** "now fix hood for the rotated edges" *)
Definition fix_rotated (old_gemm : list (list Z)) (collapsed : odict Z)
    (acc : list (list Z) * list Z) : result (list (list Z) * list Z) :=
  for_each (dict_keys collapsed)
    (fun '(gemm, already) key =>
       edge ← dict_get collapsed key;
       old_hood ← getitem old_gemm edge;
       new_hood ← getitem gemm edge;
       new_hood1 ←
         (if py_in key (slice3 old_hood 0) then
            key_row ← getitem old_gemm key;
            if negb (py_in edge (slice3 key_row 0))
            then Ok (slice3_assign new_hood 0 (slice3 key_row 0))
            else Ok (slice3_assign new_hood 0 (slice3 key_row 3))
          else if py_in key (slice3 old_hood 3) then
            key_row ← getitem old_gemm key;
            if negb (py_in edge (slice3 key_row 0))
            then Ok (slice3_assign new_hood 3 (slice3 key_row 0))
            else Ok (slice3_assign new_hood 3 (slice3 key_row 3))
          else Raise AssertionError);
       let new_hood2 :=
         map (fun e => default e (dict_find collapsed e)) new_hood1 in
       gemm' ← setitem gemm edge new_hood2;
       Ok (gemm', already ++ [edge]))
    acc.

(** Returns the state and [new_features_combination_dict], which the
    first loop extends in place. *)
Definition collapse_other_vertex_v (st : PoolState G) (u v : Z)
    (e_v diag_vertices : list Z)
    (new_features_combination_dict : odict (list Z))
  : result (PoolState G * odict (list Z)) :=
  '(cleared, st0) ← pool_doublets st (Some [v]);
  if (cleared : bool) then Ok (st0, new_features_combination_dict)
  else
    let old_mesh := st_mesh st0 in
    c ← for_each e_v (classify_edge u v diag_vertices)
          (mkClassified st0 new_features_combination_dict [] [] []);
    let m := st_mesh (cl_st c) in
    acc ← fix_reconnected (gemm_edges old_mesh) (cl_collapsed_to_orig c)
            (cl_to_collapse c) (cl_to_reconnect c) (gemm_edges m);
    '(gemm', already_built_edges_hood) ←
       fix_rotated (gemm_edges old_mesh) (cl_collapsed_to_orig c) acc;
    m1 ← fix_mesh_hood_order ops (set_gemm_edges m gemm')
           already_built_edges_hood;
    m2 ← fix_mesh_sides ops m1 already_built_edges_hood;
    m3 ← mesh_merge_vertices ops m2 u v;
    Ok (with_mesh (cl_st c) m3, cl_combination c).

(** *** [MeshPool.edge_collapse] *)
Definition edge_collapse (edge_id : Z) (st : PoolState G)
  : result (bool * PoolState G) :=
  '(m0, info) ← get_edge_hood_info ops (st_mesh st) edge_id;
  '(m1, correct_config, info') ← check_u_v_boundaries ops m0 info;
  if negb correct_config then Ok (false, with_mesh st m1)
  else
    '(m, new_features_combination_dict, diag) ←
       edge_rotations ops (hood_u info') (hood_e_u info') (hood_v_e_u info')
         m1;
    match diag with
    | None => Ok (false, with_mesh st m)
    | Some diag_vertices =>
        e_v ← getitem (ve m) (hood_v info');
        '(st1, combination) ←
           collapse_other_vertex_v (with_mesh st m) (hood_u info')
             (hood_v info') e_v diag_vertices new_features_combination_dict;
        st2 ← union_groups_at_once st1 combination;
        Ok (true, st2)
    end.

(** *** [MeshPool.__pool_edge] *)
Definition pool_edge (fuel : nat) (st : PoolState G) (edge_id : Z)
  : result (bool * PoolState G) :=
  st1 ← pool_mesh_operations fuel st;
  boundary ← has_boundaries (st_mesh st1) edge_id;
  if (boundary : bool) then Ok (false, st1)
  else
    clean0 ← clean_side out_target (st_mesh st1) edge_id 0;
    if negb clean0 then Ok (false, st1)
    else
      clean3 ← clean_side out_target (st_mesh st1) edge_id 3;
      if negb clean3 then Ok (false, st1)
      else
        valid ← is_one_ring_valid (st_mesh st1) edge_id;
        if negb valid then Ok (false, st1)
        else
          '(status, st2) ← edge_collapse edge_id st1;
          st3 ← pool_mesh_operations fuel st2;
          Ok (status, st3).

(** *** [MeshPool.__pool_main]

    The result of the [while] loop comes with the number of calls of
    [heappop] made, the one that raised included, and with the edge ids
    popped from the queue, in order.  Every iteration makes one call and
    nothing is pushed, so the loop is run for at most [S (length queue)]
    rounds ([iterations]); [fuel] is for the loops inside
    [__pool_edge]. *)
Definition PoolRun : Type := nat * list Z * result (PoolState G).

Definition run_heappops (r : PoolRun) : nat := r.1.1.
Definition run_popped (r : PoolRun) : list Z := r.1.2.
Definition run_result (r : PoolRun) : result (PoolState G) := r.2.

(** One more successful call of [heappop], which returned [edge_id]. *)
Definition popped_cons (edge_id : Z) (r : PoolRun) : PoolRun :=
  (S (run_heappops r), edge_id :: run_popped r, run_result r).

Fixpoint pool_while (fuel iterations : nat) (queue : list entry)
    (st : PoolState G) : PoolRun :=
  match iterations with
  | O => (0%nat, [], Unfinished)
  | S iterations' =>
      if out_target <? edges_count (st_mesh st) then
        match heappop entry_lt queue with
        | Ok ((value, edge_id), queue') =>
            match int_of_float edge_id with
            | Ok edge_id =>
                match getitem (st_mask st) edge_id with
                | Ok true =>
                    match pool_edge fuel st edge_id with
                    | Ok (status, st') =>
                        popped_cons edge_id
                          (pool_while fuel iterations' queue' st')
                    | Raise e => (1%nat, [edge_id], Raise e)
                    | Unfinished => (1%nat, [edge_id], Unfinished)
                    end
                | Ok false =>
                    popped_cons edge_id
                      (pool_while fuel iterations' queue' st)
                | Raise e => (1%nat, [edge_id], Raise e)
                | Unfinished => (1%nat, [edge_id], Unfinished)
                end
            | Raise e => (1%nat, [], Raise e)
            | Unfinished => (1%nat, [], Unfinished)
            end
        | Raise e => (1%nat, [], Raise e)
        | Unfinished => (1%nat, [], Unfinished)
        end
      else (0%nat, [], Ok st)
  end.

(** [fe] is [self.__fe[mesh_index]] as a list of columns.  Returns the
    number of [heappop] calls, the popped edge ids and, when the pass
    completes, the cleaned mesh and the rebuilt features stored in
    [self.__updated_fe[mesh_index]]. *)
Definition pool_main (fuel : nat) (fe : list (list float32)) (mesh : Mesh)
  : nat * list Z * result (Mesh * list (list float32)) :=
  match build_queue (torch_sum ops) (slice_to fe (edges_count mesh))
          (edges_count mesh) with
  | Ok queue =>
      let mask := replicate (Z.to_nat (edges_count mesh)) true in
      let edge_groups := groups_new ops (edges_count mesh) in
      let run :=
        pool_while fuel (S (length queue)) queue
          (mkPoolState mesh mask edge_groups) in
      (run_heappops run, run_popped run,
       st ← run_result run;
       '(m, mask', groups') ←
          mesh_clean ops (st_mesh st) (st_mask st) (st_groups st);
       fe' ← groups_rebuild_features ops groups' fe mask' out_target;
       Ok (m, fe'))
  | Raise e => (0%nat, [], Raise e)
  | Unfinished => (0%nat, [], Unfinished)
  end.

End MeshPool.

(** * Specification-side definitions *)

(** ** Well-formed adjacency arrays *)

(** [gemm_edges] is an [E x 6] array whose entries are edge ids or -1. *)
Definition wf_gemm (mesh : Mesh) : Prop :=
  Forall (fun row => length row = 6%nat /\
                     Forall (fun n => -1 <= n < len (gemm_edges mesh)) row)
         (gemm_edges mesh).

(** The one-ring of [edge_id] is incomplete: a slot of its row is -1, or a
    slot of the row of one of its neighbours is. *)
Definition boundary_spec (mesh : Mesh) (edge_id : Z) : Prop :=
  exists row, getitem (gemm_edges mesh) edge_id = Ok row /\
    (-1 ∈ row \/
     exists n nrow,
       n ∈ row /\ getitem (gemm_edges mesh) n = Ok nrow /\ -1 ∈ nrow).

(** ** The back-pointer invariant

    [gemm_edges[gemm_edges[e][k]][sides[e][k]] == e], read with Python's
    indexing. *)
Definition back_pointer_at (gemm sds : list (list Z)) (e k : Z) : Prop :=
  forall n, getitem2 gemm e k = Ok n -> n <> -1 ->
    exists s, getitem2 sds e k = Ok s /\ getitem2 gemm n s = Ok e.

Definition back_pointer_invariant (mesh : Mesh) : Prop :=
  forall e k, 0 <= e < len (gemm_edges mesh) -> 0 <= k < 6 ->
    back_pointer_at (gemm_edges mesh) (sides mesh) e k.

(** The same test as a program, for running on examples. *)
Definition back_pointer_atb (gemm sds : list (list Z)) (e k : Z) : bool :=
  match getitem2 gemm e k with
  | Ok n =>
      if n =? -1 then true
      else
        match getitem2 sds e k with
        | Ok s =>
            match getitem2 gemm n s with
            | Ok e' => e' =? e
            | _ => false
            end
        | _ => false
        end
  | _ => true
  end.

Definition back_pointer_check (mesh : Mesh) : bool :=
  forallb
    (fun e => forallb (back_pointer_atb (gemm_edges mesh) (sides mesh) e)
                (range 6))
    (range (length (gemm_edges mesh))).

(** A face whose four sides are four different edges. *)
Definition face_proper (face : Face) : Prop := NoDup (faces_edges_of face).

(** ** The shared one-ring of an edge, in the words of the design

    [x] is gathered at the endpoint [edge_end mesh edge_id i] when some edge
    [e] incident to that endpoint, other than [edge_id], has an endpoint
    one of whose incident edges has [x] as a vertex. *)
Definition incident (mesh : Mesh) (v e : Z) : Prop :=
  exists es, getitem (ve mesh) v = Ok es /\ e ∈ es.

Definition edge_has_vertex (mesh : Mesh) (e x : Z) : Prop :=
  exists p, getitem (edges mesh) e = Ok p /\ x ∈ edge_vertices p.

Definition gathered_at (mesh : Mesh) (edge_id i x : Z) : Prop :=
  exists a e w e',
    edge_end mesh edge_id i = Ok a /\
    incident mesh a e /\ e <> edge_id /\
    edge_has_vertex mesh e w /\
    incident mesh w e' /\
    edge_has_vertex mesh e' x.

(** What one of the two gathering loops has collected after the edges
    [es]. *)
Definition ring_member (mesh : Mesh) (edge_id : Z) (es : list Z) (x : Z)
  : Prop :=
  exists e w e', e ∈ es /\ e <> edge_id /\ edge_has_vertex mesh e w /\
                 incident mesh w e' /\ edge_has_vertex mesh e' x.

Definition one_ring_shared (mesh : Mesh) (edge_id x : Z) : Prop :=
  gathered_at mesh edge_id 0 x /\ gathered_at mesh edge_id 1 x /\
  ~ edge_has_vertex mesh edge_id x.

(** ** The heap invariant

    [c] is a child of [i] in the implicit binary tree of [heapq]. *)
Definition heap_child (i c : nat) : Prop :=
  c = (2 * i + 1)%nat \/ c = (2 * i + 2)%nat.

(** No item at a position from [s] on is above a child that is smaller
    than it; [heap_from lt 0] is the invariant of the [heapq]
    documentation, [h[k] <= h[2*k+1]] and [h[k] <= h[2*k+2]], with
    [a <= b] read as [not b < a]. *)
Definition heap_from {A : Type} `{!Inhabited A} (lt : A -> A -> bool)
    (s : nat) (h : list A) : Prop :=
  forall i c, (s <= i)%nat -> heap_child i c -> (c < length h)%nat ->
    lt (h !!! c) (h !!! i) = false.

(** The positions below [s] in the tree, [s] included. *)
Inductive heap_desc (s : nat) : nat -> Prop :=
| heap_desc_refl : heap_desc s s
| heap_desc_child p c : heap_desc s p -> heap_child p c -> heap_desc s c.

(** While the hole of [_siftup] travels down: every edge that does not
    start at the hole is in order, and the parent of the hole is not above
    a smaller child of the hole. *)
Definition hole_down {A : Type} `{!Inhabited A} (lt : A -> A -> bool)
    (s : nat) (h : list A) (pos : nat) : Prop :=
  (forall i c, (s <= i)%nat -> i <> pos -> heap_child i c ->
     (c < length h)%nat -> lt (h !!! c) (h !!! i) = false) /\
  ((s < pos)%nat -> forall c, heap_child pos c -> (c < length h)%nat ->
     lt (h !!! c) (h !!! ((pos - 1) / 2)%nat) = false).

(** While the new item of [_siftdown] travels up from [p]: every edge
    that does not end at [p] is in order, and the parent of [p] is not
    above a smaller child of [p]. *)
Definition item_up {A : Type} `{!Inhabited A} (lt : A -> A -> bool)
    (s : nat) (v : list A) (p : nat) : Prop :=
  (forall i c, (s <= i)%nat -> heap_child i c -> (c < length v)%nat ->
     c <> p -> lt (v !!! c) (v !!! i) = false) /\
  ((s < p)%nat -> forall c, heap_child p c -> (c < length v)%nat ->
     lt (v !!! c) (v !!! ((p - 1) / 2)%nat) = false).

(** The items of a queue in the order in which [heappop] returns them. *)
Fixpoint heap_drain {A : Type} `{!Inhabited A} (lt : A -> A -> bool)
    (rounds : nat) (queue : list A) : list A :=
  match rounds with
  | O => []
  | S rounds' =>
      match heappop lt queue with
      | Ok (x, queue') => x :: heap_drain lt rounds' queue'
      | _ => []
      end
  end.

(** ** The order of float32 numbers

    Without NaN, [<] and [==] are those of a key of three integers read
    lexicographically: the class (negative infinity, negative, zero,
    positive, positive infinity), then the exponent, then the mantissa,
    the last two negated for negative numbers. *)
Definition is_nan (x : float32) : bool :=
  match x with S754_nan => true | _ => false end.

Definition float_key (x : float32) : Z * Z * Z :=
  match x with
  | S754_nan => (3, 0, 0)
  | S754_infinity true => (-2, 0, 0)
  | S754_infinity false => (2, 0, 0)
  | S754_zero _ => (0, 0, 0)
  | S754_finite false m e => (1, e, Z.pos m)
  | S754_finite true m e => (-1, - e, - Z.pos m)
  end.

Definition key_lt (a b : Z * Z * Z) : bool :=
  (a.1.1 <? b.1.1)
  || ((a.1.1 =? b.1.1)
      && ((a.1.2 <? b.1.2) || ((a.1.2 =? b.1.2) && (a.2 <? b.2)))).

Definition key_eqb (a b : Z * Z * Z) : bool :=
  (a.1.1 =? b.1.1) && (a.1.2 =? b.1.2) && (a.2 =? b.2).

(** The order of queue items by their keys. *)
Definition entry_key_lt (a b : entry) : bool :=
  key_lt (float_key a.1) (float_key b.1)
  || (key_eqb (float_key a.1) (float_key b.1)
      && key_lt (float_key a.2) (float_key b.2)).

Definition entry_rank (a : entry) : Z * Z * Z * (Z * Z * Z) :=
  (float_key a.1, float_key a.2).

Definition no_nan (a : entry) : Prop :=
  is_nan a.1 = false /\ is_nan a.2 = false.

(** [x <= y] on floats that are not NaN: [x < y or x == y]. *)
Definition float_le (x y : float32) : Prop :=
  SFltb x y = true \/ SFeqb x y = true.

(** The squared feature magnitude of an edge, in the words of the
    design: the sum of the squares of its feature vector. *)
Definition edge_magnitude (tsum : list float32 -> float32)
    (column : list float32) : float32 :=
  tsum (map (fun x => f32_mul x x) column).

(** The items [__build_queue] hands to [heapify]: for each edge below
    [edges_count], its squared magnitude and its id. *)
Definition queue_items (tsum : list float32 -> float32)
    (features : list (list float32)) (edges_count : Z) : list entry :=
  zip (squared_magnitude tsum features)
    (map f32_of_index (range (Z.to_nat edges_count))).

(** The edge id an item of the queue carries. *)
Definition entry_id (item : entry) : Z :=
  match int_of_float item.2 with
  | Ok i => i
  | _ => 0
  end.

(** ** A set of collaborators for running the model

    The properties of the pass are stated for every [MeshOps].  To run
    the pass on examples, the functions below follow the design document
    where it says what the functions of [mesh.py], [mesh_union.py] and
    [mesh_rotation_utils.py] do. *)

(** Modelled from the spec: the Edge-Group Union Structure of
    [mesh_union.py], "mapping from a live edge index to the set of
    original edge indices merged into it". *)
Definition Groups : Type := odict (list Z).

Definition sample_groups_new (n : Z) : Groups :=
  map (fun i => (i, [i])) (range (Z.to_nat n)).

(** Modelled from the spec: [MeshUnion.union(source, target)] folds the
    group of [source] into the group of [target]. *)
Definition sample_groups_union (g : Groups) (source target : Z)
  : result Groups :=
  src ← dict_get g source;
  tgt ← dict_get g target;
  Ok (dict_set g target (tgt ++ src)).

(** Modelled from the spec: [MeshUnion.remove_group(index)]. *)
Definition sample_groups_remove_group (g : Groups) (index : Z)
  : result Groups :=
  Ok (filter (fun kv => kv.1 <> index) g).

(** Modelled from the spec: [MeshUnion.union_groups], the unions of a
    whole target-to-sources dictionary "in one batch". *)
Definition sample_groups_union_groups (g : Groups) (d : odict (list Z))
  : result Groups :=
  for_each d
    (fun g '(target, sources) =>
       for_each sources
         (fun g source =>
            if target =? source then Ok g
            else sample_groups_union g source target)
         g)
    g.

(** Modelled from the spec: [MeshUnion.rebuild_features], "for every
    surviving edge, an aggregated feature vector from its group"; the sum
    of the members' columns stands for the reduction. *)
Definition sample_group_feature (fe : list (list float32))
    (members : list Z) : list float32 :=
  foldr (fun i acc =>
           match fe !! Z.to_nat i with
           | Some col => match acc with
                         | [] => col
                         | _ => zip_with f32_add col acc
                         end
           | None => acc
           end) [] members.

Definition sample_rebuild_features (g : Groups) (fe : list (list float32))
    (mask : list bool) (target : Z) : result (list (list float32)) :=
  Ok (omap (fun '(i, alive) =>
              if (alive : bool)
              then Some (sample_group_feature fe (default [] (dict_find g i)))
              else None)
        (zip (range (length mask)) mask)).

(** Modelled from the spec: [find_doublets] of [mesh_rotation_utils.py],
    "a vertex with exactly two incident edges"; it "scans either the full
    vertex set or a supplied candidate list and returns the doublet
    vertices plus, for each, the pair of incident edges".  The mesh is
    only read. *)
Definition sample_find_doublets (m : Mesh) (vertices : option (list Z))
  : result (Mesh * list Z * list (list Z)) :=
  let candidates := default (range (length (ve m))) vertices in
  found ← map_result (fun v => es ← getitem (ve m) v; Ok (v, es)) candidates;
  let doublets := filter (fun ves => length ves.2 = 2%nat) found in
  Ok (m, map fst doublets, map snd doublets).

(** Modelled from the spec: [fix_mesh_sides], "recompute sides for every
    touched edge": the slot [sides[e][k]] becomes the position of [e] in
    the row of [gemm_edges[e][k]]. *)
Definition sample_fix_mesh_sides (m : Mesh) (touched : list Z)
  : result Mesh :=
  sds ← for_each touched
    (fun sds e =>
       row ← getitem (gemm_edges m) e;
       for_each (zip (range (length row)) row)
         (fun sds '(k, n) =>
            if n =? -1 then Ok sds
            else
              nrow ← getitem (gemm_edges m) n;
              match first_pos e nrow with
              | Some s => setitem2 sds e k s
              | None => Ok sds
              end)
         sds)
    (sides m);
  Ok (set_sides m sds).

(** Modelled from the spec: [clear_doublet_pair] of
    [mesh_rotation_utils.py].  The two edges of a doublet lie on the same
    two faces; clearing it leaves one face, whose four sides are the
    other sides of the two.  The rows are re-linked first, as the design
    asks of the caller of a removal ("unlinked from all [ve] lists and
    from all neighbors' [gemm_edges]/[sides] rows"): in the row of each
    of the four remaining sides, the triple of the face that held the
    doublet becomes the other three sides of the new face, in its order,
    and [sides] is recomputed for these rows.  Then "both doublet edges
    are removed": each is marked dead, loses its vertices and its row,
    leaves the incident-edge lists, and the live count drops by one.  The
    two dictionaries name, for each doublet edge, the neighbour on either
    side that its features are folded into. *)

(** The other two sides of the face in which [e2] follows [e1], then of
    the face in which [e2] precedes [e1], each pair in the order of its
    face. *)
Definition doublet_faces (m : Mesh) (e1 e2 : Z) : result (list Z) :=
  row ← getitem (gemm_edges m) e1;
  let follows t := match t with
                   | [x; a1; a2] => if x =? e2 then Some [a1; a2] else None
                   | _ => None
                   end in
  let precedes t := match t with
                    | [b1; b2; y] => if y =? e2 then Some [b1; b2] else None
                    | _ => None
                    end in
  match follows (slice3 row 0), precedes (slice3 row 3),
        follows (slice3 row 3), precedes (slice3 row 0) with
  | Some a, Some b, _, _ => Ok (a ++ b)
  | _, _, Some a, Some b => Ok (a ++ b)
  | _, _, _, _ => Raise ValueError
  end.

(** The row of side [k] of the new face [cycle]: the triple that held
    [e1] is replaced by the three sides that follow side [k]. *)
Definition relink_side (e1 : Z) (cycle : list Z) (gemm : list (list Z))
    (k : Z) : result (list (list Z)) :=
  x ← getitem cycle k;
  n1 ← getitem cycle ((k + 1) mod 4);
  n2 ← getitem cycle ((k + 2) mod 4);
  n3 ← getitem cycle ((k + 3) mod 4);
  row ← getitem gemm x;
  if py_in e1 (slice3 row 0)
  then setitem gemm x (slice3_assign row 0 [n1; n2; n3])
  else if py_in e1 (slice3 row 3)
  then setitem gemm x (slice3_assign row 3 [n1; n2; n3])
  else Raise ValueError.

Definition sample_drop_edge (acc : Mesh * list bool) (e : Z)
  : result (Mesh * list bool) :=
  let '(m, mask) := acc in
  mask' ← setitem mask e false;
  edges' ← setitem (edges m) e (-1, -1);
  gemm' ← setitem (gemm_edges m) e empty_row;
  Ok (mkMesh edges' gemm' (sides m) (map (filter (fun x => x <> e)) (ve m))
        (edges_count m - 1),
      mask').

Definition sample_clear_doublet_pair (m : Mesh) (mask : list bool)
    (pair : list Z) : result (Mesh * list bool * odict Z * odict Z) :=
  match pair with
  | [e1; e2] =>
      cycle ← doublet_faces m e1 e2;
      match cycle with
      | [a1; a2; b1; b2] =>
          gemm' ← for_each (range 4) (relink_side e1 cycle) (gemm_edges m);
          m1 ← sample_fix_mesh_sides (set_gemm_edges m gemm') cycle;
          '(m', mask') ← for_each pair sample_drop_edge (m1, mask);
          Ok (m', mask', [(e1, a2); (e2, a1)], [(e1, b1); (e2, b2)])
      | _ => Raise ValueError
      end
  | _ => Raise ValueError
  end.

(** Modelled from the spec: [get_edge_hood_info], "gather u's and v's
    incident-edge/vertex info".  The mesh is only read. *)
Definition sample_get_edge_hood_info (m : Mesh) (edge_id : Z)
  : result (Mesh * HoodInfo) :=
  u ← edge_end m edge_id 0;
  v ← edge_end m edge_id 1;
  e_u ← getitem (ve m) u;
  e_v ← getitem (ve m) v;
  v_e_u ← map_result (getitem (edges m)) e_u;
  v_e_v ← map_result (getitem (edges m)) e_v;
  Ok (m, mkHoodInfo u v_e_u e_u v v_e_v e_v).

(** Modelled from the spec: [check_u_v_boundaries], "validate neither side
    immediately re-introduces a boundary; reject if so", a rejection
    being "no mutation". *)
Definition sample_check_u_v_boundaries (m : Mesh) (info : HoodInfo)
  : result (Mesh * bool * HoodInfo) :=
  bs ← map_result (has_boundaries m) (hood_e_u info ++ hood_e_v info);
  Ok (m, negb (existsb id bs), info).

(** Modelled from the spec: [edge_rotations].  The design gives no
    algorithm for the rotation around [u]; what it re-links when it
    succeeds is the argument [rotate].  Of the other outcome the design
    says: "if this rotation cannot produce a valid diagonal pair, the
    whole collapse fails (no partial mutation committed)". *)
Definition spec_edge_rotations
    (rotate : Z -> list Z -> list (Z * Z) -> Mesh
              -> option (Mesh * odict (list Z) * list Z))
    (u : Z) (e_u : list Z) (v_e_u : list (Z * Z)) (m : Mesh)
  : result (Mesh * odict (list Z) * option (list Z)) :=
  match rotate u e_u v_e_u m with
  | Some (m', d, diag_vertices) => Ok (m', d, Some diag_vertices)
  | None => Ok (m, [], None)
  end.

(** Modelled from the spec: [Mesh.remove_edge].  The design lists what
    removing an edge does (mark it dead, clear its row, lower the live
    count) and adds that the operation does no re-linking; all of that is
    in the body of [MeshPool.remove_edge], so nothing is left for the
    method to do on the fields modelled. *)
Definition sample_mesh_remove_edge (m : Mesh) (e : Z) : result Mesh := Ok m.

(** Modelled from the spec: [Mesh.remove_group] and [Mesh.union_groups],
    "thin delegation to the Union Structure"; the topology is not
    touched. *)
Definition sample_mesh_remove_group (m : Mesh) (index : Z) : result Mesh :=
  Ok m.
Definition sample_mesh_union_groups (m : Mesh) (source target : Z)
  : result Mesh :=
  Ok m.

(** Modelled from the spec: [Mesh.merge_vertices], which "discards v's
    identity" and "does not renumber vertices"; the arrays modelled stay
    as they are. *)
Definition sample_mesh_merge_vertices (m : Mesh) (u v : Z) : result Mesh :=
  Ok m.

(** Modelled from the spec: [Mesh.clean], the "final mesh cleanup pass"
    after the loop; on the arrays modelled it changes nothing. *)
Definition sample_mesh_clean (m : Mesh) (mask : list bool) (g : Groups)
  : result (Mesh * list bool * Groups) :=
  Ok (m, mask, g).

(** One reduction order for [torch.sum], for running the model: the
    terms are added in the order of the channel index. *)
Definition sample_torch_sum (terms : list float32) : float32 :=
  foldl f32_add (S754_zero false) terms.

(** CPython keeps one object for each integer from -5 to 256. *)
Definition sample_same_object (a b : Z) : bool :=
  (-5 <=? a) && (a <=? 256).

(** Modelled from the spec: [fix_mesh_hood_order].  The design names the
    step ("fix ordering") without saying which order is restored; rows
    are left in the order they have. *)
Definition sample_fix_mesh_hood_order (m : Mesh) (touched : list Z)
  : result Mesh :=
  Ok m.

Definition spec_ops
    (rotate : Z -> list Z -> list (Z * Z) -> Mesh
              -> option (Mesh * odict (list Z) * list Z))
  : MeshOps Groups := {|
  mesh_remove_edge := sample_mesh_remove_edge;
  mesh_remove_group := sample_mesh_remove_group;
  mesh_union_groups := sample_mesh_union_groups;
  mesh_merge_vertices := sample_mesh_merge_vertices;
  mesh_clean := sample_mesh_clean;
  groups_new := sample_groups_new;
  groups_union := sample_groups_union;
  groups_union_groups := sample_groups_union_groups;
  groups_remove_group := sample_groups_remove_group;
  groups_rebuild_features := sample_rebuild_features;
  find_doublets := sample_find_doublets;
  clear_doublet_pair := sample_clear_doublet_pair;
  get_edge_hood_info := sample_get_edge_hood_info;
  check_u_v_boundaries := sample_check_u_v_boundaries;
  edge_rotations := spec_edge_rotations rotate;
  fix_mesh_hood_order := sample_fix_mesh_hood_order;
  fix_mesh_sides := sample_fix_mesh_sides;
  torch_sum := sample_torch_sum;
  same_object := sample_same_object
|}.

(** The collaborators with a rotation that never finds a diagonal
    pair. *)
Definition sample_ops : MeshOps Groups := spec_ops (fun _ _ _ _ => None).

(** No vertex of the mesh is a doublet: none lies on exactly two
    edges. *)
Definition no_doublet (m : Mesh) : Prop :=
  Forall (fun es : list Z => length es <> 2%nat) (ve m).

(** ** Example meshes *)

(** The six faces of a cube: closed, every vertex on three edges. *)
Definition cube_faces : list Face :=
  [(0, 1, 2, 3); (4, 7, 6, 5); (0, 4, 5, 1);
   (1, 5, 6, 2); (2, 6, 7, 3); (3, 7, 4, 0)].

(** A ring of four quads between an inner and an outer square: every
    vertex is on three edges, every edge is on or next to the border. *)
Definition ring_faces : list Face :=
  [(0, 1, 5, 4); (1, 2, 6, 5); (2, 3, 7, 6); (3, 0, 4, 7)].

(** The cube with its first face split in two along a new vertex 8,
    which lies on exactly two edges. *)
Definition split_cube_faces : list Face :=
  [(0, 1, 2, 8); (0, 8, 2, 3); (4, 7, 6, 5); (0, 4, 5, 1);
   (1, 5, 6, 2); (2, 6, 7, 3); (3, 7, 4, 0)].

(** A face that names vertex 1 twice: two of its sides are the same
    edge. *)
Definition folded_faces : list Face := [(0, 1, 2, 1)].

Definition mesh_of (n_vs : nat) (faces : list Face) : Mesh :=
  match build_gemm n_vs faces with
  | Ok m => m
  | _ => mkMesh [] [] [] [] 0
  end.

Definition start_state (m : Mesh) : PoolState Groups :=
  mkPoolState m (replicate (Z.to_nat (edges_count m)) true)
    (sample_groups_new (edges_count m)).

(** ** Sharing between neighbour triples *)

(** The number of position pairs at which two triples carry the same
    edge. *)
Definition shared_count (list_a list_b : list Z) : Z :=
  len (matching_pairs list_a list_b).


(** ** Reading the arrays of [build_gemm]

    Entry [j] of row [k], and entry [k] of [nb_count], for indices that
    are not negative; 0 stands for a missing entry. *)
Definition cell (a : list (list Z)) (k j : Z) : Z :=
  default 0 (a !! Z.to_nat k ≫= fun row => row !! Z.to_nat j).

Definition cnt (c : list Z) (k : Z) : Z := default 0 (c !! Z.to_nat k).

Definition rows6 (a : list (list Z)) : Prop :=
  Forall (fun row => length row = 6%nat) a.

(** What holds of the state of [build_gemm] between two faces: the
    arrays have one row per edge, every edge has filled zero, three or
    six slots, a filled slot names a neighbour whose row points back
    through [sides], and the other slots are -1. *)
Record gemm_inv (s : GemmState) : Prop := mkGemmInv {
  inv_count : 0 <= bg_edges_count s;
  inv_len_nb : len (bg_edge_nb s) = bg_edges_count s;
  inv_len_sides : len (bg_sides s) = bg_edges_count s;
  inv_len_cnt : len (bg_nb_count s) = bg_edges_count s;
  inv_rows_nb : rows6 (bg_edge_nb s);
  inv_rows_sides : rows6 (bg_sides s);
  inv_key_range : forall edge k,
    bg_edge2key s !! edge = Some k -> 0 <= k < bg_edges_count s;
  inv_key_inj : forall e1 e2 k,
    bg_edge2key s !! e1 = Some k -> bg_edge2key s !! e2 = Some k -> e1 = e2;
  inv_cnt : forall k,
    0 <= k < bg_edges_count s ->
    cnt (bg_nb_count s) k = 0 \/ cnt (bg_nb_count s) k = 3 \/
    cnt (bg_nb_count s) k = 6;
  inv_back : forall k j,
    0 <= k < bg_edges_count s -> 0 <= j < cnt (bg_nb_count s) k ->
    0 <= cell (bg_edge_nb s) k j < bg_edges_count s /\
    0 <= cell (bg_sides s) k j
      < cnt (bg_nb_count s) (cell (bg_edge_nb s) k j) /\
    cell (bg_edge_nb s) (cell (bg_edge_nb s) k j) (cell (bg_sides s) k j) = k;
  inv_unset : forall k j,
    0 <= k < bg_edges_count s -> cnt (bg_nb_count s) k <= j < 6 ->
    cell (bg_edge_nb s) k j = -1
}.

(** The key of side [i] of the face being processed. *)
Definition key_fun (s : GemmState) (faces_edges : list (Z * Z)) (i : Z) : Z :=
  match face_key s faces_edges i with
  | Ok k => k
  | _ => 0
  end.

(** What the second loop over a face has done after the sides [idxs],
    whose keys are given by [kf]: the row of each such side has received
    its three neighbours in the next free slots and its count has grown by
    three; nothing else has changed. *)
Definition neighbors_filled (kf : Z -> Z) (idxs : list Z)
    (s s' : GemmState) : Prop :=
  bg_ve s' = bg_ve s /\ bg_sides s' = bg_sides s /\
  bg_edge2key s' = bg_edge2key s /\ bg_edges s' = bg_edges s /\
  bg_edges_count s' = bg_edges_count s /\
  len (bg_edge_nb s') = len (bg_edge_nb s) /\ rows6 (bg_edge_nb s') /\
  len (bg_nb_count s') = len (bg_nb_count s) /\
  (forall k, 0 <= k ->
     cnt (bg_nb_count s') k
     = if decide (k ∈ kf <$> idxs) then cnt (bg_nb_count s) k + 3
       else cnt (bg_nb_count s) k) /\
  (forall i d, i ∈ idxs -> 0 <= d < 3 ->
     cnt (bg_nb_count s) (kf i) + d < 6 /\
     cell (bg_edge_nb s') (kf i) (cnt (bg_nb_count s) (kf i) + d)
     = kf (i + 1 + d)) /\
  (forall k j, 0 <= k -> 0 <= j ->
     (forall i, i ∈ idxs -> k = kf i ->
        ~ (cnt (bg_nb_count s) k <= j < cnt (bg_nb_count s) k + 3)) ->
     cell (bg_edge_nb s') k j = cell (bg_edge_nb s) k j).

(** What the third loop over a face has done after the sides [idxs]: the
    three slots filled last in the row of each such side have received,
    in [sides], the slot of that side in the rows of its neighbours. *)
Definition sides_filled (kf : Z -> Z) (idxs : list Z)
    (s s' : GemmState) : Prop :=
  bg_ve s' = bg_ve s /\ bg_edge_nb s' = bg_edge_nb s /\
  bg_edge2key s' = bg_edge2key s /\ bg_edges s' = bg_edges s /\
  bg_edges_count s' = bg_edges_count s /\
  bg_nb_count s' = bg_nb_count s /\
  len (bg_sides s') = len (bg_sides s) /\ rows6 (bg_sides s') /\
  (forall i d, i ∈ idxs -> 0 <= d < 3 ->
     cell (bg_sides s') (kf i) (cnt (bg_nb_count s) (kf i) - 3 + d)
     = cnt (bg_nb_count s) (kf (i + 1 + d)) - 1 - d) /\
  (forall k j, 0 <= k -> 0 <= j ->
     (forall i, i ∈ idxs -> k = kf i ->
        ~ (cnt (bg_nb_count s) k - 3 <= j < cnt (bg_nb_count s) k)) ->
     cell (bg_sides s') k j = cell (bg_sides s) k j).
(** * Mesh preparation: the rest of [img2mesh_prepare.py] *)

(** [enumerate(l)] *)
Definition enumerate {A : Type} (l : list A) : list (Z * A) :=
  zip (range (length l)) l.

(** ** [img2mesh_prepare.compute_face_normals_and_areas]

    [mesh.vs] is the array [np.asarray(vs)] of [fill_from_file]: one row
    of three float64 coordinates per vertex.  The arithmetic is that of
    binary64, each operation rounded to nearest.  [np.cross] takes three
    products and three differences of products; the squares of the three
    components are added by [sum(axis=1)], whose order of additions is
    that of NumPy's reduction and is left open ([np_sum]).  Indexing
    [mesh.vs] with a column of [faces] raises [IndexError] for an id that
    is no row of [mesh.vs].  The normals, which [remove_non_manifolds]
    discards, are not part of the result here; dividing them by a zero
    length gives NaN and a warning, no exception. *)
Definition float64 : Type := spec_float.

Definition f64_add (x y : float64) : float64 := SFadd 53 1024 x y.
Definition f64_sub (x y : float64) : float64 := SFsub 53 1024 x y.
Definition f64_mul (x y : float64) : float64 := SFmul 53 1024 x y.
Definition f64_sqrt (x : float64) : float64 := SFsqrt 53 1024 x.

(** [0.5] *)
Definition f64_half : float64 := S754_finite false 4503599627370496 (-53).

(** [x == 0], true of both zeros and false of NaN. *)
Definition f64_is_zero (x : float64) : bool := SFeqb x (S754_zero false).

(** [x * 0.5] *)
Definition f64_halve (x : float64) : float64 := f64_mul x f64_half.

Definition vec3 : Type := float64 * float64 * float64.

Definition vec_sub (a b : vec3) : vec3 :=
  let '(a0, a1, a2) := a in
  let '(b0, b1, b2) := b in
  (f64_sub a0 b0, f64_sub a1 b1, f64_sub a2 b2).

(** [np.cross(a, b)] on rows of three. *)
Definition cross (a b : vec3) : vec3 :=
  let '(a0, a1, a2) := a in
  let '(b0, b1, b2) := b in
  (f64_sub (f64_mul a1 b2) (f64_mul a2 b1),
   f64_sub (f64_mul a2 b0) (f64_mul a0 b2),
   f64_sub (f64_mul a0 b1) (f64_mul a1 b0)).

Section FaceAreas.

Context (np_sum : list float64 -> float64).

(** The entry of one face in [np.sqrt((face_normals ** 2).sum(axis=1))]. *)
Definition face_norm (vs : list vec3) (face : Face) : result float64 :=
  let '(f0, f1, f2, f3) := face in
  p1 ← getitem vs f1;
  p0 ← getitem vs f0;
  p2 ← getitem vs f2;
  let '(n0, n1, n2) := cross (vec_sub p1 p0) (vec_sub p2 p1) in
  Ok (f64_sqrt (np_sum [f64_mul n0 n0; f64_mul n1 n1; f64_mul n2 n2])).

(** [assert (not np.any(face_areas[:, np.newaxis] == 0))] and
    [face_areas *= 0.5]. *)
Definition checked_areas (norms : list float64) : result (list float64) :=
  if existsb f64_is_zero norms then Raise AssertionError
  else Ok (map f64_halve norms).

(** The areas the function returns. *)
Definition compute_face_normals_and_areas (vs : list vec3)
    (faces : list Face) : result (list float64) :=
  norms ← map_result (face_norm vs) faces;
  checked_areas norms.

End FaceAreas.

(** ** [img2mesh_prepare.remove_non_manifolds]

    The loop over the faces reads the areas only through the test
    [face_areas[face_id] == 0]; it is written for any type of areas with
    such a test, and [remove_non_manifolds] runs it on the float64 areas
    of [compute_face_normals_and_areas].  [n_vs] is [len(mesh.vs)]; the
    first component of the result is the value the function leaves in
    [mesh.ve]. *)

(** [(face[i], face[(i + 1) % 4])] for [i] in [range(4)] *)
Definition cur_edges (face : Face) : list (Z * Z) :=
  let '(f0, f1, f2, f3) := face in [(f0, f1); (f1, f2); (f2, f3); (f3, f0)].

(** The [for i in range(4)] loop with its [break]: the flag the source
    calls [is_manifold], raised when an edge of the face is already in
    [edges_set], and [faces_edges]. *)
Fixpoint scan_face (edges_set : gset (Z * Z)) (cur : list (Z * Z))
    (faces_edges : list (Z * Z)) : bool * list (Z * Z) :=
  match cur with
  | [] => (false, faces_edges)
  | cur_edge :: rest =>
      if bool_decide (cur_edge ∈ edges_set) then (true, faces_edges)
      else scan_face edges_set rest (faces_edges ++ [cur_edge])
  end.

(** [a[mask]] for a boolean mask: the shapes must agree. *)
Definition mask_select {A : Type} (mask : list bool) (a : list A)
  : result (list A) :=
  if decide (length mask = length a)
  then Ok (snd <$> filter (fun p => p.1 = true) (zip mask a))
  else Raise IndexError.

Section RemoveNonManifolds.

Context {Area : Type} (area_is_zero : Area -> bool).

(** Body of [for face_id, face in enumerate(faces)]; the state is
    [edges_set] and [mask]. *)
Definition nm_step (face_areas : list Area)
    (s : gset (Z * Z) * list bool) (x : Z * Face)
  : result (gset (Z * Z) * list bool) :=
  let '(edges_set, mask) := s in
  let '(face_id, face) := x in
  area ← getitem face_areas face_id;
  if area_is_zero area then
    mask' ← setitem mask face_id false;
    Ok (edges_set, mask')
  else
    let '(is_manifold, faces_edges) := scan_face edges_set (cur_edges face) [] in
    if (is_manifold : bool) then
      mask' ← setitem mask face_id false;
      Ok (edges_set, mask')
    else
      Ok (foldl (fun acc edge => acc ∪ {[edge]}) edges_set faces_edges, mask).

(** The function from the loop on: the mask, and the faces and areas it
    selects. *)
Definition remove_non_manifolds_loop (n_vs : nat) (face_areas : list Area)
    (faces : list Face) : result (list (list Z) * list Face * list Area) :=
  let ve0 : list (list Z) := replicate n_vs [] in
  '(_, mask) ← for_each (enumerate faces) (nm_step face_areas)
                 (∅, replicate (length faces) true);
  faces' ← mask_select mask faces;
  areas' ← mask_select mask face_areas;
  Ok (ve0, faces', areas').

End RemoveNonManifolds.

Definition remove_non_manifolds (np_sum : list float64 -> float64)
    (vs : list vec3) (faces : list Face)
  : result (list (list Z) * list Face * list float64) :=
  face_areas ← compute_face_normals_and_areas np_sum vs faces;
  remove_non_manifolds_loop f64_is_zero (length vs) face_areas faces.

(** ** [img2mesh_prepare.get_side_points] and [get_edge_points] *)

(** [edge[i]] for a row of [mesh.edges] and [i] in 0, 1. *)
Definition vertex_at (edge : Z * Z) (i : Z) : Z :=
  if i =? 0 then edge.1 else edge.2.

(** [mesh.edges[mesh.gemm_edges[edge_id, j]]] *)
Definition neighbor_edge (mesh : Mesh) (edge_id j : Z) : result (Z * Z) :=
  k ← getitem2 (gemm_edges mesh) edge_id j;
  getitem (edges mesh) k.

(** The three rows read in one branch of an [if ... == -1] test. *)
Definition neighbor_edges (mesh : Mesh) (edge_id j : Z)
  : result ((Z * Z) * (Z * Z) * (Z * Z)) :=
  x ← neighbor_edge mesh edge_id j;
  y ← neighbor_edge mesh edge_id (j + 1);
  z ← neighbor_edge mesh edge_id (j + 2);
  Ok (x, y, z).

(** [1 if edge[1] in other else 0] *)
Definition shared_end (edge other : Z * Z) : Z :=
  if py_in edge.2 (edge_vertices other) then 1 else 0.

Definition get_side_points (mesh : Mesh) (edge_id : Z) : result (list Z) :=
  edge_a ← getitem (edges mesh) edge_id;
  g0 ← getitem2 (gemm_edges mesh) edge_id 0;
  '(edge_b, edge_c, edge_d) ←
     (if g0 =? -1 then neighbor_edges mesh edge_id 3
      else neighbor_edges mesh edge_id 0);
  g3 ← getitem2 (gemm_edges mesh) edge_id 3;
  '(edge_e, edge_f, edge_g) ←
     (if g3 =? -1 then neighbor_edges mesh edge_id 0
      else neighbor_edges mesh edge_id 3);
  let first_vertex := shared_end edge_a edge_b in
  let second_vertex := shared_end edge_b edge_c in
  let third_vertex := shared_end edge_d edge_c in
  let forth_vertex := shared_end edge_e edge_f in
  let fifth_vertex := shared_end edge_g edge_f in
  Ok [vertex_at edge_a first_vertex; vertex_at edge_a (1 - first_vertex);
      vertex_at edge_b second_vertex; vertex_at edge_d third_vertex;
      vertex_at edge_e forth_vertex; vertex_at edge_g fifth_vertex].

(** [np.zeros([mesh.edges_count, 6])] rejects a negative count; the loop
    runs over the rows of [mesh.edges].  Vertex ids are taken to fit the
    array's 32-bit entries. *)
Definition get_edge_points (mesh : Mesh) : result (list (list Z)) :=
  if edges_count mesh <? 0 then Raise ValueError
  else
    for_each (range (length (edges mesh)))
      (fun edge_points edge_id =>
         points ← get_side_points mesh edge_id;
         setitem edge_points edge_id points)
      (replicate (Z.to_nat (edges_count mesh)) [0; 0; 0; 0; 0; 0]).

(** ** Faces and the edges they lie on *)

Definition face_vertices (face : Face) : list Z :=
  let '(f0, f1, f2, f3) := face in [f0; f1; f2; f3].

(** Every vertex id of the face is an index of [mesh.vs], as
    [fill_from_file] asserts. *)
Definition face_in_range (n_vs : nat) (face : Face) : Prop :=
  Forall (fun v => 0 <= v < Z.of_nat n_vs) (face_vertices face).

(** The number of faces that have [edge] (a sorted pair) as a side. *)
Definition occurrences (faces : list Face) (edge : Z * Z) : nat :=
  length (filter (fun face => edge ∈ faces_edges_of face) faces).

(** No edge is a side of more than two faces. *)
Definition at_most_two_faces (faces : list Face) : Prop :=
  Forall (fun face =>
            Forall (fun edge => (occurrences faces edge <= 2)%nat)
              (faces_edges_of face))
    faces.

(** The sides of all the faces, in the order [build_gemm] meets them. *)
Definition all_sides (faces : list Face) : list (Z * Z) :=
  faces ≫= faces_edges_of.

(** ** Further well-formedness conditions *)

(** [sides] is an [E x 6] array with one row per row of [gemm_edges]. *)
Definition wf_sides (mesh : Mesh) : Prop :=
  len (sides mesh) = len (gemm_edges mesh) /\ rows6 (sides mesh).

(** ** What [remove_non_manifolds] keeps, said directly

    A face is kept when its area is not zero and none of its four
    directed edges belongs to a face kept before it. *)

Section Kept.

Context {Area : Type} (area_is_zero : Area -> bool).

Definition keeps (edges_set : gset (Z * Z)) (face : Face) (area : Area)
  : bool :=
  negb (area_is_zero area) &&
  forallb (fun edge => negb (bool_decide (edge ∈ edges_set))) (cur_edges face).

Fixpoint kept (edges_set : gset (Z * Z)) (xs : list (Face * Area))
  : list (Face * Area) :=
  match xs with
  | [] => []
  | (face, area) :: xs' =>
      if keeps edges_set face area
      then (face, area) :: kept (edges_set ∪ list_to_set (cur_edges face)) xs'
      else kept edges_set xs'
  end.

(** The mask the loop computes, one entry per face. *)
Fixpoint kept_mask (edges_set : gset (Z * Z)) (xs : list (Face * Area))
  : list bool :=
  match xs with
  | [] => []
  | (face, area) :: xs' =>
      if keeps edges_set face area
      then true :: kept_mask (edges_set ∪ list_to_set (cur_edges face)) xs'
      else false :: kept_mask edges_set xs'
  end.

(** The set the loop has built after the faces [xs]. *)
Fixpoint kept_set (edges_set : gset (Z * Z)) (xs : list (Face * Area))
  : gset (Z * Z) :=
  match xs with
  | [] => edges_set
  | (face, area) :: xs' =>
      if keeps edges_set face area
      then kept_set (edges_set ∪ list_to_set (cur_edges face)) xs'
      else kept_set edges_set xs'
  end.

End Kept.

(** No directed edge belongs to two faces of the list. *)
Definition directed_edges_once (faces : list Face) : Prop :=
  forall (i j : nat) (f g : Face),
    faces !! i = Some f -> faces !! j = Some g -> i <> j ->
    forall d, d ∈ cur_edges f -> d ∉ cur_edges g.

(** ** What [build_gemm] has recorded

    [key_inv es s]: after the sides [es] have been met, [edge2key] and
    [edges] are inverse to each other and know exactly the edges of
    [es]. *)
Definition key_inv (es : list (Z * Z)) (s : GemmState) : Prop :=
  bg_edges_count s = len (bg_edges s) /\
  (forall e k, bg_edge2key s !! e = Some k <->
               0 <= k /\ bg_edges s !! Z.to_nat k = Some e) /\
  (forall e, is_Some (bg_edge2key s !! e) <-> e ∈ es).

(** [ve[v]] lists the keys of the edges that have [v] as an endpoint. *)
Definition ve_inv (n_vs : nat) (s : GemmState) : Prop :=
  length (bg_ve s) = n_vs /\
  forall (v : nat) (l : list Z), bg_ve s !! v = Some l ->
    forall k, k ∈ l <->
      exists e, 0 <= k /\ bg_edges s !! Z.to_nat k = Some e /\
                (e.1 = Z.of_nat v \/ e.2 = Z.of_nat v).

(** Every edge has filled three slots for each face it is a side of. *)
Definition cnt_inv (done : list Face) (s : GemmState) : Prop :=
  forall e k, bg_edge2key s !! e = Some k ->
    cnt (bg_nb_count s) k = 3 * Z.of_nat (occurrences done e).

(** Each filled triple of a row lists, in the order of the face, the
    other three sides of a face that has the edge as its side [i]. *)
Definition nb_inv (done : list Face) (s : GemmState) : Prop :=
  forall e k t, bg_edge2key s !! e = Some k -> 0 <= t ->
    3 * t < cnt (bg_nb_count s) k ->
    exists f i, f ∈ done /\ 0 <= i < 4 /\
      faces_edges_of f !! Z.to_nat i = Some e /\
      forall d, 0 <= d < 3 ->
        exists e', faces_edges_of f !! Z.to_nat ((i + 1 + d) mod 4) = Some e' /\
                   bg_edge2key s !! e'
                   = Some (cell (bg_edge_nb s) k (3 * t + d)).

(** The only way the result can fail is [IndexError]. *)
Definition only_index_error {A : Type} (r : result A) : Prop :=
  match r with
  | Ok _ => True
  | Raise IndexError => True
  | _ => False
  end.

(** ** Quads *)

(** The row [p] of [edges] joins the vertices [x] and [y]. *)
Definition joins (p : Z * Z) (x y : Z) : Prop := p = (x, y) \/ p = (y, x).

(** [face[i % 4]] *)
Definition face_at (face : Face) (i : Z) : Z :=
  nth (Z.to_nat (i mod 4)) (face_vertices face) 0.



(** ** Example vertices and faces *)

(** One order for the additions of [sum(axis=1)], for running the model:
    the squares are added in the order of the coordinates. *)
Definition sample_np_sum (terms : list float64) : float64 :=
  foldl f64_add (S754_zero false) terms.

(** [float(n)] for an integer [n] *)
Definition f64_of_Z (n : Z) : float64 := binary_normalize 53 1024 n 0 false.

(** Six corners of the unit cube, and four quads on them: the third
    runs along the directed edge (0, 1) of the first. *)
Definition prism_vs : list vec3 :=
  map (fun '(x, y, z) => (f64_of_Z x, f64_of_Z y, f64_of_Z z))
    [(0, 0, 0); (1, 0, 0); (1, 1, 0); (0, 1, 0); (1, 0, 1); (0, 0, 1)].

Definition prism_faces : list Face :=
  [(0, 1, 2, 3); (1, 4, 5, 2); (0, 1, 4, 5); (1, 0, 5, 4)].

(** A quad with a corner repeated, so that its first three corners span
    no area. *)
Definition flat_faces : list Face := [(0, 1, 2, 3); (0, 1, 1, 0)].

(** * Properties *)

#[local] Set Warnings "-clear-no-such-hyp".

(** ** Indexing *)

Section PyLemmas.
Context {A : Type}.
Implicit Types (l : list A) (i : Z).

Lemma py_index_nonneg n i : 0 <= i < Z.of_nat n -> py_index n i = Some (Z.to_nat i).
Proof.
  intros H. unfold py_index.
  destruct (Z.leb_spec 0 i); [|lia]. destruct (Z.ltb_spec i (Z.of_nat n)); [|lia]. done.
Qed.

Lemma py_index_lt n i k : py_index n i = Some k -> (k < n)%nat.
Proof.
  unfold py_index.
  destruct (Z.leb_spec 0 i), (Z.ltb_spec i (Z.of_nat n)),
    (Z.leb_spec (- Z.of_nat n) i), (Z.ltb_spec i 0); simpl; intros [= <-]; lia.
Qed.

Lemma getitem_nonneg l i :
  0 <= i < len l -> getitem l i = match l !! Z.to_nat i with Some x => Ok x | None => Raise IndexError end.
Proof. intros H. unfold getitem. by rewrite py_index_nonneg. Qed.

Lemma getitem_in_range l i : 0 <= i < len l -> exists x, getitem l i = Ok x /\ l !! Z.to_nat i = Some x.
Proof.
  intros H. rewrite getitem_nonneg by done.
  destruct (lookup_lt_is_Some_2 l (Z.to_nat i)) as [x Hx]; [unfold len in H; lia|].
  exists x. by rewrite Hx.
Qed.

Lemma getitem_Ok_lookup l i x : getitem l i = Ok x -> exists k, py_index (length l) i = Some k /\ l !! k = Some x.
Proof.
  unfold getitem. destruct (py_index _ _) as [k|]; [|done].
  destruct (l !! k) eqn:E; [|done]. intros [= ->]. eauto.
Qed.

Lemma getitem_Ok_elem l i x : getitem l i = Ok x -> x ∈ l.
Proof. intros (k & _ & Hk)%getitem_Ok_lookup. by eapply list_elem_of_lookup_2. Qed.

Lemma getitem_not_unfinished l i : getitem l i <> Unfinished.
Proof. unfold getitem. destruct (py_index _ _); [destruct (l !! _)|]; done. Qed.

Lemma setitem_length l i x l' : setitem l i x = Ok l' -> length l' = length l.
Proof. unfold setitem. destruct (py_index _ _); [|done]. intros [= <-]. apply length_insert. Qed.

End PyLemmas.

Lemma py_in_spec (x : Z) (l : list Z) : py_in x l = true <-> x ∈ l.
Proof.
  unfold py_in. rewrite existsb_exists. split.
  - intros (y & Hy & ->%Z.eqb_eq). by apply list_elem_of_In.
  - intros H. exists x. split; [by apply list_elem_of_In|apply Z.eqb_refl].
Qed.

Lemma py_in_false (x : Z) (l : list Z) : py_in x l = false <-> x ∉ l.
Proof. rewrite <- py_in_spec. destruct (py_in x l); naive_solver. Qed.

Lemma has_boundaries_loop_spec (gemm : list (list Z)) (row : list Z) :
  Forall (fun n => -1 <= n < len gemm) row ->
  exists b, has_boundaries_loop gemm row = Ok b /\
    (b = true <->
     (-1 ∈ row \/ exists n nrow, n ∈ row /\ getitem gemm n = Ok nrow /\ -1 ∈ nrow)).
Proof.
  induction 1 as [|n row Hn Hrow IH]; simpl.
  - exists false. split; [done|]. split; [done|].
    intros [H|(n & nrow & H & _)]; by apply elem_of_nil in H.
  - destruct (Z.eqb_spec n (-1)) as [->|Hne].
    + exists true. split; [done|]. split; [|done]. intros _. left. by left.
    + destruct (getitem_in_range gemm n) as (nrow & Hget & _); [lia|].
      rewrite Hget. simpl.
      destruct (py_in (-1) nrow) eqn:Hin.
      * exists true. split; [done|]. split; [|done]. intros _. right.
        exists n, nrow. split; [by left|]. split; [done|]. by apply py_in_spec.
      * destruct IH as (b & Hb & Hiff). exists b. split; [done|].
        rewrite Hiff. apply py_in_false in Hin. split.
        -- intros [H|(n' & nrow' & H1 & H2 & H3)]; [left; by right|].
           right. exists n', nrow'. split; [by right|done].
        -- intros [H|(n' & nrow' & H1 & H2 & H3)].
           ++ apply elem_of_cons in H as [H|H]; [congruence|by left].
           ++ apply elem_of_cons in H1 as [->|H1].
              ** rewrite Hget in H2. inversion H2; subst. done.
              ** right. by exists n', nrow'.
Qed.

Lemma has_boundaries_spec (mesh : Mesh) (edge_id : Z) :
  wf_gemm mesh -> 0 <= edge_id < len (gemm_edges mesh) ->
  exists b, has_boundaries mesh edge_id = Ok b /\ (b = true <-> boundary_spec mesh edge_id).
Proof.
  intros Hwf He. unfold has_boundaries, boundary_spec.
  destruct (getitem_in_range (gemm_edges mesh) edge_id He) as (row & Hget & Hlk).
  rewrite Hget. simpl.
  assert (Forall (fun n => -1 <= n < len (gemm_edges mesh)) row) as Hrow.
  { unfold wf_gemm in Hwf. rewrite Forall_forall in Hwf.
    apply (Hwf row). by eapply list_elem_of_lookup_2. }
  destruct (has_boundaries_loop_spec _ _ Hrow) as (b & Hb & Hiff).
  exists b. split; [done|]. rewrite Hiff. split.
  - intros H. by exists row.
  - intros (row' & [= <-] & H). done.
Qed.

(** ** Shared items *)

Section SharedItems.

Lemma shared_inner_fold (a i : Z) (list_b : list Z) (js : list Z) (acc : list Z) :
  fold_left
    (fun acc j => if Z.eqb a (nth (Z.to_nat j) list_b 0) then acc ++ [i; j] else acc)
    js acc
  = acc ++ (j ← js; if Z.eqb a (nth (Z.to_nat j) list_b 0) then [i; j] else []).
Proof.
  revert acc. induction js as [|j js IH]; intros acc.
  - simpl. by rewrite app_nil_r.
  - rewrite bind_cons. cbn [fold_left]. rewrite IH.
    destruct (a =? _); simpl; by rewrite <- ?app_assoc.
Qed.

Lemma get_shared_items_fold (list_a list_b : list Z) (ixs : list Z) (acc : list Z) :
  fold_left
    (fun acc i => shared_inner (nth (Z.to_nat i) list_a 0) i list_b acc) ixs acc
  = acc ++ (i ← ixs; j ← range (length list_b);
            if Z.eqb (nth (Z.to_nat i) list_a 0) (nth (Z.to_nat j) list_b 0)
            then [i; j] else []).
Proof.
  revert acc. induction ixs as [|i ixs IH]; intros acc.
  - simpl. by rewrite app_nil_r.
  - rewrite bind_cons. cbn [fold_left]. rewrite IH.
    unfold shared_inner. rewrite shared_inner_fold.
    by rewrite <- app_assoc.
Qed.

Lemma bind_pairs_length (list_a list_b : list Z) (ixs js : list Z) :
  len (i ← ixs; j ← js;
       if Z.eqb (nth (Z.to_nat i) list_a 0) (nth (Z.to_nat j) list_b 0)
       then [i; j] else [])
  = 2 * len
       (filter (fun p : Z * Z => nth (Z.to_nat p.1) list_a 0 = nth (Z.to_nat p.2) list_b 0)
          (i ← ixs; j ← js; [(i, j)])).
Proof.
  unfold len.
  induction ixs as [|i ixs IH]; [done|].
  rewrite !bind_cons, length_app, filter_app, length_app, !Nat2Z.inj_add, IH.
  assert (Z.of_nat (length (j ← js; if Z.eqb (nth (Z.to_nat i) list_a 0) (nth (Z.to_nat j) list_b 0)
                          then [i; j] else []))
          = 2 * Z.of_nat (length (filter (fun p : Z * Z => nth (Z.to_nat p.1) list_a 0 = nth (Z.to_nat p.2) list_b 0)
                          (j ← js; [(i, j)])))) as ->; [|lia].
  clear IH. induction js as [|j js IHj]; [done|].
  rewrite !bind_cons, length_app, filter_app, length_app, !Nat2Z.inj_add, IHj.
  rewrite filter_cons, filter_nil. cbn [fst snd].
  destruct (Z.eqb_spec (nth (Z.to_nat i) list_a 0) (nth (Z.to_nat j) list_b 0)).
  - rewrite decide_True by done. simpl length. lia.
  - rewrite decide_False by done. simpl length. lia.
Qed.

Theorem get_shared_items_length (list_a list_b : list Z) :
  len (get_shared_items list_a list_b)
  = 2 * len (matching_pairs list_a list_b).
Proof.
  unfold get_shared_items, matching_pairs.
  rewrite get_shared_items_fold. simpl. apply bind_pairs_length.
Qed.

End SharedItems.

(** ** Unfolding the monad *)

Lemma rbind_Ok {A B : Type} (r : result A) (k : A -> result B) (b : B) :
  r ≫= k = Ok b -> exists a, r = Ok a /\ k a = Ok b.
Proof. destruct r as [a| |]; simpl; [eauto|done|done]. Qed.

Ltac inv_bind H :=
  let a := fresh "x" in
  let H1 := fresh "Hx" in
  apply rbind_Ok in H as (a & H1 & H).

(** ** Boundary rejection *)

Section PoolEdgeChecks.

Context {G : Type} (ops : MeshOps G) (out_target : Z).

Lemma pool_edge_boundary fuel (st st1 : PoolState G) edge_id :
  pool_mesh_operations ops fuel st = Ok st1 ->
  has_boundaries (st_mesh st1) edge_id = Ok true ->
  pool_edge ops out_target fuel st edge_id = Ok (false, st1).
Proof. intros H1 H2. unfold pool_edge. rewrite H1. simpl. by rewrite H2. Qed.

End PoolEdgeChecks.

(** C6.  [has_boundaries] answers True exactly when a slot of the row of
    [edge_id], or a slot of the row of one of the neighbours listed there,
    is -1; and when it answers True for the candidate, [__pool_edge]
    returns False, leaving the state as its doublet normalisation left
    it. *)
Theorem has_boundaries_rejects {G : Type} (ops : MeshOps G) (out_target : Z)
    (fuel : nat) (st st1 : PoolState G) (edge_id : Z) :
  pool_mesh_operations ops fuel st = Ok st1 ->
  wf_gemm (st_mesh st1) ->
  0 <= edge_id < len (gemm_edges (st_mesh st1)) ->
  exists b,
    has_boundaries (st_mesh st1) edge_id = Ok b /\
    (b = true <-> boundary_spec (st_mesh st1) edge_id) /\
    (b = true -> pool_edge ops out_target fuel st edge_id = Ok (false, st1)).
Proof.
  intros Hnorm Hwf He.
  destruct (has_boundaries_spec _ _ Hwf He) as (b & Hb & Hiff).
  exists b. split; [done|]. split; [done|].
  intros ->. by apply pool_edge_boundary.
Qed.

(** ** Side cleanliness *)

(** C10.  The list returned by [__get_shared_items] holds two indices for
    every pair of positions [(i, j)] with [list_a[i] == list_b[j]]: its
    length is twice the number of such pairs, hence even, and the test
    [len <= 2] of [__clean_side] lets through at most one matching
    pair. *)
Theorem shared_items_length_twice_pairs (list_a list_b : list Z) :
  len (get_shared_items list_a list_b) = 2 * shared_count list_a list_b /\
  Z.Even (len (get_shared_items list_a list_b)) /\
  (len (get_shared_items list_a list_b) <= 2 <->
   shared_count list_a list_b <= 1).
Proof.
  unfold shared_count. pose proof (get_shared_items_length list_a list_b) as H.
  split; [done|]. split.
  - exists (len (matching_pairs list_a list_b)). lia.
  - lia.
Qed.


Lemma clean_side_below_target (out_target : Z) (mesh : Mesh)
    (edge_id side : Z) :
  edges_count mesh <= out_target ->
  clean_side out_target mesh edge_id side = Ok false.
Proof.
  intros H. unfold clean_side.
  by destruct (Z.leb_spec (edges_count mesh) out_target); [|lia].
Qed.



(** ** One-ring validity *)

Lemma map_result_Ok {A B : Type} (f : A -> result B) (xs : list A) (ys : list B) :
  map_result f xs = Ok ys -> Forall2 (fun x y => f x = Ok y) xs ys.
Proof.
  revert ys. induction xs as [|x xs IH]; intros ys; simpl.
  - intros [= <-]. constructor.
  - intros H. inv_bind H. inv_bind H. injection H as <-.
    constructor; auto.
Qed.

Lemma for_each_Ok_inv {A S : Type} (P : S -> Prop) (body : S -> A -> result S)
    (xs : list A) (s s' : S) :
  (forall s x s', x ∈ xs -> P s -> body s x = Ok s' -> P s') ->
  P s -> for_each xs body s = Ok s' -> P s'.
Proof.
  revert s. induction xs as [|x xs IH]; intros s Hstep Hs; simpl.
  - by intros [= <-].
  - intros H. inv_bind H. eapply (IH x0); [|by eapply Hstep; [left|..]|done].
    intros s1 y s2 Hy. apply Hstep. by right.
Qed.

Section OneRing.

Context (mesh : Mesh).

Lemma vertex_set_spec (es : list Z) (s : gset Z) (x : Z) :
  vertex_set mesh es = Ok s ->
  x ∈ s <-> exists e, e ∈ es /\ edge_has_vertex mesh e x.
Proof.
  unfold vertex_set. intros H. inv_bind H. injection H as <-.
  apply map_result_Ok in Hx. rewrite elem_of_list_to_set, list_elem_of_bind.
  split.
  - intros (p & Hxp & Hp).
    apply list_elem_of_lookup in Hp as (i & Hi).
    destruct (Forall2_lookup_r _ _ _ _ _ Hx Hi) as (e & He & Hget).
    exists e. split; [by eapply list_elem_of_lookup_2|]. by exists p.
  - intros (e & He & p & Hget & Hxp).
    apply list_elem_of_lookup in He as (i & Hi).
    destruct (Forall2_lookup_l _ _ _ _ _ Hx Hi) as (p' & Hp' & Hget').
    rewrite Hget in Hget'. injection Hget' as <-.
    exists p. split; [done|]. by eapply list_elem_of_lookup_2.
Qed.

Lemma edge_end_vertex (e i a : Z) :
  edge_end mesh e i = Ok a -> edge_has_vertex mesh e a.
Proof.
  unfold edge_end. intros H. inv_bind H.
  exists x. split; [done|]. by eapply getitem_Ok_elem.
Qed.

Lemma edge_has_vertex_ends (e w a b : Z) :
  edge_end mesh e 0 = Ok a -> edge_end mesh e 1 = Ok b ->
  edge_has_vertex mesh e w <-> w = a \/ w = b.
Proof.
  unfold edge_end, edge_has_vertex. intros Ha Hb.
  inv_bind Ha. inv_bind Hb. rewrite Hx in Hx0. injection Hx0 as <-.
  destruct x as [p1 p2]. vm_compute in Ha, Hb.
  injection Ha as <-. injection Hb as <-. rewrite Hx. split.
  - intros (p & [= <-] & Hw). simpl in Hw. set_solver.
  - intros Hw. exists (p1, p2). split; [done|]. simpl. set_solver.
Qed.

Lemma get_v_n_spec (e : Z) (s_a s_b : gset Z) (x : Z) :
  get_v_n mesh e = Ok (s_a, s_b) ->
  x ∈ s_a ∪ s_b <->
  exists w e', edge_has_vertex mesh e w /\ incident mesh w e' /\
               edge_has_vertex mesh e' x.
Proof.
  unfold get_v_n. intros H.
  inv_bind H. rename x0 into a, Hx into Ha.
  inv_bind H. rename x0 into e_a, Hx into Hea.
  inv_bind H. rename x0 into sa, Hx into Hsa.
  inv_bind H. rename x0 into b, Hx into Hb.
  inv_bind H. rename x0 into e_b, Hx into Heb.
  inv_bind H. rename x0 into sb, Hx into Hsb.
  injection H as <- <-.
  rewrite elem_of_union, (vertex_set_spec _ _ _ Hsa), (vertex_set_spec _ _ _ Hsb).
  split.
  - intros [(e' & He' & Hx)|(e' & He' & Hx)].
    + exists a, e'. split; [by eapply edge_end_vertex|]. split; [by exists e_a|done].
    + exists b, e'. split; [by eapply edge_end_vertex|]. split; [by exists e_b|done].
  - intros (w & e' & Hw & (es & Hes & He') & Hx).
    apply (edge_has_vertex_ends _ _ _ _ Ha Hb) in Hw as [->| ->].
    + left. rewrite Hea in Hes. injection Hes as <-. eauto.
    + right. rewrite Heb in Hes. injection Hes as <-. eauto.
Qed.

Lemma gather_ring_spec (edge_id : Z) (es : list Z) (s : gset Z) :
  gather_ring mesh edge_id es = Ok s ->
  forall x, x ∈ s <-> ring_member mesh edge_id es x.
Proof.
  unfold gather_ring.
  assert (forall (acc : gset Z) (done_ : list Z),
    (forall x, x ∈ acc <-> ring_member mesh edge_id done_ x) ->
    for_each es
      (fun v_a e =>
         if negb (e =? edge_id) then
           '(v_aa, v_ab) ← get_v_n mesh e; Ok ((v_aa ∪ v_ab) ∪ v_a)
         else Ok v_a) acc = Ok s ->
    forall x, x ∈ s <-> ring_member mesh edge_id (done_ ++ es) x) as Hgen.
  { induction es as [|e es IH]; intros acc done_ Hacc; simpl.
    - intros [= <-]. by rewrite app_nil_r.
    - intros H. inv_bind H. rename x into acc'.
      replace (done_ ++ e :: es) with ((done_ ++ [e]) ++ es)
        by (by rewrite <- app_assoc).
      eapply IH; [|exact H]. intros x. unfold ring_member.
      destruct (Z.eqb_spec e edge_id) as [->|Hne]; simpl in Hx.
      + injection Hx as <-. rewrite Hacc. unfold ring_member.
        split; intros (e0 & w & e' & He0 & Hrest).
        * exists e0, w, e'. split; [set_solver|done].
        * exists e0, w, e'. split; [|done].
          apply elem_of_app in He0 as [He0|He0]; [done|].
          apply list_elem_of_singleton in He0. subst. by destruct Hrest.
      + inv_bind Hx. destruct x0 as [v_aa v_ab]. injection Hx as <-.
        rewrite elem_of_union, (get_v_n_spec _ _ _ _ Hx0), Hacc.
        unfold ring_member. split.
        * intros [(w & e' & H1 & H2 & H3)|(e0 & w & e' & He0 & Hrest)].
          -- exists e, w, e'. split; [set_solver|done].
          -- exists e0, w, e'. split; [set_solver|done].
        * intros (e0 & w & e' & He0 & Hne0 & H1 & H2 & H3).
          apply elem_of_app in He0 as [He0|He0].
          -- right. by exists e0, w, e'.
          -- apply list_elem_of_singleton in He0. subst. left. by exists w, e'. }
  intros H. apply (Hgen ∅ []); [|done].
  intros x. split; [set_solver|].
  intros (e & ? & ? & He & _). by apply elem_of_nil in He.
Qed.

Lemma is_one_ring_valid_shared (edge_id : Z) (b : bool) :
  is_one_ring_valid mesh edge_id = Ok b ->
  exists shared : gset Z,
    b = bool_decide (size shared = 4%nat) /\
    forall x, x ∈ shared <-> one_ring_shared mesh edge_id x.
Proof.
  unfold is_one_ring_valid. intros H.
  inv_bind H. rename x into a, Hx into Ha.
  inv_bind H. rename x into e_a, Hx into Hea.
  inv_bind H. rename x into b', Hx into Hb.
  inv_bind H. rename x into e_b, Hx into Heb.
  inv_bind H. rename x into v_a, Hx into Hva.
  inv_bind H. rename x into v_b, Hx into Hvb.
  inv_bind H. rename x into p, Hx into Hp.
  injection H as <-.
  eexists. split; [reflexivity|]. intros x.
  rewrite elem_of_intersection, elem_of_difference.
  assert (x ∈ ({[p.1]} ∪ ({[p.2]} ∪ ∅) : gset Z) <-> x ∈ edge_vertices p)
    as -> by (unfold edge_vertices; set_solver).
  rewrite (gather_ring_spec _ _ _ Hva), (gather_ring_spec _ _ _ Hvb).
  unfold one_ring_shared, gathered_at, ring_member, incident. split.
  - intros ((e & w & e' & He & Hne & H1 & H2 & H3) &
            (f & w' & f' & Hf & Hnf & H4 & H5 & H6) & Hnot).
    split; [|split].
    + exists a, e, w, e'. split; [done|]. split; [by exists e_a|done].
    + exists b', f, w', f'. split; [done|]. split; [by exists e_b|done].
    + intros (p' & Hp' & Hx). rewrite Hp in Hp'. by injection Hp' as <-.
  - intros ((a0 & e & w & e' & Ha0 & (es & Hes & He) & Hne & H1 & H2 & H3) &
            (b0 & f & w' & f' & Hb0 & (fs & Hfs & Hf) & Hnf & H4 & H5 & H6) & Hnot).
    rewrite Ha in Ha0. injection Ha0 as <-.
    rewrite Hb in Hb0. injection Hb0 as <-.
    rewrite Hea in Hes. injection Hes as <-.
    rewrite Heb in Hfs. injection Hfs as <-.
    split; [by exists e, w, e'|]. split; [by exists f, w', f'|].
    intros Hx. apply Hnot. by exists p.
Qed.

End OneRing.

Lemma pool_edge_one_ring {G : Type} (ops : MeshOps G) (out_target : Z)
    (fuel : nat) (st st1 : PoolState G) (edge_id : Z) :
  pool_mesh_operations ops fuel st = Ok st1 ->
  has_boundaries (st_mesh st1) edge_id = Ok false ->
  clean_side out_target (st_mesh st1) edge_id 0 = Ok true ->
  clean_side out_target (st_mesh st1) edge_id 3 = Ok true ->
  is_one_ring_valid (st_mesh st1) edge_id = Ok false ->
  pool_edge ops out_target fuel st edge_id = Ok (false, st1).
Proof.
  intros H1 H2 H3 H4 H5. unfold pool_edge.
  rewrite H1. simpl. rewrite H2. simpl. rewrite H3. simpl.
  rewrite H4. simpl. by rewrite H5.
Qed.

(** C9.  [__is_one_ring_valid] gathers, at each endpoint of [edge_id],
    the vertices that [__get_v_n] yields for the edges incident to that
    endpoint other than [edge_id] itself; it answers True exactly when the
    vertices gathered at both endpoints, the endpoints of [edge_id]
    excepted, are four.  When it answers False after the earlier checks
    have passed, [__pool_edge] returns False. *)
Theorem one_ring_valid_iff_four_shared {G : Type} (ops : MeshOps G)
    (out_target : Z) (fuel : nat) (st st1 : PoolState G) (edge_id : Z)
    (b : bool) :
  pool_mesh_operations ops fuel st = Ok st1 ->
  is_one_ring_valid (st_mesh st1) edge_id = Ok b ->
  (b = true <->
   exists l : list Z,
     NoDup l /\ length l = 4%nat /\
     forall x, x ∈ l <-> one_ring_shared (st_mesh st1) edge_id x) /\
  (b = false ->
   has_boundaries (st_mesh st1) edge_id = Ok false ->
   clean_side out_target (st_mesh st1) edge_id 0 = Ok true ->
   clean_side out_target (st_mesh st1) edge_id 3 = Ok true ->
   pool_edge ops out_target fuel st edge_id = Ok (false, st1)).
Proof.
  intros Hnorm Hvalid. split.
  - destruct (is_one_ring_valid_shared _ _ _ Hvalid) as (shared & -> & Hshared).
    rewrite bool_decide_eq_true. split.
    + intros Hsize. exists (elements shared).
      split; [apply NoDup_elements|]. split; [done|].
      intros x. by rewrite elem_of_elements.
    + intros (l & Hnd & Hlen & Hl).
      rewrite <- Hlen. unfold size, set_size. simpl. apply Permutation_length.
      apply NoDup_Permutation; [apply NoDup_elements|done|].
      intros x. by rewrite elem_of_elements, Hl.
  - intros -> Hb H0 H3. by apply pool_edge_one_ring.
Qed.

Lemma one_ring_valid_iff_four_shared_witness :
  exists st1 b,
    pool_mesh_operations sample_ops 1 (start_state (mesh_of 8 cube_faces))
      = Ok st1 /\
    is_one_ring_valid (st_mesh st1) 0 = Ok b /\
    (b = true <->
     exists l : list Z,
       NoDup l /\ length l = 4%nat /\
       forall x, x ∈ l <-> one_ring_shared (st_mesh st1) 0 x).
Proof.
  eexists. eexists.
  assert (pool_mesh_operations sample_ops 1 (start_state (mesh_of 8 cube_faces))
          = Ok (start_state (mesh_of 8 cube_faces))) as H1
    by (vm_compute; reflexivity).
  assert (is_one_ring_valid
            (st_mesh (start_state (mesh_of 8 cube_faces))) 0 = Ok true) as H2
    by (vm_compute; reflexivity).
  split; [exact H1|]. split; [exact H2|].
  exact (proj1 (one_ring_valid_iff_four_shared sample_ops 6 1 _ _ 0 true H1 H2)).
Defined.

(** ** The priority queue: [heapq] *)

Local Close Scope Z_scope.

Section HeapqPerm.

Context {A : Type} `{!Inhabited A} (lt : A -> A -> bool).

Lemma hole_move (h : list A) (pos c : nat) (x : A) :
  (pos < length h)%nat -> (c < length h)%nat ->
  <[c := x]> (<[pos := h !!! c]> h) ≡ₚ <[pos := x]> h.
Proof.
  intros Hpos Hc. destruct (decide (c = pos)) as [->|Hne].
  { by rewrite list_insert_insert_eq. }
  rewrite <- (list_insert_insert_eq h pos (h !!! c) x).
  apply (Permutation_insert_swap (<[pos := x]> h) pos c x (h !!! c)).
  - by apply list_lookup_insert_eq.
  - rewrite list_lookup_insert_ne by done.
    by apply list_lookup_lookup_total_lt.
Qed.

Lemma siftup_loop_perm (rounds : nat) (h : list A) (pos : nat) (x : A) :
  (pos < length h)%nat ->
  length (siftup_loop lt rounds h pos).1 = length h /\
  ((siftup_loop lt rounds h pos).2 < length h)%nat /\
  <[(siftup_loop lt rounds h pos).2 := x]> (siftup_loop lt rounds h pos).1
  ≡ₚ <[pos := x]> h.
Proof.
  revert h pos. induction rounds as [|rounds IH]; intros h pos Hpos; [done|].
  cbn [siftup_loop].
  destruct (Nat.ltb_spec (2 * pos + 1) (length h)) as [Hc|_]; [|done].
  set (c := if _ && _ then _ else _).
  assert (c < length h)%nat as Hclt.
  { unfold c. destruct (Nat.ltb_spec (2 * pos + 1 + 1) (length h)); simpl;
      [destruct (negb _)|]; lia. }
  destruct (IH (<[pos := h !!! c]> h) c) as (Hlen & Hlt & Hperm).
  { by rewrite length_insert. }
  rewrite length_insert in Hlen, Hlt. split; [done|]. split; [done|].
  rewrite Hperm. by apply hole_move.
Qed.

Lemma siftdown_loop_perm (rounds : nat) (h : list A) (s pos : nat) (x : A) :
  (pos < length h)%nat ->
  length (siftdown_loop lt rounds h s pos x).1 = length h /\
  ((siftdown_loop lt rounds h s pos x).2 < length h)%nat /\
  <[(siftdown_loop lt rounds h s pos x).2 := x]>
    (siftdown_loop lt rounds h s pos x).1
  ≡ₚ <[pos := x]> h.
Proof.
  revert h pos. induction rounds as [|rounds IH]; intros h pos Hpos; [done|].
  cbn [siftdown_loop].
  destruct (Nat.ltb_spec s pos) as [Hs|_]; [|done].
  destruct (lt x (h !!! ((pos - 1) / 2)%nat)); [|done].
  assert ((pos - 1) / 2 < pos)%nat as Hq.
  { apply Nat.Div0.div_lt_upper_bound. lia. }
  destruct (IH (<[pos := h !!! ((pos - 1) / 2)%nat]> h) ((pos - 1) / 2)%nat)
    as (Hlen & Hlt & Hperm).
  { rewrite length_insert. lia. }
  rewrite length_insert in Hlen, Hlt. split; [done|]. split; [done|].
  rewrite Hperm. apply hole_move; lia.
Qed.

Lemma siftdown_perm (h : list A) (s pos : nat) :
  (pos < length h)%nat -> siftdown lt h s pos ≡ₚ h.
Proof.
  intros Hpos. unfold siftdown.
  destruct (siftdown_loop_perm (length h) h s pos (h !!! pos) Hpos)
    as (_ & _ & Hperm).
  destruct (siftdown_loop lt (length h) h s pos (h !!! pos)) as [h' p'].
  simpl in Hperm. rewrite Hperm.
  by rewrite list_insert_id by by apply list_lookup_lookup_total_lt.
Qed.

Lemma siftup_perm (h : list A) (pos : nat) :
  (pos < length h)%nat -> siftup lt h pos ≡ₚ h.
Proof.
  intros Hpos. unfold siftup.
  destruct (siftup_loop_perm (length h) h pos (h !!! pos) Hpos)
    as (Hlen & Hlt & Hperm).
  destruct (siftup_loop lt (length h) h pos) as [h' p']. simpl in *.
  rewrite siftdown_perm by (rewrite length_insert; lia).
  rewrite Hperm.
  by rewrite list_insert_id by by apply list_lookup_lookup_total_lt.
Qed.

Lemma heapify_perm (x : list A) : heapify lt x ≡ₚ x.
Proof.
  unfold heapify.
  assert (forall ps (h : list A),
            Forall (fun p => p < length h)%nat ps ->
            foldl (siftup lt) h ps ≡ₚ h) as Hfold.
  { induction ps as [|p ps IH]; intros h Hps; [done|]. simpl.
    apply Forall_cons in Hps as [Hp Hps].
    pose proof (siftup_perm h p Hp) as Hstep.
    rewrite IH; [done|].
    apply Permutation_length in Hstep. rewrite Hstep. done. }
  apply Hfold. apply Forall_forall. intros p Hp.
  apply elem_of_reverse, elem_of_seq in Hp.
  assert (length x / 2 <= length x)%nat by (apply Nat.Div0.div_le_upper_bound; lia).
  destruct (length x) eqn:E; [simpl in Hp; lia|].
  assert (S n / 2 < S n)%nat by (apply Nat.div_lt; lia). lia.
Qed.

End HeapqPerm.

Lemma heap_child_parent (i c : nat) : heap_child i c -> ((c - 1) / 2 = i)%nat.
Proof.
  intros [-> | ->].
  - replace (2 * i + 1 - 1)%nat with (i * 2)%nat by lia.
    by apply Nat.div_mul.
  - replace (2 * i + 2 - 1)%nat with (1 + i * 2)%nat by lia.
    rewrite Nat.div_add by done. done.
Qed.

Lemma heap_parent_child (c : nat) : (0 < c)%nat -> heap_child ((c - 1) / 2) c.
Proof.
  intros Hc. unfold heap_child.
  pose proof (Nat.div_mod_eq (c - 1) 2) as Hdm.
  pose proof (Nat.mod_upper_bound (c - 1) 2 ltac:(done)). lia.
Qed.

Lemma heap_child_lt (i c : nat) : heap_child i c -> (i < c)%nat.
Proof. unfold heap_child. lia. Qed.

Lemma heap_desc_le (s p : nat) : heap_desc s p -> (s <= p)%nat.
Proof.
  induction 1 as [|p c _ IH Hc]; [done|]. apply heap_child_lt in Hc. lia.
Qed.

Lemma heap_desc_parent (s p : nat) :
  heap_desc s p -> (s < p)%nat -> heap_desc s ((p - 1) / 2).
Proof.
  intros [|q c Hq Hc] Hlt; [lia|]. by rewrite (heap_child_parent q c Hc).
Qed.

Section HeapqOrder.

Context {A : Type} `{!Inhabited A} (lt : A -> A -> bool).
Context (Hasym : forall a b, lt a b = true -> lt b a = false).
Context (Htrans : forall a b c,
           lt b a = false -> lt c b = false -> lt c a = false).

Lemma lt_irrefl (a : A) : lt a a = false.
Proof. destruct (lt a a) eqn:E; [by apply Hasym in E as E'; congruence|done]. Qed.

Lemma siftup_loop_inv (rounds : nat) (s : nat) (h : list A) (pos : nat) :
  heap_desc s pos -> (pos < length h)%nat -> hole_down lt s h pos ->
  (length h - pos <= rounds)%nat ->
  hole_down lt s (siftup_loop lt rounds h pos).1
    (siftup_loop lt rounds h pos).2 /\
  heap_desc s (siftup_loop lt rounds h pos).2 /\
  (length h <= 2 * (siftup_loop lt rounds h pos).2 + 1)%nat.
Proof.
  revert h pos. induction rounds as [|rounds IH];
    intros h pos Hdesc Hpos [Ha Hb] Hfuel; [lia|].
  cbn [siftup_loop].
  destruct (Nat.ltb_spec (2 * pos + 1) (length h)) as [Hc|Hleaf];
    [|simpl; split; [by split|split; [done|lia]]].
  set (c := if _ && _ then _ else _).
  assert (heap_child pos c /\ (c < length h)%nat /\
          forall d, heap_child pos d -> (d < length h)%nat ->
            lt (h !!! d) (h !!! c) = false) as (Hchild & Hclt & Hleast).
  { unfold c, heap_child.
    destruct (Nat.ltb_spec (2 * pos + 1 + 1) (length h)) as [Hr|Hr];
      cbn [andb].
    - destruct (lt (h !!! (2 * pos + 1)%nat) (h !!! (2 * pos + 1 + 1)%nat))
        eqn:E; cbn [negb].
      + split; [lia|]. split; [done|].
        intros d [-> | ->] _; [apply lt_irrefl|].
        replace (2 * pos + 2)%nat with (2 * pos + 1 + 1)%nat by lia.
        by apply Hasym.
      + split; [lia|]. split; [done|].
        intros d [-> | ->] _; [done|].
        replace (2 * pos + 1 + 1)%nat with (2 * pos + 2)%nat by lia.
        apply lt_irrefl.
    - split; [lia|]. split; [done|].
      intros d [-> | ->] Hd; [apply lt_irrefl|lia]. }
  pose proof (heap_child_lt _ _ Hchild) as Hposc.
  pose proof (heap_desc_le _ _ Hdesc) as Hspos.
  assert (hole_down lt s (<[pos := h !!! c]> h) c) as Hinv.
  { split.
    - intros i d Hi Hic Hid Hd. rewrite length_insert in Hd.
      destruct (decide (i = pos)) as [->|Hipos].
      + rewrite list_lookup_total_insert_eq by done.
        pose proof (heap_child_lt _ _ Hid).
        rewrite list_lookup_total_insert_ne by lia. by apply Hleast.
      + rewrite (list_lookup_total_insert_ne h pos i) by done.
        destruct (decide (d = pos)) as [->|Hdpos].
        * rewrite list_lookup_total_insert_eq by done.
          pose proof (heap_child_lt _ _ Hid).
          rewrite <- (heap_child_parent _ _ Hid). apply Hb; [lia|done..].
        * rewrite list_lookup_total_insert_ne by done. by apply Ha.
    - intros _ d Hcd Hd. rewrite length_insert in Hd.
      rewrite (heap_child_parent _ _ Hchild).
      rewrite list_lookup_total_insert_eq by done.
      pose proof (heap_child_lt _ _ Hcd).
      rewrite list_lookup_total_insert_ne by lia.
      apply Ha; [lia|lia|done..]. }
  destruct (IH (<[pos := h !!! c]> h) c) as (H1 & H2 & H3).
  - by eapply heap_desc_child.
  - by rewrite length_insert.
  - done.
  - rewrite length_insert. lia.
  - rewrite length_insert in H3. done.
Qed.

Lemma siftdown_loop_inv (rounds : nat) (s : nat) (g : list A) (p : nat)
    (x : A) :
  heap_desc s p -> (p < length g)%nat -> item_up lt s (<[p := x]> g) p ->
  (p <= rounds)%nat ->
  heap_from lt s
    (<[(siftdown_loop lt rounds g s p x).2 := x]>
       (siftdown_loop lt rounds g s p x).1).
Proof.
  revert g p. induction rounds as [|rounds IH];
    intros g p Hdesc Hp [Ha Hb] Hfuel.
  - assert (p = 0)%nat as -> by lia. simpl.
    intros i c Hi Hc Hlt. apply Ha; [done..|].
    apply heap_child_lt in Hc. lia.
  - cbn [siftdown_loop].
    destruct (Nat.ltb_spec s p) as [Hsp|Hsp]; cbn [fst snd].
    2:{ intros i c Hi Hc Hlt. apply Ha; [done..|].
        apply heap_child_lt in Hc. apply heap_desc_le in Hdesc. lia. }
    set (q := ((p - 1) / 2)%nat).
    pose proof (heap_parent_child p ltac:(lia)) as Hqp. fold q in Hqp.
    pose proof (heap_child_lt _ _ Hqp) as Hqlt.
    pose proof (heap_desc_parent _ _ Hdesc Hsp) as Hdq. fold q in Hdq.
    pose proof (heap_desc_le _ _ Hdq) as Hsq.
    rewrite length_insert in Ha, Hb.
    assert (<[p := x]> g !!! q = g !!! q) as Hvq
      by (rewrite list_lookup_total_insert_ne by lia; done).
    assert (<[p := x]> g !!! p = x) as Hvp
      by (by rewrite list_lookup_total_insert_eq).
    destruct (lt x (g !!! q)) eqn:Hlt; cbn [fst snd].
    + apply IH; [done|rewrite length_insert; lia| |lia].
      set (v1 := <[q := x]> (<[p := g !!! q]> g)).
      assert (length v1 = length g) as Hlen1
        by (unfold v1; by rewrite !length_insert).
      assert (v1 !!! q = x) as H1q.
      { unfold v1. rewrite list_lookup_total_insert_eq; [done|].
        rewrite length_insert. lia. }
      assert (v1 !!! p = g !!! q) as H1p.
      { unfold v1. rewrite list_lookup_total_insert_ne by lia.
        by rewrite list_lookup_total_insert_eq. }
      assert (forall k, k <> p -> k <> q -> v1 !!! k = <[p := x]> g !!! k)
        as H1k.
      { intros k Hkp Hkq. unfold v1.
        by rewrite !list_lookup_total_insert_ne by done. }
      assert (forall d, heap_child q d -> (d < length g)%nat -> d <> p ->
                lt (<[p := x]> g !!! d) (g !!! q) = false) as Hsib.
      { intros d Hd Hdlt Hdp. rewrite <- Hvq. by apply Ha. }
      split.
      * intros i c Hi Hic Hc Hcq. rewrite Hlen1 in Hc.
        pose proof (heap_child_lt _ _ Hic) as Hilt.
        destruct (decide (i = q)) as [->|Hiq].
        -- rewrite H1q. destruct (decide (c = p)) as [->|Hcp].
           ++ rewrite H1p. by apply Hasym.
           ++ rewrite H1k by done.
              apply (Htrans x (g !!! q)); [by apply Hasym|by apply Hsib].
        -- destruct (decide (i = p)) as [->|Hip].
           ++ rewrite H1p. rewrite H1k by lia.
              fold q in Hb. rewrite Hvq in Hb. by apply Hb.
           ++ assert (c <> p) as Hcp.
              { intros ->. apply Hiq.
                by rewrite <- (heap_child_parent _ _ Hic). }
              rewrite !H1k by done. by apply Ha.
      * intros Hsq' c Hqc Hc. rewrite Hlen1 in Hc.
        set (gq := ((q - 1) / 2)%nat).
        pose proof (heap_parent_child q ltac:(lia)) as Hgq. fold gq in Hgq.
        pose proof (heap_child_lt _ _ Hgq) as Hgqlt.
        pose proof (heap_desc_le _ _ (heap_desc_parent _ _ Hdq Hsq')) as Hsgq.
        fold gq in Hsgq.
        rewrite (H1k gq) by lia.
        assert (lt (g !!! q) (<[p := x]> g !!! gq) = false) as Hup.
        { rewrite <- Hvq. apply Ha; [done|done|lia|lia]. }
        destruct (decide (c = p)) as [->|Hcp].
        -- by rewrite H1p.
        -- pose proof (heap_child_lt _ _ Hqc).
           rewrite H1k by lia.
           apply (Htrans _ (g !!! q)); [done|by apply Hsib].
    + intros i c Hi Hic Hc. rewrite length_insert in Hc.
      destruct (decide (c = p)) as [->|Hcp]; [|by apply Ha].
      assert (i = q) as -> by (by rewrite <- (heap_child_parent _ _ Hic)).
      by rewrite Hvp, Hvq.
Qed.

Lemma siftdown_unfold (h : list A) (s pos : nat) :
  siftdown lt h s pos
  = <[(siftdown_loop lt (length h) h s pos (h !!! pos)).2 := h !!! pos]>
      (siftdown_loop lt (length h) h s pos (h !!! pos)).1.
Proof. unfold siftdown. by destruct (siftdown_loop _ _ _ _ _ _). Qed.

Lemma siftup_heap (h : list A) (pos : nat) :
  (pos < length h)%nat -> heap_from lt (S pos) h ->
  heap_from lt pos (siftup lt h pos).
Proof.
  intros Hpos Hheap. unfold siftup.
  destruct (siftup_loop_perm lt (length h) h pos (h !!! pos) Hpos)
    as (Hlen & Hlt & _).
  destruct (siftup_loop_inv (length h) pos h pos) as ([Ha Hb] & Hdesc & Hleaf).
  { constructor. }
  { done. }
  { split; [|lia]. intros i c Hi Hne Hc Hclt. apply Hheap; [lia|done..]. }
  { lia. }
  destruct (siftup_loop lt (length h) h pos) as [h' p']. simpl in *.
  rewrite siftdown_unfold, length_insert.
  rewrite list_lookup_total_insert_eq by lia.
  apply siftdown_loop_inv; [done|rewrite length_insert; lia| |lia].
  rewrite list_insert_insert_eq. split.
  - intros i c Hi Hic Hc Hcp. rewrite length_insert in Hc.
    assert (i <> p') as Hip.
    { intros ->. destruct Hic; lia. }
    rewrite !list_lookup_total_insert_ne by done. by apply Ha.
  - intros _ c Hpc Hc. rewrite length_insert in Hc. destruct Hpc; lia.
Qed.

Lemma heapify_heap (x : list A) : heap_from lt 0 (heapify lt x).
Proof.
  unfold heapify.
  assert (forall m (h : list A),
            (m <= length h)%nat -> heap_from lt m h ->
            heap_from lt 0 (foldl (siftup lt) h (reverse (seq 0 m))))
    as Hfold.
  { induction m as [|m IH]; intros h Hm Hh; [done|].
    rewrite seq_S, reverse_snoc. simpl.
    pose proof (siftup_perm lt h m ltac:(lia)) as Hperm.
    apply Permutation_length in Hperm.
    apply IH; [lia|]. apply siftup_heap; [lia|done]. }
  apply Hfold.
  - apply Nat.Div0.div_le_upper_bound. lia.
  - intros i c Hi Hc Hlt.
    pose proof (Nat.div_mod_eq (length x) 2).
    pose proof (Nat.mod_upper_bound (length x) 2 ltac:(done)).
    destruct Hc; lia.
Qed.

Lemma heap_root_least (h : list A) (i : nat) :
  heap_from lt 0 h -> (i < length h)%nat -> lt (h !!! i) (h !!! 0%nat) = false.
Proof.
  intros Hh. induction i as [i IH] using lt_wf_ind. intros Hi.
  destruct (decide (i = 0)%nat) as [->|Hne]; [apply lt_irrefl|].
  pose proof (heap_parent_child i ltac:(lia)) as Hc.
  pose proof (heap_child_lt _ _ Hc) as Hlt.
  apply (Htrans _ (h !!! ((i - 1) / 2)%nat)).
  - apply IH; lia.
  - apply Hh; [lia|done..].
Qed.

End HeapqOrder.

Section HeappopFacts.

Context {A : Type} `{!Inhabited A} (lt : A -> A -> bool).

Lemma heappop_cases (h : list A) :
  (h = [] /\ heappop lt h = Raise IndexError) \/
  (exists x, h = [x] /\ heappop lt h = Ok (x, [])) \/
  (exists x rest lastelt,
     h = x :: rest ++ [lastelt] /\
     heappop lt h = Ok (x, siftup lt (lastelt :: rest) 0)).
Proof.
  unfold heappop. destruct (last h) as [lastelt|] eqn:Hlast.
  - apply last_Some in Hlast as [front ->]. right.
    rewrite length_app, Nat.add_sub. simpl.
    rewrite take_app_length.
    destruct front as [|x rest]; [left; by exists lastelt|].
    right. by exists x, rest, lastelt.
  - apply last_None in Hlast as ->. by left.
Qed.

Lemma heappop_perm (h h' : list A) (x : A) :
  heappop lt h = Ok (x, h') -> x :: h' ≡ₚ h.
Proof.
  destruct (heappop_cases h)
    as [[-> H]|[(y & -> & H)|(y & rest & lastelt & -> & H)]];
    rewrite H; [done|by intros [= <- <-]|].
  intros [= <- <-]. rewrite siftup_perm by (simpl; lia).
  rewrite (Permutation_app_comm rest). done.
Qed.

Lemma heappop_length (h h' : list A) (x : A) :
  heappop lt h = Ok (x, h') -> length h = S (length h').
Proof. intros H%heappop_perm. by rewrite <- H. Qed.

Lemma heappop_nonempty (h : list A) :
  h <> [] -> exists x h', heappop lt h = Ok (x, h').
Proof.
  destruct (heappop_cases h)
    as [[-> H]|[(y & -> & H)|(y & rest & lastelt & -> & H)]];
    rewrite H; [done|eauto..].
Qed.

Context (Hasym : forall a b, lt a b = true -> lt b a = false).
Context (Htrans : forall a b c,
           lt b a = false -> lt c b = false -> lt c a = false).

Lemma heappop_heap (h h' : list A) (x : A) :
  heap_from lt 0 h -> heappop lt h = Ok (x, h') ->
  (forall y, y ∈ h -> lt y x = false) /\ heap_from lt 0 h'.
Proof.
  intros Hh Hpop.
  assert (forall y, y ∈ h -> lt y (h !!! 0%nat) = false) as Hleast.
  { intros y [i Hi]%list_elem_of_lookup_total.
    destruct Hi as [Hi <-]. by apply heap_root_least. }
  destruct (heappop_cases h)
    as [[-> H]|[(y & -> & H)|(y & rest & lastelt & -> & H)]];
    rewrite H in Hpop; [done|injection Hpop as <- <-|injection Hpop as <- <-].
  - split; [done|]. intros i c _ _ Hc. simpl in Hc. lia.
  - split; [done|]. apply siftup_heap; [done|done|simpl; lia|].
    intros i c Hi Hic Hc. simpl in Hc.
    pose proof (heap_child_lt _ _ Hic) as Hlt.
    destruct i as [|i]; [lia|]. destruct c as [|c]; [lia|].
    specialize (Hh (S i) (S c) ltac:(lia) Hic).
    rewrite length_cons, length_app in Hh. simpl in Hh.
    specialize (Hh ltac:(lia)).
    change ((y :: rest ++ [lastelt]) !!! S c)
      with ((rest ++ [lastelt]) !!! c) in Hh.
    change ((y :: rest ++ [lastelt]) !!! S i)
      with ((rest ++ [lastelt]) !!! i) in Hh.
    change ((lastelt :: rest) !!! S c) with (rest !!! c).
    change ((lastelt :: rest) !!! S i) with (rest !!! i).
    rewrite !lookup_total_app_l in Hh by lia. done.
Qed.

End HeappopFacts.

(** Two comparisons that agree on the items of a list drive the
    algorithm the same way. *)
Section HeapqExt.

Context {A : Type} `{!Inhabited A} (lt lt' : A -> A -> bool).
Context (Q : A -> Prop).
Context (Hag : forall a b, Q a -> Q b -> lt a b = lt' a b).

Lemma Forall_lookup_total_Q (h : list A) (i : nat) :
  Forall Q h -> (i < length h)%nat -> Q (h !!! i).
Proof.
  intros HQ Hi. rewrite Forall_forall in HQ. apply HQ.
  by apply list_elem_of_lookup_total_2.
Qed.

Lemma siftup_loop_ext (rounds : nat) (h : list A) (pos : nat) :
  Forall Q h ->
  siftup_loop lt rounds h pos = siftup_loop lt' rounds h pos /\
  Forall Q (siftup_loop lt rounds h pos).1.
Proof.
  revert h pos. induction rounds as [|rounds IH]; intros h pos HQ; [done|].
  cbn [siftup_loop].
  destruct (Nat.ltb_spec (2 * pos + 1) (length h)) as [Hc|_]; [|done].
  assert ((if (2 * pos + 1 + 1 <? length h)%nat
              && negb (lt (h !!! (2 * pos + 1)%nat)
                         (h !!! (2 * pos + 1 + 1)%nat))
           then (2 * pos + 1 + 1)%nat else (2 * pos + 1)%nat)
          = (if (2 * pos + 1 + 1 <? length h)%nat
                && negb (lt' (h !!! (2 * pos + 1)%nat)
                           (h !!! (2 * pos + 1 + 1)%nat))
             then (2 * pos + 1 + 1)%nat else (2 * pos + 1)%nat)) as <-.
  { destruct (Nat.ltb_spec (2 * pos + 1 + 1) (length h)); [|done].
    cbn [andb]. rewrite Hag; [done|by apply Forall_lookup_total_Q..]. }
  set (c := if _ && _ then _ else _).
  assert (c < length h)%nat as Hclt.
  { unfold c. destruct (Nat.ltb_spec (2 * pos + 1 + 1) (length h)); cbn [andb];
      [destruct (negb _)|]; lia. }
  apply IH. apply Forall_insert; [done|by apply Forall_lookup_total_Q].
Qed.

Lemma siftdown_loop_ext (rounds : nat) (h : list A) (s pos : nat) (x : A) :
  Forall Q h -> Q x -> (pos < length h)%nat ->
  siftdown_loop lt rounds h s pos x = siftdown_loop lt' rounds h s pos x /\
  Forall Q (siftdown_loop lt rounds h s pos x).1.
Proof.
  revert h pos. induction rounds as [|rounds IH]; intros h pos HQ Hx Hpos;
    [done|].
  cbn [siftdown_loop].
  destruct (Nat.ltb_spec s pos) as [Hs|_]; [|done].
  assert ((pos - 1) / 2 < pos)%nat as Hq.
  { apply Nat.Div0.div_lt_upper_bound. lia. }
  assert (Q (h !!! ((pos - 1) / 2)%nat)) as Hin
    by (apply Forall_lookup_total_Q; [done|lia]).
  rewrite <- (Hag x) by done.
  destruct (lt x (h !!! ((pos - 1) / 2)%nat)); [|done].
  apply IH; [by apply Forall_insert|done|rewrite length_insert; lia].
Qed.

Lemma siftup_ext (h : list A) (pos : nat) :
  Forall Q h -> (pos < length h)%nat ->
  siftup lt h pos = siftup lt' h pos /\ Forall Q (siftup lt h pos).
Proof.
  intros HQ Hpos. unfold siftup.
  destruct (siftup_loop_ext (length h) h pos HQ) as [<- HQ1].
  destruct (siftup_loop_perm lt (length h) h pos (h !!! pos) Hpos)
    as (Hlen & Hlt & _).
  destruct (siftup_loop lt (length h) h pos) as [h1 p1]. simpl in *.
  assert (Q (h !!! pos)) as Hx by by apply Forall_lookup_total_Q.
  rewrite !siftdown_unfold, length_insert.
  rewrite list_lookup_total_insert_eq by lia.
  destruct (siftdown_loop_ext (length h1) (<[p1 := h !!! pos]> h1) pos p1
              (h !!! pos)) as [<- HQ2].
  { by apply Forall_insert. }
  { done. }
  { rewrite length_insert. lia. }
  split; [done|]. by apply Forall_insert.
Qed.

Lemma heapify_ext (x : list A) :
  Forall Q x -> heapify lt x = heapify lt' x.
Proof.
  intros HQ. unfold heapify.
  assert (forall ps (h : list A),
            Forall (fun p => p < length h)%nat ps -> Forall Q h ->
            foldl (siftup lt) h ps = foldl (siftup lt') h ps) as Hfold.
  { induction ps as [|p ps IH]; intros h Hps HQh; [done|]. simpl.
    apply Forall_cons in Hps as [Hp Hps].
    destruct (siftup_ext h p HQh Hp) as [<- HQ1].
    apply IH; [|done].
    pose proof (siftup_perm lt h p Hp) as Hperm.
    apply Permutation_length in Hperm. by rewrite Hperm. }
  apply Hfold; [|done]. apply Forall_forall. intros p Hp.
  apply elem_of_reverse, elem_of_seq in Hp.
  destruct (length x) eqn:E; [simpl in Hp; lia|].
  assert (S n / 2 < S n)%nat by (apply Nat.div_lt; lia). lia.
Qed.

Lemma heappop_ext (h : list A) :
  Forall Q h -> heappop lt h = heappop lt' h.
Proof.
  intros HQ. unfold heappop. destruct (last h) as [lastelt|] eqn:Hlast; [|done].
  apply last_Some in Hlast as [front ->].
  rewrite length_app, Nat.add_sub. simpl. rewrite take_app_length.
  destruct front as [|x rest]; [done|].
  apply Forall_app in HQ as [HQ1 HQ2]. apply Forall_cons in HQ1 as [_ HQ1].
  rewrite Forall_singleton in HQ2.
  destruct (siftup_ext (lastelt :: rest) 0) as [<- _];
    [by apply Forall_cons_2|simpl; lia|done].
Qed.

End HeapqExt.

Local Open Scope Z_scope.

(** ** The priority queue: float32 keys *)

Lemma SFcompare_key (x y : spec_float) :
  is_nan x = false -> is_nan y = false ->
  SFltb x y = key_lt (float_key x) (float_key y) /\
  SFeqb x y = key_eqb (float_key x) (float_key y).
Proof.
  unfold SFltb, SFeqb, key_lt, key_eqb.
  destruct x as [sx|[|]| |[|] mx ex], y as [sy|[|]| |[|] my ey];
    try done; intros _ _; cbn [SFcompare float_key fst snd].
  - destruct (Z.compare_spec ex ey) as [->|H|H].
    + change (Pos.compare_cont Eq mx my) with (Pos.compare mx my).
      destruct (Pos.compare_spec mx my) as [->|H|H]; cbv iota beta delta [CompOpp].
      all: split; lia.
    + cbv iota. split; lia.
    + cbv iota. split; lia.
  - destruct (Z.compare_spec ex ey) as [->|H|H].
    + change (Pos.compare_cont Eq mx my) with (Pos.compare mx my).
      destruct (Pos.compare_spec mx my) as [->|H|H]; cbv iota; split; lia.
    + cbv iota. split; lia.
    + cbv iota. split; lia.
Qed.

Ltac tri a b :=
  destruct (Z.lt_trichotomy a b) as [?|[?|?]];
  [rewrite ?(proj2 (Z.ltb_lt a b)), ?(proj2 (Z.eqb_neq a b)),
     ?(proj2 (Z.ltb_ge b a)), ?(proj2 (Z.eqb_neq b a)) by lia
  |subst; rewrite ?Z.ltb_irrefl, ?Z.eqb_refl
  |rewrite ?(proj2 (Z.ltb_ge a b)), ?(proj2 (Z.eqb_neq a b)),
     ?(proj2 (Z.ltb_lt b a)), ?(proj2 (Z.eqb_neq b a)) by lia];
  cbn [orb andb negb]; try done.

Lemma entry_lt_key (a b : entry) :
  no_nan a -> no_nan b -> entry_lt a b = entry_key_lt a b.
Proof.
  intros [Ha1 Ha2] [Hb1 Hb2]. unfold entry_lt, entry_key_lt.
  destruct (SFcompare_key a.1 b.1 Ha1 Hb1) as [-> ->].
  destruct (SFcompare_key a.2 b.2 Ha2 Hb2) as [-> ->].
  unfold key_lt, key_eqb.
  destruct (float_key a.1) as [[k1 k2] k3], (float_key b.1) as [[l1 l2] l3],
    (float_key a.2) as [[i1 i2] i3], (float_key b.2) as [[j1 j2] j3].
  cbn [fst snd].
  tri k1 l1; tri k2 l2; tri k3 l3; tri i1 j1; tri i2 j2; tri i3 j3.
Qed.

Lemma entry_key_lt_spec (a b : entry) :
  entry_key_lt a b = true <->
  let '(k1, k2, k3, (i1, i2, i3)) := entry_rank a in
  let '(l1, l2, l3, (j1, j2, j3)) := entry_rank b in
  k1 < l1 \/ (k1 = l1 /\ (k2 < l2 \/ (k2 = l2 /\ (k3 < l3 \/ (k3 = l3 /\
  (i1 < j1 \/ (i1 = j1 /\ (i2 < j2 \/ (i2 = j2 /\ i3 < j3))))))))).
Proof.
  unfold entry_key_lt, entry_rank, key_lt, key_eqb.
  destruct (float_key a.1) as [[k1 k2] k3], (float_key b.1) as [[l1 l2] l3],
    (float_key a.2) as [[i1 i2] i3], (float_key b.2) as [[j1 j2] j3].
  cbn [fst snd]. lia.
Qed.

Lemma entry_key_lt_asym (a b : entry) :
  entry_key_lt a b = true -> entry_key_lt b a = false.
Proof.
  intros H. apply not_true_iff_false. revert H.
  rewrite !entry_key_lt_spec.
  destruct (entry_rank a) as [[[k1 k2] k3] [[i1 i2] i3]],
    (entry_rank b) as [[[l1 l2] l3] [[j1 j2] j3]]. lia.
Qed.

Lemma entry_key_lt_trans (a b c : entry) :
  entry_key_lt b a = false -> entry_key_lt c b = false ->
  entry_key_lt c a = false.
Proof.
  rewrite <- !not_true_iff_false, !entry_key_lt_spec.
  destruct (entry_rank a) as [[[k1 k2] k3] [[i1 i2] i3]],
    (entry_rank b) as [[[l1 l2] l3] [[j1 j2] j3]],
    (entry_rank c) as [[[m1 m2] m3] [[n1 n2] n3]]. lia.
Qed.

(** ** Edge ids as float32 values *)

Lemma digits2_pos_size (p : positive) : digits2_pos p = Pos.size p.
Proof. induction p as [p IH|p IH|]; simpl; by rewrite ?IH. Qed.

Lemma digits2_pos_log2 (p : positive) :
  Z.pos (digits2_pos p) = Z.log2 (Z.pos p) + 1.
Proof.
  induction p as [p IH|p IH|]; [| |done].
  - change (digits2_pos p~1) with (Pos.succ (digits2_pos p)).
    rewrite Pos2Z.inj_succ, IH.
    change (Z.log2 (Z.pos p~1)) with (Z.pos (Pos.size p)).
    rewrite <- digits2_pos_size, IH. lia.
  - change (digits2_pos p~0) with (Pos.succ (digits2_pos p)).
    rewrite Pos2Z.inj_succ, IH.
    change (Z.log2 (Z.pos p~0)) with (Z.pos (Pos.size p)).
    rewrite <- digits2_pos_size, IH. lia.
Qed.

Lemma iter_xO_spec (p k : positive) :
  Z.pos (Pos.iter xO p k) = Z.pos p * 2 ^ Z.pos k /\
  digits2_pos (Pos.iter xO p k) = (digits2_pos p + k)%positive.
Proof.
  induction k as [|k [IH1 IH2]] using Pos.peano_ind.
  - simpl. split; lia.
  - rewrite Pos.iter_succ.
    change (digits2_pos (Pos.iter xO p k)~0)
      with (Pos.succ (digits2_pos (Pos.iter xO p k))).
    rewrite IH2, Pos2Z.inj_xO, IH1, Pos2Z.inj_succ, Z.pow_succ_r by lia.
    split; lia.
Qed.

(** Below 2^24 the float32 value of an index is exact: a mantissa of 24
    binary digits and the exponent that makes it equal to the index. *)
Lemma f32_of_index_small (i : Z) :
  0 < i < 2 ^ 24 ->
  exists m,
    f32_of_index i = S754_finite false m (Z.log2 i - 23) /\
    Z.pos m = i * 2 ^ (23 - Z.log2 i).
Proof.
  intros Hi. destruct i as [|p|p]; [lia| |lia].
  unfold f32_of_index, binary_normalize, binary_round.
  pose proof (digits2_pos_log2 p) as Hd.
  assert (0 <= Z.log2 (Z.pos p) < 24) as Hlog.
  { split; [apply Z.log2_nonneg|]. apply Z.log2_lt_pow2; lia. }
  set (d := Z.log2 (Z.pos p)) in *.
  assert (fexp 24 128 (Z.pos (digits2_pos p) + 0) = d - 23) as ->.
  { unfold fexp, emin. lia. }
  assert (exists mz,
            shl_align p 0 (d - 23) = (mz, d - 23) /\
            Z.pos mz = Z.pos p * 2 ^ (23 - d) /\
            Z.pos (digits2_pos mz) = 24) as (mz & -> & Hmz & Hdig).
  { unfold shl_align. destruct (d - 23 - 0) as [|k|k] eqn:E; [|lia|].
    - exists p. assert (d = 23) as Hd23 by lia. rewrite Hd23 in *.
      split; [done|]. split; lia.
    - exists (Pos.iter xO p k). destruct (iter_xO_spec p k) as [H1 H2].
      split; [done|]. split.
      + rewrite H1. f_equal. f_equal. lia.
      + rewrite H2, Pos2Z.inj_add. lia. }
  exists mz. split; [|done].
  unfold binary_round_aux, shr_fexp.
  cbn [Zdigits2 shr_record_of_loc]. rewrite Hdig.
  assert (fexp 24 128 (24 + (d - 23)) - (d - 23) = 0) as ->.
  { unfold fexp, emin. lia. }
  cbn [shr shr_m loc_of_shr_record round_nearest_even Zdigits2
         shr_record_of_loc].
  rewrite Hdig.
  assert (fexp 24 128 (24 + (d - 23)) - (d - 23) = 0) as ->.
  { unfold fexp, emin. lia. }
  cbn [shr shr_m].
  destruct (Z.leb_spec (d - 23) (128 - 24)); [done|lia].
Qed.

Lemma f32_of_index_zero : f32_of_index 0 = S754_zero false.
Proof. done. Qed.

Lemma f32_of_index_not_nan (i : Z) :
  0 <= i < 2 ^ 24 -> is_nan (f32_of_index i) = false.
Proof.
  intros Hi. destruct (decide (i = 0)) as [->|Hne]; [done|].
  destruct (f32_of_index_small i ltac:(lia)) as (m & -> & _). done.
Qed.

Lemma f32_of_index_int (i : Z) :
  0 <= i < 2 ^ 24 -> int_of_float (f32_of_index i) = Ok i.
Proof.
  intros Hi. destruct (decide (i = 0)) as [->|Hne]; [done|].
  destruct (f32_of_index_small i ltac:(lia)) as (m & -> & Hm).
  assert (0 <= Z.log2 i < 24) as Hlog.
  { split; [apply Z.log2_nonneg|]. apply Z.log2_lt_pow2; lia. }
  unfold int_of_float. f_equal.
  destruct (Z.leb_spec 0 (Z.log2 i - 23)).
  - assert (Z.log2 i = 23) as E by lia. rewrite E in *. simpl in Hm. lia.
  - rewrite Hm. replace (- (Z.log2 i - 23)) with (23 - Z.log2 i) by lia.
    apply Z.div_mul. apply Z.pow_nonzero; lia.
Qed.

Lemma f32_of_index_lt (i j : Z) :
  0 <= i < j -> j < 2 ^ 24 ->
  key_lt (float_key (f32_of_index i)) (float_key (f32_of_index j)) = true.
Proof.
  intros Hi Hj.
  destruct (f32_of_index_small j ltac:(lia)) as (mj & -> & Hmj).
  destruct (decide (i = 0)) as [->|Hne]; [done|].
  destruct (f32_of_index_small i ltac:(lia)) as (mi & -> & Hmi).
  unfold key_lt. cbn [float_key fst snd].
  pose proof (Z.log2_le_mono i j ltac:(lia)) as Hmono.
  assert (0 <= Z.log2 i) by apply Z.log2_nonneg.
  assert (Z.log2 j < 24) by (apply Z.log2_lt_pow2; lia).
  destruct (Z.eq_dec (Z.log2 i) (Z.log2 j)) as [E|E].
  - rewrite Hmi, Hmj, E.
    assert (i * 2 ^ (23 - Z.log2 j) < j * 2 ^ (23 - Z.log2 j)).
    { apply Z.mul_lt_mono_pos_r; [|lia]. apply Z.pow_pos_nonneg; lia. }
    lia.
  - lia.
Qed.

(** ** The queue of a mesh *)

Lemma range_lookup (n k : nat) : (k < n)%nat -> range n !! k = Some (Z.of_nat k).
Proof.
  intros H. unfold range. rewrite list_lookup_fmap, lookup_seq_lt by done. done.
Qed.

Lemma range_length (n : nat) : length (range n) = n.
Proof. unfold range. by rewrite length_map, length_seq. Qed.

Lemma elem_of_range (n : nat) (i : Z) : i ∈ range n <-> 0 <= i < Z.of_nat n.
Proof.
  unfold range. rewrite list_elem_of_fmap. split.
  - intros (k & -> & Hk). apply elem_of_seq in Hk. lia.
  - intros H. exists (Z.to_nat i). split; [lia|]. apply elem_of_seq. lia.
Qed.

Lemma elem_of_zip_range {A : Type} (sq : list A) (n : nat) (v : A) (i : Z) :
  length sq = n ->
  (v, i) ∈ zip sq (range n) <-> 0 <= i < Z.of_nat n /\ sq !! Z.to_nat i = Some v.
Proof.
  intros Hlen. rewrite list_elem_of_lookup. split.
  - intros (k & Hk). apply lookup_zip_with_Some in Hk as (v' & i' & [= <- <-] & Hv & Hi).
    assert (k < n)%nat as Hkn by (apply lookup_lt_Some in Hi; by rewrite range_length in Hi).
    rewrite range_lookup in Hi by done. injection Hi as <-.
    split; [lia|]. by rewrite Nat2Z.id.
  - intros (Hi & Hv). exists (Z.to_nat i).
    apply lookup_zip_with_Some. exists v, i. split; [done|]. split; [done|].
    rewrite range_lookup by lia. f_equal. lia.
Qed.

Lemma NoDup_range (n : nat) : NoDup (range n).
Proof.
  unfold range. apply NoDup_fmap_2; [|apply NoDup_seq].
  intros a b. lia.
Qed.

Section QueueItems.

Context (tsum : list float32 -> float32).

Lemma squared_magnitude_length (features : list (list float32)) :
  length (squared_magnitude tsum features) = length features.
Proof. unfold squared_magnitude. apply length_map. Qed.

Lemma build_queue_inv (features : list (list float32)) (edges_count : Z)
    (queue : list entry) :
  build_queue tsum features edges_count = Ok queue ->
  0 <= edges_count /\ len features = edges_count /\ edges_count <> 1 /\
  queue = heapify entry_lt (queue_items tsum features edges_count).
Proof.
  unfold build_queue, len. rewrite squared_magnitude_length.
  destruct (Z.ltb_spec edges_count 0); [done|].
  destruct (Z.eqb_spec (Z.of_nat (length features)) 1); [done|].
  destruct (Z.eqb_spec (Z.of_nat (length features)) edges_count); [|done].
  cbn [negb]. intros [= <-]. split; [lia|]. split; [lia|]. split; [lia|].
  reflexivity.
Qed.

Lemma build_queue_Ok (features : list (list float32)) (edges_count : Z) :
  len features = edges_count -> edges_count <> 1 ->
  build_queue tsum features edges_count
  = Ok (heapify entry_lt (queue_items tsum features edges_count)).
Proof.
  intros Hlen Hne. unfold build_queue, len in *.
  rewrite squared_magnitude_length.
  destruct (Z.ltb_spec edges_count 0); [lia|].
  destruct (Z.eqb_spec (Z.of_nat (length features)) 1); [lia|].
  destruct (Z.eqb_spec (Z.of_nat (length features)) edges_count); [|lia].
  done.
Qed.

Lemma queue_items_length (features : list (list float32)) (n : nat) :
  length features = n ->
  length (queue_items tsum features (Z.of_nat n)) = n.
Proof.
  intros Hlen. unfold queue_items.
  rewrite length_zip_with, squared_magnitude_length, length_map, range_length.
  lia.
Qed.

(** The item of edge [j] is its magnitude, as the design defines it, with
    the float32 value of [j]. *)
Lemma queue_items_lookup (features : list (list float32)) (n j : nat)
    (x : entry) :
  length features = n ->
  queue_items tsum features (Z.of_nat n) !! j = Some x <->
  exists column,
    features !! j = Some column /\
    x = (edge_magnitude tsum column, f32_of_index (Z.of_nat j)).
Proof.
  intros Hlen. unfold queue_items, squared_magnitude, edge_magnitude.
  rewrite Nat2Z.id. split.
  - intros (v & i & -> & Hv & Hi)%lookup_zip_with_Some.
    apply list_lookup_fmap_Some in Hv as (column & -> & Hcol).
    apply list_lookup_fmap_Some in Hi as (k & -> & Hk).
    apply lookup_lt_Some in Hcol as Hlt.
    rewrite range_lookup in Hk by lia. injection Hk as <-.
    by exists column.
  - intros (column & Hcol & ->). apply lookup_lt_Some in Hcol as Hlt.
    apply lookup_zip_with_Some. eexists _, _. split; [done|]. split.
    + by rewrite list_lookup_fmap, Hcol.
    + by rewrite list_lookup_fmap, range_lookup by lia.
Qed.

Lemma queue_items_no_nan (features : list (list float32)) (n : nat) :
  length features = n -> Z.of_nat n <= 2 ^ 24 ->
  Forall (fun column => is_nan (edge_magnitude tsum column) = false)
    features ->
  Forall no_nan (queue_items tsum features (Z.of_nat n)).
Proof.
  intros Hlen Hn Hnan. apply Forall_lookup. intros j x Hx.
  apply (queue_items_lookup _ _ _ _ Hlen) in Hx as (column & Hcol & ->).
  apply lookup_lt_Some in Hcol as Hlt. split; simpl.
  - by apply (Forall_lookup_1 _ _ _ _ Hnan Hcol).
  - apply f32_of_index_not_nan. lia.
Qed.

(** Up to 2^24 edges, the ids the items carry are the edge ids
    themselves, each once. *)
Lemma queue_items_ids (features : list (list float32)) (n : nat) :
  length features = n -> Z.of_nat n <= 2 ^ 24 ->
  map entry_id (queue_items tsum features (Z.of_nat n)) = range n.
Proof.
  intros Hlen Hn. apply list_eq. intros j.
  rewrite list_lookup_fmap.
  destruct (decide (j < n)%nat) as [Hj|Hj].
  - destruct (lookup_lt_is_Some_2 features j) as [column Hcol]; [lia|].
    rewrite (proj2 (queue_items_lookup features n j _ Hlen)) by eauto.
    rewrite range_lookup by done. simpl. unfold entry_id. simpl.
    by rewrite f32_of_index_int by lia.
  - rewrite (lookup_ge_None_2 (range n)) by (rewrite range_length; lia).
    rewrite lookup_ge_None_2; [done|].
    rewrite (queue_items_length _ _ Hlen). lia.
Qed.

End QueueItems.

(** *** The heap of float32 items *)

Lemma entries_heapify (l : list entry) :
  Forall no_nan l ->
  heap_from entry_key_lt 0 (heapify entry_lt l) /\
  Forall no_nan (heapify entry_lt l).
Proof.
  intros Hl. split.
  - rewrite (heapify_ext entry_lt entry_key_lt no_nan entry_lt_key) by done.
    apply heapify_heap; [apply entry_key_lt_asym|apply entry_key_lt_trans].
  - by rewrite heapify_perm.
Qed.

Lemma entries_heappop (h h' : list entry) (x : entry) :
  Forall no_nan h -> heap_from entry_key_lt 0 h ->
  heappop entry_lt h = Ok (x, h') ->
  (forall y, y ∈ h -> entry_key_lt y x = false) /\
  heap_from entry_key_lt 0 h' /\ Forall no_nan h'.
Proof.
  intros Hh Hheap Hpop.
  pose proof (heappop_perm _ _ _ _ Hpop) as Hperm.
  rewrite (heappop_ext entry_lt entry_key_lt no_nan entry_lt_key) in Hpop
    by done.
  destruct (heappop_heap entry_key_lt entry_key_lt_asym entry_key_lt_trans
              _ _ _ Hheap Hpop) as [Hleast Hheap'].
  split; [done|]. split; [done|].
  rewrite <- Hperm in Hh. by apply Forall_cons in Hh as [_ ?].
Qed.

Lemma heap_drain_perm {A : Type} `{!Inhabited A} (lt : A -> A -> bool)
    (queue : list A) :
  heap_drain lt (length queue) queue ≡ₚ queue.
Proof.
  remember (length queue) as n eqn:Hn. revert queue Hn.
  induction n as [|n IH]; intros queue Hn.
  - by destruct queue.
  - cbn [heap_drain].
    destruct (heappop_nonempty lt queue) as (x & queue' & Hpop).
    { by destruct queue. }
    rewrite Hpop. pose proof (heappop_length _ _ _ _ Hpop) as Hlen.
    rewrite IH by lia. by apply heappop_perm in Hpop.
Qed.

Lemma heap_drain_length {A : Type} `{!Inhabited A} (lt : A -> A -> bool)
    (queue : list A) :
  length (heap_drain lt (length queue) queue) = length queue.
Proof. by rewrite heap_drain_perm. Qed.

(** The order between two items that are not NaN, read on the floats and
    on the edge ids. *)
Lemma entry_key_le_floats (v w : float32) (i j : Z) :
  is_nan v = false -> is_nan w = false ->
  0 <= i < 2 ^ 24 -> 0 <= j < 2 ^ 24 ->
  entry_key_lt (w, f32_of_index j) (v, f32_of_index i) = false ->
  SFltb v w = true \/ (SFeqb v w = true /\ i <= j).
Proof.
  intros Hv Hw Hi Hj H.
  destruct (SFcompare_key v w Hv Hw) as [-> ->].
  unfold entry_key_lt in H. cbn [fst snd] in H.
  destruct (Z.lt_ge_cases j i) as [Hlt|Hge].
  - rewrite (f32_of_index_lt j i) in H by lia.
    revert H. unfold key_lt, key_eqb.
    destruct (float_key v) as [[k1 k2] k3], (float_key w) as [[l1 l2] l3].
    cbn [fst snd]. lia.
  - revert H. generalize (key_lt (float_key (f32_of_index j))
                            (float_key (f32_of_index i))).
    intros b. unfold key_lt, key_eqb.
    destruct (float_key v) as [[k1 k2] k3], (float_key w) as [[l1 l2] l3].
    cbn [fst snd]. destruct b; lia.
Qed.

(** ** The loop of [__pool_main] *)

Lemma heappop_result {A : Type} `{!Inhabited A} (lt : A -> A -> bool)
    (h : list A) :
  (h = [] /\ heappop lt h = Raise IndexError) \/
  (exists x h', heappop lt h = Ok (x, h') /\ length h = S (length h')).
Proof.
  destruct h as [|y h]; [left; split; [done|]|right].
  - by destruct (heappop_cases lt []) as [[_ H]|[(x & ? & _)|(x & ? & ? & ? & _)]].
  - destruct (heappop_nonempty lt (y :: h)) as (x & h' & Hpop); [done|].
    exists x, h'. split; [done|]. by apply heappop_length in Hpop.
Qed.

Section PoolLoop.

Context {G : Type} (ops : MeshOps G) (out_target : Z).

Lemma pool_while_first fuel n queue value id_f edge_id queue'
    (st : PoolState G) :
  out_target < edges_count (st_mesh st) ->
  heappop entry_lt queue = Ok ((value, id_f), queue') ->
  int_of_float id_f = Ok edge_id ->
  exists rest,
    run_popped (pool_while ops out_target fuel (S n) queue st)
    = edge_id :: rest.
Proof.
  intros Hgt Hpop Hint. cbn [pool_while].
  destruct (Z.ltb_spec out_target (edges_count (st_mesh st))); [|lia].
  rewrite Hpop, Hint.
  destruct (getitem (st_mask st) edge_id) as [[|]| |];
    [|by eexists..].
  destruct (pool_edge ops out_target fuel st edge_id) as [[status st']| |];
    by eexists.
Qed.

Lemma pool_while_prefix fuel n queue (st : PoolState G) :
  run_popped (pool_while ops out_target fuel n queue st)
  `prefix_of` map entry_id (heap_drain entry_lt (length queue) queue).
Proof.
  revert queue st. induction n as [|n IH]; intros queue st; cbn [pool_while].
  - apply prefix_nil.
  - destruct (out_target <? edges_count (st_mesh st)); [|apply prefix_nil].
    destruct (heappop_result entry_lt queue)
      as [[-> Hpop]|([value id_f] & queue' & Hpop & Hlen)];
      rewrite Hpop; [apply prefix_nil|].
    rewrite Hlen. cbn [heap_drain]. rewrite Hpop. cbn [map].
    unfold entry_id at 1. cbn [snd].
    destruct (int_of_float id_f) as [edge_id| |]; [|apply prefix_nil..].
    destruct (getitem (st_mask st) edge_id) as [[|]| |].
    + destruct (pool_edge ops out_target fuel st edge_id)
        as [[status st']| |].
      * apply prefix_cons, IH.
      * apply prefix_cons, prefix_nil.
      * apply prefix_cons, prefix_nil.
    + apply prefix_cons, IH.
    + apply prefix_cons, prefix_nil.
    + apply prefix_cons, prefix_nil.
Qed.

(** Every round of the loop calls [heappop] once; the call returns an
    item unless the queue is empty, so the calls are at most one more
    than the items, and the call after the last item raises. *)
Lemma pool_while_calls fuel n queue (st : PoolState G) :
  let run := pool_while ops out_target fuel n queue st in
  (length (run_popped run) <= run_heappops run)%nat /\
  (run_heappops run <= S (length (run_popped run)))%nat /\
  (run_heappops run <= S (length queue))%nat /\
  (length (run_popped run) <= length queue)%nat /\
  (run_heappops run = S (length queue) -> run_result run = Raise IndexError).
Proof.
  revert queue st. induction n as [|n IH]; intros queue st; cbn [pool_while].
  - cbn. repeat split; [lia..|done].
  - destruct (out_target <? edges_count (st_mesh st));
      [|cbn; repeat split; [lia..|done]].
    destruct (heappop_result entry_lt queue)
      as [[-> Hpop]|([value id_f] & queue' & Hpop & Hlen)];
      rewrite Hpop; [cbn; repeat split; lia|].
    assert (forall r : result (PoolState G),
              let run := (1%nat, @nil Z, r) in
              (length (run_popped run) <= run_heappops run)%nat /\
              (run_heappops run <= S (length (run_popped run)))%nat /\
              (run_heappops run <= S (length queue))%nat /\
              (length (run_popped run) <= length queue)%nat /\
              (run_heappops run = S (length queue) ->
               run_result run = Raise IndexError)) as Hnil.
    { intros r. cbn. repeat split; lia. }
    assert (forall (i : Z) (r : result (PoolState G)),
              let run := (1%nat, [i], r) in
              (length (run_popped run) <= run_heappops run)%nat /\
              (run_heappops run <= S (length (run_popped run)))%nat /\
              (run_heappops run <= S (length queue))%nat /\
              (length (run_popped run) <= length queue)%nat /\
              (run_heappops run = S (length queue) ->
               run_result run = Raise IndexError)) as Hone.
    { intros i r. cbn. repeat split; lia. }
    assert (forall (i : Z) st',
              let run := popped_cons i
                           (pool_while ops out_target fuel n queue' st') in
              (length (run_popped run) <= run_heappops run)%nat /\
              (run_heappops run <= S (length (run_popped run)))%nat /\
              (run_heappops run <= S (length queue))%nat /\
              (length (run_popped run) <= length queue)%nat /\
              (run_heappops run = S (length queue) ->
               run_result run = Raise IndexError)) as Hrec.
    { intros i st'. destruct (IH queue' st') as (H1 & H2 & H3 & H4 & H5).
      unfold popped_cons, run_popped, run_heappops, run_result in *.
      cbn [fst snd length]. rewrite Hlen.
      repeat split; [lia..|]. intros Heq. apply H5. lia. }
    destruct (int_of_float id_f) as [edge_id| |]; [|apply Hnil..].
    destruct (getitem (st_mask st) edge_id) as [[|]| |];
      [|apply Hrec|apply Hone..].
    destruct (pool_edge ops out_target fuel st edge_id) as [[status st']| |];
      [apply Hrec|apply Hone..].
Qed.

Lemma pool_while_enough fuel n m queue (st : PoolState G) :
  (length queue < n)%nat -> (length queue < m)%nat ->
  pool_while ops out_target fuel n queue st
  = pool_while ops out_target fuel m queue st.
Proof.
  revert m queue st. induction n as [|n IH]; intros m queue st Hn Hm; [lia|].
  destruct m as [|m]; [lia|]. cbn [pool_while].
  destruct (out_target <? edges_count (st_mesh st)); [|done].
  destruct (heappop_result entry_lt queue)
    as [[-> Hpop]|([value id_f] & queue' & Hpop & Hlen)];
    rewrite Hpop; [done|].
  destruct (int_of_float id_f) as [edge_id| |]; [|done..].
  destruct (getitem (st_mask st) edge_id) as [[|]| |]; try done.
  - destruct (pool_edge ops out_target fuel st edge_id) as [[status st']| |];
      try done.
    by rewrite (IH m) by lia.
  - by rewrite (IH m) by lia.
Qed.

Lemma pool_while_Ok_target fuel n queue (st st' : PoolState G) :
  run_result (pool_while ops out_target fuel n queue st) = Ok st' ->
  edges_count (st_mesh st') <= out_target.
Proof.
  revert queue st. induction n as [|n IH]; intros queue st; cbn [pool_while];
    [done|].
  destruct (Z.ltb_spec out_target (edges_count (st_mesh st))).
  - destruct (heappop entry_lt queue) as [[[value id_f] queue']| |];
      [|done..].
    destruct (int_of_float id_f) as [edge_id| |]; [|done..].
    destruct (getitem (st_mask st) edge_id) as [[|]| |]; try done.
    + destruct (pool_edge ops out_target fuel st edge_id)
        as [[status st1]| |]; try done. apply IH.
    + apply IH.
  - cbn. by intros [= <-].
Qed.

Lemma pool_while_empty fuel n (st : PoolState G) :
  out_target < edges_count (st_mesh st) ->
  pool_while ops out_target fuel (S n) [] st = (1%nat, [], Raise IndexError).
Proof.
  intros H. cbn [pool_while].
  by destruct (Z.ltb_spec out_target (edges_count (st_mesh st))); [|lia].
Qed.

(** When every candidate of the queue is alive and rejected without a
    change, the queue is drained and the next [heappop] fails. *)
Lemma pool_while_all_rejected fuel n queue (st : PoolState G) :
  out_target < edges_count (st_mesh st) ->
  Forall (fun item : entry =>
            int_of_float item.2 = Ok (entry_id item) /\
            getitem (st_mask st) (entry_id item) = Ok true /\
            pool_edge ops out_target fuel st (entry_id item) = Ok (false, st))
    queue ->
  (length queue < n)%nat ->
  pool_while ops out_target fuel n queue st
  = (S (length queue),
     map entry_id (heap_drain entry_lt (length queue) queue),
     Raise IndexError).
Proof.
  intros Hgt. revert queue.
  induction n as [|n IH]; intros queue Hall Hn; [lia|].
  destruct (heappop_result entry_lt queue)
    as [[-> Hpop]|(item & queue' & Hpop & Hlen)].
  - by apply pool_while_empty.
  - pose proof (heappop_perm _ _ _ _ Hpop) as Hperm.
    rewrite <- Hperm in Hall.
    apply Forall_cons in Hall as [(Hint & Hmask & Hrej) Hall].
    cbn [pool_while].
    destruct (Z.ltb_spec out_target (edges_count (st_mesh st))); [|lia].
    rewrite Hpop, Hlen. cbn [heap_drain]. rewrite Hpop.
    destruct item as [value id_f]. cbn [snd] in Hint.
    rewrite Hint, Hmask, Hrej, (IH queue' Hall) by lia. done.
Qed.

End PoolLoop.

(** C5, as amended.  For a mesh of at least two and at most 2^24 edges
    whose squared magnitudes are numbers (none is NaN), the queue is
    built, and the first item popped is the item of an edge below
    [edges_count]: its value is the squared magnitude of that edge's
    feature column, as float32 arithmetic computes it, and its id converts
    back to the edge's index.  No edge has a smaller magnitude, and among
    the edges of equal magnitude none has a smaller index.  It is the
    first edge the loop of [__pool_main] pops. *)
Theorem first_pop_is_least_edge {G : Type} (ops : MeshOps G)
    (out_target : Z) (fuel : nat) (features : list (list float32))
    (st : PoolState G) :
  len features = edges_count (st_mesh st) ->
  2 <= edges_count (st_mesh st) <= 2 ^ 24 ->
  out_target < edges_count (st_mesh st) ->
  Forall (fun column => is_nan (edge_magnitude (torch_sum ops) column) = false)
    features ->
  exists queue value id_f edge_id column queue',
    build_queue (torch_sum ops) features (edges_count (st_mesh st))
    = Ok queue /\
    heappop entry_lt queue = Ok ((value, id_f), queue') /\
    int_of_float id_f = Ok edge_id /\
    0 <= edge_id < edges_count (st_mesh st) /\
    features !! Z.to_nat edge_id = Some column /\
    value = edge_magnitude (torch_sum ops) column /\
    (forall j column_j,
       0 <= j < edges_count (st_mesh st) ->
       features !! Z.to_nat j = Some column_j ->
       SFltb value (edge_magnitude (torch_sum ops) column_j) = true \/
       (SFeqb value (edge_magnitude (torch_sum ops) column_j) = true /\
        edge_id <= j)) /\
    exists rest,
      run_popped (pool_while ops out_target fuel (S (length queue)) queue st)
      = edge_id :: rest.
Proof.
  intros Hlen H2 Hgt Hnan. set (ec := edges_count (st_mesh st)) in *.
  set (n := length features).
  assert (ec = Z.of_nat n) as Hec by (unfold len in Hlen; lia).
  set (items := queue_items (torch_sum ops) features ec).
  assert (Forall no_nan items) as Hitems.
  { unfold items. rewrite Hec. apply queue_items_no_nan; [done|lia|done]. }
  destruct (entries_heapify items Hitems) as [Hheap Hqnan].
  assert (length (heapify entry_lt items) = n) as Hq.
  { rewrite heapify_perm. unfold items. rewrite Hec.
    by apply queue_items_length. }
  destruct (heappop_nonempty entry_lt (heapify entry_lt items))
    as ([value id_f] & queue' & Hpop).
  { intros Hnil. rewrite Hnil in Hq. simpl in Hq. lia. }
  destruct (entries_heappop _ _ _ Hqnan Hheap Hpop) as (Hleast & _ & _).
  assert ((value, id_f) ∈ items) as Hin.
  { rewrite <- (heapify_perm entry_lt items),
      <- (heappop_perm _ _ _ _ Hpop). apply list_elem_of_here. }
  apply list_elem_of_lookup in Hin as [k Hk]. unfold items in Hk.
  rewrite Hec in Hk.
  apply (queue_items_lookup _ features n k _ eq_refl) in Hk
    as (column & Hcol & [= -> ->]).
  apply lookup_lt_Some in Hcol as Hkn. fold n in Hkn.
  exists (heapify entry_lt items), (edge_magnitude (torch_sum ops) column),
    (f32_of_index (Z.of_nat k)), (Z.of_nat k), column, queue'.
  assert (int_of_float (f32_of_index (Z.of_nat k)) = Ok (Z.of_nat k)) as Hint.
  { apply f32_of_index_int. lia. }
  split; [apply build_queue_Ok; [done|lia]|].
  split; [done|]. split; [done|]. split; [lia|].
  split; [by rewrite Nat2Z.id|]. split; [done|]. split.
  - intros j column_j Hj Hcolj.
    apply entry_key_le_floats; [| |lia..|].
    + eapply (Forall_lookup_1 _ _ _ _ Hnan Hcol).
    + eapply (Forall_lookup_1 _ _ _ _ Hnan Hcolj).
    + apply Hleast. rewrite heapify_perm. apply list_elem_of_lookup.
      exists (Z.to_nat j). unfold items. rewrite Hec.
      apply (queue_items_lookup _ features n _ _ eq_refl).
      exists column_j. split; [done|]. f_equal. f_equal. lia.
  - by eapply pool_while_first.
Qed.

Lemma first_pop_is_least_edge_witness :
  exists queue value id_f edge_id column queue',
    build_queue (torch_sum sample_ops)
      (map (fun i => [f32_of_index (12 - i); f32_of_index 1]) (range 12))
      (edges_count (st_mesh (start_state (mesh_of 8 cube_faces))))
    = Ok queue /\
    heappop entry_lt queue = Ok ((value, id_f), queue') /\
    int_of_float id_f = Ok edge_id /\
    0 <= edge_id
    < edges_count (st_mesh (start_state (mesh_of 8 cube_faces))) /\
    map (fun i => [f32_of_index (12 - i); f32_of_index 1]) (range 12)
      !! Z.to_nat edge_id = Some column /\
    value = edge_magnitude (torch_sum sample_ops) column /\
    (forall j column_j,
       0 <= j < edges_count (st_mesh (start_state (mesh_of 8 cube_faces))) ->
       map (fun i => [f32_of_index (12 - i); f32_of_index 1]) (range 12)
         !! Z.to_nat j = Some column_j ->
       SFltb value (edge_magnitude (torch_sum sample_ops) column_j) = true \/
       (SFeqb value (edge_magnitude (torch_sum sample_ops) column_j) = true /\
        edge_id <= j)) /\
    exists rest,
      run_popped (pool_while sample_ops 6 1 (S (length queue)) queue
                    (start_state (mesh_of 8 cube_faces)))
      = edge_id :: rest.
Proof.
  apply (first_pop_is_least_edge sample_ops 6 1
           (map (fun i => [f32_of_index (12 - i); f32_of_index 1]) (range 12))
           (start_state (mesh_of 8 cube_faces))).
  - vm_compute. reflexivity.
  - vm_compute. split; discriminate.
  - vm_compute. reflexivity.
  - refine (bool_decide_unpack _ _). vm_compute. exact I.
Defined.

(** C5 fails as stated, in three ways.  With a NaN among the magnitudes
    the comparisons of [heapify] are no total order: for the magnitudes
    25, 1 and NaN of edges 0, 1 and 2 the first item popped is that of
    edge 2, whose NaN is neither below nor equal to the magnitude 1 of
    edge 1.  With a single edge no queue is built.  And the ids are
    float32 numbers: the edges 2^24 and 2^24 + 1 carry the same id. *)
Lemma first_pop_counterexample :
  (exists queue queue',
     build_queue sample_torch_sum
       [[f32_of_index 5]; [f32_of_index 1]; [S754_nan]] 3 = Ok queue /\
     heappop entry_lt queue = Ok ((S754_nan, f32_of_index 2), queue') /\
     int_of_float (f32_of_index 2) = Ok 2 /\
     edge_magnitude sample_torch_sum [S754_nan] = S754_nan /\
     edge_magnitude sample_torch_sum [f32_of_index 1] = f32_of_index 1 /\
     edge_magnitude sample_torch_sum [f32_of_index 5] = f32_of_index 25 /\
     SFltb S754_nan (f32_of_index 1) = false /\
     SFeqb S754_nan (f32_of_index 1) = false /\
     SFltb (f32_of_index 1) (f32_of_index 25) = true) /\
  build_queue sample_torch_sum [[f32_of_index 5]] 1 = Raise RuntimeError /\
  f32_of_index (2 ^ 24 + 1) = f32_of_index (2 ^ 24).
Proof.
  split; [|split; vm_compute; reflexivity].
  eexists _, _. split; [vm_compute; reflexivity|].
  repeat split; vm_compute; reflexivity.
Qed.

(** C7, as amended.  Every round of the loop of [__pool_main] calls
    [heappop] once and nothing is pushed back, so the ids popped are a
    prefix of the ids of the initial queue in the order in which [heappop]
    hands them out, and at most as many as the queue had items, which is
    [edges_count].  The calls of [heappop] are at most one more than that:
    the last of them finds the queue empty and raises [IndexError], which
    ends the pass.  Up to 2^24 edges no id is popped twice.  Allowing the
    loop more rounds changes nothing. *)
Theorem pool_main_pops_bounded {G : Type} (ops : MeshOps G) (out_target : Z)
    (fuel : nat) (fe : list (list float32)) (mesh : Mesh) :
  let run := pool_main ops out_target fuel fe mesh in
  (run.1.1 <= S (Z.to_nat (edges_count mesh)))%nat /\
  (length run.1.2 <= Z.to_nat (edges_count mesh))%nat /\
  (length run.1.2 <= run.1.1)%nat /\
  (run.1.1 <= S (length run.1.2))%nat /\
  (run.1.1 = S (Z.to_nat (edges_count mesh)) -> run.2 = Raise IndexError) /\
  (edges_count mesh <= 2 ^ 24 -> NoDup run.1.2) /\
  forall queue,
    build_queue (torch_sum ops) (slice_to fe (edges_count mesh))
      (edges_count mesh) = Ok queue ->
    length queue = Z.to_nat (edges_count mesh) /\
    heap_drain entry_lt (length queue) queue ≡ₚ queue /\
    run.1.2
    `prefix_of` map entry_id (heap_drain entry_lt (length queue) queue) /\
    forall (n : nat) (st : PoolState G),
      (length queue < n)%nat ->
      pool_while ops out_target fuel n queue st
      = pool_while ops out_target fuel (S (length queue)) queue st.
Proof.
  unfold pool_main.
  destruct (build_queue (torch_sum ops) (slice_to fe (edges_count mesh))
              (edges_count mesh)) as [queue| |] eqn:Hq; cbn [fst snd];
    [|repeat split; first [simpl; lia | constructor | done]..].
  destruct (build_queue_inv _ _ _ _ Hq) as (Hec & Hlen & Hne & Hqueue).
  set (features := slice_to fe (edges_count mesh)) in *.
  set (n := length features) in *.
  assert (edges_count mesh = Z.of_nat n) as Hn by (unfold len in Hlen; lia).
  assert (length queue = Z.to_nat (edges_count mesh)) as Hqlen.
  { rewrite Hqueue, heapify_perm, Hn, Nat2Z.id.
    by apply queue_items_length. }
  set (st0 := mkPoolState mesh (replicate (Z.to_nat (edges_count mesh)) true)
                (groups_new ops (edges_count mesh))).
  pose proof (pool_while_prefix ops out_target fuel (S (length queue)) queue
                st0) as Hpre.
  destruct (pool_while_calls ops out_target fuel (S (length queue)) queue st0)
    as (H1 & H2 & H3 & H4 & H5).
  rewrite <- Hqlen.
  split; [done|]. split; [done|]. split; [done|]. split; [done|].
  split; [|split].
  - intros Hcalls. by rewrite (H5 Hcalls).
  - intros Hsmall. destruct Hpre as [k Hk].
    assert (NoDup (map entry_id (heap_drain entry_lt (length queue) queue)))
      as Hnd.
    { rewrite heap_drain_perm, Hqueue, heapify_perm, Hn.
      rewrite (queue_items_ids _ _ n eq_refl) by lia. apply NoDup_range. }
    rewrite Hk in Hnd. by apply NoDup_app in Hnd as [? _].
  - intros queue0 [= <-]. split; [done|].
    split; [apply heap_drain_perm|]. split; [done|].
    intros m st Hm. apply pool_while_enough; lia.
Qed.

(** C7 fails as stated.  On the ring every one of the twelve candidates is
    rejected, so the loop comes back to [heappop] with the queue empty: it
    makes thirteen calls on a queue of twelve entries. *)
Lemma pool_main_heappops_counterexample :
  exists queue,
    build_queue (torch_sum sample_ops)
      (slice_to (replicate 12 [f32_of_index 1; f32_of_index 2])
         (edges_count (mesh_of 8 ring_faces)))
      (edges_count (mesh_of 8 ring_faces)) = Ok queue /\
    length queue = 12%nat /\
    (pool_main sample_ops 6 1 (replicate 12 [f32_of_index 1; f32_of_index 2])
       (mesh_of 8 ring_faces)).1.1 = 13%nat.
Proof. eexists. repeat split; vm_compute; reflexivity. Qed.

(** C4, as amended.  The loop ends normally only once [edges_count] has
    come down to the target.  With the queue empty and [edges_count]
    still above the target, [heappop] raises [IndexError]; in particular
    a queue of live candidates that are all rejected is drained and the
    pass then fails.  [__pool_main] hands the exception on: it returns
    features only when the loop has reached the target. *)
Theorem pool_loop_exhaustion {G : Type} (ops : MeshOps G) (out_target : Z)
    (fuel : nat) :
  (forall n queue (st st' : PoolState G),
     run_result (pool_while ops out_target fuel n queue st) = Ok st' ->
     edges_count (st_mesh st') <= out_target) /\
  (forall n (st : PoolState G),
     out_target < edges_count (st_mesh st) ->
     pool_while ops out_target fuel (S n) [] st
     = (1%nat, [], Raise IndexError)) /\
  (forall queue (st : PoolState G),
     out_target < edges_count (st_mesh st) ->
     Forall (fun item : entry =>
               int_of_float item.2 = Ok (entry_id item) /\
               getitem (st_mask st) (entry_id item) = Ok true /\
               pool_edge ops out_target fuel st (entry_id item)
               = Ok (false, st))
       queue ->
     pool_while ops out_target fuel (S (length queue)) queue st
     = (S (length queue),
        map entry_id (heap_drain entry_lt (length queue) queue),
        Raise IndexError)) /\
  (forall fe mesh r,
     (pool_main ops out_target fuel fe mesh).2 = Ok r ->
     exists queue st',
       build_queue (torch_sum ops) (slice_to fe (edges_count mesh))
         (edges_count mesh) = Ok queue /\
       run_result
         (pool_while ops out_target fuel (S (length queue)) queue
            (mkPoolState mesh (replicate (Z.to_nat (edges_count mesh)) true)
               (groups_new ops (edges_count mesh)))) = Ok st' /\
       edges_count (st_mesh st') <= out_target).
Proof.
  split; [|split; [|split]].
  - intros n queue st st'. apply pool_while_Ok_target.
  - intros n st. apply pool_while_empty.
  - intros queue st Hgt Hall. apply pool_while_all_rejected; [done..|lia].
  - intros fe mesh r. unfold pool_main.
    destruct (build_queue _ _ _) as [queue| |]; cbn [fst snd]; [|done..].
    intros H. inv_bind H. exists queue, x. split; [done|]. split; [done|].
    by eapply pool_while_Ok_target.
Qed.

(** C4 fails as stated.  On the ring every edge is on or next to the
    border, so each of the twelve candidates is rejected; the queue is
    empty with twelve edges left and a target of six, and the pass ends
    with [IndexError] instead of a pooled mesh. *)
Lemma pool_main_exhaustion_counterexample :
  pool_main sample_ops 6 1 (replicate 12 [f32_of_index 1; f32_of_index 2])
    (mesh_of 8 ring_faces)
  = (13%nat, range 12, Raise IndexError).
Proof. vm_compute. reflexivity. Qed.

(** ** Rejected attempts *)

Section Rejection.

Context {G : Type} (ops : MeshOps G) (out_target : Z).

Implicit Types (st : PoolState G).

Lemma pool_mesh_operations_fuel fuel st st1 :
  pool_mesh_operations ops fuel st = Ok st1 -> exists fuel', fuel = S fuel'.
Proof. destruct fuel; [done|eauto]. Qed.

(** Once the normalisation has brought [edges_count] down to the target,
    the candidate is rejected whatever its neighbourhood: by the boundary
    test, or else by the guard of [__clean_side]. *)
Lemma pool_edge_rejects_at_target fuel st st1 edge_id b :
  pool_mesh_operations ops fuel st = Ok st1 ->
  edges_count (st_mesh st1) <= out_target ->
  has_boundaries (st_mesh st1) edge_id = Ok b ->
  pool_edge ops out_target fuel st edge_id = Ok (false, st1).
Proof.
  intros H1 H2 H3. unfold pool_edge. rewrite H1. simpl. rewrite H3. simpl.
  destruct b; [done|].
  by rewrite (clean_side_below_target out_target (st_mesh st1) edge_id 0 H2).
Qed.

Lemma pool_edge_false fuel st edge_id st' :
  pool_edge ops out_target fuel st edge_id = Ok (false, st') ->
  exists st1,
    pool_mesh_operations ops fuel st = Ok st1 /\
    (st' = st1 \/
     exists st2,
       edge_collapse ops edge_id st1 = Ok (false, st2) /\
       pool_mesh_operations ops fuel st2 = Ok st').
Proof.
  unfold pool_edge. intros H. inv_bind H. rename x into st1.
  exists st1. split; [done|].
  inv_bind H. destruct x; [left; by injection H as <-|].
  inv_bind H. destruct x; simpl in H; [|left; by injection H as <-].
  inv_bind H. destruct x; simpl in H; [|left; by injection H as <-].
  inv_bind H. destruct x; simpl in H; [|left; by injection H as <-].
  inv_bind H. destruct x as [status st2]. inv_bind H.
  injection H as -> <-. right. by exists st2.
Qed.

End Rejection.

Section SpecRejection.

Context (rotate : Z -> list Z -> list (Z * Z) -> Mesh
                  -> option (Mesh * odict (list Z) * list Z)).
Context (out_target : Z).

Implicit Types (st : PoolState Groups).

Lemma with_mesh_same st : with_mesh st (st_mesh st) = st.
Proof. by destruct st. Qed.

Lemma sample_find_doublets_mesh (m m' : Mesh) vertices vs pairs :
  sample_find_doublets m vertices = Ok (m', vs, pairs) -> m' = m.
Proof.
  unfold sample_find_doublets. intros H. inv_bind H. by injection H as <-.
Qed.

Lemma sample_find_doublets_none (m m' : Mesh) vs pairs :
  no_doublet m ->
  sample_find_doublets m None = Ok (m', vs, pairs) -> vs = [].
Proof.
  unfold sample_find_doublets. intros Hnone H. inv_bind H.
  injection H as _ <- _. rename x into found.
  apply map_result_Ok in Hx.
  assert (Forall (fun ves : Z * list Z => length ves.2 <> 2%nat) found)
    as Hall.
  { clear -Hx Hnone. induction Hx as [|v [v' es] ? ? Hv _ IH];
      constructor; [|done].
    inv_bind Hv. injection Hv as _ ->. simpl.
    match goal with
    | Hget : getitem _ _ = Ok _ |- _ => apply getitem_Ok_elem in Hget
    end.
    by apply (proj1 (Forall_forall _ _) Hnone). }
  clear Hx. induction Hall as [|ves found Hves _ IH]; [done|].
  rewrite filter_cons. by destruct (decide (length ves.2 = 2%nat)).
Qed.

Lemma spec_pool_doublets_false st st' :
  pool_doublets (spec_ops rotate) st None = Ok (false, st') -> st' = st.
Proof.
  unfold pool_doublets. intros H. inv_bind H.
  destruct x as [[m0 vs] pairs]. cbn [find_doublets spec_ops] in Hx.
  apply sample_find_doublets_mesh in Hx as ->.
  rewrite with_mesh_same in H.
  destruct (len vs =? 0); [by injection H as <-|].
  by inv_bind H.
Qed.

Lemma spec_pool_doublets_none st cleared st' :
  no_doublet (st_mesh st) ->
  pool_doublets (spec_ops rotate) st None = Ok (cleared, st') ->
  cleared = false.
Proof.
  unfold pool_doublets. intros Hnone H. inv_bind H.
  destruct x as [[m0 vs] pairs]. cbn [find_doublets spec_ops] in Hx.
  apply (sample_find_doublets_none _ _ _ _ Hnone) in Hx as ->.
  cbn in H. by injection H as <- _.
Qed.

(** The state the normalisation returns has no doublet to clear:
    normalising it again changes nothing. *)
Lemma spec_pool_mesh_operations_done fuel st st1 :
  pool_mesh_operations (spec_ops rotate) fuel st = Ok st1 ->
  forall fuel', pool_mesh_operations (spec_ops rotate) (S fuel') st1 = Ok st1.
Proof.
  revert st. induction fuel as [|fuel IH]; intros st H; [done|].
  cbn [pool_mesh_operations] in H. inv_bind H. destruct x as [cleared st0].
  destruct cleared; [by eapply IH|]. injection H as ->.
  pose proof (spec_pool_doublets_false _ _ Hx) as ->.
  intros fuel'. cbn [pool_mesh_operations]. by rewrite Hx.
Qed.

Lemma spec_pool_mesh_operations_none fuel st st1 :
  no_doublet (st_mesh st) ->
  pool_mesh_operations (spec_ops rotate) fuel st = Ok st1 -> st1 = st.
Proof.
  intros Hnone H. destruct fuel as [|fuel]; [done|].
  cbn [pool_mesh_operations] in H. inv_bind H. destruct x as [cleared st0].
  pose proof (spec_pool_doublets_none _ _ _ Hnone Hx) as ->.
  injection H as ->. by apply spec_pool_doublets_false in Hx.
Qed.

Lemma spec_edge_collapse_false edge_id st st' :
  edge_collapse (spec_ops rotate) edge_id st = Ok (false, st') -> st' = st.
Proof.
  unfold edge_collapse. intros H. inv_bind H. destruct x as [m0 info].
  cbn [get_edge_hood_info spec_ops] in Hx.
  assert (m0 = st_mesh st) as ->.
  { unfold sample_get_edge_hood_info in Hx. repeat inv_bind Hx.
    by injection Hx as <- _. }
  inv_bind H. destruct x as [[m1 correct_config] info'].
  cbn [check_u_v_boundaries spec_ops] in Hx0.
  assert (m1 = st_mesh st) as ->.
  { unfold sample_check_u_v_boundaries in Hx0. inv_bind Hx0.
    by injection Hx0 as <- _ _. }
  destruct correct_config; cbn [negb] in H;
    [|injection H as <-; apply with_mesh_same].
  inv_bind H. destruct x as [[m d] diag].
  cbn [edge_rotations spec_ops] in Hx1. unfold spec_edge_rotations in Hx1.
  destruct (rotate _ _ _ _) as [[[m' d'] diag_vertices]|].
  - injection Hx1 as <- <- <-. inv_bind H. inv_bind H.
    destruct x0 as [st1 combination]. by inv_bind H.
  - injection Hx1 as <- <- <-. injection H as <-. apply with_mesh_same.
Qed.

End SpecRejection.

(** C2, as amended.  With the helpers of [mesh_rotation_utils.py] as the
    design describes them, a call of [__pool_edge] that returns False
    leaves the state exactly as the doublet normalisation at its start
    left it, whichever check rejected the candidate; that is the state
    before the call when no vertex of the mesh was a doublet.  A call of
    [edge_collapse] that returns False, after the boundary check on [u]
    and [v] or after a rotation without a diagonal pair, leaves the state
    it was given. *)
Theorem rejected_attempt_state
    (rotate : Z -> list Z -> list (Z * Z) -> Mesh
              -> option (Mesh * odict (list Z) * list Z))
    (out_target : Z) (fuel : nat) (st st' : PoolState Groups) (edge_id : Z) :
  pool_edge (spec_ops rotate) out_target fuel st edge_id = Ok (false, st') ->
  pool_mesh_operations (spec_ops rotate) fuel st = Ok st' /\
  (no_doublet (st_mesh st) -> st' = st) /\
  (forall e st1 st2,
     edge_collapse (spec_ops rotate) e st1 = Ok (false, st2) -> st2 = st1).
Proof.
  intros H.
  destruct (pool_edge_false _ _ _ _ _ _ H) as (st1 & Hnorm & Hrest).
  assert (st' = st1) as ->.
  { destruct Hrest as [->|(st2 & Hcol & Hnorm2)]; [done|].
    apply spec_edge_collapse_false in Hcol as ->.
    destruct (pool_mesh_operations_fuel _ _ _ _ Hnorm) as [fuel' ->].
    rewrite (spec_pool_mesh_operations_done _ _ _ _ Hnorm) in Hnorm2.
    by injection Hnorm2 as <-. }
  split; [done|]. split.
  - intros Hnone. by eapply spec_pool_mesh_operations_none.
  - intros e st0 st2. apply spec_edge_collapse_false.
Qed.

Lemma rejected_attempt_state_witness :
  pool_mesh_operations sample_ops 1 (start_state (mesh_of 8 cube_faces))
  = Ok (start_state (mesh_of 8 cube_faces)) /\
  (no_doublet (st_mesh (start_state (mesh_of 8 cube_faces))) ->
   start_state (mesh_of 8 cube_faces) = start_state (mesh_of 8 cube_faces)) /\
  (forall e st1 st2,
     edge_collapse sample_ops e st1 = Ok (false, st2) -> st2 = st1).
Proof.
  apply (rejected_attempt_state (fun _ _ _ _ => None) 6 1
           (start_state (mesh_of 8 cube_faces))
           (start_state (mesh_of 8 cube_faces)) 0).
  vm_compute. reflexivity.
Defined.

(** C2 fails as stated.  In the split cube vertex 8 lies on two edges
    only.  The attempt on edge 4 first clears that doublet, which takes
    [edges_count] from 14 to the target 12 and rewrites the rows of the
    four sides of the merged face, and then returns False. *)
Lemma rejected_attempt_counterexample :
  exists st',
    pool_edge sample_ops 12 2 (start_state (mesh_of 9 split_cube_faces)) 4
    = Ok (false, st') /\
    edges_count (st_mesh (start_state (mesh_of 9 split_cube_faces))) = 14 /\
    edges_count (st_mesh st') = 12 /\
    gemm_edges (st_mesh st')
    <> gemm_edges (st_mesh (start_state (mesh_of 9 split_cube_faces))) /\
    sides (st_mesh st')
    <> sides (st_mesh (start_state (mesh_of 9 split_cube_faces))) /\
    ve (st_mesh st')
    <> ve (st_mesh (start_state (mesh_of 9 split_cube_faces))).
Proof.
  eexists. split; [vm_compute; reflexivity|].
  split; [vm_compute; reflexivity|]. split; [vm_compute; reflexivity|].
  repeat split; vm_compute; discriminate.
Qed.

Lemma has_boundaries_rejects_witness :
  exists b,
    has_boundaries (st_mesh (start_state (mesh_of 8 ring_faces))) 0 = Ok b /\
    (b = true <->
     boundary_spec (st_mesh (start_state (mesh_of 8 ring_faces))) 0) /\
    (b = true ->
     pool_edge sample_ops 6 1 (start_state (mesh_of 8 ring_faces)) 0
     = Ok (false, start_state (mesh_of 8 ring_faces))).
Proof.
  apply (has_boundaries_rejects sample_ops 6 1
           (start_state (mesh_of 8 ring_faces))
           (start_state (mesh_of 8 ring_faces)) 0).
  - vm_compute. reflexivity.
  - unfold wf_gemm. refine (bool_decide_unpack _ _). vm_compute. exact I.
  - vm_compute. split; [discriminate|reflexivity].
Defined.

(** ** Edge removal *)

Lemma getitem_setitem {A : Type} (l l' : list A) (i : Z) (x : A) :
  setitem l i x = Ok l' -> getitem l' i = Ok x.
Proof.
  unfold setitem, getitem. destruct (py_index (length l) i) as [k|] eqn:E; [|done].
  intros [= <-]. rewrite length_insert, E.
  by rewrite list_lookup_insert_eq by (by eapply py_index_lt).
Qed.

(** X24.  When [MeshPool.remove_edge] returns, the edge is marked dead in
    [mask], its row of [edges] is the pair (-1, -1) and its row of
    [gemm_edges] is six times -1; [edges_count] is one less than
    [Mesh.remove_edge] left it, and [sides] and [ve] are as that method
    left them.  The three arrays keep their lengths. *)
Theorem remove_edge_effects {G : Type} (ops : MeshOps G)
    (st st' : PoolState G) (e : Z) :
  remove_edge ops st e = Ok st' ->
  exists st1 m1,
    remove_group_ ops st e = Ok st1 /\
    mesh_remove_edge ops (st_mesh st1) e = Ok m1 /\
    getitem (st_mask st') e = Ok false /\
    getitem (edges (st_mesh st')) e = Ok (-1, -1) /\
    getitem (gemm_edges (st_mesh st')) e = Ok [-1; -1; -1; -1; -1; -1] /\
    edges_count (st_mesh st') = edges_count m1 - 1 /\
    sides (st_mesh st') = sides m1 /\
    ve (st_mesh st') = ve m1 /\
    st_groups st' = st_groups st1 /\
    length (st_mask st') = length (st_mask st1) /\
    length (edges (st_mesh st')) = length (edges m1) /\
    length (gemm_edges (st_mesh st')) = length (gemm_edges m1).
Proof.
  unfold remove_edge. intros H.
  inv_bind H. rename x into st1, Hx into Hst1.
  inv_bind H. rename x into mask', Hx into Hmask.
  inv_bind H. rename x into m1, Hx into Hm1.
  inv_bind H. rename x into edges', Hx into Hedges.
  inv_bind H. rename x into gemm', Hx into Hgemm.
  injection H as <-. exists st1, m1. cbn.
  split; [done|]. split; [done|].
  split; [by eapply getitem_setitem|].
  split; [by eapply getitem_setitem|].
  split; [by eapply getitem_setitem|].
  split; [done|]. split; [done|]. split; [done|]. split; [done|].
  split; [by eapply setitem_length|].
  split; [by eapply setitem_length|].
  apply setitem_length in Hgemm. by rewrite Hgemm.
Qed.

Lemma remove_edge_effects_witness :
  exists st',
    remove_edge sample_ops (start_state (mesh_of 8 cube_faces)) 0 = Ok st' /\
    exists st1 m1,
      remove_group_ sample_ops (start_state (mesh_of 8 cube_faces)) 0
      = Ok st1 /\
      mesh_remove_edge sample_ops (st_mesh st1) 0 = Ok m1 /\
      getitem (st_mask st') 0 = Ok false /\
      getitem (edges (st_mesh st')) 0 = Ok (-1, -1) /\
      getitem (gemm_edges (st_mesh st')) 0 = Ok [-1; -1; -1; -1; -1; -1] /\
      edges_count (st_mesh st') = edges_count m1 - 1 /\
      sides (st_mesh st') = sides m1 /\
      ve (st_mesh st') = ve m1 /\
      st_groups st' = st_groups st1 /\
      length (st_mask st') = length (st_mask st1) /\
      length (edges (st_mesh st')) = length (edges m1) /\
      length (gemm_edges (st_mesh st')) = length (gemm_edges m1).
Proof.
  eexists. split; [vm_compute; reflexivity|].
  apply (remove_edge_effects sample_ops (start_state (mesh_of 8 cube_faces))).
  vm_compute. reflexivity.
Defined.
(** ** Construction of the adjacency arrays *)

Section Cells.

Lemma getitem_Ok_nonneg {A : Type} (l : list A) (i : Z) (x : A) :
  getitem l i = Ok x -> 0 <= i ->
  i < len l /\ l !! Z.to_nat i = Some x.
Proof.
  intros H Hi. apply getitem_Ok_lookup in H as (k & Hk & Hx).
  pose proof (py_index_lt _ _ _ Hk) as Hlt.
  unfold py_index in Hk.
  destruct (Z.leb_spec 0 i); [|lia].
  destruct (Z.ltb_spec i (Z.of_nat (length l))); simpl in Hk.
  - injection Hk as <-. unfold len. done.
  - destruct (Z.leb_spec (- Z.of_nat (length l)) i), (Z.ltb_spec i 0);
      simpl in Hk; try done; lia.
Qed.

Lemma setitem_Ok_nonneg {A : Type} (l l' : list A) (i : Z) (x : A) :
  setitem l i x = Ok l' -> 0 <= i ->
  i < len l /\ l' = <[Z.to_nat i := x]> l.
Proof.
  unfold setitem. intros H Hi.
  destruct (py_index (length l) i) as [k|] eqn:Hk; [|done].
  injection H as <-. unfold py_index in Hk.
  destruct (Z.leb_spec 0 i); [|lia].
  destruct (Z.ltb_spec i (Z.of_nat (length l))); simpl in Hk.
  - injection Hk as <-. unfold len. done.
  - destruct (Z.leb_spec (- Z.of_nat (length l)) i), (Z.ltb_spec i 0);
      simpl in Hk; try done; lia.
Qed.

Lemma cnt_lookup (c : list Z) (k v : Z) :
  c !! Z.to_nat k = Some v -> cnt c k = v.
Proof. unfold cnt. by intros ->. Qed.

Lemma cnt_insert (c : list Z) (k k' v : Z) :
  0 <= k < len c -> 0 <= k' ->
  cnt (<[Z.to_nat k := v]> c) k' = if decide (k' = k) then v else cnt c k'.
Proof.
  intros Hk Hk'. unfold cnt, len in *. destruct (decide (k' = k)) as [->|Hne].
  - by rewrite list_lookup_insert_eq by lia.
  - by rewrite list_lookup_insert_ne by lia.
Qed.

Lemma cnt_app (c : list Z) (k v : Z) :
  0 <= k ->
  cnt (c ++ [v]) k = if decide (k = len c) then v else
                     if decide (k < len c) then cnt c k else 0.
Proof.
  intros Hk. unfold cnt, len. destruct (decide (k = Z.of_nat (length c))) as [->|Hne].
  - rewrite lookup_app_r by lia.
    by replace (Z.to_nat (Z.of_nat (length c)) - length c)%nat with 0%nat by lia.
  - destruct (decide (k < Z.of_nat (length c))).
    + by rewrite lookup_app_l by lia.
    + rewrite lookup_ge_None_2; [done|]. rewrite length_app. simpl. lia.
Qed.

Lemma cell_app (a : list (list Z)) (row : list Z) (k j : Z) :
  0 <= k -> k < len a -> cell (a ++ [row]) k j = cell a k j.
Proof. intros H1 H2. unfold cell, len in *. by rewrite lookup_app_l by lia. Qed.

Lemma cell_app_new (a : list (list Z)) (row : list Z) (j : Z) :
  cell (a ++ [row]) (len a) j = default 0 (row !! Z.to_nat j).
Proof.
  unfold cell, len. rewrite lookup_app_r by lia.
  by replace (Z.to_nat (Z.of_nat (length a)) - length a)%nat with 0%nat by lia.
Qed.

Lemma rows6_app (a : list (list Z)) (row : list Z) :
  rows6 a -> length row = 6%nat -> rows6 (a ++ [row]).
Proof. intros Ha Hr. apply Forall_app. split; [done|]. by constructor. Qed.

(** The effect of [a[k][j] = v] for indices that are not negative. *)
Lemma setitem2_spec (a a' : list (list Z)) (k j v : Z) :
  setitem2 a k j v = Ok a' -> 0 <= k -> 0 <= j -> rows6 a ->
  k < len a /\ j < 6 /\ len a' = len a /\ rows6 a' /\
  forall k' j', 0 <= k' -> 0 <= j' ->
    cell a' k' j' = if decide (k' = k /\ j' = j) then v else cell a k' j'.
Proof.
  unfold setitem2. intros H Hk Hj Hrows.
  inv_bind H. rename x into row. inv_bind H. rename x into row'.
  apply getitem_Ok_nonneg in Hx as [Hk' Hrow]; [|done].
  apply setitem_Ok_nonneg in Hx0 as [Hj' ->]; [|done].
  apply setitem_Ok_nonneg in H as [_ ->]; [|done].
  assert (length row = 6%nat) as Hrow6.
  { unfold rows6 in Hrows. rewrite Forall_forall in Hrows.
    apply Hrows. by eapply list_elem_of_lookup_2. }
  unfold len in *. split; [done|]. split; [lia|].
  split; [by rewrite length_insert|]. split.
  { unfold rows6. apply Forall_insert; [done|]. by rewrite length_insert. }
  intros k' j' Hk0 Hj0. unfold cell.
  destruct (decide (k' = k)) as [->|Hne].
  - rewrite list_lookup_insert_eq by lia. simpl.
    destruct (decide (j' = j)) as [->|Hnj].
    + rewrite decide_True by done. by rewrite list_lookup_insert_eq by lia.
    + rewrite decide_False by lia. rewrite list_lookup_insert_ne by lia.
      by rewrite Hrow.
  - rewrite decide_False by lia. by rewrite list_lookup_insert_ne by lia.
Qed.

Lemma cell_getitem2 (a : list (list Z)) (k j : Z) :
  rows6 a -> 0 <= k < len a -> 0 <= j < 6 ->
  getitem2 a k j = Ok (cell a k j).
Proof.
  intros Hrows Hk Hj. unfold getitem2, cell.
  destruct (getitem_in_range a k Hk) as (row & Hget & Hrow).
  rewrite Hget, Hrow. simpl.
  assert (length row = 6%nat) as Hrow6.
  { unfold rows6 in Hrows. rewrite Forall_forall in Hrows.
    apply Hrows. by eapply list_elem_of_lookup_2. }
  destruct (getitem_in_range row j) as (v & Hgetv & Hv); [unfold len; lia|].
  by rewrite Hgetv, Hv.
Qed.

End Cells.

Section Register.

Lemma len_app {A : Type} (l : list A) (x : A) : len (l ++ [x]) = len l + 1.
Proof. unfold len. rewrite length_app. simpl. lia. Qed.

Lemma empty_row_cell (j : Z) :
  0 <= j < 6 -> default 0 (empty_row !! Z.to_nat j) = -1.
Proof.
  intros Hj. assert (j = 0 \/ j = 1 \/ j = 2 \/ j = 3 \/ j = 4 \/ j = 5) as H by lia.
  destruct H as [->|[->|[->|[->|[->| ->]]]]]; done.
Qed.

Lemma register_edge_inv (s s' : GemmState) (edge : Z * Z) :
  gemm_inv s -> register_edge s edge = Ok s' ->
  gemm_inv s' /\
  (forall e k, bg_edge2key s !! e = Some k -> bg_edge2key s' !! e = Some k) /\
  is_Some (bg_edge2key s' !! edge).
Proof.
  intros Hinv. unfold register_edge.
  destruct (bg_edge2key s !! edge) as [k0|] eqn:Hlook.
  { intros [= <-]. split; [done|]. split; [done|]. rewrite Hlook. eauto. }
  intros H. inv_bind H. inv_bind H. injection H as <-.
  destruct Hinv as [Hc Hl1 Hl2 Hl3 Hr1 Hr2 Hkr Hki Hcnt Hback Hunset].
  split; [|split].
  - constructor; simpl.
    + lia.
    + rewrite len_app. lia.
    + rewrite len_app. lia.
    + rewrite len_app. lia.
    + by apply rows6_app.
    + by apply rows6_app.
    + intros e k. rewrite lookup_insert. case_decide.
      * intros [= <-]. lia.
      * intros He. apply Hkr in He. lia.
    + intros e1 e2 k. rewrite !lookup_insert. repeat case_decide; subst.
      * done.
      * intros [= <-] He. apply Hkr in He. lia.
      * intros He [= <-]. apply Hkr in He. lia.
      * apply Hki.
    + intros k Hk. rewrite cnt_app by lia. rewrite Hl3.
      repeat case_decide; try lia. apply Hcnt. lia.
    + intros k j Hk. rewrite cnt_app by lia. rewrite Hl3.
      repeat case_decide; try lia. intros Hj.
      assert (0 <= k < bg_edges_count s) as Hk' by lia.
      destruct (Hback k j Hk' Hj) as (Hn & Ht & Hcell).
      rewrite !(cell_app _ _ k) by lia.
      rewrite cnt_app by lia. rewrite Hl3.
      repeat case_decide; try lia.
      rewrite cell_app by lia. split; [lia|]. split; [lia|done].
    + intros k j Hk. rewrite cnt_app by lia. rewrite Hl3.
      repeat case_decide; try lia.
      * intros Hj. subst k. rewrite <- Hl1, cell_app_new.
        apply empty_row_cell. lia.
      * intros Hj. rewrite cell_app by lia. apply Hunset; lia.
  - simpl. intros e k He. rewrite lookup_insert_ne; [done|]. congruence.
  - simpl. rewrite lookup_insert_eq. eauto.
Qed.

Lemma register_edges_inv (fe : list (Z * Z)) (s s' : GemmState) :
  gemm_inv s -> for_each fe register_edge s = Ok s' ->
  gemm_inv s' /\
  (forall e k, bg_edge2key s !! e = Some k -> bg_edge2key s' !! e = Some k) /\
  forall e, e ∈ fe -> is_Some (bg_edge2key s' !! e).
Proof.
  revert s. induction fe as [|edge fe IH]; intros s Hinv; simpl.
  - intros [= <-]. split; [done|]. split; [done|].
    intros e He. by apply elem_of_nil in He.
  - intros H. inv_bind H. rename x into s1.
    destruct (register_edge_inv _ _ _ Hinv Hx) as (Hinv1 & Hmono1 & Hreg).
    destruct (IH _ Hinv1 H) as (Hinv' & Hmono & Hall).
    split; [done|]. split; [by auto|].
    intros e He. apply elem_of_cons in He as [->|He]; [|by auto].
    destruct Hreg as [k Hk]. exists k. by apply Hmono.
Qed.

End Register.

Section Fill.

Context (fe : list (Z * Z)) (kf : Z -> Z).

Lemma fill_neighbors_step (s s' : GemmState) (idx : Z) :
  (forall i, face_key s fe i = Ok (kf i)) ->
  0 <= kf idx -> 0 <= cnt (bg_nb_count s) (kf idx) ->
  rows6 (bg_edge_nb s) ->
  fill_neighbors fe s idx = Ok s' ->
  neighbors_filled kf [idx] s s'.
Proof.
  intros Hkf Hk Hc Hrows. unfold fill_neighbors. rewrite !Hkf. simpl.
  intros H. inv_bind H. rename x into c.
  apply getitem_Ok_nonneg in Hx as [Hklen Hclook]; [|done].
  pose proof (cnt_lookup _ _ _ Hclook) as Hcnt. rewrite Hcnt in Hc.
  inv_bind H. rename x into nb1. inv_bind H. rename x into nb2.
  inv_bind H. rename x into nb3. inv_bind H. rename x into cnt'.
  injection H as <-.
  destruct (setitem2_spec _ _ _ _ _ Hx Hk Hc Hrows)
    as (Hk1 & Hj1 & Hl1 & Hr1 & Hcell1).
  destruct (setitem2_spec _ _ _ _ _ Hx0 Hk ltac:(lia) Hr1)
    as (Hk2 & Hj2 & Hl2 & Hr2 & Hcell2).
  destruct (setitem2_spec _ _ _ _ _ Hx1 Hk ltac:(lia) Hr2)
    as (Hk3 & Hj3 & Hl3 & Hr3 & Hcell3).
  apply setitem_Ok_nonneg in Hx2 as [_ ->]; [|done].
  unfold neighbors_filled.
  cbn [bg_ve bg_edge_nb bg_sides bg_edge2key bg_edges bg_edges_count
       bg_nb_count].
  do 5 (split; [reflexivity|]).
  split; [lia|]. split; [done|].
  split; [unfold len; by rewrite length_insert|].
  split; [|split].
  - intros k Hk0. rewrite cnt_insert by lia.
    destruct (decide (k = kf idx)) as [->|Hne].
    + rewrite decide_True by set_solver. lia.
    + rewrite decide_False; [done|]. set_solver.
  - intros i d Hi Hd. apply list_elem_of_singleton in Hi as ->.
    rewrite Hcnt. split; [lia|].
    rewrite Hcell3, Hcell2, Hcell1 by lia.
    assert (d = 0 \/ d = 1 \/ d = 2) as [->|[->| ->]] by lia.
    + rewrite decide_False by lia. rewrite decide_False by lia.
      rewrite decide_True by (split; [done|lia]). f_equal. lia.
    + rewrite decide_False by lia. rewrite decide_True by (split; [done|lia]).
      f_equal. lia.
    + rewrite decide_True by (split; [done|lia]). f_equal. lia.
  - intros k j Hk0 Hj0 Hfree.
    specialize (Hfree idx ltac:(set_solver)).
    rewrite Hcell3, Hcell2, Hcell1 by lia.
    destruct (decide (k = kf idx)) as [->|Hne].
    + specialize (Hfree eq_refl). rewrite Hcnt in Hfree.
      rewrite !decide_False by lia. done.
    + rewrite !decide_False by lia. done.
Qed.

Lemma face_key_ext (s s' : GemmState) (i : Z) :
  bg_edge2key s' = bg_edge2key s -> face_key s' fe i = face_key s fe i.
Proof. unfold face_key. by intros ->. Qed.

Lemma neighbors_filled_nil (s : GemmState) :
  rows6 (bg_edge_nb s) -> neighbors_filled kf [] s s.
Proof.
  intros Hrows. unfold neighbors_filled.
  do 5 (split; [reflexivity|]). split; [done|]. split; [done|].
  split; [done|]. split; [|split].
  - intros k Hk. rewrite decide_False; [done|]. set_solver.
  - intros i d Hi. by apply elem_of_nil in Hi.
  - done.
Qed.

Lemma neighbors_filled_cons (s s1 s' : GemmState) (i0 : Z) (rest : list Z) :
  neighbors_filled kf [i0] s s1 ->
  neighbors_filled kf rest s1 s' ->
  kf i0 ∉ kf <$> rest ->
  (forall i, i ∈ i0 :: rest -> 0 <= kf i /\ 0 <= cnt (bg_nb_count s) (kf i)) ->
  neighbors_filled kf (i0 :: rest) s s'.
Proof.
  intros (A1 & A2 & A3 & A4 & A5 & A6 & A7 & A8 & Acnt & Anew & Aold)
         (B1 & B2 & B3 & B4 & B5 & B6 & B7 & B8 & Bcnt & Bnew & Bold)
         Hfresh Hpos.
  assert (forall i, i ∈ rest ->
            cnt (bg_nb_count s1) (kf i) = cnt (bg_nb_count s) (kf i)) as Hsame.
  { intros i Hi. rewrite Acnt by (apply Hpos; by right).
    rewrite decide_False; [done|].
    intros Hin. apply list_elem_of_fmap in Hin as (i' & Heq & Hi').
    apply list_elem_of_singleton in Hi' as ->.
    apply Hfresh. rewrite <- Heq. apply list_elem_of_fmap. eauto. }
  unfold neighbors_filled.
  split; [congruence|]. split; [congruence|]. split; [congruence|].
  split; [congruence|]. split; [congruence|]. split; [congruence|].
  split; [done|]. split; [congruence|]. split; [|split].
  - intros k Hk. rewrite Bcnt, Acnt by done.
    repeat case_decide; try lia; exfalso; set_solver.
  - intros i d Hi Hd. apply elem_of_cons in Hi as [->|Hi].
    + destruct (Anew i0 d ltac:(set_solver) Hd) as [Hlt Hcell].
      split; [done|]. rewrite <- Hcell.
      apply Bold; [by apply Hpos; left|
                   pose proof (Hpos i0 ltac:(by left)); lia|].
      intros i Hi Heq. exfalso. apply Hfresh. rewrite Heq.
      apply list_elem_of_fmap. eauto.
    + destruct (Bnew i d Hi Hd) as [Hlt Hcell].
      rewrite Hsame in Hlt, Hcell by done. done.
  - intros k j Hk Hj Hfree.
    rewrite Bold; [apply Aold|..]; try done.
    + intros i Hi Heq. apply list_elem_of_singleton in Hi as ->.
      apply (Hfree i0); [by left|done].
    + intros i Hi Heq. subst k. rewrite Hsame by done.
      apply (Hfree i); [by right|done].
Qed.

Lemma fill_neighbors_all (idxs : list Z) (s s' : GemmState) :
  (forall i, face_key s fe i = Ok (kf i)) ->
  (forall i, i ∈ idxs -> 0 <= kf i /\ 0 <= cnt (bg_nb_count s) (kf i)) ->
  NoDup (kf <$> idxs) ->
  rows6 (bg_edge_nb s) ->
  for_each idxs (fill_neighbors fe) s = Ok s' ->
  neighbors_filled kf idxs s s'.
Proof.
  revert s. induction idxs as [|i0 rest IH]; intros s Hkf Hpos Hnd Hrows.
  - simpl. intros [= <-]. by apply neighbors_filled_nil.
  - simpl. intros H. inv_bind H. rename x into s1.
    rewrite fmap_cons in Hnd. apply NoDup_cons in Hnd as [Hfresh Hnd].
    destruct (Hpos i0 ltac:(by left)) as [Hk0 Hc0].
    pose proof (fill_neighbors_step _ _ _ Hkf Hk0 Hc0 Hrows Hx) as Hstep.
    pose proof Hstep as (A1 & A2 & A3 & A4 & A5 & A6 & A7 & A8 & Acnt & _).
    apply (neighbors_filled_cons s s1 s'); [done| |done|done].
    apply IH; [|  |done|done|done].
    + intros i. rewrite (face_key_ext s s1) by done. apply Hkf.
    + intros i Hi. destruct (Hpos i ltac:(by right)) as [Hk Hc].
      split; [done|]. rewrite Acnt by done.
      rewrite decide_False; [done|].
      intros Hin. apply list_elem_of_fmap in Hin as (i' & Heq & Hi').
      apply list_elem_of_singleton in Hi' as ->.
      apply Hfresh. rewrite <- Heq. apply list_elem_of_fmap. eauto.
Qed.

Lemma fill_sides_step (s s' : GemmState) (idx : Z) :
  (forall i, face_key s fe i = Ok (kf i)) ->
  (forall i, 0 <= kf i) ->
  3 <= cnt (bg_nb_count s) (kf idx) ->
  rows6 (bg_sides s) ->
  fill_sides fe s idx = Ok s' ->
  sides_filled kf [idx] s s'.
Proof.
  intros Hkf Hk Hc Hrows. unfold fill_sides. rewrite !Hkf. simpl.
  intros H. inv_bind H. rename x into c.
  apply getitem_Ok_nonneg in Hx as [_ Hclook]; [|done].
  apply cnt_lookup in Hclook. rewrite Hclook in Hc.
  inv_bind H. rename x into c1.
  apply getitem_Ok_nonneg in Hx as [_ Hc1]; [|done]. apply cnt_lookup in Hc1.
  inv_bind H. rename x into sd1.
  inv_bind H. rename x into c2.
  apply getitem_Ok_nonneg in Hx0 as [_ Hc2]; [|done]. apply cnt_lookup in Hc2.
  inv_bind H. rename x into sd2.
  inv_bind H. rename x into c3.
  apply getitem_Ok_nonneg in Hx1 as [_ Hc3]; [|done]. apply cnt_lookup in Hc3.
  inv_bind H. rename x into sd3. injection H as <-.
  destruct (setitem2_spec _ _ _ _ _ Hx (Hk idx) ltac:(lia) Hrows)
    as (Hk1 & Hj1 & Hl1 & Hr1 & Hcell1).
  destruct (setitem2_spec _ _ _ _ _ Hx0 (Hk idx) ltac:(lia) Hr1)
    as (Hk2 & Hj2 & Hl2 & Hr2 & Hcell2).
  destruct (setitem2_spec _ _ _ _ _ Hx1 (Hk idx) ltac:(lia) Hr2)
    as (Hk3 & Hj3 & Hl3 & Hr3 & Hcell3).
  unfold sides_filled.
  cbn [bg_ve bg_edge_nb bg_sides bg_edge2key bg_edges bg_edges_count
       bg_nb_count].
  do 6 (split; [reflexivity|]).
  split; [lia|]. split; [done|]. split.
  - intros i d Hi Hd. apply list_elem_of_singleton in Hi as ->.
    rewrite Hclook.
    rewrite Hcell3, Hcell2, Hcell1 by (first [apply Hk | lia]).
    assert (d = 0 \/ d = 1 \/ d = 2) as [->|[->| ->]] by lia.
    + rewrite decide_False by lia. rewrite decide_False by lia.
      rewrite decide_True by (split; [done|lia]).
      replace (idx + 1 + 0) with (idx + 1) by lia. lia.
    + rewrite decide_False by lia. rewrite decide_True by (split; [done|lia]).
      replace (idx + 1 + 1) with (idx + 2) by lia. lia.
    + rewrite decide_True by (split; [done|lia]).
      replace (idx + 1 + 2) with (idx + 3) by lia. lia.
  - intros k j Hk0 Hj0 Hfree.
    specialize (Hfree idx ltac:(set_solver)).
    rewrite Hcell3, Hcell2, Hcell1 by lia.
    destruct (decide (k = kf idx)) as [->|Hne].
    + specialize (Hfree eq_refl). rewrite Hclook in Hfree.
      rewrite !decide_False by lia. done.
    + rewrite !decide_False by lia. done.
Qed.

Lemma sides_filled_nil (s : GemmState) :
  rows6 (bg_sides s) -> sides_filled kf [] s s.
Proof.
  intros Hrows. unfold sides_filled.
  do 6 (split; [reflexivity|]). split; [done|]. split; [done|]. split.
  - intros i d Hi. by apply elem_of_nil in Hi.
  - done.
Qed.

Lemma sides_filled_cons (s s1 s' : GemmState) (i0 : Z) (rest : list Z) :
  sides_filled kf [i0] s s1 ->
  sides_filled kf rest s1 s' ->
  kf i0 ∉ kf <$> rest ->
  (forall i, 0 <= kf i) ->
  3 <= cnt (bg_nb_count s) (kf i0) ->
  sides_filled kf (i0 :: rest) s s'.
Proof.
  intros (A1 & A2 & A3 & A4 & A5 & A6 & A7 & A8 & Anew & Aold)
         (B1 & B2 & B3 & B4 & B5 & B6 & B7 & B8 & Bnew & Bold)
         Hfresh Hpos Hc0.
  unfold sides_filled.
  split; [congruence|]. split; [congruence|]. split; [congruence|].
  split; [congruence|]. split; [congruence|]. split; [congruence|].
  split; [congruence|]. split; [done|]. split.
  - intros i d Hi Hd. apply elem_of_cons in Hi as [->|Hi].
    + rewrite <- (Anew i0 d ltac:(set_solver) Hd).
      apply Bold; [apply Hpos|lia|].
      intros i Hi Heq. exfalso. apply Hfresh. rewrite Heq.
      apply list_elem_of_fmap. eauto.
    + rewrite <- A6. by apply Bnew.
  - intros k j Hk Hj Hfree.
    rewrite Bold; [apply Aold|..]; try done.
    + intros i Hi Heq. apply list_elem_of_singleton in Hi as ->.
      apply (Hfree i0); [by left|done].
    + intros i Hi Heq. rewrite A6. apply (Hfree i); [by right|done].
Qed.

Lemma fill_sides_all (idxs : list Z) (s s' : GemmState) :
  (forall i, face_key s fe i = Ok (kf i)) ->
  (forall i, 0 <= kf i) ->
  (forall i, i ∈ idxs -> 3 <= cnt (bg_nb_count s) (kf i)) ->
  NoDup (kf <$> idxs) ->
  rows6 (bg_sides s) ->
  for_each idxs (fill_sides fe) s = Ok s' ->
  sides_filled kf idxs s s'.
Proof.
  revert s. induction idxs as [|i0 rest IH]; intros s Hkf Hpos Hc Hnd Hrows.
  - simpl. intros [= <-]. by apply sides_filled_nil.
  - simpl. intros H. inv_bind H. rename x into s1.
    rewrite fmap_cons in Hnd. apply NoDup_cons in Hnd as [Hfresh Hnd].
    pose proof (fill_sides_step _ _ _ Hkf Hpos (Hc i0 ltac:(by left)) Hrows Hx)
      as Hstep.
    pose proof Hstep as (A1 & A2 & A3 & A4 & A5 & A6 & A7 & A8 & _).
    apply (sides_filled_cons s s1 s'); [done| |done|done|].
    + apply IH; [| done | |done|done|done].
      * intros i. rewrite (face_key_ext s s1) by done. apply Hkf.
      * intros i Hi. rewrite A6. apply Hc. by right.
    + apply Hc. by left.
Qed.

End Fill.

Section FaceKeys.

Context (s : GemmState) (fe : list (Z * Z)).
Context (Hinv : gemm_inv s).
Context (Hlen : length fe = 4%nat).
Context (Hreg : forall e, e ∈ fe -> is_Some (bg_edge2key s !! e)).
Context (Hnd : NoDup fe).

Lemma key_fun_mod (i : Z) : key_fun s fe i = key_fun s fe (i mod 4).
Proof.
  unfold key_fun, face_key. by rewrite Zmod_mod.
Qed.

Lemma face_key_total (i : Z) :
  exists edge,
    fe !! Z.to_nat (i mod 4) = Some edge /\
    bg_edge2key s !! edge = Some (key_fun s fe i) /\
    face_key s fe i = Ok (key_fun s fe i).
Proof.
  pose proof (Z.mod_pos_bound i 4 ltac:(lia)) as Hmod.
  destruct (getitem_in_range fe (i mod 4)) as (edge & Hget & Hlook).
  { unfold len. lia. }
  destruct (Hreg edge) as [k Hk]; [by eapply list_elem_of_lookup_2|].
  exists edge. unfold key_fun, face_key, key_get. rewrite Hget. simpl.
  rewrite Hk. done.
Qed.

Lemma face_key_Ok (i : Z) : face_key s fe i = Ok (key_fun s fe i).
Proof. by destruct (face_key_total i) as (_ & _ & _ & H). Qed.

Lemma key_fun_range (i : Z) : 0 <= key_fun s fe i < bg_edges_count s.
Proof.
  destruct (face_key_total i) as (edge & _ & Hk & _).
  by apply (inv_key_range s Hinv edge).
Qed.

Lemma key_fun_inj (i j : Z) :
  0 <= i < 4 -> 0 <= j < 4 -> key_fun s fe i = key_fun s fe j -> i = j.
Proof.
  intros Hi Hj Heq.
  destruct (face_key_total i) as (e1 & Hl1 & Hk1 & _).
  destruct (face_key_total j) as (e2 & Hl2 & Hk2 & _).
  rewrite Heq in Hk1.
  pose proof (inv_key_inj s Hinv _ _ _ Hk1 Hk2) as ->.
  rewrite Z.mod_small in Hl1, Hl2 by lia.
  pose proof (NoDup_lookup _ _ _ _ Hnd Hl1 Hl2). lia.
Qed.

Lemma key_fun_NoDup : NoDup (key_fun s fe <$> [0; 1; 2; 3]).
Proof.
  apply NoDup_fmap_2_strong; [|repeat constructor; set_solver].
  intros i j Hi Hj. apply key_fun_inj; set_solver by lia.
Qed.

Lemma key_fun_member (k : Z) :
  k ∈ key_fun s fe <$> [0; 1; 2; 3] <->
  exists i, 0 <= i < 4 /\ k = key_fun s fe i.
Proof.
  rewrite list_elem_of_fmap. split.
  - intros (i & -> & Hi). exists i. split; [|done].
    repeat (apply elem_of_cons in Hi as [->|Hi]; [lia|]).
    by apply elem_of_nil in Hi.
  - intros (i & Hi & ->). exists i. split; [done|].
    assert (i = 0 \/ i = 1 \/ i = 2 \/ i = 3) as [->|[->|[->| ->]]] by lia;
      set_solver.
Qed.

End FaceKeys.

Lemma faces_edges_length (face : Face) : length (faces_edges_of face) = 4%nat.
Proof. by destruct face as [[[f0 f1] f2] f3]. Qed.

Lemma in_range4 (i : Z) : 0 <= i < 4 -> i ∈ [0; 1; 2; 3].
Proof.
  intros Hi.
  assert (i = 0 \/ i = 1 \/ i = 2 \/ i = 3) as [->|[->|[->| ->]]] by lia;
    set_solver.
Qed.

Lemma range4_in (i : Z) : i ∈ [0; 1; 2; 3] -> 0 <= i < 4.
Proof.
  intros Hi. repeat (apply elem_of_cons in Hi as [->|Hi]; [lia|]).
  by apply elem_of_nil in Hi.
Qed.

(** One face: the three loops of the body keep [gemm_inv]. *)
Lemma process_face_inv (s s' : GemmState) (face : Face) :
  gemm_inv s -> face_proper face -> process_face s face = Ok s' ->
  gemm_inv s'.
Proof.
  intros Hinv Hproper. unfold process_face. intros H.
  inv_bind H. rename x into s1, Hx into H1.
  inv_bind H. rename x into s2, Hx into H2. rename H into H3.
  set (fe := faces_edges_of face) in *.
  destruct (register_edges_inv _ _ _ Hinv H1) as (Hinv1 & _ & Hreg).
  pose proof (faces_edges_length face) as Hlen. fold fe in Hlen.
  set (kf := key_fun s1 fe).
  pose proof (face_key_Ok s1 fe Hlen Hreg) as Hkf.
  pose proof (key_fun_range s1 fe Hinv1 Hlen Hreg) as Hrange.
  pose proof (key_fun_NoDup s1 fe Hinv1 Hlen Hreg Hproper) as Hnd.
  pose proof (key_fun_member s1 fe Hinv1 Hlen Hreg Hproper) as Hmem.
  pose proof (key_fun_mod s1 fe) as Hmod.
  fold kf in Hkf, Hrange, Hnd, Hmem, Hmod.
  change (range 4) with [0; 1; 2; 3] in H2, H3.
  destruct Hinv1 as [Hc Hl1 Hl2 Hl3 Hr1 Hr2 Hkr Hki Hcnt Hback Hunset].
  assert (forall i, 0 <= cnt (bg_nb_count s1) (kf i)) as Hc1.
  { intros i. specialize (Hcnt (kf i) (Hrange i)). lia. }
  pose proof (fill_neighbors_all fe kf [0; 1; 2; 3] s1 s2 Hkf) as P2.
  specialize (P2 ltac:(intros i _; split; [apply Hrange|apply Hc1])
                 Hnd Hr1 H2).
  destruct P2 as (A1 & A2 & A3 & A4 & A5 & A6 & A7 & A8 & Acnt & Anew & Aold).
  assert (forall i, cnt (bg_nb_count s2) (kf i) = cnt (bg_nb_count s1) (kf i) + 3)
    as Hcnt2.
  { intros i. rewrite Acnt by apply Hrange. rewrite decide_True; [done|].
    apply Hmem. exists (i mod 4). split; [apply Z.mod_pos_bound; lia|apply Hmod]. }
  assert (forall i, cnt (bg_nb_count s1) (kf i) = 0 \/
                    cnt (bg_nb_count s1) (kf i) = 3) as Hc03.
  { intros i. rewrite (Hmod i).
    destruct (Anew (i mod 4) 2) as [Hlt _];
      [apply in_range4, Z.mod_pos_bound; lia|lia|].
    specialize (Hcnt (kf (i mod 4)) (Hrange _)). lia. }
  pose proof (fill_sides_all fe kf [0; 1; 2; 3] s2 s') as P3.
  specialize (P3 ltac:(intros i; rewrite (face_key_ext fe s1 s2) by done; apply Hkf)
                 ltac:(intros i; apply Hrange)
                 ltac:(intros i _; rewrite Hcnt2; specialize (Hc1 i); lia)
                 Hnd ltac:(by rewrite A2) H3).
  destruct P3 as (B1 & B2 & B3 & B4 & B5 & B6 & B7 & B8 & Bnew & Bold).
  assert (forall k, 0 <= k < bg_edges_count s1 ->
            cnt (bg_nb_count s1) k <= cnt (bg_nb_count s2) k) as Hgrow.
  { intros k Hk. rewrite Acnt by lia. case_decide; lia. }
  (* slots filled before this face are untouched *)
  assert (forall k j, 0 <= k < bg_edges_count s1 ->
            0 <= j < cnt (bg_nb_count s1) k ->
            cell (bg_edge_nb s') k j = cell (bg_edge_nb s1) k j /\
            cell (bg_sides s') k j = cell (bg_sides s1) k j) as Hold.
  { intros k j Hk Hj. rewrite B2. split.
    - apply Aold; [lia..|]. intros i _ _. lia.
    - rewrite Bold, A2; [done|lia..|].
      intros i _ ->. rewrite Hcnt2. lia. }
  constructor.
  - by rewrite B5, A5.
  - rewrite B2, B5, A5. lia.
  - rewrite B7, A2, B5, A5. lia.
  - rewrite B6, B5, A5. lia.
  - by rewrite B2.
  - done.
  - rewrite B3, A3, B5, A5. apply Hkr.
  - rewrite B3, A3. apply Hki.
  - intros k. rewrite B5, A5, B6. intros Hk. rewrite Acnt by lia.
    case_decide as Hin.
    + apply Hmem in Hin as (i & _ & ->). destruct (Hc03 i); lia.
    + by apply Hcnt.
  - intros k j. rewrite B5, A5, B6. intros Hk Hj.
    destruct (decide (j < cnt (bg_nb_count s1) k)) as [Hjold|Hjnew].
    + destruct (Hold k j Hk ltac:(lia)) as [-> ->].
      destruct (Hback k j Hk ltac:(lia)) as (Hn & Ht & Hcell).
      split; [done|]. split; [specialize (Hgrow _ Hn); lia|].
      destruct (Hold _ _ Hn Ht) as [-> _]. done.
    + rewrite Acnt in Hj by lia. case_decide as Hin; [|lia].
      apply Hmem in Hin as (i & Hi & ->).
      set (d := j - cnt (bg_nb_count s1) (kf i)).
      assert (0 <= d < 3) as Hd by (unfold d; lia).
      replace j with (cnt (bg_nb_count s1) (kf i) + d) by (unfold d; lia).
      destruct (Anew i d (in_range4 _ Hi) Hd) as [_ Hnb].
      rewrite B2, Hnb.
      pose proof (Bnew i d (in_range4 _ Hi) Hd) as Hsd.
      rewrite !Hcnt2 in Hsd.
      replace (cnt (bg_nb_count s1) (kf i) + 3 - 3 + d)
        with (cnt (bg_nb_count s1) (kf i) + d) in Hsd by lia.
      rewrite Hsd, Hcnt2.
      split; [apply Hrange|]. split; [specialize (Hc1 (i + 1 + d)); lia|].
      set (i' := (i + 1 + d) mod 4).
      assert (0 <= i' < 4) as Hi' by (apply Z.mod_pos_bound; lia).
      rewrite (Hmod (i + 1 + d)). fold i'.
      replace (cnt (bg_nb_count s1) (kf i') + 3 - 1 - d)
        with (cnt (bg_nb_count s1) (kf i') + (2 - d)) by lia.
      destruct (Anew i' (2 - d) (in_range4 _ Hi') ltac:(lia)) as [_ ->].
      rewrite (Hmod (i' + 1 + (2 - d))), (Hmod i). f_equal.
      unfold i'. clearbody d.
      assert (i = 0 \/ i = 1 \/ i = 2 \/ i = 3) as [->|[->|[->| ->]]] by lia;
        assert (d = 0 \/ d = 1 \/ d = 2) as [->|[->| ->]] by lia;
        reflexivity.
  - intros k j. rewrite B5, A5, B6, B2. intros Hk Hj.
    pose proof (Hgrow k Hk) as Hg. pose proof (Hcnt k Hk) as Hck.
    rewrite Aold; [|lia|lia|].
    + apply Hunset; [done|]. lia.
    + intros i Hi ->. rewrite Hcnt2 in Hj. lia.
Qed.

Lemma gemm_init_inv (n_vs : nat) : gemm_inv (gemm_init n_vs).
Proof.
  constructor; simpl; try done; try (intros; lia).
  all: try constructor.
Qed.

Lemma build_gemm_state_inv (n_vs : nat) (faces : list Face) (s : GemmState) :
  Forall face_proper faces -> build_gemm_state n_vs faces = Ok s ->
  gemm_inv s.
Proof.
  unfold build_gemm_state. intros Hfaces H.
  eapply (for_each_Ok_inv gemm_inv process_face faces); [|apply gemm_init_inv|exact H].
  intros s1 face s2 Hface Hinv Hstep.
  rewrite Forall_forall in Hfaces.
  by eapply process_face_inv; [|apply Hfaces|].
Qed.

Lemma gemm_inv_back_pointers (s : GemmState) :
  gemm_inv s ->
  forall e k, 0 <= e < len (bg_edge_nb s) -> 0 <= k < 6 ->
    back_pointer_at (bg_edge_nb s) (bg_sides s) e k.
Proof.
  intros [Hc Hl1 Hl2 Hl3 Hr1 Hr2 Hkr Hki Hcnt Hback Hunset] e k He Hk n Hn Hne.
  rewrite cell_getitem2 in Hn by done. injection Hn as Hn.
  rewrite Hl1 in He.
  destruct (decide (k < cnt (bg_nb_count s) e)) as [Hlt|Hge].
  - destruct (Hback e k He ltac:(lia)) as (Hn' & Ht & Hcell).
    rewrite Hn in Hn', Ht, Hcell.
    exists (cell (bg_sides s) e k).
    rewrite cell_getitem2 by (first [done | lia]). split; [done|].
    pose proof (Hcnt n Hn').
    rewrite cell_getitem2 by (first [done | lia]). by rewrite Hcell.
  - rewrite Hunset in Hn by lia. lia.
Qed.

Lemma gemm_inv_wf (s : GemmState) (m : Mesh) :
  gemm_inv s -> gemm_edges m = bg_edge_nb s -> wf_gemm m.
Proof.
  intros [Hc Hl1 Hl2 Hl3 Hr1 Hr2 Hkr Hki Hcnt Hback Hunset] Hm.
  unfold wf_gemm. rewrite Hm. apply Forall_lookup_2. intros i row Hrow.
  assert (length row = 6%nat) as Hrow6.
  { unfold rows6 in Hr1. rewrite Forall_forall in Hr1.
    apply Hr1. by eapply list_elem_of_lookup_2. }
  split; [done|]. apply Forall_lookup_2. intros j n Hn.
  assert (0 <= Z.of_nat i < bg_edges_count s) as Hi.
  { apply lookup_lt_Some in Hrow. unfold len in Hl1. lia. }
  assert (0 <= Z.of_nat j < 6) as Hj.
  { apply lookup_lt_Some in Hn. lia. }
  assert (cell (bg_edge_nb s) (Z.of_nat i) (Z.of_nat j) = n) as Hcell.
  { unfold cell. rewrite !Nat2Z.id, Hrow. simpl. by rewrite Hn. }
  rewrite Hl1.
  destruct (decide (Z.of_nat j < cnt (bg_nb_count s) (Z.of_nat i))) as [Hlt|Hge].
  - destruct (Hback (Z.of_nat i) (Z.of_nat j) Hi) as (Hrange & _); [lia|].
    rewrite Hcell in Hrange. lia.
  - rewrite (Hunset (Z.of_nat i) (Z.of_nat j) Hi) in Hcell; lia.
Qed.

(** X23.  When every face has four different sides and [build_gemm]
    returns, every edge is live, the rows of [gemm_edges] hold edge ids
    or -1, and for every edge [e] and slot [k] with
    [gemm_edges[e][k] != -1],
    [gemm_edges[gemm_edges[e][k]][sides[e][k]] == e]. *)
Theorem build_gemm_back_pointers (n_vs : nat) (faces : list Face)
    (mesh : Mesh) :
  Forall face_proper faces ->
  build_gemm n_vs faces = Ok mesh ->
  edges_count mesh = len (gemm_edges mesh) /\
  wf_gemm mesh /\
  back_pointer_invariant mesh.
Proof.
  intros Hfaces. unfold build_gemm. intros H. inv_bind H. injection H as <-.
  pose proof (build_gemm_state_inv _ _ _ Hfaces Hx) as Hinv.
  split; [|split]; simpl.
  - symmetry. apply (inv_len_nb _ Hinv).
  - by apply (gemm_inv_wf x).
  - unfold back_pointer_invariant. simpl.
    by apply gemm_inv_back_pointers.
Qed.

Lemma build_gemm_back_pointers_witness :
  edges_count (mesh_of 8 cube_faces) = len (gemm_edges (mesh_of 8 cube_faces))
  /\ wf_gemm (mesh_of 8 cube_faces)
  /\ back_pointer_invariant (mesh_of 8 cube_faces).
Proof.
  apply (build_gemm_back_pointers 8 cube_faces).
  - unfold face_proper. refine (bool_decide_unpack _ _). vm_compute. exact I.
  - vm_compute. reflexivity.
Defined.

(** Without four different sides the back pointers can be wrong.  For
    the face (0, 1, 2, 1), whose sides are the edges (0, 1) and (1, 2)
    twice each, [build_gemm] returns arrays in which slot 0 of edge 0
    names edge 1 while [sides[0][0]] is still -1, and [gemm_edges[1][-1]]
    is edge 1, not edge 0. *)
Lemma build_gemm_folded_face :
  exists mesh,
    build_gemm 3 folded_faces = Ok mesh /\ ~ back_pointer_invariant mesh.
Proof.
  eexists. split; [vm_compute; reflexivity|].
  intros H.
  destruct (H 0 0 ltac:(vm_compute; split; [discriminate|reflexivity])
              ltac:(lia) 1 ltac:(vm_compute; reflexivity) ltac:(discriminate))
    as (s & Hs & Hg).
  vm_compute in Hs. injection Hs as <-. vm_compute in Hg. discriminate.
Qed.

(** * Further properties of the pooling layer *)


(** ** The target guard *)

(** X2.  The loop of [__pool_main] tests [edges_count] before the
    attempt, and the attempt starts by clearing doublets.  When that
    clearing has brought [edges_count] down to the target or below, no
    edge is collapsed: [__pool_edge] returns False for every valid
    candidate and the state is the one the clearing left. *)
Theorem pool_edge_stops_at_target {G : Type} (ops : MeshOps G)
    (out_target : Z) (fuel : nat) (st st1 : PoolState G) (edge_id : Z) :
  pool_mesh_operations ops fuel st = Ok st1 ->
  edges_count (st_mesh st1) <= out_target ->
  wf_gemm (st_mesh st1) ->
  0 <= edge_id < len (gemm_edges (st_mesh st1)) ->
  pool_edge ops out_target fuel st edge_id = Ok (false, st1).
Proof.
  intros H1 H2 Hwf He.
  destruct (has_boundaries_spec _ _ Hwf He) as (b & Hb & _).
  unfold pool_edge. rewrite H1. simpl. rewrite Hb. simpl.
  destruct b; [done|].
  by rewrite (clean_side_below_target out_target (st_mesh st1) edge_id 0 H2).
Qed.

Lemma pool_edge_stops_at_target_witness :
  exists st1,
    pool_mesh_operations sample_ops 2
      (start_state (mesh_of 9 split_cube_faces)) = Ok st1 /\
    pool_edge sample_ops 12 2 (start_state (mesh_of 9 split_cube_faces)) 4
    = Ok (false, st1).
Proof.
  eexists. split; [vm_compute; reflexivity|].
  apply (pool_edge_stops_at_target sample_ops 12 2).
  - vm_compute. reflexivity.
  - vm_compute. discriminate.
  - unfold wf_gemm. refine (bool_decide_unpack _ _). vm_compute. exact I.
  - split; vm_compute; [discriminate|reflexivity].
Defined.

(** ** The order of the attempts *)

Lemma sorted_lookup {A : Type} (R : A -> A -> Prop) (l : list A)
    (i j : nat) (x y : A) :
  StronglySorted R l -> l !! i = Some x -> l !! j = Some y -> (i < j)%nat ->
  R x y.
Proof.
  intros Hs. revert i j. induction Hs as [|a l Hs IH Hall]; intros i j Hi Hj Hlt.
  - done.
  - destruct j as [|j]; [lia|]. simpl in Hj. destruct i as [|i].
    + injection Hi as <-. apply list_elem_of_lookup_2 in Hj.
      by apply (proj1 (Forall_forall _ _) Hall).
    + simpl in Hi. apply (IH i j); [done..|lia].
Qed.

Section HeapDrain.

Context {A : Type} `{!Inhabited A} (lt : A -> A -> bool).

Lemma heap_drain_elem (n : nat) (h : list A) (x : A) :
  x ∈ heap_drain lt n h -> x ∈ h.
Proof.
  revert h. induction n as [|n IH]; intros h; cbn [heap_drain].
  - by intros ?%elem_of_nil.
  - destruct (heappop lt h) as [[y h']| |] eqn:Hpop;
      [|by intros ?%elem_of_nil..].
    apply heappop_perm in Hpop. rewrite <- Hpop.
    intros [->|Hin]%elem_of_cons; [apply list_elem_of_here|].
    apply list_elem_of_further. by apply IH.
Qed.

Context (Hasym : forall a b, lt a b = true -> lt b a = false).
Context (Htrans : forall a b c, lt b a = false -> lt c b = false ->
                               lt c a = false).

(** [heappop] hands out the items of a heap in order. *)
Lemma heap_drain_sorted (n : nat) (h : list A) :
  heap_from lt 0 h ->
  StronglySorted (fun x y => lt y x = false) (heap_drain lt n h).
Proof.
  revert h. induction n as [|n IH]; intros h Hheap; cbn [heap_drain].
  - constructor.
  - destruct (heappop lt h) as [[x h']| |] eqn:Hpop; [|constructor..].
    destruct (heappop_heap lt Hasym Htrans _ _ _ Hheap Hpop)
      as [Hleast Hheap'].
    constructor; [by apply IH|].
    apply Forall_forall. intros y Hy. apply Hleast.
    apply heap_drain_elem in Hy. apply heappop_perm in Hpop.
    rewrite <- Hpop. by apply list_elem_of_further.
Qed.

End HeapDrain.

Lemma heap_drain_entries (n : nat) (h : list entry) :
  Forall no_nan h ->
  heap_drain entry_lt n h = heap_drain entry_key_lt n h.
Proof.
  revert h. induction n as [|n IH]; intros h Hh; cbn [heap_drain]; [done|].
  rewrite <- (heappop_ext entry_lt entry_key_lt no_nan entry_lt_key) by done.
  destruct (heappop entry_lt h) as [[x h']| |] eqn:Hpop; [|done..].
  f_equal. apply IH. apply heappop_perm in Hpop. rewrite <- Hpop in Hh.
  by apply Forall_cons in Hh as [_ ?].
Qed.

(** X3.  The priorities are computed once, before the loop.  For a mesh
    of at most 2^24 edges whose squared magnitudes are numbers (none is
    NaN), the edges are popped in increasing order of the pair (squared
    magnitude of the initial features, edge id), whatever the collapses
    do to the mesh in between: of two edges popped, the one popped first
    has the smaller magnitude, or the same magnitude and the smaller
    id. *)
Theorem pool_main_pops_by_priority {G : Type} (ops : MeshOps G)
    (out_target : Z) (fuel : nat) (fe : list (list float32)) (mesh : Mesh)
    (i j : nat) (e1 e2 : Z) :
  edges_count mesh <= 2 ^ 24 ->
  Forall (fun column => is_nan (edge_magnitude (torch_sum ops) column) = false)
    (slice_to fe (edges_count mesh)) ->
  (pool_main ops out_target fuel fe mesh).1.2 !! i = Some e1 ->
  (pool_main ops out_target fuel fe mesh).1.2 !! j = Some e2 ->
  (i < j)%nat ->
  exists column1 column2,
    0 <= e1 < edges_count mesh /\ 0 <= e2 < edges_count mesh /\
    slice_to fe (edges_count mesh) !! Z.to_nat e1 = Some column1 /\
    slice_to fe (edges_count mesh) !! Z.to_nat e2 = Some column2 /\
    (SFltb (edge_magnitude (torch_sum ops) column1)
       (edge_magnitude (torch_sum ops) column2) = true \/
     (SFeqb (edge_magnitude (torch_sum ops) column1)
        (edge_magnitude (torch_sum ops) column2) = true /\ e1 < e2)).
Proof.
  intros Hsmall Hnan. unfold pool_main.
  destruct (build_queue _ _ _) as [queue| |] eqn:Hq; cbn [fst snd];
    [|done|done].
  intros Hi Hj Hlt.
  destruct (build_queue_inv _ _ _ _ Hq) as (Hec & Hlen & Hne & Hqueue).
  set (features := slice_to fe (edges_count mesh)) in *.
  set (n := length features) in *.
  assert (edges_count mesh = Z.of_nat n) as Hn by (unfold len in Hlen; lia).
  set (items := queue_items (torch_sum ops) features (edges_count mesh)) in *.
  assert (Forall no_nan items) as Hitems.
  { unfold items. rewrite Hn. apply queue_items_no_nan; [done|lia|done]. }
  destruct (entries_heapify items Hitems) as [Hheap Hqnan].
  rewrite <- Hqueue in Hheap, Hqnan.
  set (drain := heap_drain entry_lt (length queue) queue).
  pose proof (pool_while_prefix ops out_target fuel (S (length queue)) queue
                (mkPoolState mesh
                   (replicate (Z.to_nat (edges_count mesh)) true)
                   (groups_new ops (edges_count mesh)))) as [rest Hpre].
  fold drain in Hpre.
  assert (StronglySorted (fun x y => entry_key_lt y x = false) drain)
    as Hsorted.
  { unfold drain. rewrite heap_drain_entries by done.
    apply heap_drain_sorted;
      [apply entry_key_lt_asym|apply entry_key_lt_trans|done]. }
  assert (NoDup (map entry_id drain)) as Hnd.
  { unfold drain. rewrite heap_drain_perm, Hqueue, heapify_perm.
    unfold items. rewrite Hn.
    rewrite (queue_items_ids _ _ n eq_refl) by lia. apply NoDup_range. }
  assert (forall k e,
            run_popped
              (pool_while ops out_target fuel (S (length queue)) queue
                 (mkPoolState mesh
                    (replicate (Z.to_nat (edges_count mesh)) true)
                    (groups_new ops (edges_count mesh)))) !! k = Some e ->
            map entry_id drain !! k = Some e /\
            exists column,
              0 <= e < edges_count mesh /\
              features !! Z.to_nat e = Some column /\
              drain !! k
              = Some (edge_magnitude (torch_sum ops) column, f32_of_index e))
    as Hget.
  { intros k e Hk.
    assert (map entry_id drain !! k = Some e) as Hm.
    { rewrite Hpre. by apply lookup_app_l_Some. }
    split; [done|].
    apply list_lookup_fmap_Some in Hm as (x & He & Hx).
    assert (x ∈ items) as Hin.
    { rewrite <- (heapify_perm entry_lt items), <- Hqueue,
        <- (heap_drain_perm entry_lt queue).
      by eapply list_elem_of_lookup_2. }
    apply list_elem_of_lookup in Hin as [m Hm]. unfold items in Hm.
    rewrite Hn in Hm.
    apply (queue_items_lookup _ features n m _ eq_refl) in Hm
      as (column & Hcol & ->).
    apply lookup_lt_Some in Hcol as Hmn. fold n in Hmn.
    unfold entry_id in He. cbn [snd] in He.
    rewrite f32_of_index_int in He by lia. subst e.
    exists column. split; [lia|]. split; [by rewrite Nat2Z.id|done]. }
  destruct (Hget _ _ Hi) as (Hid1 & column1 & Hr1 & Hc1 & Hd1).
  destruct (Hget _ _ Hj) as (Hid2 & column2 & Hr2 & Hc2 & Hd2).
  exists column1, column2. repeat (split; [done|]).
  pose proof (sorted_lookup _ _ _ _ _ _ Hsorted Hd1 Hd2 Hlt) as Hle.
  cbv beta in Hle.
  apply entry_key_le_floats in Hle; [| | |lia..].
  - destruct Hle as [?|[? Hle]]; [by left|right]. split; [done|].
    assert (e1 <> e2); [|lia]. intros ->.
    assert (i = j); [|lia]. by apply (NoDup_lookup _ i j e2 Hnd).
  - by apply (Forall_lookup_1 _ _ _ _ Hnan Hc1).
  - by apply (Forall_lookup_1 _ _ _ _ Hnan Hc2).
Qed.

Lemma pool_main_pops_by_priority_witness :
  exists column1 column2,
    0 <= 11 < edges_count (mesh_of 8 ring_faces) /\
    0 <= 10 < edges_count (mesh_of 8 ring_faces) /\
    slice_to (map (fun i => [f32_of_index (12 - i); f32_of_index 1])
                (range 12))
      (edges_count (mesh_of 8 ring_faces)) !! Z.to_nat 11 = Some column1 /\
    slice_to (map (fun i => [f32_of_index (12 - i); f32_of_index 1])
                (range 12))
      (edges_count (mesh_of 8 ring_faces)) !! Z.to_nat 10 = Some column2 /\
    (SFltb (edge_magnitude (torch_sum sample_ops) column1)
       (edge_magnitude (torch_sum sample_ops) column2) = true \/
     (SFeqb (edge_magnitude (torch_sum sample_ops) column1)
        (edge_magnitude (torch_sum sample_ops) column2) = true /\ 11 < 10)).
Proof.
  apply (pool_main_pops_by_priority sample_ops 6 1
           (map (fun i => [f32_of_index (12 - i); f32_of_index 1]) (range 12))
           (mesh_of 8 ring_faces) 0 1 11 10).
  - vm_compute. discriminate.
  - refine (bool_decide_unpack _ _). vm_compute. exact I.
  - vm_compute. reflexivity.
  - vm_compute. reflexivity.
  - lia.
Defined.


(** ** The queue *)

(** X4.  [__build_queue] returns a queue exactly when [edges_count] is
    not negative, the feature slice has one column per edge, and there is
    not exactly one edge ([torch.cat] then meets a one-dimensional and a
    two-dimensional tensor).  The queue is a rearrangement of the items
    it was built from: for each edge below [edges_count], once, the pair
    of its squared magnitude and its id as a float32 number.  Up to 2^24
    edges the ids convert back to the edge ids, each once; if moreover no
    magnitude is NaN, the queue is a heap for the comparison of Python
    lists. *)
Theorem build_queue_heap (tsum : list float32 -> float32)
    (features : list (list float32)) (edges_count : Z) :
  ((exists queue, build_queue tsum features edges_count = Ok queue) <->
   0 <= edges_count /\ len features = edges_count /\ edges_count <> 1) /\
  forall queue, build_queue tsum features edges_count = Ok queue ->
    queue ≡ₚ queue_items tsum features edges_count /\
    length queue = Z.to_nat edges_count /\
    (forall (k : nat) column,
       features !! k = Some column ->
       (edge_magnitude tsum column, f32_of_index (Z.of_nat k)) ∈ queue) /\
    (edges_count <= 2 ^ 24 ->
     map entry_id queue ≡ₚ range (Z.to_nat edges_count)) /\
    (edges_count <= 2 ^ 24 ->
     Forall (fun column => is_nan (edge_magnitude tsum column) = false)
       features ->
     heap_from entry_lt 0 queue).
Proof.
  split.
  - split.
    + intros [queue Hq].
      by destruct (build_queue_inv _ _ _ _ Hq) as (H1 & H2 & H3 & _).
    + intros (H1 & H2 & H3). eexists. by apply build_queue_Ok.
  - intros queue Hq.
    destruct (build_queue_inv _ _ _ _ Hq) as (H1 & H2 & H3 & ->).
    set (n := length features).
    assert (edges_count = Z.of_nat n) as Hn by (unfold len in H2; lia).
    split; [apply heapify_perm|]. split; [|split; [|split]].
    + rewrite heapify_perm, Hn, Nat2Z.id. by apply queue_items_length.
    + intros k column Hcol. rewrite heapify_perm.
      apply list_elem_of_lookup. exists k. rewrite Hn.
      apply (queue_items_lookup _ features n k _ eq_refl). eauto.
    + intros Hsmall. rewrite heapify_perm, Hn, Nat2Z.id.
      by rewrite (queue_items_ids _ _ n eq_refl) by lia.
    + intros Hsmall Hnan.
      assert (Forall no_nan (queue_items tsum features edges_count))
        as Hitems.
      { rewrite Hn. apply queue_items_no_nan; [done|lia|done]. }
      destruct (entries_heapify _ Hitems) as [Hheap Hqnan].
      intros i c Hi Hc Hlt. rewrite entry_lt_key.
      * by apply Hheap.
      * apply (proj1 (Forall_forall _ _) Hqnan).
        apply list_elem_of_lookup_total_2. lia.
      * apply (proj1 (Forall_forall _ _) Hqnan).
        apply list_elem_of_lookup_total_2.
        destruct Hc; lia.
Qed.

(** ** The side test *)

Lemma getitem_wrap_total {A : Type} (l : list A) (i : Z) :
  - len l <= i < len l -> exists x, getitem l i = Ok x /\ x ∈ l.
Proof.
  intros Hi. unfold getitem, py_index, len in *.
  destruct (Z.leb_spec 0 i), (Z.ltb_spec i (Z.of_nat (length l))); simpl;
    try lia.
  - destruct (lookup_lt_is_Some_2 l (Z.to_nat i)) as [x Hx]; [lia|].
    rewrite Hx. exists x. split; [done|]. by eapply list_elem_of_lookup_2.
  - destruct (Z.leb_spec (- Z.of_nat (length l)) i), (Z.ltb_spec i 0); simpl;
      try lia.
    destruct (lookup_lt_is_Some_2 l (Z.to_nat (i + Z.of_nat (length l))))
      as [x Hx]; [lia|].
    rewrite Hx. exists x. split; [done|]. by eapply list_elem_of_lookup_2.
Qed.

Lemma other_side_cases (s : Z) : other_side s = 0 \/ other_side s = 3.
Proof.
  unfold other_side.
  pose proof (Z.div_mod s 3 ltac:(lia)) as H1.
  pose proof (Z.mod_pos_bound s 3 ltac:(lia)) as H2.
  pose proof (Z.div_mod (s - s mod 3 + 3) 6 ltac:(lia)) as H3.
  pose proof (Z.mod_pos_bound (s - s mod 3 + 3) 6 ltac:(lia)) as H4.
  lia.
Qed.

Section FaceInfo.

Context (mesh : Mesh).
Context (Hwf : wf_gemm mesh) (Hsides : wf_sides mesh).

Lemma gemm_cell_total (k j : Z) :
  - len (gemm_edges mesh) <= k < len (gemm_edges mesh) -> 0 <= j < 6 ->
  exists n, getitem2 (gemm_edges mesh) k j = Ok n /\
            -1 <= n < len (gemm_edges mesh).
Proof.
  intros Hk Hj. unfold getitem2.
  destruct (getitem_wrap_total _ _ Hk) as (row & -> & Hrow). simpl.
  unfold wf_gemm in Hwf. rewrite Forall_forall in Hwf.
  destruct (Hwf _ Hrow) as [Hlen Hvals].
  destruct (getitem_wrap_total row j) as (n & -> & Hn);
    [unfold len; lia|].
  exists n. split; [done|]. rewrite Forall_forall in Hvals. by apply Hvals.
Qed.

Lemma sides_cell_total (k j : Z) :
  0 <= k < len (gemm_edges mesh) -> 0 <= j < 6 ->
  exists n, getitem2 (sides mesh) k j = Ok n.
Proof.
  intros Hk Hj. destruct Hsides as [Hlen Hrows]. unfold getitem2.
  destruct (getitem_wrap_total (sides mesh) k) as (row & -> & Hrow); [lia|].
  simpl. unfold rows6 in Hrows. rewrite Forall_forall in Hrows.
  specialize (Hrows _ Hrow).
  destruct (getitem_wrap_total row j) as (n & -> & Hn); [unfold len; lia|].
  by exists n.
Qed.

Lemma other_keys_total (key s : Z) :
  -1 <= key < len (gemm_edges mesh) -> 0 < len (gemm_edges mesh) ->
  exists l, other_keys mesh key (other_side s) = Ok l /\ length l = 3%nat.
Proof.
  intros Hkey Hne. unfold other_keys.
  assert (- len (gemm_edges mesh) <= key < len (gemm_edges mesh)) as Hk by lia.
  destruct (other_side_cases s) as [-> | ->].
  - destruct (gemm_cell_total key 0 Hk ltac:(lia)) as (n0 & -> & _).
    destruct (gemm_cell_total key (0 + 1) Hk ltac:(lia)) as (n1 & -> & _).
    destruct (gemm_cell_total key (0 + 2) Hk ltac:(lia)) as (n2 & -> & _).
    simpl. eauto.
  - destruct (gemm_cell_total key 3 Hk ltac:(lia)) as (n0 & -> & _).
    destruct (gemm_cell_total key (3 + 1) Hk ltac:(lia)) as (n1 & -> & _).
    destruct (gemm_cell_total key (3 + 2) Hk ltac:(lia)) as (n2 & -> & _).
    simpl. eauto.
Qed.

Lemma get_face_info_total (edge_id side : Z) :
  0 <= edge_id < len (gemm_edges mesh) -> side = 0 \/ side = 3 ->
  exists info,
    get_face_info mesh edge_id side = Ok info /\
    length (other_keys_a info) = 3%nat /\
    length (other_keys_b info) = 3%nat /\
    length (other_keys_c info) = 3%nat.
Proof.
  intros He Hside. unfold get_face_info.
  assert (- len (gemm_edges mesh) <= edge_id < len (gemm_edges mesh)) as Hk
    by lia.
  destruct (gemm_cell_total edge_id side Hk ltac:(lia)) as (ka & -> & Hka).
  destruct (gemm_cell_total edge_id (side + 1) Hk ltac:(lia))
    as (kb & -> & Hkb).
  destruct (gemm_cell_total edge_id (side + 2) Hk ltac:(lia))
    as (kc & -> & Hkc).
  destruct (sides_cell_total edge_id side He ltac:(lia)) as (sa & ->).
  destruct (sides_cell_total edge_id (side + 1) He ltac:(lia)) as (sb & ->).
  destruct (sides_cell_total edge_id (side + 2) He ltac:(lia)) as (sc & ->).
  cbn [mbind result_bind rbind].
  destruct (other_keys_total ka sa Hka ltac:(lia)) as (oka & -> & Ha).
  destruct (other_keys_total kb sb Hkb ltac:(lia)) as (okb & -> & Hb).
  destruct (other_keys_total kc sc Hkc ltac:(lia)) as (okc & -> & Hc).
  cbn [mbind result_bind rbind]. eexists. split; [reflexivity|]. done.
Qed.

End FaceInfo.

(** X5.  On arrays of the right shape ([gemm_edges] and [sides] are
    [E x 6], the entries of [gemm_edges] are edge ids or -1),
    [__get_face_info] never fails for a valid edge and side 0 or 3, also
    next to a border: a neighbour slot of -1 reads the last row, and the
    "other side" computed from any entry of [sides] is 0 or 3.
    [__clean_side] therefore ends in one of three ways: True, False (at
    or below the target), or the failed assertion. *)
Theorem clean_side_outcomes (out_target : Z) (mesh : Mesh)
    (edge_id side : Z) :
  wf_gemm mesh -> wf_sides mesh ->
  0 <= edge_id < len (gemm_edges mesh) ->
  side = 0 \/ side = 3 ->
  (exists info,
     get_face_info mesh edge_id side = Ok info /\
     length (other_keys_a info) = 3%nat /\
     length (other_keys_b info) = 3%nat /\
     length (other_keys_c info) = 3%nat /\
     (other_side_a info = 0 \/ other_side_a info = 3) /\
     (other_side_b info = 0 \/ other_side_b info = 3) /\
     (other_side_c info = 0 \/ other_side_c info = 3)) /\
  (clean_side out_target mesh edge_id side = Ok true \/
   clean_side out_target mesh edge_id side = Ok false \/
   clean_side out_target mesh edge_id side = Raise AssertionError).
Proof.
  intros Hwf Hsides He Hside.
  destruct (get_face_info_total mesh Hwf Hsides edge_id side He Hside)
    as (info & Hinfo & Ha & Hb & Hc).
  split.
  - exists info. repeat (split; [done|]).
    unfold get_face_info in Hinfo. repeat inv_bind Hinfo.
    injection Hinfo as <-. simpl.
    split; [|split]; apply other_side_cases.
  - unfold clean_side. destruct (_ <=? _); [by auto|].
    rewrite Hinfo. cbn [mbind result_bind rbind].
    destruct (_ && _); auto.
Qed.

Lemma clean_side_outcomes_witness :
  clean_side 6 (mesh_of 8 ring_faces) 0 0 = Ok true \/
  clean_side 6 (mesh_of 8 ring_faces) 0 0 = Ok false \/
  clean_side 6 (mesh_of 8 ring_faces) 0 0 = Raise AssertionError.
Proof.
  apply (clean_side_outcomes 6 (mesh_of 8 ring_faces) 0 0).
  - unfold wf_gemm. refine (bool_decide_unpack _ _). vm_compute. exact I.
  - unfold wf_sides, rows6. refine (bool_decide_unpack _ _). vm_compute. exact I.
  - vm_compute. split; [discriminate|reflexivity].
  - by left.
Defined.


Lemma matching_pairs_elem (list_a list_b : list Z) (i j : Z) :
  (i, j) ∈ matching_pairs list_a list_b <->
  exists x, list_a !! Z.to_nat i = Some x /\ list_b !! Z.to_nat j = Some x /\
            0 <= i /\ 0 <= j.
Proof.
  unfold matching_pairs. rewrite list_elem_of_filter. simpl.
  rewrite list_elem_of_bind. split.
  - intros (Heq & i' & Hij & Hi).
    apply list_elem_of_bind in Hij as (j' & Hij & Hj).
    apply list_elem_of_singleton in Hij. injection Hij as <- <-.
    apply elem_of_range in Hi, Hj.
    destruct (lookup_lt_is_Some_2 list_a (Z.to_nat i)) as [x Hx]; [lia|].
    destruct (lookup_lt_is_Some_2 list_b (Z.to_nat j)) as [y Hy]; [lia|].
    rewrite !nth_lookup, Hx, Hy in Heq. simpl in Heq. subst y.
    exists x. repeat split; [done|done|lia|lia].
  - intros (x & Hx & Hy & Hi & Hj). split.
    + by rewrite !nth_lookup, Hx, Hy.
    + exists i. split.
      * apply list_elem_of_bind. exists j. split; [set_solver|].
        apply elem_of_range. apply lookup_lt_Some in Hy. lia.
      * apply elem_of_range. apply lookup_lt_Some in Hx. lia.
Qed.

Lemma shared_pairs_inner (P : Z -> Z -> Prop) `{!forall i j, Decision (P i j)}
    (i : Z) (js : list Z) :
  (j ← js; if decide (P i j) then [i; j] else [])
  = filter (fun p : Z * Z => P p.1 p.2) (j ← js; [(i, j)])
      ≫= fun p => [p.1; p.2].
Proof.
  induction js as [|j js IH]; [done|].
  rewrite !bind_cons, IH. simpl. rewrite filter_cons. simpl.
  destruct (decide (P i j)); [by rewrite bind_cons|done].
Qed.

Lemma shared_pairs_outer (P : Z -> Z -> Prop) `{!forall i j, Decision (P i j)}
    (ixs js : list Z) :
  (i ← ixs; j ← js; if decide (P i j) then [i; j] else [])
  = filter (fun p : Z * Z => P p.1 p.2) (i ← ixs; j ← js; [(i, j)])
      ≫= fun p => [p.1; p.2].
Proof.
  induction ixs as [|i ixs IH]; [done|].
  rewrite !bind_cons, IH, filter_app, bind_app. f_equal.
  apply shared_pairs_inner.
Qed.

(** X6.  [__get_shared_items] returns, for every pair of positions
    [(i, j)] with [list_a[i] == list_b[j]], taken in the order of the two
    loops, the two indices [i], [j]; in particular it returns the empty
    list exactly when the two lists have no element in common. *)
Theorem get_shared_items_pairs (list_a list_b : list Z) :
  get_shared_items list_a list_b
  = (matching_pairs list_a list_b ≫= fun p => [p.1; p.2]) /\
  (get_shared_items list_a list_b = [] <->
   forall x, x ∈ list_a -> x ∉ list_b).
Proof.
  assert (get_shared_items list_a list_b
          = (matching_pairs list_a list_b ≫= fun p => [p.1; p.2])) as Heq.
  { unfold get_shared_items, matching_pairs.
    rewrite get_shared_items_fold, app_nil_l.
    etransitivity;
      [|apply (@shared_pairs_outer
                 (fun i j => nth (Z.to_nat i) list_a 0
                             = nth (Z.to_nat j) list_b 0)
                 (fun i j => decide_rel (=) _ _))].
    apply list_bind_ext; [|done]. intros i.
    apply list_bind_ext; [|done]. intros j.
    destruct (Z.eqb_spec (nth (Z.to_nat i) list_a 0) (nth (Z.to_nat j) list_b 0));
      by case_decide. }
  split; [done|]. rewrite Heq. split.
  - intros Hnil x Ha Hb.
    apply list_elem_of_lookup in Ha as [i Hi].
    apply list_elem_of_lookup in Hb as [j Hj].
    assert ((Z.of_nat i, Z.of_nat j) ∈ matching_pairs list_a list_b) as Hin.
    { apply matching_pairs_elem. exists x. rewrite !Nat2Z.id.
      repeat split; [done|done|lia|lia]. }
    destruct (matching_pairs list_a list_b) as [|p l]; [by apply elem_of_nil in Hin|].
    by rewrite bind_cons in Hnil.
  - intros Hdis. destruct (matching_pairs list_a list_b) as [|[i j] l] eqn:E;
      [done|].
    assert ((i, j) ∈ matching_pairs list_a list_b) as Hin
      by (rewrite E; left).
    apply matching_pairs_elem in Hin as (x & Hx & Hy & _).
    destruct (Hdis x); by eapply list_elem_of_lookup_2.
Qed.


(** * Mesh preparation *)

(** ** [remove_non_manifolds] *)

Section RemoveNonManifoldsFacts.

Context {Area : Type} (area_is_zero : Area -> bool).

Lemma scan_face_spec (edges_set : gset (Z * Z)) (cur acc : list (Z * Z)) :
  (forallb (fun edge => negb (bool_decide (edge ∈ edges_set))) cur = true ->
   scan_face edges_set cur acc = (false, acc ++ cur)) /\
  (forallb (fun edge => negb (bool_decide (edge ∈ edges_set))) cur = false ->
   (scan_face edges_set cur acc).1 = true).
Proof.
  revert acc. induction cur as [|e cur IH]; intros acc; simpl.
  - split; [by rewrite app_nil_r|done].
  - destruct (bool_decide (e ∈ edges_set)); simpl; [done|].
    destruct (IH (acc ++ [e])) as [IH1 IH2]. split.
    + intros H. rewrite IH1 by done. by rewrite <- app_assoc.
    + done.
Qed.

Lemma foldl_add_edges (edges_set : gset (Z * Z)) (l : list (Z * Z)) :
  foldl (fun acc edge => acc ∪ {[edge]}) edges_set l
  = edges_set ∪ list_to_set l.
Proof.
  revert edges_set. induction l as [|e l IH]; intros edges_set; simpl.
  - set_solver.
  - rewrite IH. set_solver.
Qed.

Lemma nm_step_spec (face_areas : list Area) (k : nat) (face : Face)
    (area : Area) (edges_set : gset (Z * Z)) (mask : list bool) :
  face_areas !! k = Some area -> (k < length mask)%nat ->
  nm_step area_is_zero face_areas (edges_set, mask) (Z.of_nat k, face)
  = Ok (if keeps area_is_zero edges_set face area
        then (edges_set ∪ list_to_set (cur_edges face), mask)
        else (edges_set, <[k := false]> mask)).
Proof.
  intros Harea Hk. unfold nm_step, keeps.
  assert (getitem face_areas (Z.of_nat k) = Ok area) as ->.
  { rewrite getitem_nonneg; [by rewrite Nat2Z.id, Harea|].
    apply lookup_lt_Some in Harea. unfold len. lia. }
  assert (setitem mask (Z.of_nat k) false = Ok (<[k := false]> mask)) as Hset.
  { unfold setitem. rewrite py_index_nonneg by lia. by rewrite Nat2Z.id. }
  cbn [mbind result_bind rbind].
  destruct (area_is_zero area); simpl; [by rewrite Hset|].
  destruct (scan_face_spec edges_set (cur_edges face) []) as [H1 H2].
  destruct (forallb _ (cur_edges face)) eqn:Hall.
  - rewrite H1 by done. simpl. by rewrite foldl_add_edges.
  - specialize (H2 eq_refl).
    destruct (scan_face edges_set (cur_edges face) []) as [b fe].
    simpl in H2. subst b. by rewrite Hset.
Qed.

Lemma nm_loop (face_areas : list Area) (rest : list Face) :
  forall (k : nat) (done_mask : list bool) (edges_set : gset (Z * Z)),
    length done_mask = k ->
    (k + length rest <= length face_areas)%nat ->
    for_each (zip (map Z.of_nat (seq k (length rest))) rest)
      (nm_step area_is_zero face_areas)
      (edges_set, done_mask ++ replicate (length rest) true)
    = Ok (kept_set area_is_zero edges_set (zip rest (drop k face_areas)),
          done_mask
          ++ kept_mask area_is_zero edges_set (zip rest (drop k face_areas))).
Proof.
  induction rest as [|face rest IH]; intros k done_mask edges_set Hk Hlen.
  - done.
  - simpl in Hlen.
    destruct (lookup_lt_is_Some_2 face_areas k) as [area Harea]; [lia|].
    rewrite (drop_S _ _ _ Harea). cbn [length seq map zip zip_with for_each replicate].
    rewrite (nm_step_spec _ _ _ area) by
      (first [done | rewrite length_app; simpl; lia]).
    cbn [mbind result_bind rbind kept_set kept_mask].
    destruct (keeps area_is_zero edges_set face area).
    + specialize (IH (S k) (done_mask ++ [true])
                    (edges_set ∪ list_to_set (cur_edges face))).
      rewrite <- !app_assoc in IH. simpl in IH. rewrite IH; [done| |lia].
      rewrite length_app. simpl. lia.
    + replace (<[k:=false]> (done_mask ++ true :: replicate (length rest) true))
        with ((done_mask ++ [false]) ++ replicate (length rest) true).
      * specialize (IH (S k) (done_mask ++ [false]) edges_set).
        rewrite IH; [by rewrite <- app_assoc| |lia].
        rewrite length_app. simpl. lia.
      * rewrite <- app_assoc. simpl. subst k.
        rewrite insert_app_r_alt by lia. by rewrite Nat.sub_diag.
Qed.

Lemma kept_mask_length (edges_set : gset (Z * Z)) (xs : list (Face * Area)) :
  length (kept_mask area_is_zero edges_set xs) = length xs.
Proof.
  revert edges_set. induction xs as [|[face area] xs IH]; intros s; [done|].
  simpl. destruct (keeps _ _ _ _); simpl; by rewrite IH.
Qed.

Lemma mask_select_kept {B : Type} (f : Face * Area -> B)
    (edges_set : gset (Z * Z)) (xs : list (Face * Area)) :
  snd <$> filter (fun p : bool * B => p.1 = true)
            (zip (kept_mask area_is_zero edges_set xs) (f <$> xs))
  = f <$> kept area_is_zero edges_set xs.
Proof.
  revert edges_set. induction xs as [|[face area] xs IH]; intros s; [done|].
  cbn [kept_mask kept]. rewrite fmap_cons.
  destruct (keeps _ _ _ _); cbn [zip_with].
  - rewrite filter_cons_True by done. rewrite !fmap_cons. cbn [snd].
    by rewrite IH.
  - rewrite filter_cons_False by done. by rewrite IH.
Qed.

Lemma remove_non_manifolds_loop_kept (n_vs : nat) (face_areas : list Area)
    (faces : list Face) :
  length face_areas = length faces ->
  remove_non_manifolds_loop area_is_zero n_vs face_areas faces
  = Ok (replicate n_vs [],
        fst <$> kept area_is_zero ∅ (zip faces face_areas),
        snd <$> kept area_is_zero ∅ (zip faces face_areas)).
Proof.
  intros Hlen. unfold remove_non_manifolds_loop, enumerate, range.
  pose proof (nm_loop face_areas faces 0 [] ∅ eq_refl ltac:(simpl; lia)) as H.
  simpl in H. rewrite drop_0 in H. rewrite H.
  cbn [mbind result_bind rbind].
  set (xs := zip faces face_areas).
  assert (length xs = length faces) as Hxs.
  { unfold xs. rewrite length_zip_with. lia. }
  unfold mask_select. rewrite !kept_mask_length, Hxs.
  rewrite decide_True by done. cbn [mbind result_bind rbind].
  rewrite decide_True by done. cbn [mbind result_bind rbind].
  assert (faces = fst <$> xs) as Hf by (unfold xs; rewrite fst_zip; [done|lia]).
  assert (face_areas = snd <$> xs) as Ha
    by (unfold xs; rewrite snd_zip; [done|lia]).
  rewrite Hf at 1. rewrite Ha at 1.
  by rewrite !mask_select_kept.
Qed.

End RemoveNonManifoldsFacts.


Section KeptFacts.

Context {Area : Type} (area_is_zero : Area -> bool).

Lemma keeps_spec (edges_set : gset (Z * Z)) (face : Face) (area : Area) :
  keeps area_is_zero edges_set face area = true <->
  area_is_zero area = false /\
  forall d, d ∈ cur_edges face -> d ∉ edges_set.
Proof.
  unfold keeps. rewrite andb_true_iff, negb_true_iff, forallb_forall.
  split; intros [H1 H2]; (split; [done|]).
  - intros d Hd. apply list_elem_of_In, H2 in Hd.
    apply negb_true_iff, bool_decide_eq_false in Hd. done.
  - intros d Hd. apply negb_true_iff, bool_decide_eq_false.
    apply H2. by apply list_elem_of_In.
Qed.

Lemma kept_sublist (edges_set : gset (Z * Z)) (xs : list (Face * Area)) :
  kept area_is_zero edges_set xs `sublist_of` xs.
Proof.
  revert edges_set. induction xs as [|[face area] xs IH]; intros s; [done|].
  simpl. destruct (keeps area_is_zero s face area).
  - by apply sublist_skip.
  - by apply sublist_cons.
Qed.


Lemma kept_directed_once (edges_set : gset (Z * Z))
    (xs : list (Face * Area)) :
  (forall f, f ∈ (kept area_is_zero edges_set xs).*1 ->
     forall d, d ∈ cur_edges f -> d ∉ edges_set) /\
  directed_edges_once ((kept area_is_zero edges_set xs).*1).
Proof.
  revert edges_set. induction xs as [|[face area] xs IH]; intros s.
  - split; [by intros f Hf%elem_of_nil|]. by intros i j f g Hf.
  - simpl. destruct (keeps area_is_zero s face area) eqn:Hk; [|by apply IH].
    apply keeps_spec in Hk as [_ Hk].
    destruct (IH (s ∪ list_to_set (cur_edges face))) as [IH1 IH2].
    rewrite fmap_cons. simpl. split.
    + intros f Hf d Hd. apply elem_of_cons in Hf as [->|Hf]; [by apply Hk|].
      specialize (IH1 f Hf d Hd). set_solver.
    + intros i j f g Hf Hg Hij d Hd Hd'.
      destruct i as [|i], j as [|j]; simpl in *; try done.
      * injection Hf as <-. apply list_elem_of_lookup_2 in Hg.
        specialize (IH1 g Hg d Hd'). set_solver.
      * injection Hg as <-. apply list_elem_of_lookup_2 in Hf.
        specialize (IH1 f Hf d Hd). set_solver.
      * apply (IH2 i j f g Hf Hg ltac:(lia) d Hd Hd').
Qed.

Lemma kept_idem (s t : gset (Z * Z)) (xs : list (Face * Area)) :
  t ⊆ s ->
  kept area_is_zero t (kept area_is_zero s xs) = kept area_is_zero s xs.
Proof.
  revert s t. induction xs as [|[face area] xs IH]; intros s t Hts; [done|].
  simpl. destruct (keeps area_is_zero s face area) eqn:Hk; [|by apply IH].
  simpl. assert (keeps area_is_zero t face area = true) as ->.
  { apply keeps_spec in Hk as [H1 H2]. apply keeps_spec.
    split; [done|]. intros d Hd. specialize (H2 d Hd). set_solver. }
  f_equal. apply IH. set_solver.
Qed.

Lemma remove_non_manifolds_loop_Ok (n_vs : nat) (face_areas : list Area)
    (faces : list Face) ve faces' areas' :
  remove_non_manifolds_loop area_is_zero n_vs face_areas faces
  = Ok (ve, faces', areas') ->
  length face_areas = length faces /\
  ve = replicate n_vs [] /\
  faces' = (kept area_is_zero ∅ (zip faces face_areas)).*1 /\
  areas' = (kept area_is_zero ∅ (zip faces face_areas)).*2.
Proof.
  intros H.
  assert (length face_areas = length faces) as Hlen.
  { unfold remove_non_manifolds_loop in H. inv_bind H. destruct x as [s mask].
    inv_bind H. inv_bind H. unfold mask_select in Hx0, Hx1.
    repeat case_decide; try done. lia. }
  rewrite remove_non_manifolds_loop_kept in H by done.
  by injection H as <- <- <-.
Qed.

End KeptFacts.

Section FaceNorms.

Context (np_sum : list float64 -> float64) (vs : list vec3).

Lemma map_result_length {A B : Type} (f : A -> result B) (xs : list A)
    (ys : list B) :
  map_result f xs = Ok ys -> length ys = length xs.
Proof. intros H%map_result_Ok. symmetry. by eapply Forall2_length. Qed.

Lemma remove_non_manifolds_norms (faces : list Face) (norms : list float64) :
  map_result (face_norm np_sum vs) faces = Ok norms ->
  existsb f64_is_zero norms = false ->
  remove_non_manifolds np_sum vs faces
  = Ok (replicate (length vs) [],
        (kept f64_is_zero ∅ (zip faces (map f64_halve norms))).*1,
        (kept f64_is_zero ∅ (zip faces (map f64_halve norms))).*2).
Proof.
  intros Hnorms Hzero.
  unfold remove_non_manifolds, compute_face_normals_and_areas, checked_areas.
  rewrite Hnorms. cbn [mbind result_bind rbind]. rewrite Hzero.
  cbn [mbind result_bind rbind].
  apply remove_non_manifolds_loop_kept.
  rewrite length_map. by eapply map_result_length.
Qed.

Lemma remove_non_manifolds_inv (faces : list Face) ve faces' areas' :
  remove_non_manifolds np_sum vs faces = Ok (ve, faces', areas') ->
  exists norms,
    map_result (face_norm np_sum vs) faces = Ok norms /\
    existsb f64_is_zero norms = false /\
    ve = replicate (length vs) [] /\
    faces' = (kept f64_is_zero ∅ (zip faces (map f64_halve norms))).*1 /\
    areas' = (kept f64_is_zero ∅ (zip faces (map f64_halve norms))).*2.
Proof.
  intros H. pose proof H as H0.
  unfold remove_non_manifolds, compute_face_normals_and_areas in H.
  inv_bind H. inv_bind Hx. rename x0 into norms. unfold checked_areas in Hx.
  destruct (existsb f64_is_zero norms) eqn:Hzero; [done|].
  exists norms. split; [done|]. split; [done|].
  rewrite (remove_non_manifolds_norms _ _ Hx0 Hzero) in H0.
  by injection H0 as <- <- <-.
Qed.



(** The norms of faces picked from a list whose norms are known. *)
Lemma face_norms_of (xs : list (Face * float64)) :
  Forall (fun fa : Face * float64 =>
            exists n, face_norm np_sum vs fa.1 = Ok n /\
                      fa.2 = f64_halve n /\ f64_is_zero n = false) xs ->
  exists norms,
    map_result (face_norm np_sum vs) xs.*1 = Ok norms /\
    map f64_halve norms = xs.*2 /\
    existsb f64_is_zero norms = false.
Proof.
  induction 1 as [|[face area] xs (n & Hn & Ha & Hz) _ (norms & IH1 & IH2 & IH3)].
  - by exists [].
  - exists (n :: norms). cbn in *. rewrite Hn. cbn. rewrite IH1. cbn.
    split; [done|]. split; [by rewrite Ha, IH2|]. by rewrite Hz.
Qed.

Lemma face_norms_zip (faces : list Face) (norms : list float64) :
  map_result (face_norm np_sum vs) faces = Ok norms ->
  existsb f64_is_zero norms = false ->
  Forall (fun fa : Face * float64 =>
            exists n, face_norm np_sum vs fa.1 = Ok n /\
                      fa.2 = f64_halve n /\ f64_is_zero n = false)
    (zip faces (map f64_halve norms)).
Proof.
  intros H%map_result_Ok. induction H as [|face n faces norms Hn _ IH].
  - constructor.
  - cbn. intros [Hz Hrest]%orb_false_elim. constructor; [|by apply IH].
    by exists n.
Qed.

End FaceNorms.


(** On the prism the third face repeats a directed edge of the first
    and is left out; with a face that spans no area the function
    fails. *)
Lemma remove_non_manifolds_examples :
  remove_non_manifolds sample_np_sum prism_vs prism_faces
  = Ok (replicate 6 [], [(0, 1, 2, 3); (1, 4, 5, 2); (1, 0, 5, 4)],
        replicate 3 f64_half) /\
  remove_non_manifolds sample_np_sum prism_vs flat_faces
  = Raise AssertionError /\
  remove_non_manifolds sample_np_sum prism_vs [(0, 1, 7, 2)]
  = Raise IndexError.
Proof. repeat split; vm_compute; reflexivity. Qed.

(** X8.  In the list [remove_non_manifolds] returns, no directed edge
    [(face[i], face[(i + 1) % 4])] belongs to two faces. *)
Theorem remove_non_manifolds_directed_once
    (np_sum : list float64 -> float64) (vs : list vec3) (faces : list Face)
    ve faces' areas' :
  remove_non_manifolds np_sum vs faces = Ok (ve, faces', areas') ->
  directed_edges_once faces'.
Proof.
  intros H. apply remove_non_manifolds_inv in H as (norms & _ & _ & _ & -> & _).
  apply kept_directed_once.
Qed.

Lemma remove_non_manifolds_directed_once_witness :
  directed_edges_once [(0, 1, 2, 3); (1, 4, 5, 2); (1, 0, 5, 4)].
Proof.
  apply (remove_non_manifolds_directed_once sample_np_sum prism_vs
           prism_faces (replicate 6 []) _ (replicate 3 f64_half)).
  vm_compute. reflexivity.
Defined.

(** X9.  [remove_non_manifolds] is idempotent: run on the faces it
    returned, it returns the same faces and areas. *)
Theorem remove_non_manifolds_idempotent
    (np_sum : list float64 -> float64) (vs : list vec3) (faces : list Face)
    ve faces' areas' :
  remove_non_manifolds np_sum vs faces = Ok (ve, faces', areas') ->
  remove_non_manifolds np_sum vs faces' = Ok (ve, faces', areas').
Proof.
  intros H.
  apply remove_non_manifolds_inv in H
    as (norms & Hnorms & Hzero & -> & -> & ->).
  set (xs := kept f64_is_zero ∅ (zip faces (map f64_halve norms))).
  destruct (face_norms_of np_sum vs xs) as (norms' & H1 & H2 & H3).
  { pose proof (face_norms_zip np_sum vs _ _ Hnorms Hzero) as Hall.
    apply Forall_forall. intros fa Hfa.
    apply (proj1 (Forall_forall _ _) Hall).
    pose proof (kept_sublist f64_is_zero ∅ (zip faces (map f64_halve norms)))
      as Hsub.
    apply sublist_submseteq in Hsub.
    by eapply elem_of_submseteq. }
  rewrite (remove_non_manifolds_norms _ _ _ _ H1 H3), H2.
  rewrite zip_fst_snd. unfold xs. by rewrite kept_idem.
Qed.

Lemma remove_non_manifolds_idempotent_witness :
  remove_non_manifolds sample_np_sum prism_vs
    [(0, 1, 2, 3); (1, 4, 5, 2); (1, 0, 5, 4)]
  = Ok (replicate 6 [], [(0, 1, 2, 3); (1, 4, 5, 2); (1, 0, 5, 4)],
        replicate 3 f64_half).
Proof.
  apply (remove_non_manifolds_idempotent sample_np_sum prism_vs prism_faces).
  vm_compute. reflexivity.
Defined.


(** ** [build_gemm]: the edge table and the incidence lists *)

Lemma faces_edges_cur (face : Face) :
  faces_edges_of face = map sorted_edge (cur_edges face).
Proof. by destruct face as [[[f0 f1] f2] f3]. Qed.

Lemma sorted_edge_ends (p : Z * Z) :
  (sorted_edge p).1 <= (sorted_edge p).2 /\
  ((sorted_edge p = p) \/ (sorted_edge p = (p.2, p.1))).
Proof.
  unfold sorted_edge. destruct (Z.leb_spec p.1 p.2); simpl.
  - split; [done|by left].
  - split; [lia|by right].
Qed.

Lemma cur_edges_vertices (face : Face) (d : Z * Z) :
  d ∈ cur_edges face -> d.1 ∈ face_vertices face /\ d.2 ∈ face_vertices face.
Proof.
  destruct face as [[[f0 f1] f2] f3]. simpl. intros Hd.
  repeat (apply elem_of_cons in Hd as [->|Hd]; [simpl; set_solver|]).
  by apply elem_of_nil in Hd.
Qed.

Lemma faces_edges_range (n_vs : nat) (face : Face) (e : Z * Z) :
  face_in_range n_vs face -> e ∈ faces_edges_of face ->
  e.1 <= e.2 /\ 0 <= e.1 < Z.of_nat n_vs /\ 0 <= e.2 < Z.of_nat n_vs.
Proof.
  intros Hr He. rewrite faces_edges_cur in He.
  apply list_elem_of_fmap in He as (d & -> & Hd).
  destruct (cur_edges_vertices _ _ Hd) as [H1 H2].
  unfold face_in_range in Hr. rewrite Forall_forall in Hr.
  apply Hr in H1, H2. cbv beta in H1, H2.
  destruct (sorted_edge_ends d) as [Hle [Heq | Heq]]; rewrite Heq in *;
    simpl in *; lia.
Qed.

Lemma faces_edges_sorted (face : Face) (e : Z * Z) :
  e ∈ faces_edges_of face -> e.1 <= e.2.
Proof.
  rewrite faces_edges_cur. intros (d & -> & _)%list_elem_of_fmap.
  apply sorted_edge_ends.
Qed.

Lemma ve_append_spec (ve_arr ve' : list (list Z)) (v k : Z) :
  ve_append ve_arr v k = Ok ve' -> 0 <= v ->
  exists l, ve_arr !! Z.to_nat v = Some l /\
            ve' = <[Z.to_nat v := l ++ [k]]> ve_arr.
Proof.
  unfold ve_append. intros H Hv. inv_bind H.
  apply getitem_Ok_nonneg in Hx as [_ Hl]; [|done].
  apply setitem_Ok_nonneg in H as [_ ->]; [|done]. eauto.
Qed.

Lemma register_edge_key_inv (es : list (Z * Z)) (s s' : GemmState)
    (edge : Z * Z) :
  key_inv es s -> register_edge s edge = Ok s' -> key_inv (es ++ [edge]) s'.
Proof.
  intros (Hc & Hbij & Hdom). unfold register_edge.
  destruct (bg_edge2key s !! edge) as [k0|] eqn:Hlook.
  - intros [= <-]. split; [done|]. split; [done|].
    intros e. rewrite Hdom, elem_of_app, list_elem_of_singleton.
    split; [tauto|]. intros [?| ->]; [done|]. apply Hdom. by rewrite Hlook.
  - intros H. inv_bind H. inv_bind H. injection H as <-.
    split; [|split]; simpl.
    + rewrite len_app. lia.
    + intros e k. rewrite lookup_insert. case_decide as Heq.
      * subst e. split.
        -- intros [= <-]. split; [unfold len in *; lia|].
           rewrite Hc. unfold len. rewrite Nat2Z.id.
           by rewrite lookup_app_r, Nat.sub_diag.
        -- intros [Hk He]. f_equal.
           destruct (decide (Z.to_nat k < length (bg_edges s))%nat) as [Hlt|Hge].
           ++ rewrite lookup_app_l in He by done.
              assert (bg_edge2key s !! edge = Some k) as Hk' by (by apply Hbij).
              congruence.
           ++ apply lookup_lt_Some in He. rewrite length_app in He.
              simpl in He. unfold len in *. lia.
      * rewrite Hbij. split.
        -- intros [Hk He]. split; [done|].
           apply lookup_app_l_Some. done.
        -- intros [Hk He]. split; [done|].
           apply lookup_app_Some in He as [He|[Hge He]]; [done|].
           apply list_lookup_singleton_Some in He as [_ He]. congruence.
    + intros e. rewrite lookup_insert, elem_of_app, list_elem_of_singleton.
      case_decide as Heq.
      * subst. split; [by right|eauto].
      * rewrite Hdom. split; [tauto|]. intros [?|?]; [done|congruence].
Qed.

Lemma register_edge_ve_inv (n_vs : nat) (es : list (Z * Z))
    (s s' : GemmState) (edge : Z * Z) :
  key_inv es s -> ve_inv n_vs s ->
  0 <= edge.1 -> 0 <= edge.2 ->
  register_edge s edge = Ok s' -> ve_inv n_vs s'.
Proof.
  intros (Hc & Hbij & Hdom) (Hlen & Hve) H1 H2. unfold register_edge.
  destruct (bg_edge2key s !! edge) as [k0|] eqn:Hlook.
  { intros [= <-]. by split. }
  intros H. inv_bind H. inv_bind H. injection H as <-.
  apply ve_append_spec in Hx as (l1 & Hl1 & ->); [|done].
  apply ve_append_spec in Hx0 as (l2 & Hl2 & ->); [|done].
  split; simpl.
  - by rewrite !length_insert.
  - intros v l Hl k.
    set (n := bg_edges_count s) in *.
    assert (forall e', (bg_edges s ++ [edge]) !! Z.to_nat k = Some e' /\ 0 <= k <->
              (bg_edges s !! Z.to_nat k = Some e' /\ 0 <= k) \/
              (k = n /\ e' = edge)) as Hnew.
    { intros e'. rewrite lookup_app_Some, list_lookup_singleton_Some.
      subst n. rewrite Hc. unfold len. split.
      - intros [[He|(Hge & Hk & <-)] Hk0]; [by left|right]. split; [lia|done].
      - intros [[He Hk0]|[-> ->]]; [by split; [left|]|].
        rewrite Nat2Z.id. split; [right|lia]. split; [lia|].
        split; [lia|done]. }
    assert (forall l0, bg_ve s !! v = Some l0 -> n ∉ l0) as Hfresh.
    { intros l0 Hl0 Hin. apply (Hve v l0 Hl0) in Hin as (e & _ & He & _).
      apply lookup_lt_Some in He. subst n. unfold len in *. lia. }
    assert (forall l0, bg_ve s !! v = Some l0 ->
              (k ∈ l0 <->
               exists e, (bg_edges s !! Z.to_nat k = Some e /\ 0 <= k) /\
                         (e.1 = Z.of_nat v \/ e.2 = Z.of_nat v))) as Hold.
    { intros l0 Hl0. rewrite (Hve v l0 Hl0). naive_solver. }
    assert (forall l0 (b : bool), bg_ve s !! v = Some l0 ->
              (b = true -> edge.1 = Z.of_nat v \/ edge.2 = Z.of_nat v) ->
              (b = false -> ~ (edge.1 = Z.of_nat v \/ edge.2 = Z.of_nat v)) ->
              (k ∈ (if b then n :: l0 else l0) <->
               exists e, 0 <= k /\ (bg_edges s ++ [edge]) !! Z.to_nat k = Some e /\
                         (e.1 = Z.of_nat v \/ e.2 = Z.of_nat v))) as Hcase.
    { intros l0 b Hl0 Hb1 Hb2. split.
      - intros Hin.
        assert (k ∈ l0 \/ (b = true /\ k = n)) as [Hin'|[-> ->]].
        { destruct b; [|by left]. apply elem_of_cons in Hin as [->|?]; auto. }
        + apply (Hold l0 Hl0) in Hin' as (e & [He Hk] & Hv).
          exists e. split; [done|]. split; [|done].
          apply (Hnew e). by left.
        + exists edge. split; [subst n; unfold len in *; lia|].
          split; [|by apply Hb1]. apply (Hnew edge). by right.
      - intros (e & Hk & He & Hv).
        destruct (proj1 (Hnew e) (conj He Hk)) as [[He' _]|[-> ->]].
        + assert (k ∈ l0) by (apply (Hold l0 Hl0); eauto).
          destruct b; [by right|done].
        + destruct b; [by left|]. by destruct (Hb2 eq_refl). }
    assert (Z.to_nat edge.1 < length (bg_ve s))%nat as Hb1
      by (by eapply lookup_lt_Some).
    assert (Z.to_nat edge.2 < length (bg_ve s))%nat as Hb2
      by (apply lookup_lt_Some in Hl2; by rewrite length_insert in Hl2).
    (* the two appends, read at vertex [v] *)
    destruct (decide (v = Z.to_nat edge.2)) as [Hv2|Hv2];
      destruct (decide (v = Z.to_nat edge.1)) as [Hv1|Hv1].
    + subst v. rewrite <- Hv1 in *.
      rewrite list_lookup_insert_eq in Hl
        by (rewrite ?length_insert; lia).
      injection Hl as <-.
      rewrite list_lookup_insert_eq in Hl2 by lia.
      injection Hl2 as <-.
      specialize (Hcase l1 true Hl1 ltac:(intros _; left; lia) ltac:(done)).
      rewrite <- Hcase. rewrite !elem_of_app, !list_elem_of_singleton.
      rewrite elem_of_cons. tauto.
    + subst v.
      rewrite list_lookup_insert_eq in Hl
        by (rewrite ?length_insert; lia).
      injection Hl as <-.
      rewrite list_lookup_insert_ne in Hl2 by done.
      specialize (Hcase l2 true Hl2 ltac:(intros _; right; lia) ltac:(done)).
      rewrite <- Hcase. rewrite !elem_of_app, !list_elem_of_singleton.
      rewrite elem_of_cons. tauto.
    + subst v.
      rewrite list_lookup_insert_ne in Hl by done.
      rewrite list_lookup_insert_eq in Hl by lia.
      injection Hl as <-.
      specialize (Hcase l1 true Hl1 ltac:(intros _; left; lia) ltac:(done)).
      rewrite <- Hcase. rewrite !elem_of_app, !list_elem_of_singleton.
      rewrite elem_of_cons. tauto.
    + rewrite !list_lookup_insert_ne in Hl by done.
      apply (Hcase l false Hl); [done|]. intros _ [?|?]; lia.
Qed.


Lemma for_each_prefix_inv {A S : Type} (P : list A -> S -> Prop)
    (body : S -> A -> result S) (xs : list A) (s s' : S) :
  (forall done x s s', x ∈ xs -> P done s -> body s x = Ok s' ->
     P (done ++ [x]) s') ->
  P [] s -> for_each xs body s = Ok s' -> P xs s'.
Proof.
  intros Hstep.
  assert (forall rest done s, (forall x, x ∈ rest -> x ∈ xs) -> P done s ->
            for_each rest body s = Ok s' -> P (done ++ rest) s') as Hgen.
  { induction rest as [|x rest IH]; intros done s0 Hsub HP H; simpl in H.
    - injection H as <-. by rewrite app_nil_r.
    - inv_bind H. rewrite (cons_middle x), app_assoc.
      apply (IH _ x0); [set_solver| |done].
      eapply Hstep; [|done|done]. apply Hsub. left. }
  intros HP H. by apply (Hgen xs [] s).
Qed.

Lemma fill_neighbors_fields (fe : list (Z * Z)) (s s' : GemmState) (idx : Z) :
  fill_neighbors fe s idx = Ok s' ->
  bg_ve s' = bg_ve s /\ bg_edge2key s' = bg_edge2key s /\
  bg_edges s' = bg_edges s /\ bg_edges_count s' = bg_edges_count s.
Proof.
  unfold fill_neighbors. intros H. repeat inv_bind H. by injection H as <-.
Qed.

Lemma fill_sides_fields (fe : list (Z * Z)) (s s' : GemmState) (idx : Z) :
  fill_sides fe s idx = Ok s' ->
  bg_ve s' = bg_ve s /\ bg_edge2key s' = bg_edge2key s /\
  bg_edges s' = bg_edges s /\ bg_edges_count s' = bg_edges_count s.
Proof.
  unfold fill_sides. intros H. repeat inv_bind H. by injection H as <-.
Qed.

Lemma fill_loops_fields (fe : list (Z * Z)) (s1 s2 s' : GemmState)
    (idxs idxs' : list Z) :
  for_each idxs (fill_neighbors fe) s1 = Ok s2 ->
  for_each idxs' (fill_sides fe) s2 = Ok s' ->
  bg_ve s' = bg_ve s1 /\ bg_edge2key s' = bg_edge2key s1 /\
  bg_edges s' = bg_edges s1 /\ bg_edges_count s' = bg_edges_count s1.
Proof.
  intros H2 H3.
  assert (bg_ve s2 = bg_ve s1 /\ bg_edge2key s2 = bg_edge2key s1 /\
          bg_edges s2 = bg_edges s1 /\ bg_edges_count s2 = bg_edges_count s1)
    as (E1 & E2 & E3 & E4).
  { eapply (for_each_Ok_inv
              (fun s => bg_ve s = bg_ve s1 /\ bg_edge2key s = bg_edge2key s1 /\
                        bg_edges s = bg_edges s1 /\
                        bg_edges_count s = bg_edges_count s1)
              (fill_neighbors fe) idxs s1 s2);
      [|done|exact H2].
    intros s x s0 _ (? & ? & ? & ?) Hs.
    apply fill_neighbors_fields in Hs as (-> & -> & -> & ->). done. }
  rewrite <- E1, <- E2, <- E3, <- E4.
  eapply (for_each_Ok_inv
            (fun s => bg_ve s = bg_ve s2 /\ bg_edge2key s = bg_edge2key s2 /\
                      bg_edges s = bg_edges s2 /\
                      bg_edges_count s = bg_edges_count s2)
            (fill_sides fe) idxs' s2 s');
    [|done|exact H3].
  intros s x s0 _ (? & ? & ? & ?) Hs.
  apply fill_sides_fields in Hs as (-> & -> & -> & ->). done.
Qed.

Lemma register_edges_key_inv (fe es : list (Z * Z)) (s s' : GemmState) :
  key_inv es s -> for_each fe register_edge s = Ok s' -> key_inv (es ++ fe) s'.
Proof.
  revert es s. induction fe as [|e fe IH]; intros es s Hk H; simpl in H.
  - injection H as <-. by rewrite app_nil_r.
  - inv_bind H. rewrite (cons_middle e), app_assoc. apply (IH _ x); [|done].
    by eapply register_edge_key_inv.
Qed.

Lemma register_edges_ve_inv (n_vs : nat) (fe es : list (Z * Z))
    (s s' : GemmState) :
  key_inv es s -> ve_inv n_vs s ->
  Forall (fun e => 0 <= e.1 /\ 0 <= e.2) fe ->
  for_each fe register_edge s = Ok s' -> ve_inv n_vs s'.
Proof.
  revert es s. induction fe as [|e fe IH]; intros es s Hk Hv Hr H; simpl in H.
  - by injection H as <-.
  - inv_bind H. apply Forall_cons in Hr as [[? ?] Hr].
    apply (IH (es ++ [e]) x); [| |done|done].
    + by eapply register_edge_key_inv.
    + by eapply register_edge_ve_inv.
Qed.

Lemma key_inv_fields (es : list (Z * Z)) (s s' : GemmState) :
  bg_edge2key s' = bg_edge2key s -> bg_edges s' = bg_edges s ->
  bg_edges_count s' = bg_edges_count s -> key_inv es s -> key_inv es s'.
Proof. unfold key_inv. by intros -> -> ->. Qed.

Lemma ve_inv_fields (n_vs : nat) (s s' : GemmState) :
  bg_ve s' = bg_ve s -> bg_edges s' = bg_edges s ->
  ve_inv n_vs s -> ve_inv n_vs s'.
Proof. unfold ve_inv. by intros -> ->. Qed.

Lemma process_face_key_inv (es : list (Z * Z)) (s s' : GemmState)
    (face : Face) :
  key_inv es s -> process_face s face = Ok s' ->
  key_inv (es ++ faces_edges_of face) s'.
Proof.
  intros Hk H. unfold process_face in H. inv_bind H. inv_bind H.
  destruct (fill_loops_fields _ _ _ _ _ _ Hx0 H) as (E1 & E2 & E3 & E4).
  apply (key_inv_fields _ x); [done..|]. by eapply register_edges_key_inv.
Qed.

Lemma process_face_ve_inv (n_vs : nat) (es : list (Z * Z))
    (s s' : GemmState) (face : Face) :
  key_inv es s -> ve_inv n_vs s -> face_in_range n_vs face ->
  process_face s face = Ok s' -> ve_inv n_vs s'.
Proof.
  intros Hk Hv Hr H. unfold process_face in H. inv_bind H. inv_bind H.
  destruct (fill_loops_fields _ _ _ _ _ _ Hx0 H) as (E1 & E2 & E3 & E4).
  apply (ve_inv_fields _ x); [done..|].
  eapply register_edges_ve_inv; [done|done| |done].
  apply Forall_forall. intros e He.
  destruct (faces_edges_range _ _ _ Hr He) as (_ & ? & ?). lia.
Qed.

Lemma all_sides_snoc (done : list Face) (face : Face) :
  all_sides (done ++ [face]) = all_sides done ++ faces_edges_of face.
Proof.
  unfold all_sides. rewrite bind_app. f_equal. simpl. apply app_nil_r.
Qed.

Lemma key_inv_init (n_vs : nat) : key_inv [] (gemm_init n_vs).
Proof.
  split; [done|]. split; simpl.
  - intros e k. rewrite lookup_empty. split; [done|]. by intros [_ ?].
  - intros e. rewrite lookup_empty. split; [by intros [? ?]|].
    by intros ?%elem_of_nil.
Qed.

Lemma ve_inv_init (n_vs : nat) : ve_inv n_vs (gemm_init n_vs).
Proof.
  split; simpl; [apply length_replicate|].
  intros v l Hl k. apply lookup_replicate in Hl as [-> _].
  split; [by intros ?%elem_of_nil|]. by intros (e & _ & ? & _).
Qed.

Lemma build_gemm_state_keys (n_vs : nat) (faces : list Face) (s : GemmState) :
  build_gemm_state n_vs faces = Ok s -> key_inv (all_sides faces) s.
Proof.
  unfold build_gemm_state. intros H.
  eapply (for_each_prefix_inv (fun done s => key_inv (all_sides done) s));
    [|apply key_inv_init|exact H].
  intros done face s1 s2 _ Hk Hs. rewrite all_sides_snoc.
  by eapply process_face_key_inv.
Qed.

Lemma build_gemm_state_ve (n_vs : nat) (faces : list Face) (s : GemmState) :
  Forall (face_in_range n_vs) faces ->
  build_gemm_state n_vs faces = Ok s -> ve_inv n_vs s.
Proof.
  unfold build_gemm_state. intros Hr H.
  eapply (for_each_prefix_inv
            (fun done s => key_inv (all_sides done) s /\ ve_inv n_vs s));
    [|split; [apply key_inv_init|apply ve_inv_init]|exact H].
  intros done face s1 s2 Hin [Hk Hv] Hs. rewrite all_sides_snoc.
  rewrite Forall_forall in Hr. split.
  - by eapply process_face_key_inv.
  - eapply process_face_ve_inv; [done|done|by apply Hr|done].
Qed.

(** X10.  The edge table of [build_gemm]: [edges] holds every side of
    every face once, as a pair with the smaller vertex id first, and
    nothing else; [edges_count] is its length. *)
Theorem build_gemm_edge_table (n_vs : nat) (faces : list Face) (mesh : Mesh) :
  build_gemm n_vs faces = Ok mesh ->
  edges_count mesh = len (edges mesh) /\
  NoDup (edges mesh) /\
  (forall e, e ∈ edges mesh <-> e ∈ all_sides faces) /\
  Forall (fun e => e.1 <= e.2) (edges mesh).
Proof.
  unfold build_gemm. intros H. inv_bind H. injection H as <-. simpl.
  destruct (build_gemm_state_keys _ _ _ Hx) as (Hc & Hbij & Hdom).
  assert (forall e, e ∈ bg_edges x <-> e ∈ all_sides faces) as Hmem.
  { intros e. rewrite <- Hdom. split.
    - intros [i Hi]%list_elem_of_lookup. exists (Z.of_nat i).
      apply Hbij. split; [lia|]. by rewrite Nat2Z.id.
    - intros [k Hk]. apply Hbij in Hk as [_ Hk].
      by eapply list_elem_of_lookup_2. }
  split; [done|]. split; [|split; [done|]].
  - apply NoDup_alt. intros i j e Hi Hj.
    assert (bg_edge2key x !! e = Some (Z.of_nat i)) as Ki
      by (apply Hbij; split; [lia|by rewrite Nat2Z.id]).
    assert (bg_edge2key x !! e = Some (Z.of_nat j)) as Kj
      by (apply Hbij; split; [lia|by rewrite Nat2Z.id]).
    rewrite Ki in Kj. injection Kj. lia.
  - apply Forall_forall. intros e He. apply Hmem in He.
    unfold all_sides in He. apply list_elem_of_bind in He as (f & He & _).
    by eapply faces_edges_sorted.
Qed.

Lemma build_gemm_edge_table_witness :
  edges_count (mesh_of 8 cube_faces) = len (edges (mesh_of 8 cube_faces)) /\
  NoDup (edges (mesh_of 8 cube_faces)) /\
  (forall e, e ∈ edges (mesh_of 8 cube_faces) <-> e ∈ all_sides cube_faces) /\
  Forall (fun e => e.1 <= e.2) (edges (mesh_of 8 cube_faces)).
Proof.
  apply (build_gemm_edge_table 8 cube_faces). vm_compute. reflexivity.
Defined.

(** X11.  The incidence lists of [build_gemm], for faces whose vertex
    ids are indices of [mesh.vs]: [ve] has one list per vertex, and
    [ve[v]] holds exactly the ids of the edges that have [v] as an
    endpoint. *)
Theorem build_gemm_incidence (n_vs : nat) (faces : list Face) (mesh : Mesh) :
  Forall (face_in_range n_vs) faces ->
  build_gemm n_vs faces = Ok mesh ->
  length (ve mesh) = n_vs /\
  forall v k, 0 <= v < Z.of_nat n_vs ->
    (incident mesh v k <-> 0 <= k /\ edge_has_vertex mesh k v).
Proof.
  intros Hr. unfold build_gemm. intros H. inv_bind H. injection H as <-.
  destruct (build_gemm_state_ve _ _ _ Hr Hx) as (Hlen & Hve).
  split; [done|]. intros v k Hv. unfold incident, edge_has_vertex. simpl.
  destruct (lookup_lt_is_Some_2 (bg_ve x) (Z.to_nat v)) as [l Hl]; [lia|].
  assert (getitem (bg_ve x) v = Ok l) as Hget.
  { rewrite getitem_nonneg by (unfold len; lia). by rewrite Hl. }
  rewrite Hget. specialize (Hve _ _ Hl k). rewrite Z2Nat.id in Hve by lia.
  split.
  - intros (es & [= <-] & Hk). apply Hve in Hk as (e & Hk & He & Hends).
    split; [done|]. exists e. split.
    + apply lookup_lt_Some in He as Hlt.
      rewrite getitem_nonneg by (unfold len; lia). by rewrite He.
    + unfold edge_vertices. set_solver.
  - intros (Hk & p & Hp & Hin). exists l. split; [done|]. apply Hve.
    apply getitem_Ok_nonneg in Hp as [_ Hp]; [|done].
    exists p. split; [done|]. split; [done|].
    unfold edge_vertices in Hin. set_solver.
Qed.

Lemma build_gemm_incidence_witness :
  length (ve (mesh_of 8 cube_faces)) = 8%nat /\
  forall v k, 0 <= v < Z.of_nat 8 ->
    (incident (mesh_of 8 cube_faces) v k <->
     0 <= k /\ edge_has_vertex (mesh_of 8 cube_faces) k v).
Proof.
  apply (build_gemm_incidence 8 cube_faces).
  - unfold face_in_range. refine (bool_decide_unpack _ _). vm_compute. exact I.
  - vm_compute. reflexivity.
Defined.


(** ** [build_gemm]: slots and faces *)

Lemma occurrences_snoc (done : list Face) (face : Face) (e : Z * Z) :
  occurrences (done ++ [face]) e
  = (occurrences done e + if decide (e ∈ faces_edges_of face) then 1 else 0)%nat.
Proof.
  unfold occurrences. rewrite filter_app, length_app. f_equal.
  rewrite filter_cons, filter_nil. by case_decide.
Qed.

Lemma occurrences_zero (done : list Face) (e : Z * Z) :
  e ∉ all_sides done -> occurrences done e = 0%nat.
Proof.
  intros Hn. unfold occurrences.
  destruct (filter _ done) as [|f l] eqn:E; [done|].
  assert (f ∈ filter (fun face => e ∈ faces_edges_of face) done) as Hf
    by (rewrite E; left).
  apply list_elem_of_filter in Hf as [He Hf]. destruct Hn.
  unfold all_sides. apply list_elem_of_bind. eauto.
Qed.

Lemma register_edge_old (s s' : GemmState) (edge : Z * Z) :
  gemm_inv s -> register_edge s edge = Ok s' ->
  bg_edges_count s <= bg_edges_count s' /\
  (forall k, 0 <= k < bg_edges_count s ->
     cnt (bg_nb_count s') k = cnt (bg_nb_count s) k /\
     forall j, cell (bg_edge_nb s') k j = cell (bg_edge_nb s) k j) /\
  (forall k, bg_edges_count s <= k < bg_edges_count s' ->
     cnt (bg_nb_count s') k = 0).
Proof.
  intros Hinv. unfold register_edge.
  destruct (bg_edge2key s !! edge) as [k0|] eqn:Hlook.
  { intros [= <-]. split; [lia|]. split; [done|]. intros k Hk. lia. }
  intros H. inv_bind H. inv_bind H. injection H as <-. simpl.
  destruct Hinv as [Hc Hl1 Hl2 Hl3 _ _ _ _ _ _ _].
  split; [lia|]. split.
  - intros k Hk. rewrite cnt_app by lia. rewrite Hl3.
    repeat case_decide; try lia. split; [done|]. intros j.
    apply cell_app; lia.
  - intros k Hk. rewrite cnt_app by lia. rewrite Hl3.
    repeat case_decide; lia.
Qed.

Lemma register_edges_old (fe : list (Z * Z)) (s s' : GemmState) :
  gemm_inv s -> for_each fe register_edge s = Ok s' ->
  bg_edges_count s <= bg_edges_count s' /\
  (forall k, 0 <= k < bg_edges_count s ->
     cnt (bg_nb_count s') k = cnt (bg_nb_count s) k /\
     forall j, cell (bg_edge_nb s') k j = cell (bg_edge_nb s) k j) /\
  (forall k, bg_edges_count s <= k < bg_edges_count s' ->
     cnt (bg_nb_count s') k = 0).
Proof.
  revert s. induction fe as [|e fe IH]; intros s Hinv H; simpl in H.
  - injection H as <-. split; [lia|]. split; [done|]. intros k Hk. lia.
  - inv_bind H.
    destruct (register_edge_inv _ _ _ Hinv Hx) as (Hinv1 & _ & _).
    destruct (register_edge_old _ _ _ Hinv Hx) as (Hle1 & Hold1 & Hnew1).
    destruct (IH _ Hinv1 H) as (Hle & Hold & Hnew).
    split; [lia|]. split.
    + intros k Hk. destruct (Hold k ltac:(lia)) as [-> Hc].
      destruct (Hold1 k Hk) as [-> Hc1]. split; [done|].
      intros j. by rewrite Hc, Hc1.
    + intros k Hk. destruct (decide (k < bg_edges_count x)) as [Hlt|Hge].
      * destruct (Hold k ltac:(pose proof (inv_count _ Hinv); lia)) as [-> _].
        apply Hnew1. lia.
      * apply Hnew. lia.
Qed.

(** The three loops over one face, with what each has done. *)
Lemma process_face_stages (s s' : GemmState) (face : Face) :
  gemm_inv s -> face_proper face -> process_face s face = Ok s' ->
  exists s1 s2 kf,
    for_each (faces_edges_of face) register_edge s = Ok s1 /\
    gemm_inv s1 /\
    (forall e k, bg_edge2key s !! e = Some k -> bg_edge2key s1 !! e = Some k) /\
    (forall i, exists e,
       faces_edges_of face !! Z.to_nat (i mod 4) = Some e /\
       bg_edge2key s1 !! e = Some (kf i)) /\
    (forall i, kf i = kf (i mod 4)) /\
    (forall k, k ∈ kf <$> [0; 1; 2; 3] <-> exists i, 0 <= i < 4 /\ k = kf i) /\
    (forall i, cnt (bg_nb_count s1) (kf i) = 0 \/
               cnt (bg_nb_count s1) (kf i) = 3) /\
    neighbors_filled kf [0; 1; 2; 3] s1 s2 /\
    sides_filled kf [0; 1; 2; 3] s2 s'.
Proof.
  intros Hinv Hproper. unfold process_face. intros H.
  inv_bind H. rename x into s1, Hx into H1.
  inv_bind H. rename x into s2, Hx into H2. rename H into H3.
  set (fe := faces_edges_of face) in *.
  destruct (register_edges_inv _ _ _ Hinv H1) as (Hinv1 & Hmono & Hreg).
  pose proof (faces_edges_length face) as Hlen. fold fe in Hlen.
  set (kf := key_fun s1 fe).
  pose proof (face_key_Ok s1 fe Hlen Hreg) as Hkf.
  pose proof (face_key_total s1 fe Hlen Hreg) as Htot.
  pose proof (key_fun_range s1 fe Hinv1 Hlen Hreg) as Hrange.
  pose proof (key_fun_NoDup s1 fe Hinv1 Hlen Hreg Hproper) as Hnd.
  pose proof (key_fun_member s1 fe Hinv1 Hlen Hreg Hproper) as Hmem.
  pose proof (key_fun_mod s1 fe) as Hmod.
  fold kf in Hkf, Hrange, Hnd, Hmem, Hmod, Htot.
  change (range 4) with [0; 1; 2; 3] in H2, H3.
  pose proof Hinv1 as [Hc Hl1 Hl2 Hl3 Hr1 Hr2 Hkr Hki Hcnt Hback Hunset].
  assert (forall i, 0 <= cnt (bg_nb_count s1) (kf i)) as Hc1.
  { intros i. specialize (Hcnt (kf i) (Hrange i)). lia. }
  pose proof (fill_neighbors_all fe kf [0; 1; 2; 3] s1 s2 Hkf) as P2.
  specialize (P2 ltac:(intros i _; split; [apply Hrange|apply Hc1])
                 Hnd Hr1 H2).
  pose proof P2 as (A1 & A2 & A3 & A4 & A5 & A6 & A7 & A8 & Acnt & Anew & Aold).
  assert (forall i, cnt (bg_nb_count s2) (kf i) = cnt (bg_nb_count s1) (kf i) + 3)
    as Hcnt2.
  { intros i. rewrite Acnt by apply Hrange. rewrite decide_True; [done|].
    apply Hmem. exists (i mod 4). split; [apply Z.mod_pos_bound; lia|apply Hmod]. }
  assert (forall i, cnt (bg_nb_count s1) (kf i) = 0 \/
                    cnt (bg_nb_count s1) (kf i) = 3) as Hc03.
  { intros i. rewrite (Hmod i).
    destruct (Anew (i mod 4) 2) as [Hlt _];
      [apply in_range4, Z.mod_pos_bound; lia|lia|].
    specialize (Hcnt (kf (i mod 4)) (Hrange _)). lia. }
  pose proof (fill_sides_all fe kf [0; 1; 2; 3] s2 s') as P3.
  specialize (P3 ltac:(intros i; rewrite (face_key_ext fe s1 s2) by done; apply Hkf)
                 ltac:(intros i; apply Hrange)
                 ltac:(intros i _; rewrite Hcnt2; specialize (Hc1 i); lia)
                 Hnd ltac:(by rewrite A2) H3).
  exists s1, s2, kf.
  split; [exact H1|]. split; [exact Hinv1|]. split; [exact Hmono|].
  split; [intros i; destruct (Htot i) as (e & He & Hk & _); eauto|].
  split; [exact Hmod|]. split; [exact Hmem|]. split; [exact Hc03|].
  split; [exact P2|exact P3].
Qed.


Lemma process_face_slots (done : list Face) (s s' : GemmState) (face : Face) :
  gemm_inv s -> key_inv (all_sides done) s ->
  cnt_inv done s -> nb_inv done s ->
  face_proper face -> process_face s face = Ok s' ->
  cnt_inv (done ++ [face]) s' /\ nb_inv (done ++ [face]) s'.
Proof.
  intros Hinv (Hkc & Hbij & Hdom) Hcnt0 Hnb0 Hproper H.
  destruct (process_face_stages _ _ _ Hinv Hproper H)
    as (s1 & s2 & kf & H1 & Hinv1 & Hmono & Hkey & Hmod & Hmem & Hc03 & P2 & P3).
  destruct P2 as (A1 & A2 & A3 & A4 & A5 & A6 & A7 & A8 & Acnt & Anew & Aold).
  destruct P3 as (B1 & B2 & B3 & B4 & B5 & B6 & B7 & B8 & Bnew & Bold).
  destruct (register_edges_old _ _ _ Hinv H1) as (Hle & Hold & Hnew).
  set (fe := faces_edges_of face) in *.
  pose proof (faces_edges_length face) as Hlen. fold fe in Hlen.
  assert (bg_edge2key s' = bg_edge2key s1) as K1 by (by rewrite B3, A3).
  assert (forall i, 0 <= i < 4 -> exists e,
            fe !! Z.to_nat i = Some e /\ bg_edge2key s1 !! e = Some (kf i))
    as Hkey'.
  { intros i Hi. destruct (Hkey i) as (e & He & Hk).
    rewrite Z.mod_small in He by lia. eauto. }
  assert (forall e k, bg_edge2key s1 !! e = Some k ->
            (e ∈ fe <-> k ∈ kf <$> [0; 1; 2; 3])) as K2.
  { intros e k Hk. rewrite Hmem. split.
    - intros [i Hi]%list_elem_of_lookup.
      assert (i < 4)%nat as Hi4 by (apply lookup_lt_Some in Hi; lia).
      exists (Z.of_nat i). split; [lia|].
      destruct (Hkey' (Z.of_nat i) ltac:(lia)) as (e' & He' & Hk').
      rewrite Nat2Z.id in He'. congruence.
    - intros (i & Hi & ->). destruct (Hkey' i Hi) as (e' & He' & Hk').
      rewrite (inv_key_inj _ Hinv1 e e' (kf i) Hk Hk').
      by eapply list_elem_of_lookup_2. }
  assert (forall e k, bg_edge2key s1 !! e = Some k ->
            0 <= k < bg_edges_count s1 /\
            cnt (bg_nb_count s1) k = 3 * Z.of_nat (occurrences done e) /\
            (0 < cnt (bg_nb_count s1) k ->
             bg_edge2key s !! e = Some k /\ k < bg_edges_count s /\
             cnt (bg_nb_count s) k = cnt (bg_nb_count s1) k /\
             forall j, cell (bg_edge_nb s1) k j = cell (bg_edge_nb s) k j))
    as K4.
  { intros e k Hk. pose proof (inv_key_range _ Hinv1 e k Hk) as Hr.
    split; [done|].
    destruct (bg_edge2key s !! e) as [k0|] eqn:Hs.
    - pose proof (Hmono _ _ Hs) as Hk0. rewrite Hk in Hk0. injection Hk0 as <-.
      pose proof (inv_key_range _ Hinv e k Hs) as Hr0.
      destruct (Hold k Hr0) as [Hc Hcell]. rewrite Hc.
      split; [by apply Hcnt0|]. intros _.
      split; [done|]. split; [lia|]. split; [done|exact Hcell].
    - assert (e ∉ all_sides done) as Hnot.
      { intros Hin. apply Hdom in Hin as [? Hin]. congruence. }
      rewrite (occurrences_zero _ _ Hnot).
      assert (bg_edges_count s <= k) as Hge.
      { destruct (decide (bg_edges_count s <= k)) as [|Hlt]; [done|].
        destruct (lookup_lt_is_Some_2 (bg_edges s) (Z.to_nat k)) as [e0 He0];
          [unfold len in Hkc; lia|].
        assert (bg_edge2key s !! e0 = Some k) as Hk0
          by (apply Hbij; split; [lia|done]).
        pose proof (Hmono _ _ Hk0) as Hk1.
        rewrite (inv_key_inj _ Hinv1 e e0 k Hk Hk1) in Hs. congruence. }
      rewrite (Hnew k ltac:(lia)). split; [lia|]. lia. }
  split.
  - intros e k Hk. rewrite K1 in Hk.
    destruct (K4 e k Hk) as (Hr & Hc & _).
    rewrite B6, Acnt by lia. rewrite occurrences_snoc.
    pose proof (K2 e k Hk) as Hiff. fold fe.
    repeat case_decide; try tauto; lia.
  - intros e k t Hk Ht Hlt. rewrite K1 in Hk.
    destruct (K4 e k Hk) as (Hr & Hc & Hpos).
    rewrite B6 in Hlt. rewrite Acnt in Hlt by lia.
    destruct (decide (3 * t < cnt (bg_nb_count s1) k)) as [Hold_slot|Hnew_slot].
    + (* a triple filled by an earlier face *)
      destruct (Hpos ltac:(lia)) as (Hks & Hk_lt & Hcs & Hcells).
      destruct (Hnb0 e k t Hks Ht ltac:(lia)) as (f & i & Hf & Hi & He & Hd).
      exists f, i. split; [set_solver|]. split; [done|]. split; [done|].
      intros d Hd3. destruct (Hd d Hd3) as (e' & He' & Hk').
      exists e'. split; [done|]. rewrite K1.
      rewrite (Hmono _ _ Hk'). f_equal.
      rewrite B2. rewrite Aold; [by rewrite Hcells|lia|lia|].
      intros i0 _ _. lia.
    + (* the triple filled by this face *)
      case_decide as Hin; [|lia].
      apply Hmem in Hin as (i & Hi & ->).
      assert (cnt (bg_nb_count s1) (kf i) = 3 * t) as Ht3.
      { destruct (Hc03 i) as [Hz|Hz]; rewrite Hz in *; lia. }
      destruct (Hkey' i Hi) as (e0 & He0 & Hk0).
      rewrite (inv_key_inj _ Hinv1 e e0 (kf i) Hk Hk0).
      exists face, i. split; [set_solver|]. split; [done|]. split; [done|].
      intros d Hd3.
      destruct (Hkey (i + 1 + d)) as (e' & He' & Hk').
      exists e'. split; [done|]. rewrite K1, Hk'. f_equal.
      rewrite B2, <- Ht3.
      destruct (Anew i d (in_range4 _ Hi) Hd3) as [_ ->]. done.
Qed.

Lemma cnt_inv_init (n_vs : nat) : cnt_inv [] (gemm_init n_vs).
Proof. intros e k. simpl. by rewrite lookup_empty. Qed.

Lemma nb_inv_init (n_vs : nat) : nb_inv [] (gemm_init n_vs).
Proof. intros e k t. simpl. by rewrite lookup_empty. Qed.

Lemma build_gemm_state_slots (n_vs : nat) (faces : list Face) (s : GemmState) :
  Forall face_proper faces -> build_gemm_state n_vs faces = Ok s ->
  gemm_inv s /\ key_inv (all_sides faces) s /\
  cnt_inv faces s /\ nb_inv faces s.
Proof.
  unfold build_gemm_state. intros Hp H.
  eapply (for_each_prefix_inv
            (fun done s => gemm_inv s /\ key_inv (all_sides done) s /\
                           cnt_inv done s /\ nb_inv done s));
    [| |exact H].
  - intros done face s1 s2 Hin (Hinv & Hk & Hc & Hn) Hs.
    rewrite Forall_forall in Hp. specialize (Hp _ Hin).
    split; [by eapply process_face_inv|].
    split; [rewrite all_sides_snoc; by eapply process_face_key_inv|].
    by eapply process_face_slots.
  - split; [apply gemm_init_inv|]. split; [apply key_inv_init|].
    split; [apply cnt_inv_init|apply nb_inv_init].
Qed.


(** ** [build_gemm]: when it returns *)

Lemma getitem_cnt (c : list Z) (k : Z) :
  0 <= k < len c -> getitem c k = Ok (cnt c k).
Proof.
  intros Hk. destruct (getitem_in_range c k Hk) as (x & -> & Hx).
  by rewrite (cnt_lookup _ _ _ Hx).
Qed.

Lemma setitem_total {A : Type} (l : list A) (k : Z) (x : A) :
  0 <= k < len l -> setitem l k x = Ok (<[Z.to_nat k := x]> l).
Proof. intros Hk. unfold setitem. by rewrite py_index_nonneg. Qed.

Lemma setitem2_total (a : list (list Z)) (k j v : Z) :
  rows6 a -> 0 <= k < len a -> 0 <= j < 6 ->
  exists a', setitem2 a k j v = Ok a' /\ rows6 a' /\ len a' = len a.
Proof.
  intros Hr Hk Hj. unfold setitem2.
  destruct (getitem_in_range a k Hk) as (row & -> & Hrow). simpl.
  assert (length row = 6%nat) as Hlen.
  { unfold rows6 in Hr. rewrite Forall_forall in Hr. apply Hr.
    by eapply list_elem_of_lookup_2. }
  rewrite setitem_total by (unfold len; lia). simpl.
  rewrite setitem_total by done.
  eexists. split; [done|]. split.
  - unfold rows6. apply Forall_insert; [done|]. by rewrite length_insert.
  - unfold len. by rewrite length_insert.
Qed.

Lemma ve_append_total (ve_arr : list (list Z)) (v k : Z) :
  0 <= v < len ve_arr ->
  exists ve', ve_append ve_arr v k = Ok ve' /\ length ve' = length ve_arr.
Proof.
  intros Hv. unfold ve_append.
  destruct (getitem_in_range ve_arr v Hv) as (l & -> & _). simpl.
  rewrite setitem_total by done. eexists. split; [done|].
  apply length_insert.
Qed.

Lemma register_edge_total (n_vs : nat) (s : GemmState) (edge : Z * Z) :
  length (bg_ve s) = n_vs ->
  0 <= edge.1 < Z.of_nat n_vs -> 0 <= edge.2 < Z.of_nat n_vs ->
  exists s', register_edge s edge = Ok s' /\ length (bg_ve s') = n_vs.
Proof.
  intros Hlen H1 H2. unfold register_edge.
  destruct (bg_edge2key s !! edge); [by eauto|].
  destruct (ve_append_total (bg_ve s) edge.1 (bg_edges_count s))
    as (ve1 & -> & Hl1); [unfold len; lia|]. simpl.
  destruct (ve_append_total ve1 edge.2 (bg_edges_count s))
    as (ve2 & -> & Hl2); [unfold len; lia|]. simpl.
  eexists. split; [done|]. simpl. lia.
Qed.

Lemma register_edges_total (n_vs : nat) (fe : list (Z * Z)) (s : GemmState) :
  length (bg_ve s) = n_vs ->
  Forall (fun e => 0 <= e.1 < Z.of_nat n_vs /\ 0 <= e.2 < Z.of_nat n_vs) fe ->
  exists s', for_each fe register_edge s = Ok s'.
Proof.
  revert s. induction fe as [|e fe IH]; intros s Hlen Hr; simpl; [by eauto|].
  apply Forall_cons in Hr as [[H1 H2] Hr].
  destruct (register_edge_total n_vs s e Hlen H1 H2) as (s1 & -> & Hl1).
  simpl. by apply IH.
Qed.

Section FillTotal.

Context (fe : list (Z * Z)) (kf : Z -> Z).

Lemma fill_neighbors_total (s : GemmState) (idx : Z) :
  (forall i, face_key s fe i = Ok (kf i)) ->
  0 <= kf idx < len (bg_edge_nb s) ->
  len (bg_nb_count s) = len (bg_edge_nb s) ->
  rows6 (bg_edge_nb s) ->
  0 <= cnt (bg_nb_count s) (kf idx) <= 3 ->
  exists s', fill_neighbors fe s idx = Ok s'.
Proof.
  intros Hkf Hk Hlen Hr Hc. unfold fill_neighbors.
  rewrite !Hkf. cbn [mbind result_bind rbind].
  rewrite getitem_cnt by lia. cbn [mbind result_bind rbind].
  set (c := cnt (bg_nb_count s) (kf idx)) in *.
  destruct (setitem2_total (bg_edge_nb s) (kf idx) c (kf (idx + 1)) Hr Hk
              ltac:(lia)) as (nb1 & -> & Hr1 & Hl1).
  cbn [mbind result_bind rbind].
  destruct (setitem2_total nb1 (kf idx) (c + 1) (kf (idx + 2)) Hr1
              ltac:(lia) ltac:(lia)) as (nb2 & -> & Hr2 & Hl2).
  cbn [mbind result_bind rbind].
  destruct (setitem2_total nb2 (kf idx) (c + 2) (kf (idx + 3)) Hr2
              ltac:(lia) ltac:(lia)) as (nb3 & -> & Hr3 & Hl3).
  cbn [mbind result_bind rbind].
  rewrite setitem_total by lia. cbn [mbind result_bind rbind]. eauto.
Qed.

Lemma fill_neighbors_total_all (idxs : list Z) (s : GemmState) :
  (forall i, face_key s fe i = Ok (kf i)) ->
  (forall i, i ∈ idxs ->
     0 <= kf i < len (bg_edge_nb s) /\
     0 <= cnt (bg_nb_count s) (kf i) <= 3) ->
  len (bg_nb_count s) = len (bg_edge_nb s) ->
  NoDup (kf <$> idxs) ->
  rows6 (bg_edge_nb s) ->
  exists s', for_each idxs (fill_neighbors fe) s = Ok s'.
Proof.
  revert s. induction idxs as [|i0 rest IH]; intros s Hkf Hpre Hlen Hnd Hr.
  - simpl. eauto.
  - destruct (Hpre i0 ltac:(left)) as [Hk0 Hc0].
    destruct (fill_neighbors_total s i0 Hkf Hk0 Hlen Hr Hc0) as (s1 & Hs1).
    cbn [for_each]. rewrite Hs1. cbn [mbind result_bind rbind].
    pose proof (fill_neighbors_step fe kf s s1 i0 Hkf ltac:(lia) ltac:(lia)
                  Hr Hs1)
      as (A1 & A2 & A3 & A4 & A5 & A6 & A7 & A8 & Acnt & Anew & Aold).
    rewrite fmap_cons in Hnd. apply NoDup_cons in Hnd as [Hnotin Hnd].
    apply IH; [| |lia|done|done].
    + intros i. by rewrite (face_key_ext fe s s1).
    + intros i Hi. destruct (Hpre i ltac:(by right)) as [Hk Hc].
      split; [lia|]. rewrite Acnt by lia. rewrite decide_False; [done|].
      intros Hin. apply list_elem_of_singleton in Hin.
      apply Hnotin. rewrite <- Hin. by apply list_elem_of_fmap_2.
Qed.

Lemma fill_sides_total (s : GemmState) (idx : Z) :
  (forall i, face_key s fe i = Ok (kf i)) ->
  (forall i, 0 <= kf i < len (bg_nb_count s)) ->
  len (bg_sides s) = len (bg_nb_count s) ->
  rows6 (bg_sides s) ->
  3 <= cnt (bg_nb_count s) (kf idx) <= 6 ->
  exists s', fill_sides fe s idx = Ok s'.
Proof.
  intros Hkf Hk Hlen Hr Hc. unfold fill_sides.
  pose proof (Hk idx) as Hk0.
  set (c := cnt (bg_nb_count s) (kf idx)) in *.
  repeat (first [rewrite Hkf | rewrite getitem_cnt by apply Hk];
          cbn [mbind result_bind rbind]).
  fold c.
  destruct (setitem2_total (bg_sides s) (kf idx) (c - 3)
              (cnt (bg_nb_count s) (kf (idx + 1)) - 1) Hr
              ltac:(lia) ltac:(lia)) as (sd1 & -> & Hr1 & Hl1).
  cbn [mbind result_bind rbind].
  repeat (first [rewrite Hkf | rewrite getitem_cnt by apply Hk];
          cbn [mbind result_bind rbind]).
  destruct (setitem2_total sd1 (kf idx) (c - 2)
              (cnt (bg_nb_count s) (kf (idx + 2)) - 2) Hr1
              ltac:(lia) ltac:(lia)) as (sd2 & -> & Hr2 & Hl2).
  cbn [mbind result_bind rbind].
  repeat (first [rewrite Hkf | rewrite getitem_cnt by apply Hk];
          cbn [mbind result_bind rbind]).
  destruct (setitem2_total sd2 (kf idx) (c - 1)
              (cnt (bg_nb_count s) (kf (idx + 3)) - 3) Hr2
              ltac:(lia) ltac:(lia)) as (sd3 & -> & Hr3 & Hl3).
  cbn [mbind result_bind rbind]. eauto.
Qed.

Lemma fill_sides_total_all (idxs : list Z) (s : GemmState) :
  (forall i, face_key s fe i = Ok (kf i)) ->
  (forall i, 0 <= kf i < len (bg_nb_count s)) ->
  len (bg_sides s) = len (bg_nb_count s) ->
  rows6 (bg_sides s) ->
  (forall i, i ∈ idxs -> 3 <= cnt (bg_nb_count s) (kf i) <= 6) ->
  exists s', for_each idxs (fill_sides fe) s = Ok s'.
Proof.
  revert s. induction idxs as [|i0 rest IH]; intros s Hkf Hk Hlen Hr Hc.
  - simpl. eauto.
  - destruct (fill_sides_total s i0 Hkf Hk Hlen Hr (Hc i0 ltac:(left)))
      as (s1 & Hs1).
    cbn [for_each]. rewrite Hs1. cbn [mbind result_bind rbind].
    pose proof (fill_sides_step fe kf s s1 i0 Hkf
                  ltac:(intros i; specialize (Hk i); lia)
                  ltac:(specialize (Hc i0 ltac:(left)); lia) Hr Hs1)
      as (B1 & B2 & B3 & B4 & B5 & B6 & B7 & B8 & Bnew & Bold).
    apply IH.
    + intros i. by rewrite (face_key_ext fe s s1).
    + by rewrite B6.
    + rewrite B6. lia.
    + done.
    + intros i Hi. rewrite B6. apply Hc. by right.
Qed.

End FillTotal.


Lemma process_face_total (n_vs : nat) (es : list (Z * Z)) (s : GemmState)
    (face : Face) :
  gemm_inv s -> key_inv es s -> length (bg_ve s) = n_vs ->
  face_proper face -> face_in_range n_vs face ->
  (forall e k, e ∈ faces_edges_of face -> bg_edge2key s !! e = Some k ->
     cnt (bg_nb_count s) k <= 3) ->
  exists s', process_face s face = Ok s'.
Proof.
  intros Hinv (Hkc & Hbij & Hdom) Hve Hproper Hrange Hroom.
  unfold process_face. set (fe := faces_edges_of face) in *.
  destruct (register_edges_total n_vs fe s Hve) as (s1 & H1).
  { apply Forall_forall. intros e He.
    by destruct (faces_edges_range _ _ _ Hrange He) as (_ & ? & ?). }
  rewrite H1. cbn [mbind result_bind rbind].
  destruct (register_edges_inv _ _ _ Hinv H1) as (Hinv1 & Hmono & Hreg).
  destruct (register_edges_old _ _ _ Hinv H1) as (Hle & Hold & Hnew).
  pose proof (faces_edges_length face) as Hlen. fold fe in Hlen.
  set (kf := key_fun s1 fe).
  pose proof (face_key_Ok s1 fe Hlen Hreg) as Hkf.
  pose proof (face_key_total s1 fe Hlen Hreg) as Htot.
  pose proof (key_fun_range s1 fe Hinv1 Hlen Hreg) as Hkr.
  pose proof (key_fun_NoDup s1 fe Hinv1 Hlen Hreg Hproper) as Hnd.
  pose proof (key_fun_member s1 fe Hinv1 Hlen Hreg Hproper) as Hmem.
  pose proof (key_fun_mod s1 fe) as Hmod.
  fold kf in Hkf, Hkr, Hnd, Hmem, Hmod, Htot.
  pose proof Hinv1 as [Hc Hl1 Hl2 Hl3 Hr1 Hr2 _ Hki Hcnt _ _].
  assert (forall i, 0 <= cnt (bg_nb_count s1) (kf i) <= 3) as Hc03.
  { intros i. destruct (Htot i) as (e & He & Hk & _).
    apply list_elem_of_lookup_2 in He.
    destruct (bg_edge2key s !! e) as [k0|] eqn:Hs.
    - pose proof (Hmono _ _ Hs) as Hk0. rewrite Hk in Hk0. injection Hk0 as Hk0.
      pose proof (inv_key_range _ Hinv e k0 Hs) as Hr0.
      destruct (Hold k0 Hr0) as [Hcs _]. rewrite Hk0, Hcs.
      split; [|by eapply Hroom].
      pose proof (inv_cnt _ Hinv k0 Hr0). lia.
    - assert (bg_edges_count s <= kf i) as Hge.
      { destruct (decide (bg_edges_count s <= kf i)) as [|Hlt]; [done|].
        pose proof (Hkr i) as Hki0.
        destruct (lookup_lt_is_Some_2 (bg_edges s) (Z.to_nat (kf i)))
          as [e0 He0]; [unfold len in Hkc; lia|].
        assert (bg_edge2key s !! e0 = Some (kf i)) as Hk0
          by (apply Hbij; split; [lia|done]).
        pose proof (Hmono _ _ Hk0) as Hk1.
        rewrite (Hki e e0 (kf i) Hk Hk1) in Hs. congruence. }
      rewrite (Hnew (kf i)); [lia|]. pose proof (Hkr i). lia. }
  destruct (fill_neighbors_total_all fe kf [0; 1; 2; 3] s1 Hkf) as (s2 & H2);
    [|lia|done|done|].
  { intros i _. split; [pose proof (Hkr i); lia|apply Hc03]. }
  change (range 4) with [0; 1; 2; 3]. rewrite H2.
  cbn [mbind result_bind rbind].
  pose proof (fill_neighbors_all fe kf [0; 1; 2; 3] s1 s2 Hkf) as P2.
  specialize (P2 ltac:(intros i _; split; [apply Hkr|apply Hc03]) Hnd Hr1 H2).
  destruct P2 as (A1 & A2 & A3 & A4 & A5 & A6 & A7 & A8 & Acnt & Anew & Aold).
  apply (fill_sides_total_all fe kf).
  - intros i. by rewrite (face_key_ext fe s1 s2).
  - intros i. pose proof (Hkr i). lia.
  - rewrite A2. lia.
  - by rewrite A2.
  - intros i Hi. rewrite Acnt by apply Hkr. rewrite decide_True.
    + specialize (Hc03 i). lia.
    + apply Hmem. exists i. split; [by apply range4_in|done].
Qed.

Lemma at_most_two_all (faces : list Face) :
  at_most_two_faces faces <-> forall e, (occurrences faces e <= 2)%nat.
Proof.
  unfold at_most_two_faces. rewrite Forall_forall. split.
  - intros H e. destruct (decide (e ∈ all_sides faces)) as [Hin|Hnot].
    + unfold all_sides in Hin. apply list_elem_of_bind in Hin as (f & He & Hf).
      specialize (H f Hf). rewrite Forall_forall in H. by apply H.
    + rewrite occurrences_zero by done. lia.
  - intros H f _. apply Forall_forall. intros e _. apply H.
Qed.

Lemma occurrences_app (l1 l2 : list Face) (e : Z * Z) :
  occurrences (l1 ++ l2) e = (occurrences l1 e + occurrences l2 e)%nat.
Proof. unfold occurrences. by rewrite filter_app, length_app. Qed.

Lemma build_gemm_state_total (n_vs : nat) (faces : list Face) :
  Forall face_proper faces -> Forall (face_in_range n_vs) faces ->
  at_most_two_faces faces ->
  exists s, build_gemm_state n_vs faces = Ok s.
Proof.
  intros Hp Hr Htwo. rewrite at_most_two_all in Htwo.
  unfold build_gemm_state.
  assert (forall rest done s,
            done ++ rest = faces ->
            gemm_inv s -> key_inv (all_sides done) s -> ve_inv n_vs s ->
            cnt_inv done s -> nb_inv done s ->
            exists s', for_each rest process_face s = Ok s') as Hgen.
  { induction rest as [|face rest IH];
      intros done s Hsplit Hinv Hk Hv Hc Hn; [simpl; eauto|].
    assert (face ∈ faces) as Hin by (rewrite <- Hsplit; set_solver).
    rewrite Forall_forall in Hp, Hr.
    destruct (process_face_total n_vs _ s face Hinv Hk (proj1 Hv)
                (Hp _ Hin) (Hr _ Hin)) as (s1 & Hs1).
    { intros e k He Hek. rewrite (Hc e k Hek).
      specialize (Htwo e). rewrite <- Hsplit in Htwo.
      rewrite occurrences_app in Htwo.
      assert (1 <= occurrences (face :: rest) e)%nat; [|lia].
      unfold occurrences. rewrite filter_cons_True by done. simpl. lia. }
    cbn [for_each]. rewrite Hs1. cbn [mbind result_bind rbind].
    apply (IH (done ++ [face])).
    - by rewrite <- app_assoc.
    - by eapply process_face_inv; [|apply Hp|].
    - rewrite all_sides_snoc. by eapply process_face_key_inv.
    - eapply process_face_ve_inv; [done|done|by apply Hr|done].
    - by eapply process_face_slots; [| | | |apply Hp|].
    - by eapply process_face_slots; [| | | |apply Hp|]. }
  apply (Hgen faces []); [done|apply gemm_init_inv|apply key_inv_init|
                          apply ve_inv_init|apply cnt_inv_init|apply nb_inv_init].
Qed.

Lemma build_gemm_state_two (n_vs : nat) (faces : list Face) (s : GemmState) :
  Forall face_proper faces -> build_gemm_state n_vs faces = Ok s ->
  at_most_two_faces faces.
Proof.
  intros Hp H.
  destruct (build_gemm_state_slots _ _ _ Hp H) as (Hinv & Hk & Hc & _).
  apply at_most_two_all. intros e.
  destruct (decide (e ∈ all_sides faces)) as [Hin|Hnot];
    [|rewrite occurrences_zero by done; lia].
  destruct Hk as (_ & _ & Hdom). apply Hdom in Hin as [k Hk].
  pose proof (inv_key_range _ Hinv e k Hk) as Hr.
  pose proof (inv_cnt _ Hinv k Hr) as H036.
  rewrite (Hc e k Hk) in H036. lia.
Qed.

(** *** Only [IndexError] *)

Lemma getitem_only {A : Type} (l : list A) (i : Z) :
  only_index_error (getitem l i).
Proof. unfold getitem. destruct (py_index _ _); [destruct (l !! _)|]; done. Qed.

Lemma setitem_only {A : Type} (l : list A) (i : Z) (x : A) :
  only_index_error (setitem l i x).
Proof. unfold setitem. by destruct (py_index _ _). Qed.

Lemma bind_only {A B : Type} (r : result A) (k : A -> result B) :
  only_index_error r -> (forall a, r = Ok a -> only_index_error (k a)) ->
  only_index_error (r ≫= k).
Proof. destruct r as [a|e|]; simpl; [by auto|done|done]. Qed.

Lemma setitem2_only {A : Type} (a : list (list A)) (i j : Z) (x : A) :
  only_index_error (setitem2 a i j x).
Proof.
  unfold setitem2. apply bind_only; [apply getitem_only|]. intros row _.
  apply bind_only; [apply setitem_only|]. intros row' _. apply setitem_only.
Qed.

Lemma for_each_only {A S : Type} (I : S -> Prop) (body : S -> A -> result S)
    (xs : list A) (s : S) :
  (forall s x, x ∈ xs -> I s -> only_index_error (body s x)) ->
  (forall s x s', x ∈ xs -> I s -> body s x = Ok s' -> I s') ->
  I s -> only_index_error (for_each xs body s).
Proof.
  revert s. induction xs as [|x xs IH]; intros s Honly Hpres HI; [done|].
  simpl. apply bind_only; [apply Honly; [left|done]|].
  intros s1 Hs1. apply IH.
  - intros s0 y Hy. apply Honly. by right.
  - intros s0 y s0' Hy. apply Hpres. by right.
  - eapply Hpres; [left|done|done].
Qed.

Lemma ve_append_only (ve_arr : list (list Z)) (v k : Z) :
  only_index_error (ve_append ve_arr v k).
Proof.
  unfold ve_append. apply bind_only; [apply getitem_only|].
  intros l _. apply setitem_only.
Qed.

Lemma register_edge_only (s : GemmState) (edge : Z * Z) :
  only_index_error (register_edge s edge).
Proof.
  unfold register_edge. destruct (bg_edge2key s !! edge); [done|].
  apply bind_only; [apply ve_append_only|intros ve1 _].
  apply bind_only; [apply ve_append_only|intros ve2 _]. done.
Qed.

Ltac only_steps Hkf :=
  repeat (first
    [ rewrite Hkf; cbn [mbind result_bind rbind]
    | apply bind_only;
      [first [apply getitem_only | apply setitem_only | apply setitem2_only]
      |intros ? _] ]).

Lemma fill_neighbors_only (fe : list (Z * Z)) (kf : Z -> Z) (s : GemmState)
    (idx : Z) :
  (forall i, face_key s fe i = Ok (kf i)) ->
  only_index_error (fill_neighbors fe s idx).
Proof. intros Hkf. unfold fill_neighbors. only_steps Hkf. done. Qed.

Lemma fill_sides_only (fe : list (Z * Z)) (kf : Z -> Z) (s : GemmState)
    (idx : Z) :
  (forall i, face_key s fe i = Ok (kf i)) ->
  only_index_error (fill_sides fe s idx).
Proof. intros Hkf. unfold fill_sides. only_steps Hkf. done. Qed.

Lemma process_face_only (s : GemmState) (face : Face) :
  gemm_inv s -> only_index_error (process_face s face).
Proof.
  intros Hinv. unfold process_face. set (fe := faces_edges_of face).
  apply bind_only.
  { apply (for_each_only (fun _ => True)); [|done|done].
    intros s0 e _ _. apply register_edge_only. }
  intros s1 H1.
  destruct (register_edges_inv _ _ _ Hinv H1) as (Hinv1 & _ & Hreg).
  pose proof (faces_edges_length face) as Hlen. fold fe in Hlen.
  pose proof (face_key_Ok s1 fe Hlen Hreg) as Hkf.
  apply bind_only.
  { apply (for_each_only (fun s0 => bg_edge2key s0 = bg_edge2key s1));
      [| |done].
    - intros s0 i _ Hs0. apply (fill_neighbors_only fe (key_fun s1 fe)).
      intros j. by rewrite (face_key_ext fe s1 s0).
    - intros s0 i s0' _ Hs0 Hstep.
      apply fill_neighbors_fields in Hstep as (_ & -> & _). done. }
  intros s2 H2.
  assert (bg_edge2key s2 = bg_edge2key s1) as Hk2.
  { eapply (for_each_Ok_inv (fun s0 => bg_edge2key s0 = bg_edge2key s1)
              (fill_neighbors fe) (range 4) s1 s2); [|done|exact H2].
    intros s0 i s0' _ Hs0 Hstep.
    apply fill_neighbors_fields in Hstep as (_ & -> & _). done. }
  apply (for_each_only (fun s0 => bg_edge2key s0 = bg_edge2key s1));
    [| |done].
  - intros s0 i _ Hs0. apply (fill_sides_only fe (key_fun s1 fe)).
    intros j. by rewrite (face_key_ext fe s1 s0).
  - intros s0 i s0' _ Hs0 Hstep.
    apply fill_sides_fields in Hstep as (_ & -> & _). done.
Qed.

Lemma build_gemm_state_only (n_vs : nat) (faces : list Face) :
  Forall face_proper faces ->
  only_index_error (build_gemm_state n_vs faces).
Proof.
  intros Hp. unfold build_gemm_state. rewrite Forall_forall in Hp.
  apply (for_each_only gemm_inv); [| |apply gemm_init_inv].
  - intros s face _ Hinv. by apply process_face_only.
  - intros s face s' Hin Hinv Hs. by eapply process_face_inv; [|apply Hp|].
Qed.

(** X12.  For faces with four different sides whose vertex ids are
    indices of [mesh.vs], [build_gemm] returns exactly when no edge is a
    side of more than two faces; otherwise the rows of six slots overflow
    and it raises [IndexError]. *)
Theorem build_gemm_returns_iff (n_vs : nat) (faces : list Face) :
  Forall face_proper faces -> Forall (face_in_range n_vs) faces ->
  (at_most_two_faces faces -> exists mesh, build_gemm n_vs faces = Ok mesh) /\
  (~ at_most_two_faces faces -> build_gemm n_vs faces = Raise IndexError).
Proof.
  intros Hp Hr. unfold build_gemm. split.
  - intros Htwo.
    destruct (build_gemm_state_total n_vs faces Hp Hr Htwo) as (s & ->).
    simpl. eauto.
  - intros Hnot. pose proof (build_gemm_state_only n_vs faces Hp) as Honly.
    destruct (build_gemm_state n_vs faces) as [s|e|] eqn:Hs; simpl.
    + destruct Hnot. by eapply build_gemm_state_two.
    + by destruct e.
    + done.
Qed.

Lemma build_gemm_returns_iff_witness :
  (exists mesh, build_gemm 8 cube_faces = Ok mesh) /\
  build_gemm 8 ((0, 1, 2, 3) :: cube_faces) = Raise IndexError.
Proof.
  split.
  - apply (build_gemm_returns_iff 8 cube_faces).
    + unfold face_proper. refine (bool_decide_unpack _ _). vm_compute. exact I.
    + unfold face_in_range. refine (bool_decide_unpack _ _). vm_compute. exact I.
    + unfold at_most_two_faces. refine (bool_decide_unpack _ _).
      vm_compute. exact I.
  - apply (build_gemm_returns_iff 8 ((0, 1, 2, 3) :: cube_faces)).
    + unfold face_proper. refine (bool_decide_unpack _ _). vm_compute. exact I.
    + unfold face_in_range. refine (bool_decide_unpack _ _). vm_compute. exact I.
    + unfold at_most_two_faces. refine (bool_decide_unpack _ _).
      vm_compute. exact I.
Defined.


(** ** From [remove_non_manifolds] to [build_gemm] *)

Lemma directed_edges_once_cons (f : Face) (l : list Face) :
  directed_edges_once (f :: l) ->
  directed_edges_once l /\
  forall g d, g ∈ l -> d ∈ cur_edges f -> d ∉ cur_edges g.
Proof.
  intros H. split.
  - intros i j f1 f2 H1 H2 Hij. apply (H (S i) (S j)); [done|done|lia].
  - intros g d [j Hj]%list_elem_of_lookup. apply (H 0%nat (S j)); done.
Qed.

Lemma directed_filter_length (faces : list Face) (d : Z * Z) :
  directed_edges_once faces ->
  (length (filter (fun f => d ∈ cur_edges f) faces) <= 1)%nat.
Proof.
  induction faces as [|f l IH]; intros H; [simpl; lia|].
  apply directed_edges_once_cons in H as [Hl Hf].
  rewrite filter_cons. case_decide as Hd; [|by apply IH].
  assert (filter (fun f => d ∈ cur_edges f) l = []) as ->; [|simpl; lia].
  destruct (filter _ l) as [|g l'] eqn:E; [done|].
  assert (g ∈ filter (fun f => d ∈ cur_edges f) l) as Hg by (rewrite E; left).
  apply list_elem_of_filter in Hg as [Hdg Hg]. by destruct (Hf g d Hg Hd).
Qed.

Lemma filter_length_or {A : Type} (P Q R : A -> Prop)
    `{!forall x, Decision (P x)} `{!forall x, Decision (Q x)}
    `{!forall x, Decision (R x)} (l : list A) :
  (forall x, P x -> Q x \/ R x) ->
  (length (filter P l) <= length (filter Q l) + length (filter R l))%nat.
Proof.
  intros Hor. induction l as [|x l IH]; [simpl; lia|].
  rewrite !filter_cons. specialize (Hor x).
  repeat case_decide; simpl; try lia. tauto.
Qed.

Lemma side_directed (face : Face) (e : Z * Z) :
  e ∈ faces_edges_of face ->
  e ∈ cur_edges face \/ (e.2, e.1) ∈ cur_edges face.
Proof.
  rewrite faces_edges_cur. intros (d & -> & Hd)%list_elem_of_fmap.
  destruct (sorted_edge_ends d) as [_ [-> | ->]]; [by left|right].
  simpl. by destruct d.
Qed.

Lemma directed_once_two (faces : list Face) :
  directed_edges_once faces -> at_most_two_faces faces.
Proof.
  intros H. apply at_most_two_all. intros e. unfold occurrences.
  pose proof (filter_length_or
                (fun f => e ∈ faces_edges_of f)
                (fun f => e ∈ cur_edges f)
                (fun f => (e.2, e.1) ∈ cur_edges f) faces
                (fun f => side_directed f e)) as Hle.
  pose proof (directed_filter_length faces e H).
  pose proof (directed_filter_length faces (e.2, e.1) H).
  lia.
Qed.

(** X13.  [from_scratch] hands the faces kept by [remove_non_manifolds]
    to [build_gemm].  Since no directed edge belongs to two of them, no
    edge is a side of more than two: when these faces have four different
    sides each and their vertex ids are indices of [mesh.vs],
    [build_gemm] returns a mesh. *)
Theorem kept_faces_build (np_sum : list float64 -> float64)
    (vs : list vec3) (faces : list Face) ve faces' areas' :
  remove_non_manifolds np_sum vs faces = Ok (ve, faces', areas') ->
  Forall face_proper faces' -> Forall (face_in_range (length vs)) faces' ->
  at_most_two_faces faces' /\
  exists mesh, build_gemm (length vs) faces' = Ok mesh.
Proof.
  intros H Hp Hr.
  assert (at_most_two_faces faces') as Htwo.
  { apply directed_once_two.
    apply remove_non_manifolds_inv in H as (norms & _ & _ & _ & -> & _).
    apply kept_directed_once. }
  split; [done|].
  destruct (build_gemm_state_total (length vs) faces' Hp Hr Htwo) as (s & Hs).
  unfold build_gemm. rewrite Hs. simpl. eauto.
Qed.

Lemma kept_faces_build_witness :
  at_most_two_faces [(0, 1, 2, 3); (1, 4, 5, 2); (1, 0, 5, 4)] /\
  exists mesh,
    build_gemm (length prism_vs) [(0, 1, 2, 3); (1, 4, 5, 2); (1, 0, 5, 4)]
    = Ok mesh.
Proof.
  apply (kept_faces_build sample_np_sum prism_vs prism_faces
           (replicate 6 []) _ (replicate 3 f64_half)).
  - vm_compute. reflexivity.
  - unfold face_proper. refine (bool_decide_unpack _ _). vm_compute. exact I.
  - unfold face_in_range. refine (bool_decide_unpack _ _). vm_compute. exact I.
Defined.


(** ** [build_gemm]: the rows of [gemm_edges] *)

Lemma occurrences_pos (faces : list Face) (e : Z * Z) :
  e ∈ all_sides faces -> (1 <= occurrences faces e)%nat.
Proof.
  unfold all_sides. intros (f & He & Hf)%list_elem_of_bind.
  unfold occurrences.
  assert (f ∈ filter (fun face => e ∈ faces_edges_of face) faces) as Hin
    by (by apply list_elem_of_filter).
  destruct (filter _ faces); [by apply elem_of_nil in Hin|simpl; lia].
Qed.

(** What the final state says about the row of edge [k]. *)
Lemma built_row (n_vs : nat) (faces : list Face) (s : GemmState)
    (k : Z) (e : Z * Z) :
  Forall face_proper faces -> build_gemm_state n_vs faces = Ok s ->
  0 <= k -> bg_edges s !! Z.to_nat k = Some e ->
  0 <= k < len (bg_edge_nb s) /\
  bg_edge2key s !! e = Some k /\
  cnt (bg_nb_count s) k = 3 * Z.of_nat (occurrences faces e) /\
  (1 <= occurrences faces e <= 2)%nat /\
  forall j, 0 <= j < 6 ->
    getitem2 (bg_edge_nb s) k j = Ok (cell (bg_edge_nb s) k j) /\
    (j < cnt (bg_nb_count s) k ->
     0 <= cell (bg_edge_nb s) k j < len (bg_edge_nb s)) /\
    (cnt (bg_nb_count s) k <= j -> cell (bg_edge_nb s) k j = -1).
Proof.
  intros Hp Hs Hk He.
  destruct (build_gemm_state_slots _ _ _ Hp Hs) as (Hinv & Hkey & Hc & Hn).
  destruct Hkey as (Hkc & Hbij & Hdom).
  assert (bg_edge2key s !! e = Some k) as Hek by (by apply Hbij).
  pose proof (inv_key_range _ Hinv e k Hek) as Hr.
  pose proof (inv_len_nb _ Hinv) as Hl.
  pose proof (inv_cnt _ Hinv k Hr) as H036.
  rewrite (Hc e k Hek) in H036.
  assert (e ∈ all_sides faces) as Hin by (apply Hdom; eauto).
  pose proof (occurrences_pos _ _ Hin).
  split; [lia|]. split; [done|]. split; [by apply Hc|]. split; [lia|].
  intros j Hj. split; [|split].
  - apply cell_getitem2; [apply (inv_rows_nb _ Hinv)|lia|done].
  - intros Hlt. rewrite Hl.
    by destruct (inv_back _ Hinv k j Hr ltac:(lia)) as [? _].
  - intros Hge. apply (inv_unset _ Hinv k j Hr). lia.
Qed.

(** X14.  In the mesh [build_gemm] returns for faces with four different
    sides, every edge is a side of one or two faces, and it has filled
    three slots of its row for each of them: slot [j] holds an edge id
    when [j] is below three times the number of its faces, and -1
    otherwise. *)
Theorem build_gemm_slots (n_vs : nat) (faces : list Face) (mesh : Mesh)
    (k : Z) (e : Z * Z) :
  Forall face_proper faces -> build_gemm n_vs faces = Ok mesh ->
  0 <= k -> edges mesh !! Z.to_nat k = Some e ->
  (1 <= occurrences faces e <= 2)%nat /\
  forall j, 0 <= j < 6 ->
    exists n, getitem2 (gemm_edges mesh) k j = Ok n /\
      (j < 3 * Z.of_nat (occurrences faces e) ->
       0 <= n < len (gemm_edges mesh)) /\
      (3 * Z.of_nat (occurrences faces e) <= j -> n = -1).
Proof.
  intros Hp H Hk He. unfold build_gemm in H. inv_bind H.
  injection H as <-. simpl in *.
  destruct (built_row _ _ _ _ _ Hp Hx Hk He) as (_ & _ & Hc & Hocc & Hrow).
  split; [done|]. intros j Hj. destruct (Hrow j Hj) as (Hget & Hlt & Hge).
  rewrite Hc in Hlt, Hge. eauto.
Qed.

Lemma build_gemm_slots_witness :
  (1 <= occurrences ring_faces (0, 1)%Z <= 2)%nat /\
  forall j, 0 <= j < 6 ->
    exists n, getitem2 (gemm_edges (mesh_of 8 ring_faces)) 0 j = Ok n /\
      (j < 3 * Z.of_nat (occurrences ring_faces (0, 1)) ->
       0 <= n < len (gemm_edges (mesh_of 8 ring_faces))) /\
      (3 * Z.of_nat (occurrences ring_faces (0, 1)) <= j -> n = -1).
Proof.
  apply (build_gemm_slots 8 ring_faces (mesh_of 8 ring_faces) 0 (0, 1)).
  - unfold face_proper. refine (bool_decide_unpack _ _). vm_compute. exact I.
  - vm_compute. reflexivity.
  - lia.
  - vm_compute. reflexivity.
Defined.

(** X15.  Each filled triple of a row (slots 0..2, slots 3..5) belongs to
    one face that has the edge as a side: its three slots hold the ids of
    the next three sides of that face, in the order of the face. *)
Theorem build_gemm_neighbors (n_vs : nat) (faces : list Face) (mesh : Mesh)
    (k t : Z) (e : Z * Z) :
  Forall face_proper faces -> build_gemm n_vs faces = Ok mesh ->
  0 <= k -> edges mesh !! Z.to_nat k = Some e ->
  0 <= t < Z.of_nat (occurrences faces e) ->
  exists f i, f ∈ faces /\ 0 <= i < 4 /\
    faces_edges_of f !! Z.to_nat i = Some e /\
    forall d, 0 <= d < 3 ->
      exists n e',
        getitem2 (gemm_edges mesh) k (3 * t + d) = Ok n /\ 0 <= n /\
        edges mesh !! Z.to_nat n = Some e' /\
        faces_edges_of f !! Z.to_nat ((i + 1 + d) mod 4) = Some e'.
Proof.
  intros Hp H Hk He Ht. unfold build_gemm in H. inv_bind H.
  injection H as <-. simpl in *.
  destruct (built_row _ _ _ _ _ Hp Hx Hk He) as (_ & Hek & Hc & Hocc & Hrow).
  destruct (build_gemm_state_slots _ _ _ Hp Hx) as (Hinv & Hkey & _ & Hn).
  destruct Hkey as (_ & Hbij & _).
  destruct (Hn e k t Hek ltac:(lia) ltac:(lia)) as (f & i & Hf & Hi & Hfe & Hd).
  exists f, i. repeat (split; [done|]). intros d Hd3.
  destruct (Hd d Hd3) as (e' & He' & Hk').
  destruct (Hrow (3 * t + d) ltac:(lia)) as (Hget & _ & _).
  apply Hbij in Hk' as [Hn0 Hn1]. eauto 10.
Qed.

Lemma build_gemm_neighbors_witness :
  exists f i, f ∈ cube_faces /\ 0 <= i < 4 /\
    faces_edges_of f !! Z.to_nat i = Some (0, 1) /\
    forall d, 0 <= d < 3 ->
      exists n e',
        getitem2 (gemm_edges (mesh_of 8 cube_faces)) 0 (3 * 1 + d) = Ok n /\
        0 <= n /\
        edges (mesh_of 8 cube_faces) !! Z.to_nat n = Some e' /\
        faces_edges_of f !! Z.to_nat ((i + 1 + d) mod 4) = Some e'.
Proof.
  apply (build_gemm_neighbors 8 cube_faces (mesh_of 8 cube_faces) 0 1 (0, 1)).
  - unfold face_proper. refine (bool_decide_unpack _ _). vm_compute. exact I.
  - vm_compute. reflexivity.
  - lia.
  - vm_compute. reflexivity.
  - vm_compute. split; [discriminate|reflexivity].
Defined.


Lemma build_gemm_wf (n_vs : nat) (faces : list Face)
    (mesh : Mesh) :
  Forall face_proper faces -> build_gemm n_vs faces = Ok mesh -> wf_gemm mesh.
Proof.
  intros Hp H. unfold build_gemm in H. inv_bind H. injection H as <-.
  apply (gemm_inv_wf x); [|done]. by eapply build_gemm_state_inv.
Qed.

Lemma built_row_unset (n_vs : nat) (faces : list Face) (s : GemmState)
    (k : Z) (e : Z * Z) :
  Forall face_proper faces -> build_gemm_state n_vs faces = Ok s ->
  0 <= k -> bg_edges s !! Z.to_nat k = Some e ->
  exists row,
    getitem (bg_edge_nb s) k = Ok row /\
    (forall j x, row !! j = Some x ->
       (j < 6)%nat /\ x = cell (bg_edge_nb s) k (Z.of_nat j)) /\
    (-1 ∈ row <-> (occurrences faces e < 2)%nat).
Proof.
  intros Hp Hs Hk He.
  destruct (built_row _ _ _ _ _ Hp Hs Hk He) as (Hr & _ & Hc & Hocc & Hrow).
  destruct (getitem_in_range (bg_edge_nb s) k Hr) as (row & Hget & Hlook).
  destruct (build_gemm_state_slots _ _ _ Hp Hs) as (Hinv & _).
  assert (length row = 6%nat) as Hlen.
  { pose proof (inv_rows_nb _ Hinv) as H6. unfold rows6 in H6.
    rewrite Forall_forall in H6. apply H6. by eapply list_elem_of_lookup_2. }
  assert (forall j x, row !! j = Some x ->
            (j < 6)%nat /\ x = cell (bg_edge_nb s) k (Z.of_nat j)) as Hcells.
  { intros j x Hx. split; [apply lookup_lt_Some in Hx; lia|].
    unfold cell. rewrite Hlook. simpl. by rewrite Nat2Z.id, Hx. }
  exists row. split; [done|]. split; [done|]. split.
  - intros [j Hj]%list_elem_of_lookup. destruct (Hcells _ _ Hj) as [Hj6 Hx].
    destruct (Hrow (Z.of_nat j) ltac:(lia)) as (_ & Hlt & _).
    destruct (decide (Z.of_nat j < cnt (bg_nb_count s) k)) as [H1|H1]; [|lia].
    specialize (Hlt H1). lia.
  - intros Hocc2.
    destruct (lookup_lt_is_Some_2 row 5) as [x Hx]; [lia|].
    destruct (Hcells _ _ Hx) as [_ ->].
    destruct (Hrow 5 ltac:(lia)) as (_ & _ & Hge).
    change (Z.of_nat 5) with 5 in Hx. rewrite Hge in Hx by lia.
    by eapply list_elem_of_lookup_2.
Qed.

(** X16.  On the mesh [build_gemm] returns for faces with four different
    sides, [has_boundaries] answers False for an edge exactly when that
    edge is a side of two faces and so is each of the six edges in its
    row. *)
Theorem has_boundaries_built (n_vs : nat) (faces : list Face) (mesh : Mesh)
    (k : Z) (e : Z * Z) :
  Forall face_proper faces -> build_gemm n_vs faces = Ok mesh ->
  0 <= k -> edges mesh !! Z.to_nat k = Some e ->
  exists b,
    has_boundaries mesh k = Ok b /\
    (b = false <->
     occurrences faces e = 2%nat /\
     forall j, 0 <= j < 6 ->
       exists n e',
         getitem2 (gemm_edges mesh) k j = Ok n /\ 0 <= n /\
         edges mesh !! Z.to_nat n = Some e' /\
         occurrences faces e' = 2%nat).
Proof.
  intros Hp H Hk He.
  pose proof (build_gemm_wf n_vs faces mesh Hp H) as Hwf.
  unfold build_gemm in H. inv_bind H. rename x into s.
  injection H as <-. simpl in *.
  destruct (built_row _ _ _ _ _ Hp Hx Hk He) as (Hr & _ & Hc & Hocc & Hrow).
  destruct (build_gemm_state_slots _ _ _ Hp Hx) as (Hinv & Hkey & _ & _).
  destruct Hkey as (Hkc & _ & _).
  pose proof (inv_len_nb _ Hinv) as Hlnb.
  destruct (has_boundaries_spec _ k Hwf Hr) as (b & Hb & Hspec).
  exists b. split; [done|].
  destruct (built_row_unset _ _ _ _ _ Hp Hx Hk He)
    as (row & Hget & Hcells & Hunset).
  assert (forall n, 0 <= n < len (bg_edge_nb s) ->
            exists e', bg_edges s !! Z.to_nat n = Some e') as Hedge.
  { intros n Hn. apply lookup_lt_is_Some_2. unfold len in *. lia. }
  unfold boundary_spec in Hspec. simpl in Hspec.
  split.
  - intros ->.
    assert (~ (exists row0, getitem (bg_edge_nb s) k = Ok row0 /\
                 (-1 ∈ row0 \/ exists n nrow, n ∈ row0 /\
                    getitem (bg_edge_nb s) n = Ok nrow /\ -1 ∈ nrow)))
      as Hno by (intros Hex; apply Hspec in Hex; done).
    assert (occurrences faces e = 2%nat) as Hocc2.
    { destruct (decide (occurrences faces e < 2)%nat) as [Hlt|]; [|lia].
      destruct Hno. exists row. split; [done|]. left. by apply Hunset. }
    split; [done|]. intros j Hj.
    destruct (Hrow j Hj) as (Hgetj & Hlt & _).
    specialize (Hlt ltac:(lia)).
    destruct (Hedge _ Hlt) as [e' He'].
    exists (cell (bg_edge_nb s) k j), e'.
    split; [done|]. split; [lia|]. split; [done|].
    destruct (built_row _ _ _ _ _ Hp Hx (proj1 Hlt) He')
      as (_ & _ & _ & Hocc' & _).
    destruct (decide (occurrences faces e' < 2)%nat) as [Hlt'|]; [|lia].
    destruct Hno. exists row. split; [done|]. right.
    destruct (built_row_unset _ _ _ _ _ Hp Hx (proj1 Hlt) He')
      as (nrow & Hgetn & _ & Hunsetn).
    exists (cell (bg_edge_nb s) k j), nrow. split; [|split; [done|]].
    + destruct (lookup_lt_is_Some_2 row (Z.to_nat j)) as [x Hxj].
      { apply getitem_Ok_elem in Hget.
        pose proof (inv_rows_nb _ Hinv) as H6. unfold rows6 in H6.
        rewrite Forall_forall in H6. rewrite (H6 _ Hget). lia. }
      destruct (Hcells _ _ Hxj) as [_ Hxeq]. rewrite Z2Nat.id in Hxeq by lia.
      subst x. by eapply list_elem_of_lookup_2.
    + by apply Hunsetn.
  - intros [Hocc2 Hall]. destruct b; [|done].
    destruct (proj1 Hspec eq_refl) as (row0 & Hget0 & Hcase).
    rewrite Hget in Hget0. injection Hget0 as <-.
    destruct Hcase as [Hin|(n & nrow & Hn & Hgetn & Hin)].
    + apply Hunset in Hin. lia.
    + apply list_elem_of_lookup in Hn as [j Hj].
      destruct (Hcells _ _ Hj) as [Hj6 ->].
      destruct (Hall (Z.of_nat j) ltac:(lia)) as (n & e' & Hgn & Hn0 & He' & Ho').
      destruct (Hrow (Z.of_nat j) ltac:(lia)) as (Hgc & _ & _).
      rewrite Hgc in Hgn. injection Hgn as Hgn. rewrite Hgn in *.
      destruct (built_row_unset _ _ _ _ _ Hp Hx Hn0 He')
        as (nrow' & Hgetn' & _ & Hunsetn).
      rewrite Hgetn in Hgetn'. injection Hgetn' as <-.
      apply Hunsetn in Hin. lia.
Qed.

Lemma has_boundaries_built_witness :
  exists b,
    has_boundaries (mesh_of 8 cube_faces) 0 = Ok b /\
    (b = false <->
     occurrences cube_faces (0, 1) = 2%nat /\
     forall j, 0 <= j < 6 ->
       exists n e',
         getitem2 (gemm_edges (mesh_of 8 cube_faces)) 0 j = Ok n /\ 0 <= n /\
         edges (mesh_of 8 cube_faces) !! Z.to_nat n = Some e' /\
         occurrences cube_faces e' = 2%nat).
Proof.
  apply (has_boundaries_built 8 cube_faces (mesh_of 8 cube_faces) 0 (0, 1)).
  - unfold face_proper. refine (bool_decide_unpack _ _). vm_compute. exact I.
  - vm_compute. reflexivity.
  - lia.
  - vm_compute. reflexivity.
Defined.


(** ** [get_side_points] *)

(** X17.  [get_side_points] returns six vertex ids.  The first two are
    the two ends of the edge.  When exactly one of the two triples of the
    row is missing (slot 0 or slot 3 is -1), the triple that is there is
    used for both sides: the last two points repeat the third and the
    fourth. *)
Theorem get_side_points_ends (mesh : Mesh) (edge_id : Z) (pts : list Z) :
  get_side_points mesh edge_id = Ok pts ->
  exists edge_a g0 g3 p0 p1 p2 p3 p4 p5,
    pts = [p0; p1; p2; p3; p4; p5] /\
    getitem (edges mesh) edge_id = Ok edge_a /\
    getitem2 (gemm_edges mesh) edge_id 0 = Ok g0 /\
    getitem2 (gemm_edges mesh) edge_id 3 = Ok g3 /\
    joins edge_a p0 p1 /\
    ((g0 = -1 /\ g3 <> -1) \/ (g0 <> -1 /\ g3 = -1) ->
     p4 = p2 /\ p5 = p3).
Proof.
  unfold get_side_points. intros H.
  inv_bind H. rename x into edge_a, Hx into Ha.
  inv_bind H. rename x into g0, Hx into Hg0.
  inv_bind H. destruct x as [[edge_b edge_c] edge_d]. rename Hx into Hbcd.
  inv_bind H. rename x into g3, Hx into Hg3.
  inv_bind H. destruct x as [[edge_e edge_f] edge_g]. rename Hx into Hefg.
  injection H as <-.
  eexists edge_a, g0, g3, _, _, _, _, _, _.
  split; [reflexivity|]. repeat (split; [done|]). split.
  - unfold joins, shared_end.
    destruct (py_in edge_a.2 (edge_vertices edge_b)); unfold vertex_at;
      destruct edge_a as [a1 a2]; simpl; auto.
  - intros Hcase.
    assert ((edge_e, edge_f, edge_g) = (edge_b, edge_c, edge_d)) as Heq.
    { destruct Hcase as [[-> Hn]|[Hn ->]].
      - destruct (Z.eqb_spec g3 (-1)); [done|]. simpl in Hbcd. congruence.
      - destruct (Z.eqb_spec g0 (-1)); [done|]. simpl in Hefg. congruence. }
    by injection Heq as -> -> ->.
Qed.

Lemma get_side_points_ends_witness :
  exists edge_a g0 g3 p0 p1 p2 p3 p4 p5,
    [1; 0; 5; 4; 5; 4] = [p0; p1; p2; p3; p4; p5] /\
    getitem (edges (mesh_of 8 ring_faces)) 0 = Ok edge_a /\
    getitem2 (gemm_edges (mesh_of 8 ring_faces)) 0 0 = Ok g0 /\
    getitem2 (gemm_edges (mesh_of 8 ring_faces)) 0 3 = Ok g3 /\
    joins edge_a p0 p1 /\
    ((g0 = -1 /\ g3 <> -1) \/ (g0 <> -1 /\ g3 = -1) ->
     p4 = p2 /\ p5 = p3).
Proof.
  apply (get_side_points_ends (mesh_of 8 ring_faces) 0).
  vm_compute. reflexivity.
Defined.






Lemma mod4_cases (j : Z) :
  j mod 4 = 0 \/ j mod 4 = 1 \/ j mod 4 = 2 \/ j mod 4 = 3.
Proof. pose proof (Z.mod_pos_bound j 4). lia. Qed.

Lemma face_at_shift (face : Face) (j d : Z) :
  face_at face (j + d) = face_at face (j mod 4 + d).
Proof. unfold face_at. by rewrite <- Zplus_mod_idemp_l. Qed.

Lemma face_side (face : Face) (j : Z) :
  faces_edges_of face !! Z.to_nat (j mod 4)
  = Some (sorted_edge (face_at face j, face_at face (j + 1))).
Proof.
  rewrite (face_at_shift face j 1).
  replace (face_at face j) with (face_at face (j mod 4 + 0))
    by (rewrite <- face_at_shift; f_equal; lia).
  destruct face as [[[f0 f1] f2] f3].
  destruct (mod4_cases j) as [-> | [-> | [-> | ->]]]; reflexivity.
Qed.






(** A filled triple of a row, read through [edges]. *)
Lemma built_triple (n_vs : nat) (faces : list Face) (s : GemmState)
    (k t : Z) (e : Z * Z) :
  Forall face_proper faces -> build_gemm_state n_vs faces = Ok s ->
  0 <= k -> bg_edges s !! Z.to_nat k = Some e ->
  0 <= t < Z.of_nat (occurrences faces e) ->
  exists f i, f ∈ faces /\ 0 <= i < 4 /\
    e = sorted_edge (face_at f i, face_at f (i + 1)) /\
    0 <= cell (bg_edge_nb s) k (3 * t) /\
    neighbor_edges
      (mkMesh (bg_edges s) (bg_edge_nb s) (bg_sides s) (bg_ve s)
         (bg_edges_count s)) k (3 * t)
    = Ok (sorted_edge (face_at f (i + 1), face_at f (i + 2)),
          sorted_edge (face_at f (i + 2), face_at f (i + 3)),
          sorted_edge (face_at f (i + 3), face_at f (i + 4))).
Proof.
  intros Hp Hs Hk He Ht.
  destruct (built_row _ _ _ _ _ Hp Hs Hk He) as (Hr & Hek & Hc & Hocc & Hrow).
  destruct (build_gemm_state_slots _ _ _ Hp Hs) as (Hinv & Hkey & _ & Hn).
  destruct Hkey as (Hkc & Hbij & _).
  destruct (Hn e k t Hek ltac:(lia) ltac:(lia)) as (f & i & Hf & Hi & Hfe & Hd).
  exists f, i. split; [done|]. split; [done|].
  assert (forall d, 0 <= d < 3 ->
            0 <= cell (bg_edge_nb s) k (3 * t + d) /\
            neighbor_edge
              (mkMesh (bg_edges s) (bg_edge_nb s) (bg_sides s) (bg_ve s)
                 (bg_edges_count s)) k (3 * t + d)
            = Ok (sorted_edge (face_at f (i + 1 + d),
                               face_at f (i + 1 + d + 1)))) as Hnb.
  { intros d Hd3. destruct (Hd d Hd3) as (e' & He' & Hk').
    rewrite face_side in He'. injection He' as <-.
    apply Hbij in Hk' as [Hn0 Hn1]. split; [done|].
    unfold neighbor_edge. simpl.
    destruct (Hrow (3 * t + d) ltac:(lia)) as (-> & _ & _). simpl.
    rewrite getitem_nonneg; [by rewrite Hn1|].
    apply lookup_lt_Some in Hn1. unfold len. lia. }
  split.
  - pose proof (face_side f i) as Hside. rewrite Z.mod_small in Hside by lia.
    rewrite Hside in Hfe. by injection Hfe.
  - destruct (Hnb 0 ltac:(lia)) as [H0 E0].
    destruct (Hnb 1 ltac:(lia)) as [_ E1].
    destruct (Hnb 2 ltac:(lia)) as [_ E2].
    rewrite Z.add_0_r in H0, E0. split; [done|].
    replace (i + 1 + 0) with (i + 1) in E0 by lia.
    replace (i + 1 + 1) with (i + 2) in E0, E1 by lia.
    replace (i + 2 + 1) with (i + 3) in E1 by lia.
    replace (i + 1 + 2) with (i + 3) in E2 by lia.
    replace (i + 3 + 1) with (i + 4) in E2 by lia.
    unfold neighbor_edges. by rewrite E0, E1, E2.
Qed.




(** ** [get_edge_points] *)

Lemma get_edge_points_loop (mesh : Mesh) (n0 : nat) :
  forall (m : nat) (ep ep' : list (list Z)),
    for_each (map Z.of_nat (seq m n0))
      (fun edge_points edge_id =>
         points ← get_side_points mesh edge_id;
         setitem edge_points edge_id points) ep = Ok ep' ->
    length ep' = length ep /\
    (n0 = 0%nat \/ (m + n0 <= length ep)%nat) /\
    (forall k, (m <= k < m + n0)%nat ->
       exists row, get_side_points mesh (Z.of_nat k) = Ok row /\
                   ep' !! k = Some row) /\
    (forall k, ~ (m <= k < m + n0)%nat -> ep' !! k = ep !! k).
Proof.
  induction n0 as [|n0 IH]; intros m ep ep' H.
  - simpl in H. injection H as <-. split; [done|]. split; [by left|].
    split; [intros k Hk; lia|done].
  - cbn [seq map for_each] in H. inv_bind H. inv_bind Hx.
    rename x0 into row, Hx0 into Hrow.
    apply setitem_Ok_nonneg in Hx as [Hlt ->]; [|lia].
    rewrite Nat2Z.id in *.
    destruct (IH _ _ _ H) as (Hlen & Hfit & Hnew & Hold).
    rewrite length_insert in Hlen, Hfit.
    split; [done|]. split; [right; unfold len in Hlt; lia|]. split.
    + intros k Hk. destruct (decide (k = m)) as [->|Hne].
      * exists row. split; [done|]. rewrite Hold by lia.
        apply list_lookup_insert_eq. unfold len in Hlt. lia.
      * apply Hnew. lia.
    + intros k Hk. rewrite Hold by lia.
      apply list_lookup_insert_ne. lia.
Qed.

(** X19.  When [get_edge_points] returns, [edges_count] is at least the
    number of rows of [edges]; the result has [edges_count] rows, row
    [k] is what [get_side_points] returns for edge [k], and the rows
    beyond the last edge are left at zero. *)
Theorem get_edge_points_rows (mesh : Mesh) (pts : list (list Z)) :
  get_edge_points mesh = Ok pts ->
  0 <= edges_count mesh /\
  length pts = Z.to_nat (edges_count mesh) /\
  (length (edges mesh) <= length pts)%nat /\
  (forall k, (k < length (edges mesh))%nat ->
     exists row, get_side_points mesh (Z.of_nat k) = Ok row /\
                 pts !! k = Some row) /\
  (forall k, (length (edges mesh) <= k < length pts)%nat ->
     pts !! k = Some [0; 0; 0; 0; 0; 0]).
Proof.
  unfold get_edge_points, range.
  destruct (Z.ltb_spec (edges_count mesh) 0) as [|Hc]; [done|].
  intros H. apply get_edge_points_loop in H as (Hlen & Hfit & Hnew & Hold).
  rewrite length_replicate in Hlen, Hfit.
  split; [done|]. split; [done|]. split; [lia|]. split.
  - intros k Hk. apply Hnew. lia.
  - intros k Hk. rewrite Hold by lia. apply lookup_replicate.
    split; [done|lia].
Qed.

Lemma get_edge_points_rows_witness :
  exists pts,
    get_edge_points (mesh_of 8 ring_faces) = Ok pts /\
    length pts = Z.to_nat (edges_count (mesh_of 8 ring_faces)) /\
    (forall k, (k < length (edges (mesh_of 8 ring_faces)))%nat ->
       exists row,
         get_side_points (mesh_of 8 ring_faces) (Z.of_nat k) = Ok row /\
         pts !! k = Some row).
Proof.
  eexists. split; [vm_compute; reflexivity|].
  refine (let H := get_edge_points_rows (mesh_of 8 ring_faces) _ _ in
          conj (proj1 (proj2 H)) (proj1 (proj2 (proj2 (proj2 H))))).
  vm_compute. reflexivity.
Defined.


Lemma built_side_points_total (n_vs : nat) (faces : list Face)
    (s : GemmState) (k : Z) (e : Z * Z) :
  Forall face_proper faces -> build_gemm_state n_vs faces = Ok s ->
  0 <= k -> bg_edges s !! Z.to_nat k = Some e ->
  exists row,
    get_side_points
      (mkMesh (bg_edges s) (bg_edge_nb s) (bg_sides s) (bg_ve s)
         (bg_edges_count s)) k = Ok row /\
    length row = 6%nat.
Proof.
  intros Hp Hs Hk He.
  destruct (built_row _ _ _ _ _ Hp Hs Hk He) as (Hr & Hek & Hc & Hocc & Hrow).
  destruct (built_triple _ _ _ k 0 e Hp Hs Hk He ltac:(lia))
    as (f & i & _ & _ & _ & Hg0 & Hbcd).
  change (3 * 0) with 0 in Hg0, Hbcd.
  assert (getitem (bg_edges s) k = Ok e) as Hgeta.
  { rewrite getitem_nonneg; [by rewrite He|].
    apply lookup_lt_Some in He. unfold len. lia. }
  destruct (Hrow 0 ltac:(lia)) as (Hget0 & _ & _).
  destruct (Hrow 3 ltac:(lia)) as (Hget3 & Hset3 & Hunset3).
  assert ((cell (bg_edge_nb s) k 0 =? -1) = false) as Hne0 by lia.
  unfold get_side_points. cbn [edges gemm_edges].
  rewrite Hgeta. cbn [mbind result_bind rbind].
  rewrite Hget0. cbn [mbind result_bind rbind].
  rewrite Hne0, Hbcd. cbn [mbind result_bind rbind].
  rewrite Hget3. cbn [mbind result_bind rbind].
  destruct (Z.eqb_spec (cell (bg_edge_nb s) k 3) (-1)) as [Heq|Hne].
  - cbn [mbind result_bind rbind]. eexists. split; reflexivity.
  - assert (occurrences faces e = 2%nat) as Htwo.
    { destruct (decide (occurrences faces e = 2%nat)); [done|].
      destruct Hne. apply Hunset3. lia. }
    destruct (built_triple _ _ _ k 1 e Hp Hs Hk He ltac:(lia))
      as (g & j & _ & _ & _ & _ & Hefg).
    change (3 * 1) with 3 in Hefg. rewrite Hefg.
    cbn [mbind result_bind rbind]. eexists. split; reflexivity.
Qed.

Lemma get_edge_points_total (mesh : Mesh) (n0 : nat) :
  forall (m : nat) (ep : list (list Z)),
    (m + n0 <= length ep)%nat ->
    (forall k, (m <= k < m + n0)%nat ->
       exists row, get_side_points mesh (Z.of_nat k) = Ok row) ->
    exists ep',
      for_each (map Z.of_nat (seq m n0))
        (fun edge_points edge_id =>
           points ← get_side_points mesh edge_id;
           setitem edge_points edge_id points) ep = Ok ep'.
Proof.
  induction n0 as [|n0 IH]; intros m ep Hfit Hrows; [simpl; eauto|].
  cbn [seq map for_each].
  destruct (Hrows m ltac:(lia)) as [row ->]. cbn [mbind result_bind rbind].
  rewrite setitem_total by (unfold len; lia). cbn [mbind result_bind rbind].
  apply IH.
  - rewrite length_insert. lia.
  - intros k Hk. apply Hrows. lia.
Qed.

(** X20.  On the mesh [build_gemm] returns for faces with four different
    sides, [get_edge_points] never fails: it returns one row of six vertex
    ids per edge, row [k] being the result of [get_side_points] for
    edge [k]. *)
Theorem get_edge_points_built (n_vs : nat) (faces : list Face) (mesh : Mesh) :
  Forall face_proper faces -> build_gemm n_vs faces = Ok mesh ->
  exists pts,
    get_edge_points mesh = Ok pts /\
    length pts = length (edges mesh) /\
    forall k row, pts !! k = Some row ->
      get_side_points mesh (Z.of_nat k) = Ok row /\ length row = 6%nat.
Proof.
  intros Hp H. unfold build_gemm in H. inv_bind H. rename x into s.
  injection H as <-.
  set (mesh := mkMesh (bg_edges s) (bg_edge_nb s) (bg_sides s) (bg_ve s)
                 (bg_edges_count s)).
  destruct (build_gemm_state_slots _ _ _ Hp Hx) as (Hinv & Hkey & _ & _).
  destruct Hkey as (Hkc & _ & _).
  pose proof (inv_count _ Hinv) as Hc0.
  assert (forall k, (k < length (bg_edges s))%nat ->
            exists row, get_side_points mesh (Z.of_nat k) = Ok row /\
                        length row = 6%nat) as Hrows.
  { intros k Hk.
    destruct (lookup_lt_is_Some_2 (bg_edges s) k Hk) as [e He].
    apply (built_side_points_total n_vs faces s (Z.of_nat k) e Hp Hx);
      [lia|by rewrite Nat2Z.id]. }
  assert (Z.to_nat (bg_edges_count s) = length (bg_edges s)) as Hn
    by (unfold len in Hkc; lia).
  destruct (get_edge_points_total mesh (length (bg_edges s)) 0
              (replicate (Z.to_nat (bg_edges_count s)) [0; 0; 0; 0; 0; 0]))
    as (pts & Hpts).
  { rewrite length_replicate. lia. }
  { intros k Hk. destruct (Hrows k ltac:(lia)) as (row & Hrow & _). eauto. }
  assert (get_edge_points mesh = Ok pts) as Hrun.
  { unfold get_edge_points, range. cbn [edges edges_count mesh].
    destruct (Z.ltb_spec (bg_edges_count s) 0); [lia|done]. }
  exists pts. split; [done|].
  destruct (get_edge_points_loop _ _ _ _ _ Hpts) as (Hlen & _ & Hnew & _).
  rewrite length_replicate in Hlen.
  split; [cbn [edges mesh]; lia|].
  intros k row Hk.
  assert (k < length (bg_edges s))%nat as Hlt
    by (apply lookup_lt_Some in Hk; lia).
  destruct (Hnew k ltac:(lia)) as (row' & Hrow' & Hk').
  rewrite Hk in Hk'. injection Hk' as <-. split; [done|].
  destruct (Hrows k Hlt) as (row2 & Hrow2 & Hlen2). congruence.
Qed.

Lemma get_edge_points_built_witness :
  exists pts,
    get_edge_points (mesh_of 8 cube_faces) = Ok pts /\
    length pts = length (edges (mesh_of 8 cube_faces)) /\
    forall k row, pts !! k = Some row ->
      get_side_points (mesh_of 8 cube_faces) (Z.of_nat k) = Ok row /\
      length row = 6%nat.
Proof.
  apply (get_edge_points_built 8 cube_faces).
  - unfold face_proper. refine (bool_decide_unpack _ _). vm_compute. exact I.
  - vm_compute. reflexivity.
Defined.


(** ** [__is_one_ring_valid] on a mesh from [build_gemm] *)

Section RingTotal.

Context (mesh : Mesh) (n_vs : nat).
Context (Hends : forall k e, edges mesh !! k = Some e ->
                   0 <= e.1 < Z.of_nat n_vs /\ 0 <= e.2 < Z.of_nat n_vs).
Context (Hve : forall v l, ve mesh !! v = Some l ->
                 forall k, k ∈ l ->
                   0 <= k /\ is_Some (edges mesh !! Z.to_nat k)).
Context (Hlen : length (ve mesh) = n_vs).

Lemma edge_row_total (k : Z) :
  0 <= k -> is_Some (edges mesh !! Z.to_nat k) ->
  exists e, getitem (edges mesh) k = Ok e /\
            0 <= e.1 < Z.of_nat n_vs /\ 0 <= e.2 < Z.of_nat n_vs.
Proof.
  intros Hk [e He]. exists e. split; [|by eapply Hends].
  rewrite getitem_nonneg; [by rewrite He|].
  apply lookup_lt_Some in He. unfold len. lia.
Qed.

Lemma edge_end_total (k i : Z) :
  0 <= k -> is_Some (edges mesh !! Z.to_nat k) -> i = 0 \/ i = 1 ->
  exists a, edge_end mesh k i = Ok a /\ 0 <= a < Z.of_nat n_vs.
Proof.
  intros Hk He Hi. unfold edge_end.
  destruct (edge_row_total k Hk He) as (e & -> & H1 & H2). simpl.
  destruct Hi as [-> | ->]; [exists e.1|exists e.2]; done.
Qed.

Lemma ve_row_total (a : Z) :
  0 <= a < Z.of_nat n_vs ->
  exists l, getitem (ve mesh) a = Ok l /\
            forall k, k ∈ l -> 0 <= k /\ is_Some (edges mesh !! Z.to_nat k).
Proof.
  intros Ha. destruct (getitem_in_range (ve mesh) a) as (l & Hl & Hlook);
    [unfold len; lia|].
  exists l. split; [done|]. by apply (Hve (Z.to_nat a)).
Qed.

Lemma vertex_set_total (es : list Z) :
  (forall k, k ∈ es -> 0 <= k /\ is_Some (edges mesh !! Z.to_nat k)) ->
  exists s, vertex_set mesh es = Ok s.
Proof.
  intros Hes. unfold vertex_set.
  assert (exists rows, map_result (getitem (edges mesh)) es = Ok rows)
    as [rows ->].
  { induction es as [|k es IH]; [simpl; eauto|].
    destruct (Hes k ltac:(left)) as [Hk He].
    destruct (edge_row_total k Hk He) as (e & Hget & _).
    destruct IH as [rows Hrows]; [intros k' Hk'; apply Hes; by right|].
    simpl. rewrite Hget. simpl. rewrite Hrows. simpl. eauto. }
  simpl. eauto.
Qed.

Lemma get_v_n_total (k : Z) :
  0 <= k -> is_Some (edges mesh !! Z.to_nat k) ->
  exists r, get_v_n mesh k = Ok r.
Proof.
  intros Hk He. unfold get_v_n.
  destruct (edge_end_total k 0 Hk He ltac:(by left)) as (a & -> & Ha).
  cbn [mbind result_bind rbind].
  destruct (ve_row_total a Ha) as (e_a & -> & Hea).
  cbn [mbind result_bind rbind].
  destruct (vertex_set_total e_a Hea) as (s_a & ->).
  cbn [mbind result_bind rbind].
  destruct (edge_end_total k 1 Hk He ltac:(by right)) as (b & -> & Hb).
  cbn [mbind result_bind rbind].
  destruct (ve_row_total b Hb) as (e_b & -> & Heb).
  cbn [mbind result_bind rbind].
  destruct (vertex_set_total e_b Heb) as (s_b & ->).
  cbn [mbind result_bind rbind]. eauto.
Qed.

Lemma gather_ring_total (edge_id : Z) (es : list Z) :
  (forall k, k ∈ es -> 0 <= k /\ is_Some (edges mesh !! Z.to_nat k)) ->
  exists s, gather_ring mesh edge_id es = Ok s.
Proof.
  unfold gather_ring. generalize (∅ : gset Z).
  induction es as [|k es IH]; intros acc Hes; [simpl; eauto|].
  cbn [for_each]. destruct (Hes k ltac:(left)) as [Hk He].
  destruct (negb (k =? edge_id)).
  - destruct (get_v_n_total k Hk He) as ([v_aa v_ab] & ->).
    cbn [mbind result_bind rbind]. apply IH.
    intros k' Hk'. apply Hes. by right.
  - cbn [mbind result_bind rbind]. apply IH.
    intros k' Hk'. apply Hes. by right.
Qed.

Lemma is_one_ring_valid_total (k : Z) :
  0 <= k -> is_Some (edges mesh !! Z.to_nat k) ->
  exists b, is_one_ring_valid mesh k = Ok b.
Proof.
  intros Hk He. unfold is_one_ring_valid.
  destruct (edge_end_total k 0 Hk He ltac:(by left)) as (a & -> & Ha).
  cbn [mbind result_bind rbind].
  destruct (ve_row_total a Ha) as (e_a & -> & Hea).
  cbn [mbind result_bind rbind].
  destruct (edge_end_total k 1 Hk He ltac:(by right)) as (b & -> & Hb).
  cbn [mbind result_bind rbind].
  destruct (ve_row_total b Hb) as (e_b & -> & Heb).
  cbn [mbind result_bind rbind].
  destruct (gather_ring_total k e_a Hea) as (v_a & ->).
  cbn [mbind result_bind rbind].
  destruct (gather_ring_total k e_b Heb) as (v_b & ->).
  cbn [mbind result_bind rbind].
  destruct (edge_row_total k Hk He) as (e & -> & _).
  cbn [mbind result_bind rbind]. eauto.
Qed.

End RingTotal.

(** X21.  On the mesh [build_gemm] returns for faces whose vertex ids
    are indices of [mesh.vs], [__is_one_ring_valid] never fails for an
    edge of the mesh: every index it follows through [edges] and [ve] is
    in range.  Its answer is True exactly when four vertices are shared
    by the two gathered rings. *)
Theorem is_one_ring_valid_built (n_vs : nat) (faces : list Face)
    (mesh : Mesh) (k : Z) :
  Forall (face_in_range n_vs) faces -> build_gemm n_vs faces = Ok mesh ->
  0 <= k < edges_count mesh ->
  exists b,
    is_one_ring_valid mesh k = Ok b /\
    exists shared : gset Z,
      b = bool_decide (size shared = 4%nat) /\
      forall x, x ∈ shared <-> one_ring_shared mesh k x.
Proof.
  intros Hr H Hk.
  assert (exists b, is_one_ring_valid mesh k = Ok b) as [b Hb].
  { unfold build_gemm in H. inv_bind H. rename x into s.
    injection H as <-. simpl in Hk.
    destruct (build_gemm_state_keys _ _ _ Hx) as (Hkc & Hbij & Hdom).
    destruct (build_gemm_state_ve _ _ _ Hr Hx) as (Hlen & Hve).
    apply (is_one_ring_valid_total _ n_vs); simpl.
    - intros i e He.
      assert (e ∈ all_sides faces) as Hin.
      { apply Hdom. exists (Z.of_nat i). apply Hbij.
        split; [lia|by rewrite Nat2Z.id]. }
      unfold all_sides in Hin. apply list_elem_of_bind in Hin as (f & He' & Hf).
      rewrite Forall_forall in Hr.
      by destruct (faces_edges_range _ _ _ (Hr _ Hf) He') as (_ & ? & ?).
    - intros v l Hl i Hi. apply (Hve v l Hl) in Hi as (e & Hi0 & He & _).
      split; [done|eauto].
    - done.
    - lia.
    - apply lookup_lt_is_Some_2. unfold len in Hkc. lia. }
  exists b. split; [done|]. by apply is_one_ring_valid_shared.
Qed.

Lemma is_one_ring_valid_built_witness :
  exists b,
    is_one_ring_valid (mesh_of 8 cube_faces) 0 = Ok b /\
    exists shared : gset Z,
      b = bool_decide (size shared = 4%nat) /\
      forall x, x ∈ shared <-> one_ring_shared (mesh_of 8 cube_faces) 0 x.
Proof.
  apply (is_one_ring_valid_built 8 cube_faces).
  - unfold face_in_range. refine (bool_decide_unpack _ _). vm_compute. exact I.
  - vm_compute. reflexivity.
  - vm_compute. split; [discriminate|reflexivity].
Defined.


(** ** Reconnecting an edge in [collapse_other_vertex_v] *)

Lemma list_remove_Ok (x : Z) (l r : list Z) :
  list_remove x l = Ok r ->
  x ∈ l /\ (NoDup l -> forall k, k ∈ r <-> k ∈ l /\ k <> x).
Proof.
  revert r. induction l as [|y l IH]; intros r H; [done|].
  cbn [list_remove] in H. destruct (Z.eqb_spec y x) as [->|Hne].
  - injection H as <-. split; [by left|].
    intros [Hx _]%NoDup_cons k. split.
    + intros Hk. split; [by right|]. by intros ->.
    + intros [[->|Hk]%elem_of_cons Hkx]; done.
  - inv_bind H. injection H as <-. destruct (IH _ Hx) as [Hin Hrest].
    split; [by right|].
    intros [_ Hnd]%NoDup_cons k. rewrite !elem_of_cons, (Hrest Hnd k).
    naive_solver.
Qed.

Lemma incident_row (mesh : Mesh) (w : nat) (l : list Z) (k : Z) :
  ve mesh !! w = Some l -> (incident mesh (Z.of_nat w) k <-> k ∈ l).
Proof.
  intros Hl. unfold incident.
  rewrite getitem_nonneg
    by (apply lookup_lt_Some in Hl; unfold len; lia).
  rewrite Nat2Z.id, Hl. naive_solver.
Qed.

Lemma edge_has_vertex_row (mesh : Mesh) (k x : Z) :
  0 <= k ->
  (edge_has_vertex mesh k x <->
   exists q, edges mesh !! Z.to_nat k = Some q /\ (q.1 = x \/ q.2 = x)).
Proof.
  intros Hk. unfold edge_has_vertex, edge_vertices. split.
  - intros (q & Hq & Hin). apply getitem_Ok_nonneg in Hq as [_ Hq]; [|done].
    exists q. split; [done|]. set_solver.
  - intros (q & Hq & Hin). exists q. split; [|set_solver].
    rewrite getitem_nonneg
      by (apply lookup_lt_Some in Hq; unfold len; lia).
    by rewrite Hq.
Qed.

(** The agreement of [ve] and [edges], row by row. *)
Lemma incidence_rows (mesh : Mesh) (n : nat) :
  length (ve mesh) = n ->
  (forall w k, 0 <= w < Z.of_nat n ->
     (incident mesh w k <-> 0 <= k /\ edge_has_vertex mesh k w)) <->
  (forall (w : nat) (l : list Z), ve mesh !! w = Some l ->
     forall k, k ∈ l <->
       0 <= k /\ exists q, edges mesh !! Z.to_nat k = Some q /\
                           (q.1 = Z.of_nat w \/ q.2 = Z.of_nat w)).
Proof.
  intros Hlen. split.
  - intros H w l Hl k. apply lookup_lt_Some in Hl as Hw.
    rewrite <- (incident_row mesh w l k Hl), (H (Z.of_nat w) k) by lia.
    split; intros [Hk Hq]; (split; [done|]);
      by apply (edge_has_vertex_row mesh k (Z.of_nat w) Hk).
  - intros H w k Hw.
    destruct (lookup_lt_is_Some_2 (ve mesh) (Z.to_nat w)) as [l Hl]; [lia|].
    specialize (H _ _ Hl k). rewrite Z2Nat.id in H by lia.
    pose proof (incident_row mesh (Z.to_nat w) l k Hl) as Hi.
    rewrite Z2Nat.id in Hi by lia. rewrite Hi, H.
    split; intros [Hk Hq]; (split; [done|]);
      by apply (edge_has_vertex_row mesh k w Hk).
Qed.

Lemma build_gemm_rows (n_vs : nat) (faces : list Face) (mesh : Mesh) :
  Forall (face_in_range n_vs) faces -> build_gemm n_vs faces = Ok mesh ->
  length (ve mesh) = n_vs /\
  forall w k, 0 <= w < Z.of_nat n_vs ->
    (incident mesh w k <-> 0 <= k /\ edge_has_vertex mesh k w).
Proof.
  intros Hr H. unfold build_gemm in H. inv_bind H. injection H as <-.
  destruct (build_gemm_state_ve _ _ _ Hr Hx) as (Hlen & Hve).
  split; [done|]. apply incidence_rows; [done|]. simpl.
  intros w l Hl k. rewrite (Hve w l Hl k). naive_solver.
Qed.

(** X22.  The reconnection step of [collapse_other_vertex_v] keeps [ve]
    and [edges] in agreement.  When [ve[w]] lists exactly the edges with
    endpoint [w], [ve[v]] has no repeats, and [e] is not a loop and has no
    end among the diagonal vertices, then after [e] is moved from [v] to
    [u] the lists and the edge table still agree, [e] has [u] as an
    endpoint and no longer [v], and [e] is recorded for reconnection. *)
Theorem reconnect_keeps_incidence {G : Type} (ops : MeshOps G) (n : nat)
    (u v : Z) (diag_vertices : list Z) (c c' : Classified) (e : Z)
    (p : Z * Z) (ve_v : list Z) :
  let m := st_mesh (cl_st c) in
  let m' := st_mesh (cl_st c') in
  length (ve m) = n ->
  (forall w k, 0 <= w < Z.of_nat n ->
     (incident m w k <-> 0 <= k /\ edge_has_vertex m k w)) ->
  0 <= u < Z.of_nat n -> 0 <= v < Z.of_nat n -> u <> v ->
  getitem (ve m) v = Ok ve_v -> NoDup ve_v ->
  getitem (edges m) e = Ok p -> p.1 <> p.2 ->
  p.1 ∉ diag_vertices -> p.2 ∉ diag_vertices ->
  classify_edge ops u v diag_vertices c e = Ok c' ->
  length (ve m') = n /\
  (forall w k, 0 <= w < Z.of_nat n ->
     (incident m' w k <-> 0 <= k /\ edge_has_vertex m' k w)) /\
  edge_has_vertex m' e u /\ ~ edge_has_vertex m' e v /\
  cl_to_reconnect c' = cl_to_reconnect c ++ [e].
Proof.
  intros m m' Hlen Hagree Hu Hv Huv Hvev Hnd Hp Hloop Hd1 Hd2 H.
  pose proof (proj1 (incidence_rows m n Hlen) Hagree) as Hrows.
  unfold classify_edge in H. fold m in H. rewrite Hp in H.
  cbn [mbind result_bind rbind] in H.
  apply py_in_false in Hd1, Hd2.
  assert ((let '(u_e, v_e) := if p.1 =? v then (p.2, v) else (p.1, p.2) in
           py_in u_e diag_vertices || py_in v_e diag_vertices) = false)
    as Hbranch.
  { destruct (Z.eqb_spec p.1 v) as [<-|_]; by rewrite ?Hd1, ?Hd2. }
  destruct (if p.1 =? v then (p.2, v) else (p.1, p.2)) as [u_e v_e].
  rewrite Hbranch in H. clear Hbranch. rewrite Hvev in H.
  cbn [mbind result_bind rbind] in H.
  inv_bind H. rename x into ve_v', Hx into Hrem.
  inv_bind H. rename x into ve1, Hx into Hset1.
  inv_bind H. rename x into ve_u, Hx into Hgetu.
  inv_bind H. rename x into ve2, Hx into Hset2.
  inv_bind H. rename x into edges', Hx into Hsete.
  injection H as <-.
  (* the row of [v] and the place of [e] *)
  apply getitem_Ok_nonneg in Hvev as [_ HV]; [|lia].
  destruct (list_remove_Ok _ _ _ Hrem) as [Hev Hrest].
  specialize (Hrest Hnd).
  pose proof (proj1 (Hrows _ _ HV e) Hev) as (He & q & Hq & Hends).
  rewrite Z2Nat.id in Hends by lia.
  apply getitem_Ok_nonneg in Hp as [Helt HE]; [|done].
  assert (q = p) as -> by congruence. clear Hq.
  (* the three writes *)
  apply setitem_Ok_nonneg in Hset1 as [_ ->]; [|lia].
  assert (ve m !! Z.to_nat u = Some ve_u) as HU.
  { apply getitem_Ok_nonneg in Hgetu as [_ HU]; [|lia].
    rewrite list_lookup_insert_ne in HU by lia. done. }
  apply setitem_Ok_nonneg in Hset2 as [_ ->]; [|lia].
  set (p' := if p.1 =? v then (u, p.2) else (p.1, u)).
  assert (edges' = <[Z.to_nat e := p']> (edges m)) as ->.
  { unfold p'. destruct (p.1 =? v);
      by apply setitem_Ok_nonneg in Hsete as [_ ->]. }
  assert (edges m' = <[Z.to_nat e := p']> (edges m)) as Hedges by done.
  assert (ve m' = <[Z.to_nat u := ve_u ++ [e]]>
                    (<[Z.to_nat v := ve_v']> (ve m))) as Hves by done.
  assert (forall x, (p'.1 = x \/ p'.2 = x) <->
                    x = u \/ (x <> v /\ (p.1 = x \/ p.2 = x))) as Hp'.
  { intros x. unfold p'. destruct (Z.eqb_spec p.1 v); simpl; lia. }
  assert (edges m' !! Z.to_nat e = Some p') as HE'.
  { rewrite Hedges. apply list_lookup_insert_eq.
    apply lookup_lt_Some in HE. done. }
  assert (length (ve m') = n) as Hlen'.
  { by rewrite Hves, !length_insert. }
  assert (forall (w : nat) (l : list Z), ve m' !! w = Some l ->
            forall k, k ∈ l <->
              0 <= k /\ exists q, edges m' !! Z.to_nat k = Some q /\
                                  (q.1 = Z.of_nat w \/ q.2 = Z.of_nat w))
    as Hrows'.
  { intros w l Hl k. rewrite Hves in Hl.
    assert (k <> e -> 0 <= k ->
            edges m' !! Z.to_nat k = edges m !! Z.to_nat k) as Hother.
    { intros Hke Hk. rewrite Hedges. apply list_lookup_insert_ne. lia. }
    destruct (decide (w = Z.to_nat u)) as [->|Hwu].
    - rewrite list_lookup_insert_eq in Hl
        by (rewrite length_insert; apply lookup_lt_Some in HU; done).
      injection Hl as <-. rewrite elem_of_app, list_elem_of_singleton.
      rewrite (Hrows _ _ HU k). rewrite Z2Nat.id by lia.
      destruct (decide (k = e)) as [->|Hke].
      + split; [|by right]. intros _. split; [done|].
        exists p'. split; [done|]. apply Hp'. by left.
      + split.
        * intros [(Hk & q & Hq & Hqu)|?]; [|done].
          split; [done|]. exists q. by rewrite Hother.
        * intros (Hk & q & Hq & Hqu). left. split; [done|].
          exists q. by rewrite <- Hother.
    - rewrite list_lookup_insert_ne in Hl by done.
      destruct (decide (w = Z.to_nat v)) as [->|Hwv].
      + rewrite list_lookup_insert_eq in Hl
          by (apply lookup_lt_Some in HV; done).
        injection Hl as <-. rewrite (Hrest k), (Hrows _ _ HV k).
        rewrite Z2Nat.id by lia. split.
        * intros [(Hk & q & Hq & Hqv) Hke]. split; [done|].
          exists q. by rewrite Hother.
        * intros (Hk & q & Hq & Hqv).
          destruct (decide (k = e)) as [->|Hke].
          -- rewrite HE' in Hq. injection Hq as <-.
             apply Hp' in Hqv. lia.
          -- split; [|done]. split; [done|]. exists q.
             by rewrite <- Hother.
      + rewrite list_lookup_insert_ne in Hl by done.
        rewrite (Hrows _ _ Hl k).
        destruct (decide (k = e)) as [->|Hke].
        * split; intros (Hk & q & Hq & Hqw); (split; [done|]).
          -- rewrite HE in Hq. injection Hq as <-.
             exists p'. split; [done|]. apply Hp'. right. lia.
          -- rewrite HE' in Hq. injection Hq as <-.
             exists p. split; [done|]. apply Hp' in Hqw. lia.
        * split; intros (Hk & q & Hq & Hqw); (split; [done|]); exists q.
          -- by rewrite Hother.
          -- by rewrite <- Hother. }
  split; [done|]. split; [by apply incidence_rows|].
  split; [|split; [|done]].
  - apply edge_has_vertex_row; [done|]. exists p'. split; [done|].
    apply Hp'. by left.
  - intros (q & Hq & Hqv)%edge_has_vertex_row; [|done].
    rewrite HE' in Hq. injection Hq as <-. apply Hp' in Hqv. lia.
Qed.

Lemma reconnect_keeps_incidence_witness :
  let m := mesh_of 8 cube_faces in
  exists c',
    classify_edge sample_ops 0 2 [1; 3]
      (mkClassified (start_state m) [] [] [] []) 10 = Ok c' /\
    length (ve (st_mesh (cl_st c'))) = 8%nat /\
    (forall w k, 0 <= w < Z.of_nat 8 ->
       (incident (st_mesh (cl_st c')) w k <->
        0 <= k /\ edge_has_vertex (st_mesh (cl_st c')) k w)) /\
    edge_has_vertex (st_mesh (cl_st c')) 10 0 /\
    ~ edge_has_vertex (st_mesh (cl_st c')) 10 2 /\
    cl_to_reconnect c' = [10].
Proof.
  intros m. eexists. split; [vm_compute; reflexivity|].
  assert (Forall (face_in_range 8) cube_faces) as Hr.
  { unfold face_in_range. refine (bool_decide_unpack _ _).
    vm_compute. exact I. }
  assert (build_gemm 8 cube_faces = Ok m) as Hm by (vm_compute; reflexivity).
  destruct (build_gemm_rows 8 cube_faces m Hr Hm) as [Hlen Hagree].
  refine (reconnect_keeps_incidence sample_ops 8 0 2 [1; 3]
            (mkClassified (start_state m) [] [] [] []) _ 10 (2, 6)
            [1; 2; 10] Hlen Hagree _ _ _ _ _ _ _ _ _ _).
  - lia.
  - lia.
  - lia.
  - vm_compute. reflexivity.
  - refine (bool_decide_unpack _ _). vm_compute. exact I.
  - vm_compute. reflexivity.
  - simpl. lia.
  - refine (bool_decide_unpack _ _). vm_compute. exact I.
  - refine (bool_decide_unpack _ _). vm_compute. exact I.
  - vm_compute. reflexivity.
Defined.

